(* ===== verification/_CoqProject ===== *)
-Q . S2P
Prelude.v
Registry.v
Net.v
Serializer.v
Session.v
Config.v
Time.v
Json.v
JsonRef.v
Otel.v
Exporter.v
Metrics.v
World.v
Concrete.v
Logger.v
Effects.v
Payloads.v
Sender.v
RegisterHandler.v
HeartbeatHandler.v
QueryHandler.v
ConnectionWorker.v
ConnectionSpec.v
WorkQueue.v
ThreadPool.v
SocketAcceptor.v
HeartbeatMonitor.v
Threads.v
Clients.v
MonitorThread.v
PoolThreads.v
ExporterThread.v
AcceptorThread.v
ProcessThreads.v
Server.v
ServerSim.v
Main.v
Envelope.v
Posix.v
Client.v
ClientLogic.v
ClientSpec.v
ClientConn.v
Stdio.v
ClientOwn.v
ClientApi.v
ClientSession.v
ClientThreads.v
Interop.v
ConnectBasic.v
ConnectSession.v
ConnectServer.v
EopDemo.v
DemoScript.v
