(* ===== verification/Prelude.v ===== *)
(** * Exodus Ops Platform (EOP), server and client: verification library

    The program (under [sd-2026-404-motivation-lost-development/]) is a TCP
    server that keeps a registry of nodes.  A client connects, receives a
    welcome frame, and then sends length-prefixed binary frames with JSON
    payloads: REGISTER, QUERY_NODE, LIST_NODES and HEARTBEAT.  A client library
    in C and two programs that use it come with the server.  This library is a
    shallow embedding of the server's C++ code ([src/] and [include/]) and of
    the client's C code ([client/]) with the theorems that make each part, and
    the parts together, correct.

    ** The program and where it is modelled

    One accept thread ([SocketAcceptor]) admits connections, counts them in an
    atomic counter and puts them in a [WorkQueue]; the workers of a
    [ThreadPool] take them out, issue a session id and a message id
    ([SessionManager]), greet the client and run
    [ConnectionWorker::handleConnection], which reads frames
    ([MessageSerializer]) and dispatches them to [RegisterHandler],
    [QueryHandler] and [HeartbeatHandler]; these use the shared
    [NodeRegistry], log through [Logger] and trace through [OtelScope];
    [PrometheusMetrics] counts messages.  [HeartbeatMonitor] expires silent
    nodes.  [main] reads [ServerConfig], starts the parts and shuts them down
    on a signal.  On the other side of the connection [eop_client.c] opens and
    reopens a connection, sends a command in an envelope ([eop_envelope.c]) and
    waits for one frame; [connect_basic.c] and [eop_demo.c] are programs on top
    of it.

    - [Prelude.v]: scope, tactics and hint databases; machine-width integers,
      bytes, big-endian words, decimal and hexadecimal texts.
    - [Registry.v] ([NodeRegistry]): [nodeRegistry.cpp].  Methods hold the
      registry's mutex throughout, so each is a function on the map and a
      concurrent run is a list of [reg_op]s.  [Spec] is the abstract registry.
    - [Net.v]: sockets as schedules of kernel events: chunks, EINTR, errors,
      end of stream, partial sends.
    - [Serializer.v] ([MessageSerializer]) and [Payloads.v]:
      [messageSerializer.cpp], framing and JSON payloads.
    - [Session.v] ([SessionManager]), [Config.v] ([ServerConfig]), [Otel.v]
      ([Otel]), [Metrics.v] ([PrometheusMetrics]), [Logger.v] ([Logger]): the
      classes of the same name.
    - [Exporter.v]: [BatchExporter] and [httpPost] of [otelScope.cpp], the
      thread that sends finished spans to the collector.
    - [Time.v]: the calendar functions behind the ISO-8601 formatters.
    - [Json.v]: the JSON library as an interface ([JsonLib], [JsonLaws]), and
      UTF-8; [JsonRef.v]: an instance that satisfies the laws.
    - [World.v]: the state the components share ([world]: registry, counter,
      spans, stdout, metrics, sockets, errno, closed descriptors) and a
      state-and-exception monad [M]; destructors are [finally].
    - [Effects.v]: the logic the handlers are verified with.  [perf m w T P]
      separates what others can see ([Visible] transformers of registry,
      counter, metrics, sockets) from what is [quiet] (spans, log lines, clock
      readings).
    - [Sender.v]: [SendFn], the interface by which a handler answers; the
      handlers are verified against it and [sendAll] on a socket implements it.
    - [RegisterHandler.v], [HeartbeatHandler.v], [QueryHandler.v]: the
      handlers, each with its contract as a pure function ([decide_reg],
      [alive], [decide_query]).
    - [ConnectionWorker.v]: [handleConnection] with its closures, loop and
      destructors; [ConnectionSpec.v]: the abstract session and the
      refinement; [Clients.v]: several connections handled at the same time,
      turn by turn of their loops.
    - [WorkQueue.v], [ThreadPool.v], [SocketAcceptor.v],
      [HeartbeatMonitor.v]: the classes of the same name.
    - [Threads.v]: transition systems of threads: reachability, schedules,
      what every schedule brings about ([inevitable]), and the discipline of a
      mutex ([locks]).  On top of it, instruction by instruction, each with
      the actions between a lock and its release, waits with spurious
      wake-ups and notifications:
      [PoolThreads.v]: [WorkQueue]'s methods as the workers, the accept thread
      and the main thread in [ThreadPool::shutdown] run them, with the
      watchdog; [ExporterThread.v]: [BatchExporter]'s callers, its flusher
      thread and its destructor; [AcceptorThread.v]: [SocketAcceptor::start]
      and [stop], [FdGuard] and the accept thread; [ProcessThreads.v]: the
      acceptor and the pool under [main], from a running server to the return
      of [main]; [MonitorThread.v]: [start], [stop] and the thread of
      [HeartbeatMonitor].
    - [Server.v]: the threads as a transition system on counter, queue and
      descriptors; [ServerSim.v]: the code of [SocketAcceptor.v] and
      [ThreadPool.v] takes its steps.
    - [Main.v]: banner, signal handlers and [main].
    - [Concrete.v]: clocks, random source and inputs for the examples.
    - [Envelope.v] ([EopEnvelope]): [eop_envelope.c] and the enumerations of
      [eop_client.h].
    - [Posix.v]: the process the C code runs in: a heap of blocks, descriptors,
      mutexes, the thread's error variables, standard streams, and what the
      kernel and the allocator will do; a call returns or stops the process
      with a [fault] (undefined behaviour, SIGPIPE, deadlock, a wait without
      end).  [Stdio.v]: what the programs use of the C library.
    - [Client.v] ([EopClient]): [eop_client.c], one definition per function,
      [eop_send_command] in the order of its phases.
    - [ClientLogic.v]: a weakest precondition for C code ([wp E m p Q]: [m]
      returns with [Q] or stops with a fault of [E]), the rules of the calls,
      and what the send and receive loops do with a socket's traffic.
      [ClientSpec.v], [ClientConn.v]: the exact specifications of a command and
      of connecting, reconnecting and disconnecting.  [ClientOwn.v]: the same
      as changes of what a program owns.
    - [ClientApi.v]: API calls as steps of a process, with its invariant.
    - [ClientThreads.v]: several threads in [eop_send_command] and
      [eop_last_error] on one handle, call by system call, with the server at
      the other end.
    - [ClientSession.v]: sequences of commands against a stream of frames;
      [Interop.v]: against [ThreadPool.serve_socket].
    - [ConnectBasic.v], [ConnectSession.v]: [connect_basic.c];
      [ConnectServer.v]: the same program against [ThreadPool.serve_socket];
      [EopDemo.v], [DemoScript.v]: [eop_demo.c].

    ** What the theorems show

    - Framing: any list of messages written with [buildFrame] is read back by
      [readFrame] whatever the chunking and however often calls are
      interrupted ([frames_roundtrip]); [readFrame] is characterised on every
      stream ([readFrame_correct]) and [sendAll] on every schedule
      ([sendAll_correct]).
    - Registry: every interleaving of calls behaves as the abstract registry
      ([registry_refines_spec]); one of several registrations of an id wins;
      an OFFLINE node stays so until registered; [listNodes] is exact.
    - Handlers: one answer frame, the registry change and the log line of each
      message on every branch ([register_handler_correct],
      [query_handler_correct], [heartbeat_handler_correct]); answers decode to
      the facts they carry; what is registered can be queried
      ([query_after_register]).
    - Connections: [handleConnection] implements the abstract session for any
      list of messages and any chunking of them
      ([connection_refines_session]); descriptor and counter are released on
      every way out, exceptions included ([connection_teardown]).  The turns of
      a connection are the call ([turns_are_handleConnection]); any number of
      connections, in any interleaving of their turns, behave as interleaved
      abstract sessions ([clients_refine_sessions]) and are all served to the
      end ([clients_all_served]); a registration lasts as long as its
      connection when no other connection stands for the node or names it in a
      REGISTER, whatever else the others do ([registration_lasts]).
    - Server: descriptors are closed once, the counter is the number of sockets
      counted and not yet released, admission never exceeds the limit
      ([server_accounting],
      [server_no_double_close], [admission_control], [acceptor_accounts]); the
      threads' code simulates the transition system ([accept_simulated],
      [serve_simulated]); the queue is FIFO and loses nothing
      ([workqueue_fifo]); a worker drains it ([worker_drains_queue]); the
      life of a client from greeting to release ([client_lifetime]).
    - Threads: the methods of [WorkQueue] are atomic, whatever the
      interleaving of their instructions ([queue_linearizable]); no socket
      waits for a busy worker while another sleeps ([no_lost_wakeup]);
      [ThreadPool::shutdown] returns with every worker joined and every
      descriptor accounted for ([shutdown_joins]).  The exporter's threads do
      what [Exporter.v] says ([exporter_threads_refine]) and its destructor
      returns with every span posted ([exporter_destroyed]).  The acceptor
      stops under every schedule ([acceptor_stop_returns]) and never uses or
      leaks a closed listening socket ([acceptor_safe]).  Acceptor, pool and
      [main] fit together: what each assumes of the others holds, and every
      accepted socket is dealt with once ([process_composes]); after a signal
      the process comes to its end under every schedule, with every thread
      joined and no socket left over ([process_stops]).
    - Monitor: a scan expires exactly the ONLINE nodes last seen before the
      deadline ([tick_exact]); [stop]
      returns under every schedule, without waiting for the interval
      ([stop_returns]), no wake-up is lost and no scan starts after it
      ([monitor_safe]).
    - Client: [eop_send_command], [eop_connect] and [eop_reconnect] do on every
      path what the traffic, the network and the allocations prescribe
      ([send_command_correct], [connect_correct], [reconnect_correct]); a call
      within the contract keeps the process well formed ([api_call_typed]) and
      nothing leaks ([client_no_leak]); envelopes round-trip
      ([envelope_roundtrip]).  Threads that share a handle are handed the
      server's messages in the order they were said, the greeting first, and
      each gets its own answer exactly when everything before it was taken
      ([handle_serialized]); they all come back as long as the server goes on
      reading ([handle_calls_return]).
    - Both ends: what the client's [fill_send_buf] leaves in its buffer is the
      frame the server's [buildFrame] would write
      ([client_frame_is_server_frame]); commands are answered in order
      ([commands_answered]); a client run against the server's own code gets
      exactly the answers of the abstract session ([client_server_session]).
    - Programs: [connect_basic] does what it prints ([connect_basic_session]),
      also against the server's own code, whose record of the node it prints
      ([connect_basic_served]), and gives back what it takes
      ([connect_basic_balanced]); what [eop_demo]
      sends is a function of what is typed ([demo_runs_script]), and it always
      stops ([demo_stops]).
    - Support: log lines are valid, sanitised JSON or suppressed; ids do not
      repeat within their width; spans form a tree; configuration is always in
      range and round-trips; finished spans are exported once and in order
      ([exporter_exactly_once]) by well-formed requests ([httpPost_correct]);
      ISO-8601 texts determine the second they name;
      the OTLP endpoint is parsed; shutdown order of [main].
    - Behaviour the code's comments do not promise is stated too:
      [duplicate_register_evicts], [first_of_two_stays_online],
      [long_node_id_throws], [long_node_id_ends_process],
      [truncation_breaks_utf8], [fresh_node_expires],
      [register_error_ignores_level], [negative_port_accepted],
      [shutdown_leaves_count], [complete_logged_before_pool],
      [flush_terminates], [undrained_responses_shift],
      [broken_pipe_kills_client], [deserialize_accepts],
      [accept_error_ends_service], [watchdog_after_shutdown],
      [forced_flush_missed], [failure_reason_lost], [send_waits_for_ever].

    ** Assumptions and parameters

    Libraries that are not in the repository are parameters of the model:
    nlohmann::json ([JsonLib], with [JsonLaws]), the clocks ([Clock], with
    [ClockOk]: readings after 1970), the random engine ([Otel.Rng]), the
    iteration order of the hash map ([NodeRegistry.MapIter]: a permutation),
    [std::system_category().message], and for the client the contents of
    memory that was never written ([Posix.Junk]).  [JsonRef.lib], [Concrete.v]
    and [Posix.zero_junk] instantiate all of them.

    ** Fuel

    Loops that are not structural take fuel from their input, and every
    theorem about them is about the result, not about running out:
    [readExact], [sendAll] and [httpPost] use the number of scheduled kernel
    events plus two (every iteration but the last uses one up;
    [readExact_loop_fuel]: more changes nothing); the message loop of a
    connection uses the number of bytes still to arrive plus one (every frame
    has at least 14); the worker loop takes any fuel above the number of queued
    sockets.  In the client, fuel that runs out is the fault [Hang], which the
    theorems exclude: a receive loop has one more than the bytes it wants, the
    send loop two more than the scheduled events, the demo's menu one more than
    the characters still to be read.

    ** Not modelled

    The inside of prometheus-cpp (what a counter, a histogram and the HTTP
    exposer do), the server's diagnostics on stderr, memory exhaustion in the
    server, and the lengths of time-outs.  In the systems of threads serving a
    socket is one step, as is rejecting one; in [Clients.v] a turn of a
    connection's loop is one, which makes a single call of the registry.  The
    exporter's threads are
    modelled apart from the others: that the exporter, a static object, is
    destroyed when [main] has returned is a condition of its steps.
    [process_stops] is about schedules without spurious wake-ups, which could
    otherwise delay a pool that is not stopped yet for ever.  In
    [Posix.v] a [send] takes something or fails; that it may wait for a server
    that does not read is in [ClientThreads.v], where a handle is not
    reconnected or disconnected while it is shared.  A scan of the monitor is
    one step: in the server other threads may change the registry between its
    [listNodes] and a [setOffline].  Where an exception ends the process the
    destructors on its way are run, which the language leaves open.  [JsonRef.v] is a
    reference instance, not a model of nlohmann::json.  Registry, logger,
    sessions and metrics are used under their own mutexes and atomics, which
    are taken as atomicity of the operations they protect. *)

From stdpp Require Export prelude gmap strings.
From Stdlib Require Export ZArith Lia.
From Stdlib Require Export Init.Byte.
From Stdlib Require Import Strings.Byte.

(** ** Scope, hint databases and tactics of the library *)

Declare Scope eop_scope.
Delimit Scope eop_scope with eop.

Create HintDb eop.
Create Rewrite HintDb eop_rw.

(** Case analysis on the scrutinee of the first [match]/[if] of the goal,
    keeping the equation. *)
Ltac case_goal :=
  match goal with
  | |- context [match ?x with _ => _ end] => destruct x eqn:?
  end.

(** The same on a hypothesis. *)
Ltac case_hyp H :=
  match type of H with
  | context [match ?x with _ => _ end] => destruct x eqn:?
  end.

(** Turns the boolean comparisons of the context into propositions. *)
Ltac bool_to_prop :=
  repeat match goal with
  | H : Z.ltb _ _ = true |- _ => apply Z.ltb_lt in H
  | H : Z.ltb _ _ = false |- _ => apply Z.ltb_ge in H
  | H : Z.leb _ _ = true |- _ => apply Z.leb_le in H
  | H : Z.leb _ _ = false |- _ => apply Z.leb_gt in H
  | H : Z.eqb _ _ = true |- _ => apply Z.eqb_eq in H
  | H : Z.eqb _ _ = false |- _ => apply Z.eqb_neq in H
  | H : Nat.ltb _ _ = true |- _ => apply Nat.ltb_lt in H
  | H : Nat.ltb _ _ = false |- _ => apply Nat.ltb_ge in H
  | H : andb _ _ = true |- _ => apply andb_true_iff in H; destruct H
  | H : orb _ _ = false |- _ => apply orb_false_iff in H; destruct H
  | H : negb _ = true |- _ => apply negb_true_iff in H
  | H : negb _ = false |- _ => apply negb_false_iff in H
  | H : bool_decide _ = true |- _ => apply bool_decide_eq_true in H
  | H : bool_decide _ = false |- _ => apply bool_decide_eq_false in H
  end.

Local Open Scope Z_scope.

(** ** Machine integers

    A C++ unsigned integer of width [w] is a [Z]; the conversions of the code
    ([static_cast], arithmetic on unsigned types) are [wrap w]. *)

Definition wrap (w n : Z) : Z := n mod 2 ^ w.

Abbreviation u8 := (wrap 8) (only parsing).
Abbreviation u16 := (wrap 16) (only parsing).
Abbreviation u32 := (wrap 32) (only parsing).
Abbreviation u64 := (wrap 64) (only parsing).

Definition in_width (w n : Z) : Prop := 0 ≤ n < 2 ^ w.

#[export] Instance in_width_dec w n : Decision (in_width w n).
Proof. unfold in_width. apply _. Defined.

Lemma wrap_range w n : 0 ≤ w → in_width w (wrap w n).
Proof. intros ?. apply Z.mod_pos_bound. lia. Qed.

(** Within one width the values do not repeat. *)
Lemma wrap_window_inj w a i j :
  0 ≤ w → 0 ≤ i < 2 ^ w → 0 ≤ j < 2 ^ w → wrap w (a + i) = wrap w (a + j) → i = j.
Proof.
  intros Hw Hi Hj H. unfold wrap in H.
  assert ((i - j) mod 2 ^ w = 0) as Hm.
  { replace (i - j) with ((a + i) - (a + j)) by lia.
    rewrite Zminus_mod, H, Z.sub_diag. apply Z.mod_0_l. lia. }
  apply Z.mod_divide in Hm; [|lia]. destruct Hm as [k Hk].
  assert (k = 0) by nia. lia.
Qed.

Lemma wrap_small w n : in_width w n → wrap w n = n.
Proof. apply Z.mod_small. Qed.

Lemma wrap_wrap w n : 0 ≤ w → wrap w (wrap w n) = wrap w n.
Proof. intros ?. by apply wrap_small, wrap_range. Qed.

Lemma wrap_succ_wrap w n : 0 ≤ w → wrap w (wrap w n + 1) = wrap w (n + 1).
Proof. intros ?. unfold wrap. by rewrite Zplus_mod_idemp_l. Qed.

#[export] Hint Resolve wrap_range : eop.

(** ** Bytes *)

Definition byte_val (b : byte) : Z := Z.of_N (Byte.to_N b).

(** [static_cast<uint8_t>]. *)
Definition byte_of (n : Z) : byte :=
  default x00 (Byte.of_N (Z.to_N (n mod 256))).

#[export] Instance byte_eq_dec : EqDecision byte := Byte.byte_eq_dec.

Lemma byte_val_range b : 0 ≤ byte_val b < 256.
Proof.
  unfold byte_val. pose proof (Byte.to_N_bounded b). lia.
Qed.

Lemma byte_val_of n : byte_val (byte_of n) = n mod 256.
Proof.
  unfold byte_val, byte_of.
  pose proof (Z.mod_pos_bound n 256 ltac:(lia)) as Hn.
  destruct (Byte.of_N (Z.to_N (n mod 256))) as [b|] eqn:E; simpl.
  - apply Byte.to_of_N in E. rewrite E. lia.
  - apply Byte.of_N_None_iff in E. lia.
Qed.

Lemma byte_of_val b : byte_of (byte_val b) = b.
Proof.
  unfold byte_of. rewrite Z.mod_small by apply byte_val_range.
  unfold byte_val. rewrite N2Z.id, Byte.of_to_N. done.
Qed.

Lemma byte_of_val_ext b n : byte_val b = n mod 256 → b = byte_of n.
Proof.
  intros H. rewrite <-(byte_of_val b), <-(byte_of_val (byte_of n)).
  by rewrite H, byte_val_of.
Qed.

#[export] Hint Rewrite byte_val_of byte_of_val : eop_rw.

(** A [std::string] is a Rocq [string]; its bytes are what [memcpy] copies. *)
Definition bytes_of_string : string → list byte := String.list_byte_of_string.
Definition string_of_bytes : list byte → string := String.string_of_list_byte.

Lemma string_of_bytes_of_string s : string_of_bytes (bytes_of_string s) = s.
Proof. apply String.string_of_list_byte_of_string. Qed.

Lemma bytes_of_string_app s1 s2 :
  bytes_of_string (String.append s1 s2) = bytes_of_string s1 ++ bytes_of_string s2.
Proof.
  unfold bytes_of_string, String.list_byte_of_string. induction s1 as [|c s1 IH]; [done|].
  simpl. by f_equal.
Qed.

Lemma bytes_of_string_of_bytes bs : bytes_of_string (string_of_bytes bs) = bs.
Proof. apply String.list_byte_of_string_of_list_byte. Qed.

(** [std::string::size] and [std::string::empty]. *)
Definition str_size (s : string) : Z := Z.of_nat (length (bytes_of_string s)).
Definition str_empty (s : string) : bool :=
  match s with EmptyString => true | _ => false end.

Lemma str_empty_true s : str_empty s = true ↔ s = "".
Proof. by destruct s. Qed.

Lemma str_empty_false s : str_empty s = false ↔ s ≠ "".
Proof. by destruct s. Qed.

Lemma str_size_bytes bs : str_size (string_of_bytes bs) = Z.of_nat (length bs).
Proof. unfold str_size. by rewrite bytes_of_string_of_bytes. Qed.

(** ** Big-endian 32-bit integers ([htonl]/[ntohl] with [memcpy], and the
    shift-and-mask form of the serializer). *)

Definition u32_be (v : Z) : list byte :=
  [byte_of (Z.land (Z.shiftr v 24) 255); byte_of (Z.land (Z.shiftr v 16) 255);
   byte_of (Z.land (Z.shiftr v 8) 255); byte_of (Z.land v 255)].

Definition be_u32 (bs : list byte) : Z :=
  fold_left (λ acc b, acc * 256 + byte_val b) bs 0.

Lemma land_255 n : Z.land n 255 = n mod 256.
Proof. change 255 with (Z.ones 8). by rewrite Z.land_ones by lia. Qed.

Lemma length_u32_be v : length (u32_be v) = 4%nat.
Proof. done. Qed.

Lemma be_u32_be v : in_width 32 v → be_u32 (u32_be v) = v.
Proof.
  intros [Hv1 Hv2]. unfold be_u32, u32_be. simpl fold_left.
  rewrite !byte_val_of, !land_255, !Z.shiftr_div_pow2 by lia.
  rewrite !Z.mod_mod by lia.
  change (2 ^ 24) with (256 * 256 * 256). change (2 ^ 16) with (256 * 256).
  change (2 ^ 8) with 256. rewrite <-!Z.div_div by lia.
  assert (v / 256 / 256 / 256 < 256).
  { repeat (apply Z.div_lt_upper_bound; [lia|]). lia. }
  assert (0 ≤ v / 256 / 256 / 256) by (repeat apply Z.div_pos; lia).
  pose proof (Z.div_mod v 256 ltac:(lia)).
  pose proof (Z.div_mod (v / 256) 256 ltac:(lia)).
  pose proof (Z.div_mod (v / 256 / 256) 256 ltac:(lia)).
  rewrite (Z.mod_small (v / 256 / 256 / 256)) by lia. lia.
Qed.

Lemma be_u32_range bs : length bs = 4%nat → in_width 32 (be_u32 bs).
Proof.
  intros H. destruct bs as [|a [|b [|c [|d [|]]]]]; simplify_eq/=.
  unfold be_u32, in_width. simpl.
  pose proof (byte_val_range a). pose proof (byte_val_range b).
  pose proof (byte_val_range c). pose proof (byte_val_range d). lia.
Qed.

(** Every 4 bytes are the encoding of the integer they decode to. *)
Lemma u32_be_be bs : length bs = 4%nat → u32_be (be_u32 bs) = bs.
Proof.
  intros H. destruct bs as [|a [|b [|c [|d [|]]]]]; simplify_eq/=.
  unfold be_u32, u32_be. simpl fold_left.
  rewrite !land_255, !Z.shiftr_div_pow2 by lia.
  pose proof (byte_val_range a). pose proof (byte_val_range b).
  pose proof (byte_val_range c). pose proof (byte_val_range d).
  repeat f_equal; symmetry; apply byte_of_val_ext;
    rewrite Z.mod_mod by lia;
    change (2 ^ 24) with 16777216; change (2 ^ 16) with 65536;
    change (2 ^ 8) with 256; Z.to_euclidean_division_equations; lia.
Qed.

(** ** Positional notation

    [to_digits b n]: the digits of [n] in base [b], most significant first,
    without leading zeros ("0" for zero): what [operator<<] prints in
    decimal or, with [std::hex], in base 16. *)

Fixpoint digits_rec (b : Z) (fuel : nat) (n : Z) (acc : list Z) : list Z :=
  match fuel with
  | O => acc
  | S fuel =>
      if n <? b then n :: acc
      else digits_rec b fuel (n / b) (n mod b :: acc)
  end.

Definition to_digits (b n : Z) : list Z :=
  digits_rec b (S (Z.to_nat (Z.log2 n))) n [].

Definition of_digits (b : Z) (ds : list Z) : Z :=
  fold_left (λ acc d, acc * b + d) ds 0.

Lemma map_replicate {A B} (f : A → B) n x : map f (replicate n x) = replicate n (f x).
Proof. induction n as [|n IH]; simpl; by rewrite ?IH. Qed.

Lemma of_digits_app b ds1 ds2 :
  of_digits b (ds1 ++ ds2) =
  fold_left (λ acc d, acc * b + d) ds2 (of_digits b ds1).
Proof. apply fold_left_app. Qed.

Lemma of_digits_zeros b n ds :
  of_digits b (replicate n 0 ++ ds) = of_digits b ds.
Proof.
  induction n as [|n IH]; [done|]. exact IH.
Qed.

Lemma log2_div b n : 2 ≤ b → b ≤ n → Z.log2 (n / b) < Z.log2 n.
Proof.
  intros Hb Hn.
  assert (n / b < n) by (apply Z.div_lt; lia).
  assert (0 < n / b) by (apply Z.div_str_pos; lia).
  apply Z.log2_lt_pow2; [done|].
  apply Z.div_lt_upper_bound; [lia|].
  pose proof (Z.log2_spec n ltac:(lia)) as [_ Hs].
  rewrite Z.pow_succ_r in Hs by apply Z.log2_nonneg.
  pose proof (Z.pow_pos_nonneg 2 (Z.log2 n) ltac:(lia) (Z.log2_nonneg n)). nia.
Qed.

Lemma digits_rec_spec b fuel n acc :
  2 ≤ b → 0 ≤ n → Z.log2 n < Z.of_nat fuel →
  fold_left (λ x d, x * b + d) (digits_rec b fuel n acc) 0 =
  fold_left (λ x d, x * b + d) acc n.
Proof.
  intros Hb. revert n acc. induction fuel as [|fuel IH]; intros n acc Hn Hf.
  { pose proof (Z.log2_nonneg n). lia. }
  simpl. case_goal; bool_to_prop; [done|].
  rewrite IH; [|apply Z.div_pos; lia|pose proof (log2_div b n); lia].
  simpl. f_equal. pose proof (Z.div_mod n b ltac:(lia)). lia.
Qed.

(** Reading back the printed digits gives the number. *)
Lemma of_to_digits b n : 2 ≤ b → 0 ≤ n → of_digits b (to_digits b n) = n.
Proof.
  intros Hb Hn. unfold of_digits, to_digits. rewrite digits_rec_spec; try done.
  pose proof (Z.log2_nonneg n). lia.
Qed.

Lemma digits_rec_range b fuel n acc :
  2 ≤ b → 0 ≤ n → Forall (λ d, 0 ≤ d < b) acc →
  Forall (λ d, 0 ≤ d < b) (digits_rec b fuel n acc).
Proof.
  intros Hb. revert n acc. induction fuel as [|fuel IH]; intros n acc Hn Hacc;
    simpl; [done|].
  case_goal; bool_to_prop; [by constructor|].
  apply IH; [apply Z.div_pos; lia|].
  constructor; [apply Z.mod_pos_bound; lia|done].
Qed.

Lemma to_digits_range b n :
  2 ≤ b → 0 ≤ n → Forall (λ d, 0 ≤ d < b) (to_digits b n).
Proof. intros. by apply digits_rec_range. Qed.

Lemma digits_rec_length b fuel n acc k :
  2 ≤ b → 0 ≤ n < b ^ Z.of_nat k → (0 < k)%nat →
  (length (digits_rec b fuel n acc) ≤ k + length acc)%nat.
Proof.
  intros Hb. revert n acc k. induction fuel as [|fuel IH]; intros n acc k Hn Hk;
    simpl; [lia|].
  case_goal; bool_to_prop; [simpl; lia|].
  destruct k as [|[|k]]; [lia|simpl in Hn; lia|].
  etrans; [apply (IH _ _ (S k))|simpl; lia]; [|lia].
  split; [apply Z.div_pos; lia|]. apply Z.div_lt_upper_bound; [lia|].
  rewrite (Nat2Z.inj_succ (S k)), Z.pow_succ_r in Hn by lia. lia.
Qed.

Lemma to_digits_length b n k :
  2 ≤ b → 0 ≤ n < b ^ Z.of_nat k → (0 < k)%nat → (length (to_digits b n) ≤ k)%nat.
Proof.
  intros. pose proof (digits_rec_length b (S (Z.to_nat (Z.log2 n))) n [] k).
  unfold to_digits. simpl length in *. lia.
Qed.

Lemma digits_rec_nonnil b fuel n acc : acc ≠ [] → digits_rec b fuel n acc ≠ [].
Proof.
  revert n acc. induction fuel as [|fuel IH]; intros n acc Hacc; simpl; [done|].
  case_goal; [done|]. by apply IH.
Qed.

Lemma to_digits_nonnil b n : to_digits b n ≠ [].
Proof.
  unfold to_digits. simpl. case_goal; [done|]. by apply digits_rec_nonnil.
Qed.

(** The character of a digit (lower case above 9) and back. *)
Definition digit_char (d : Z) : byte :=
  byte_of (if d <? 10 then 48 + d else 87 + d).

Definition char_digit (c : byte) : Z :=
  let v := byte_val c in if v <? 58 then v - 48 else v - 87.

Lemma char_digit_char d : 0 ≤ d < 16 → char_digit (digit_char d) = d.
Proof.
  intros Hd. unfold char_digit, digit_char. destruct (Z.ltb_spec d 10);
    rewrite byte_val_of, Z.mod_small by lia; case_goal; bool_to_prop; lia.
Qed.

Lemma map_char_digit_char ds :
  Forall (λ d, 0 ≤ d < 16) ds → map char_digit (map digit_char ds) = ds.
Proof.
  induction 1 as [|d ds Hd Hds IH]; [done|]. simpl.
  by rewrite char_digit_char, IH.
Qed.

(** [std::to_string] on an integer. *)
Definition dec_digits (n : Z) : list byte := map digit_char (to_digits 10 n).

Definition to_string (n : Z) : string :=
  string_of_bytes (if n <? 0 then x2d :: dec_digits (- n) else dec_digits n).

Lemma dec_digits_read n :
  0 ≤ n → of_digits 10 (map char_digit (dec_digits n)) = n.
Proof.
  intros Hn. unfold dec_digits. rewrite map_char_digit_char, of_to_digits; try lia.
  eapply Forall_impl; [apply (to_digits_range 10); lia|]. simpl. lia.
Qed.

Lemma dec_digits_inj n m : 0 ≤ n → 0 ≤ m → dec_digits n = dec_digits m → n = m.
Proof.
  intros Hn Hm H. rewrite <-(dec_digits_read n), <-(dec_digits_read m) by done.
  by rewrite H.
Qed.

Lemma dec_digits_nonnil n : dec_digits n ≠ [].
Proof.
  unfold dec_digits. intros H. apply map_eq_nil in H. by apply to_digits_nonnil in H.
Qed.

(** ** Scanning *)

Definition isdigit (b : byte) : bool :=
  let v := byte_val b in (48 <=? v) && (v <=? 57).

Fixpoint span (p : byte → bool) (bs : list byte) : list byte * list byte :=
  match bs with
  | [] => ([], [])
  | b :: bs' => if p b then let '(l, r) := span p bs' in (b :: l, r) else ([], bs)
  end.

Lemma span_forall p bs : Forall (λ b, p b = true) (span p bs).1.
Proof.
  induction bs as [|b bs IH]; simpl; [done|].
  destruct (p b) eqn:E; [|done]. destruct (span p bs). by constructor.
Qed.

Lemma span_app p l r :
  Forall (λ b, p b = true) l → (∀ b r', r = b :: r' → p b = false) →
  span p (l ++ r) = (l, r).
Proof.
  intros Hl Hr. induction Hl as [|b l Hb Hl IH]; simpl.
  - destruct r as [|b r']; [done|]. simpl. by rewrite (Hr b r').
  - by rewrite Hb, IH.
Qed.

Lemma span_all p l : Forall (λ b, p b = true) l → span p l = (l, []).
Proof. intros. rewrite <-(app_nil_r l) at 1. by apply span_app. Qed.

Lemma digit_char_isdigit d : 0 ≤ d < 10 → isdigit (digit_char d) = true.
Proof.
  intros Hd. unfold isdigit, digit_char.
  rewrite (proj2 (Z.ltb_lt d 10)), byte_val_of, Z.mod_small by lia.
  apply andb_true_intro. split; apply Z.leb_le; lia.
Qed.

Lemma dec_digits_isdigit n : 0 ≤ n → Forall (λ b, isdigit b = true) (dec_digits n).
Proof.
  intros Hn. unfold dec_digits. apply Forall_map.
  eapply Forall_impl; [apply (to_digits_range 10); lia|].
  intros d Hd. by apply digit_char_isdigit.
Qed.

(** ** Hexadecimal output *)

(** [std::hex << std::setfill('0') << std::setw(width) << id]: at least
    [width] characters, never truncated. *)
Definition hex_padded (width : nat) (id : Z) : string :=
  let ds := map digit_char (to_digits 16 id) in
  string_of_bytes (replicate (width - length ds) x30 ++ ds).

Definition hex_value (s : string) : Z :=
  of_digits 16 (map char_digit (bytes_of_string s)).

Lemma hex_padded_value w id : 0 ≤ id → hex_value (hex_padded w id) = id.
Proof.
  intros Hid. unfold hex_value, hex_padded.
  rewrite bytes_of_string_of_bytes, map_app.
  rewrite map_char_digit_char by (apply to_digits_range; lia).
  rewrite map_replicate. change (char_digit x30) with 0.
  rewrite of_digits_zeros. apply of_to_digits; lia.
Qed.

Lemma hex_padded_length w id :
  (0 < w)%nat → 0 ≤ id < 16 ^ Z.of_nat w →
  length (bytes_of_string (hex_padded w id)) = w.
Proof.
  intros Hw Hid. unfold hex_padded. rewrite bytes_of_string_of_bytes.
  rewrite length_app, length_replicate, length_map.
  pose proof (to_digits_length 16 id w ltac:(lia) Hid Hw). lia.
Qed.

(** Texts of lower-case hexadecimal digits, which are ASCII. *)
Definition is_hex (b : byte) : bool :=
  isdigit b || (97 <=? byte_val b) && (byte_val b <=? 102).
Definition hex_text (s : string) : bool := forallb is_hex (bytes_of_string s).

Lemma digit_char_hex d : 0 ≤ d < 16 → is_hex (digit_char d) = true.
Proof.
  intros Hd. unfold is_hex. destruct (Z.ltb_spec d 10).
  - rewrite digit_char_isdigit; [done|lia].
  - unfold digit_char. rewrite (proj2 (Z.ltb_ge d 10)) by lia.
    rewrite byte_val_of, Z.mod_small by lia.
    apply orb_true_iff. right. apply andb_true_iff. split; apply Z.leb_le; lia.
Qed.

Lemma hex_padded_hex w id : 0 ≤ id → hex_text (hex_padded w id) = true.
Proof.
  intros Hid. unfold hex_text, hex_padded. rewrite bytes_of_string_of_bytes, forallb_app.
  apply andb_true_iff. split; apply forallb_forall; intros b Hb.
  - by apply list_elem_of_In, elem_of_replicate in Hb as [-> _].
  - apply in_map_iff in Hb as (d & <- & Hd). apply digit_char_hex.
    pose proof (to_digits_range 16 id ltac:(lia) Hid) as Hr.
    rewrite List.Forall_forall in Hr. by apply Hr.
Qed.

Lemma is_hex_ascii b : is_hex b = true → byte_val b ≤ 127.
Proof.
  unfold is_hex, isdigit. rewrite orb_true_iff, !andb_true_iff, !Z.leb_le. lia.
Qed.

Lemma hex_text_ascii s : hex_text s = true → Forall (λ b, byte_val b ≤ 127) (bytes_of_string s).
Proof.
  unfold hex_text. rewrite forallb_forall. intros Hs. apply List.Forall_forall.
  intros b Hb. by apply is_hex_ascii, Hs.
Qed.

(** A quoted JSON string. *)
Definition quoted (s : string) : string :=
  string_of_bytes (x22 :: bytes_of_string s ++ [x22]).
