(* ===== verification/Registry.v ===== *)
(** * NodeRegistry: the in-memory registry of nodes

    Models [include/nodeRegistry.hpp] and [src/nodeRegistry.cpp].  The
    [std::unordered_map<std::string, NodeEntry>] is a [gmap]; every public
    method takes the registry's mutex for its whole body, so each is one
    atomic function on the map and a concurrent execution is a sequence of
    [reg_op]s.  Time points are nanoseconds since the epoch. *)

From S2P Require Import Prelude.
Local Open Scope Z_scope.

Module NodeRegistry.

(** ** Data *)

Inductive NodeStatus := ONLINE | OFFLINE.

Inductive RegisterResult := OK | ERR_DUPLICATE.

Record NodeEntry := mkNodeEntry {
  node_id : string;
  bunker_name : string;
  ip_address : string;
  capacity : Z;
  status : NodeStatus;
  last_seen_at : Z
}.

#[global] Instance NodeStatus_eq_dec : EqDecision NodeStatus.
Proof. solve_decision. Defined.
#[global] Instance RegisterResult_eq_dec : EqDecision RegisterResult.
Proof. solve_decision. Defined.
#[global] Instance NodeEntry_eq_dec : EqDecision NodeEntry.
Proof. solve_decision. Defined.

Abbreviation registry := (gmap string NodeEntry).

Definition with_status (st : NodeStatus) (e : NodeEntry) : NodeEntry :=
  mkNodeEntry (node_id e) (bunker_name e) (ip_address e) (capacity e)
    st (last_seen_at e).

Definition with_last_seen (t : Z) (e : NodeEntry) : NodeEntry :=
  mkNodeEntry (node_id e) (bunker_name e) (ip_address e) (capacity e)
    (status e) t.

(** The iteration order of an [unordered_map] is unspecified: the order is a
    parameter, of which only "each entry once" is known. *)
Class MapIter := {
  iter_order : registry → list (string * NodeEntry);
  iter_order_perm m : iter_order m ≡ₚ map_to_list m
}.

(** ** Operations *)

Definition registerNode (entry : NodeEntry) (m_entries : registry)
    : RegisterResult * registry :=
  if str_empty (node_id entry) then (ERR_DUPLICATE, m_entries)
  else
    match m_entries !! node_id entry with
    | Some old =>
        if bool_decide (status old = ONLINE) then (ERR_DUPLICATE, m_entries)
        else (OK, <[node_id entry := with_status ONLINE entry]> m_entries)
    | None =>
        (OK, <[node_id entry := with_status ONLINE entry]> m_entries)
    end.

Definition queryNode (nodeId : string) (m_entries : registry) : option NodeEntry :=
  m_entries !! nodeId.

Definition listNodes `{MapIter} (m_entries : registry) : list NodeEntry :=
  (iter_order m_entries).*2.

Definition setOffline (nodeId : string) (now : Z) (m_entries : registry) : registry :=
  if str_empty nodeId then m_entries
  else
    match m_entries !! nodeId with
    | Some e => <[nodeId := with_last_seen now (with_status OFFLINE e)]> m_entries
    | None => m_entries
    end.

Definition updateLastSeen (nodeId : string) (now : Z) (m_entries : registry)
    : bool * registry :=
  if str_empty nodeId then (false, m_entries)
  else
    match m_entries !! nodeId with
    | Some e =>
        if bool_decide (status e = ONLINE)
        then (true, <[nodeId := with_last_seen now e]> m_entries)
        else (false, m_entries)
    | None => (false, m_entries)
    end.

Definition isOffline (nodeId : string) (m_entries : registry) : bool :=
  match m_entries !! nodeId with
  | Some e => bool_decide (status e = OFFLINE)
  | None => false
  end.

Definition contains (nodeId : string) (m_entries : registry) : bool :=
  bool_decide (is_Some (m_entries !! nodeId)).

(** ** Interleavings

    A call of a mutating method by some thread, with the clock reading it
    made, and a whole execution in lock order. *)

Inductive reg_op :=
| OpRegister (e : NodeEntry)
| OpSetOffline (id : string) (now : Z)
| OpUpdateLastSeen (id : string) (now : Z).

Inductive reg_result :=
| ResRegister (r : RegisterResult)
| ResUnit
| ResBool (b : bool).

#[global] Instance reg_result_eq_dec : EqDecision reg_result.
Proof. solve_decision. Defined.

Definition apply_op (op : reg_op) (m : registry) : reg_result * registry :=
  match op with
  | OpRegister e => (ResRegister (registerNode e m).1, (registerNode e m).2)
  | OpSetOffline id now => (ResUnit, setOffline id now m)
  | OpUpdateLastSeen id now =>
      (ResBool (updateLastSeen id now m).1, (updateLastSeen id now m).2)
  end.

Fixpoint run_ops (ops : list reg_op) (m : registry) : list reg_result * registry :=
  match ops with
  | [] => ([], m)
  | op :: ops =>
      let '(r, m1) := apply_op op m in
      let '(rs, m2) := run_ops ops m1 in
      (r :: rs, m2)
  end.

Lemma setOffline_other nodeId now m n : nodeId ≠ n → setOffline nodeId now m !! n = m !! n.
Proof.
  intros Hne. unfold setOffline. destruct (str_empty nodeId); [done|].
  destruct (m !! nodeId); [|done]. by apply lookup_insert_ne.
Qed.

Lemma setOffline_isOffline nodeId now m :
  str_empty nodeId = false → contains nodeId m = true →
  isOffline nodeId (setOffline nodeId now m) = true.
Proof.
  unfold setOffline, isOffline, contains. intros -> Hc.
  destruct (m !! nodeId) as [e|] eqn:E; [|done]. by rewrite lookup_insert_eq.
Qed.

(** ** Invariant: entries are stored under their own, non-empty, id. *)

Definition wf (m : registry) : Prop :=
  map_Forall (λ k e, node_id e = k ∧ k ≠ "") m.

Lemma wf_empty : wf ∅.
Proof. apply map_Forall_empty. Qed.

Lemma wf_insert k e m : wf m → node_id e = k → k ≠ "" → wf (<[k := e]> m).
Proof. intros. by apply map_Forall_insert_2. Qed.

#[global] Hint Resolve wf_empty wf_insert : eop.

Lemma apply_op_wf op m : wf m → wf (apply_op op m).2.
Proof.
  intros Hwf. destruct op as [e|id now|id now]; simpl;
    unfold registerNode, setOffline, updateLastSeen.
  - destruct (str_empty (node_id e)) eqn:E; [done|].
    apply str_empty_false in E.
    destruct (m !! node_id e); [case_bool_decide|]; simpl; eauto with eop.
  - destruct (str_empty id) eqn:E; [done|]. apply str_empty_false in E.
    destruct (m !! id) as [e|] eqn:Hl; [|done].
    destruct (Hwf id e Hl). apply wf_insert; eauto.
  - destruct (str_empty id) eqn:E; [done|]. apply str_empty_false in E.
    destruct (m !! id) as [e|] eqn:Hl; [|done].
    case_bool_decide; simpl; [|done].
    destruct (Hwf id e Hl). apply wf_insert; eauto.
Qed.

Lemma run_ops_cons op ops m :
  (run_ops (op :: ops) m).2 = (run_ops ops (apply_op op m).2).2.
Proof.
  simpl. destruct (apply_op op m) as [r m1]. simpl.
  by destruct (run_ops ops m1).
Qed.

Lemma run_ops_results_cons op ops m :
  (run_ops (op :: ops) m).1 =
  (apply_op op m).1 :: (run_ops ops (apply_op op m).2).1.
Proof.
  simpl. destruct (apply_op op m) as [r m1]. simpl.
  by destruct (run_ops ops m1).
Qed.

Lemma run_ops_wf ops m : wf m → wf (run_ops ops m).2.
Proof.
  revert m. induction ops as [|op ops IH]; intros m Hwf; [done|].
  rewrite run_ops_cons. apply IH, apply_op_wf, Hwf.
Qed.

(** ** The abstract node life cycle

    What the registry promises its clients: a partial map from ids to
    statuses, without metadata and time. *)

Module Spec.
Abbreviation state := (gmap string NodeStatus).

Definition register (id : string) (s : state) : RegisterResult * state :=
  if bool_decide (id = "" ∨ s !! id = Some ONLINE) then (ERR_DUPLICATE, s)
  else (OK, <[id := ONLINE]> s).

Definition offline (id : string) (s : state) : state :=
  if bool_decide (is_Some (s !! id)) then <[id := OFFLINE]> s else s.

Definition heartbeat (id : string) (s : state) : bool :=
  bool_decide (s !! id = Some ONLINE).

Definition apply_op (op : reg_op) (s : state) : reg_result * state :=
  match op with
  | OpRegister e =>
      (ResRegister (register (node_id e) s).1, (register (node_id e) s).2)
  | OpSetOffline id _ => (ResUnit, offline id s)
  | OpUpdateLastSeen id _ => (ResBool (heartbeat id s), s)
  end.

Fixpoint run_ops (ops : list reg_op) (s : state) : list reg_result * state :=
  match ops with
  | [] => ([], s)
  | op :: ops =>
      let '(r, s1) := apply_op op s in
      let '(rs, s2) := run_ops ops s1 in
      (r :: rs, s2)
  end.
End Spec.

Definition abs (m : registry) : Spec.state := status <$> m.

Lemma abs_lookup m id : abs m !! id = status <$> m !! id.
Proof. apply lookup_fmap. Qed.

Lemma abs_insert m id e : abs (<[id := e]> m) = <[id := status e]> (abs m).
Proof. apply fmap_insert. Qed.

Lemma wf_lookup_empty m : wf m → m !! "" = None.
Proof.
  intros Hwf. destruct (m !! "") eqn:E; [|done]. by destruct (Hwf _ _ E).
Qed.

Lemma apply_op_refines op m :
  wf m →
  Spec.apply_op op (abs m) = ((apply_op op m).1, abs (apply_op op m).2).
Proof.
  intros Hwf. destruct op as [e|id now|id now]; simpl.
  - unfold Spec.register, registerNode. rewrite abs_lookup.
    destruct (str_empty (node_id e)) eqn:E.
    { apply str_empty_true in E. rewrite bool_decide_true by auto. done. }
    apply str_empty_false in E.
    destruct (m !! node_id e) as [old|] eqn:Hl; simpl.
    + destruct (status old) eqn:Hst; simpl.
      * rewrite bool_decide_true by auto. done.
      * rewrite bool_decide_false by naive_solver. simpl. by rewrite abs_insert.
    + rewrite bool_decide_false by naive_solver. by rewrite abs_insert.
  - unfold Spec.offline, setOffline. rewrite abs_lookup.
    destruct (str_empty id) eqn:E.
    { apply str_empty_true in E. subst. rewrite wf_lookup_empty by done.
      done. }
    destruct (m !! id) as [e|] eqn:Hl; simpl; by rewrite ?abs_insert.
  - unfold Spec.heartbeat, updateLastSeen. rewrite abs_lookup.
    destruct (str_empty id) eqn:E.
    { apply str_empty_true in E. subst. by rewrite wf_lookup_empty. }
    destruct (m !! id) as [e|] eqn:Hl; simpl; [|done].
    destruct (status e) eqn:Hst; simpl; [|done].
    rewrite abs_insert. simpl. rewrite Hst.
    f_equal. symmetry. apply insert_id. rewrite abs_lookup, Hl. simpl. by rewrite Hst.
Qed.

Lemma run_ops_refines ops m :
  wf m →
  Spec.run_ops ops (abs m) = ((run_ops ops m).1, abs (run_ops ops m).2).
Proof.
  revert m. induction ops as [|op ops IH]; intros m Hwf; simpl; [done|].
  rewrite apply_op_refines by done.
  pose proof (apply_op_wf op m Hwf).
  destruct (apply_op op m) as [r m1]; simpl in *.
  rewrite IH by done. by destruct (run_ops ops m1).
Qed.

(** ** Properties of single operations *)

Lemma apply_op_dom op m : dom m ⊆ dom (apply_op op m).2.
Proof.
  destruct op as [e|id now|id now]; simpl;
    unfold registerNode, setOffline, updateLastSeen;
    repeat case_goal; simpl; rewrite ?dom_insert_L; set_solver.
Qed.

Lemma run_ops_dom ops m : dom m ⊆ dom (run_ops ops m).2.
Proof.
  revert m. induction ops as [|op ops IH]; intros m; [done|].
  rewrite run_ops_cons. etrans; [apply apply_op_dom|apply IH].
Qed.

Definition op_target (op : reg_op) : string :=
  match op with
  | OpRegister e => node_id e
  | OpSetOffline id _ | OpUpdateLastSeen id _ => id
  end.

(** An operation leaves the entries of other nodes alone. *)
Lemma apply_op_frame op m id :
  id ≠ op_target op → (apply_op op m).2 !! id = m !! id.
Proof.
  intros Hne. destruct op as [e|id' now|id' now]; simpl in *;
    unfold registerNode, setOffline, updateLastSeen;
    repeat case_goal; simpl; by rewrite ?lookup_insert_ne.
Qed.

Lemma registerNode_inv e m r m' :
  registerNode e m = (r, m') →
  (r = OK ∧ node_id e ≠ "" ∧
     (∀ old, m !! node_id e = Some old → status old = OFFLINE) ∧
     m' = <[node_id e := with_status ONLINE e]> m) ∨
  (r = ERR_DUPLICATE ∧ m' = m ∧
     (node_id e = "" ∨ ∃ old, m !! node_id e = Some old ∧ status old = ONLINE)).
Proof.
  unfold registerNode. intros H.
  destruct (str_empty (node_id e)) eqn:E.
  { apply str_empty_true in E. simplify_eq. naive_solver. }
  apply str_empty_false in E.
  destruct (m !! node_id e) as [old|] eqn:Hl; [|naive_solver].
  destruct (status old) eqn:Hst; simpl in H; naive_solver.
Qed.

Lemma listNodes_elem `{MapIter} m e :
  e ∈ listNodes m ↔ ∃ id, m !! id = Some e.
Proof.
  unfold listNodes. rewrite list_elem_of_fmap. split.
  - intros [[id e'] [-> Hin]]. rewrite iter_order_perm in Hin.
    apply elem_of_map_to_list in Hin. eauto.
  - intros [id Hl]. exists (id, e). split; [done|].
    rewrite iter_order_perm. by apply elem_of_map_to_list.
Qed.

Lemma listNodes_ids_perm `{MapIter} m :
  wf m → node_id <$> listNodes m ≡ₚ (map_to_list m).*1.
Proof.
  intros Hwf. unfold listNodes. rewrite iter_order_perm.
  rewrite <-list_fmap_compose.
  erewrite list_fmap_ext with (g := fst); [done|].
  intros i [k e] Hl. simpl.
  apply list_elem_of_lookup_2, elem_of_map_to_list in Hl.
  by destruct (Hwf k e Hl).
Qed.

Lemma listNodes_length `{MapIter} m : length (listNodes m) = size m.
Proof.
  unfold listNodes. rewrite length_fmap, iter_order_perm.
  apply length_map_to_list.
Qed.

Lemma listNodes_nodup `{MapIter} m : wf m → NoDup (node_id <$> listNodes m).
Proof.
  intros Hwf. rewrite listNodes_ids_perm by done.
  apply NoDup_fst_map_to_list.
Qed.

(** Without a registration of [id], an OFFLINE node stays OFFLINE. *)
Definition registers (id : string) (op : reg_op) : bool :=
  match op with OpRegister e => bool_decide (node_id e = id) | _ => false end.

Lemma apply_op_offline_stays op m id :
  registers id op = false → isOffline id m = true →
  isOffline id (apply_op op m).2 = true.
Proof.
  intros Hop Hoff. destruct (decide (id = op_target op)) as [->|Hne].
  2: { unfold isOffline. by rewrite apply_op_frame. }
  unfold isOffline in Hoff |- *.
  destruct (m !! op_target op) as [e|] eqn:Hl; [|done].
  apply bool_decide_eq_true in Hoff.
  destruct op as [e'|id' now|id' now]; simpl in *.
  - by rewrite bool_decide_true in Hop.
  - unfold setOffline. rewrite Hl.
    destruct (str_empty id'); [by rewrite Hl, Hoff|]. by rewrite lookup_insert_eq.
  - unfold updateLastSeen. rewrite Hl, Hoff. simpl.
    destruct (str_empty id'); simpl; by rewrite Hl, Hoff.
Qed.

(** ** Racing registrations of one id *)

Definition count_ok (rs : list reg_result) : nat :=
  length (filter (λ r, r = ResRegister OK) rs).

Lemma count_ok_cons r rs :
  count_ok (r :: rs) =
  ((if decide (r = ResRegister OK) then 1 else 0) + count_ok rs)%nat.
Proof. unfold count_ok. rewrite filter_cons. by case_decide. Qed.

Lemma run_registers_taken es m old id :
  m !! id = Some old → status old = ONLINE →
  Forall (λ e, node_id e = id) es →
  count_ok (run_ops (OpRegister <$> es) m).1 = 0%nat ∧
  (run_ops (OpRegister <$> es) m).2 = m.
Proof.
  intros Hl Hst. induction 1 as [|e es He Hes IH]; [done|].
  rewrite fmap_cons, run_ops_cons, run_ops_results_cons, count_ok_cons. simpl.
  assert (registerNode e m = (ERR_DUPLICATE, m)) as ->.
  { unfold registerNode. rewrite He, Hl, bool_decide_true by done.
    by destruct (str_empty id). }
  destruct IH as [IH1 IH2]. simpl. rewrite IH1. done.
Qed.

(** ** Correctness of the component *)

(** C6: for every interleaving of calls by any number of threads, starting
    from the empty registry, every result and the final contents are those of
    the abstract registry [Spec] (a map from ids to ONLINE/OFFLINE records),
    and every entry is stored under its own, non-empty, id. *)
Theorem registry_refines_spec ops :
  wf (run_ops ops ∅).2 ∧
  Spec.run_ops ops ∅ = ((run_ops ops ∅).1, abs (run_ops ops ∅).2).
Proof.
  split; [apply run_ops_wf, wf_empty|].
  pose proof (run_ops_refines ops ∅ wf_empty) as H.
  unfold abs in H at 1. by rewrite fmap_empty in H.
Qed.

(** Of any number of concurrent registrations of one id that is free (not
    present, or OFFLINE), in whatever order they get the lock, exactly the
    first succeeds, and its data is what the registry holds. *)
Theorem one_registration_wins e es m :
  node_id e ≠ "" →
  (∀ old, m !! node_id e = Some old → status old = OFFLINE) →
  Forall (λ e', node_id e' = node_id e) es →
  count_ok (run_ops (OpRegister <$> e :: es) m).1 = 1%nat ∧
  (run_ops (OpRegister <$> e :: es) m).2 = <[node_id e := with_status ONLINE e]> m.
Proof.
  intros Hne Hoff Hes.
  rewrite fmap_cons, run_ops_cons, run_ops_results_cons, count_ok_cons. simpl.
  destruct (registerNode e m) as [r m'] eqn:E.
  destruct (registerNode_inv e m r m' E) as [(-> & _ & _ & ->)|(_ & _ & [|(old & Hl & Hst)])];
    [|done|by rewrite (Hoff old Hl) in Hst].
  destruct (run_registers_taken es (<[node_id e := with_status ONLINE e]> m)
              (with_status ONLINE e) (node_id e)) as [H1 H2];
    [apply lookup_insert_eq|done..|].
  simpl. by rewrite H1, H2.
Qed.

(** No sequence of operations removes a node: once known, an id stays
    known. *)
Theorem entries_never_removed ops m id :
  contains id m = true → contains id (run_ops ops m).2 = true.
Proof.
  unfold contains. rewrite !bool_decide_eq_true, <-!elem_of_dom.
  apply run_ops_dom.
Qed.

(** A node that is OFFLINE stays so under every operation but a
    registration of its id; heartbeats in particular do not revive it. *)
Theorem offline_until_registered ops m id :
  isOffline id m = true →
  Forall (λ op, registers id op = false) ops →
  isOffline id (run_ops ops m).2 = true.
Proof.
  intros Hoff Hops. revert m Hoff. induction Hops as [|op ops Hop Hops IH]; intros m Hoff; [done|].
  rewrite run_ops_cons. by apply IH, apply_op_offline_stays.
Qed.

(** Whatever happened before, [listNodes] returns every entry once and
    nothing else: ids are distinct, as many as there are nodes, and the listed
    entries are exactly those [queryNode] returns. *)
Theorem listNodes_exact `{MapIter} ops :
  let m := (run_ops ops ∅).2 in
  NoDup (node_id <$> listNodes m) ∧ length (listNodes m) = size m ∧
  ∀ e, e ∈ listNodes m ↔ queryNode (node_id e) m = Some e.
Proof.
  intros m. assert (wf m) as Hwf by apply run_ops_wf, wf_empty.
  split_and!; [by apply listNodes_nodup|apply listNodes_length|].
  intros e. rewrite listNodes_elem. unfold queryNode. split; [|by eauto].
  intros [id Hl]. by destruct (Hwf id e Hl) as [-> _].
Qed.

(** ** Examples *)

Definition demo_entry : NodeEntry := mkNodeEntry "N1" "B" "10.0.0.1" 25 ONLINE 0.

Lemma one_registration_wins_witness :
  count_ok (run_ops (OpRegister <$> [demo_entry; demo_entry; demo_entry]) ∅).1 = 1%nat.
Proof.
  apply (one_registration_wins demo_entry [demo_entry; demo_entry] ∅).
  - discriminate.
  - intros old Hold. discriminate Hold.
  - repeat constructor.
Defined.

Lemma entries_never_removed_witness :
  contains "N1" (run_ops [OpSetOffline "N1" 5; OpUpdateLastSeen "N1" 6]
                   {[ "N1" := demo_entry ]}).2 = true.
Proof. apply entries_never_removed. vm_compute. reflexivity. Defined.

Lemma offline_until_registered_witness :
  isOffline "N1" (run_ops [OpUpdateLastSeen "N1" 6; OpSetOffline "N1" 9]
                    {[ "N1" := with_status OFFLINE demo_entry ]}).2 = true.
Proof.
  apply offline_until_registered.
  - vm_compute. reflexivity.
  - repeat constructor.
Defined.

End NodeRegistry.
