(* ===== verification/Net.v ===== *)
(** * Sockets as the code sees them

    The POSIX calls the program makes on a connected TCP socket.  The kernel
    is an environment: an incoming stream is a list of [recv_ev]s (chunks as
    they arrive, an interrupted call, an error, the peer's end of stream) and
    the outgoing direction a list of [send_ev]s (how much of a [send] the
    kernel takes, or an error).  Code that loops on [recv]/[send] is modelled
    against every such schedule. *)

From S2P Require Import Prelude.
Local Open Scope Z_scope.

(** errno values (Linux). *)
Definition EINTR : Z := 4.
Definition EBADF : Z := 9.
Definition EAGAIN : Z := 11.
Definition EWOULDBLOCK : Z := 11.
Definition EPIPE : Z := 32.
Definition EADDRINUSE : Z := 98.
Definition ECONNRESET : Z := 104.
Definition EINPROGRESS : Z := 115.

Inductive recv_ev :=
| RData (bs : list byte)
| REof
| RErr (e : Z).

(** Outcome of one [recv(fd, buf, n, 0)]: the bytes received (none: the call
    returned 0) or -1 with errno. *)
Inductive recv_res :=
| Got (bs : list byte)
| Failed (e : Z).

(** An exhausted schedule is a silent peer: [SO_RCVTIMEO] makes the call fail
    with [EAGAIN].  End of stream is permanent. *)
Definition recv (n : nat) (ins : list recv_ev) : recv_res * list recv_ev :=
  match ins with
  | [] => (Failed EAGAIN, [])
  | RData bs :: ins' =>
      (Got (take n bs),
       if (n <? length bs)%nat then RData (drop n bs) :: ins' else ins')
  | REof :: _ => (Got [], ins)
  | RErr e :: ins' => (Failed e, ins')
  end.

(** What a stream eventually does once its data has been read. *)
Inductive stop :=
| StopEof
| StopTimeout
| StopErr (e : Z).

#[export] Instance stop_eq_dec : EqDecision stop.
Proof. solve_decision. Defined.

Definition stop_of_errno (e : Z) : stop :=
  if (e =? EAGAIN) || (e =? EWOULDBLOCK) then StopTimeout else StopErr e.

(** The byte stream of a schedule, whatever the chunking and however often
    calls are interrupted. *)
Fixpoint view (ins : list recv_ev) : list byte * stop :=
  match ins with
  | [] => ([], StopTimeout)
  | RData [] :: _ => ([], StopEof)
  | RData bs :: ins' => let '(av, st) := view ins' in (bs ++ av, st)
  | REof :: _ => ([], StopEof)
  | RErr e :: ins' => if e =? EINTR then view ins' else ([], stop_of_errno e)
  end.

Inductive send_ev :=
| SAccept (k : nat)
| SErr (e : Z).

Inductive send_res :=
| Sent (k : nat)
| SendFailed (e : Z).

(** One [send] of [n] bytes; with no more scheduled events the kernel takes
    everything. *)
Definition send (n : nat) (snd : list send_ev) : send_res * list send_ev :=
  match snd with
  | [] => (Sent n, [])
  | SAccept k :: snd' => (Sent (Nat.min k n), snd')
  | SErr e :: snd' => (SendFailed e, snd')
  end.

(** A schedule with no unrecoverable error. *)
Definition send_ok (snd : list send_ev) : Prop :=
  Forall (λ ev, match ev with SErr e => e = EINTR | SAccept _ => True end) snd.

Lemma view_data bs ins :
  bs ≠ [] → view (RData bs :: ins) = (bs ++ (view ins).1, (view ins).2).
Proof. intros. destruct bs; [done|]. simpl. by destruct (view ins). Qed.

Lemma view_eintr ins : view (RErr EINTR :: ins) = view ins.
Proof. done. Qed.

Lemma stop_of_errno_timeout e :
  (e =? EAGAIN) || (e =? EWOULDBLOCK) = true → stop_of_errno e = StopTimeout.
Proof. unfold stop_of_errno. by intros ->. Qed.

Lemma stop_of_errno_other e :
  (e =? EAGAIN) || (e =? EWOULDBLOCK) = false → stop_of_errno e = StopErr e.
Proof. unfold stop_of_errno. by intros ->. Qed.
