(* ===== verification/Serializer.v ===== *)
(** * MessageSerializer: frames on the wire

    Models [include/messageSerializer.hpp] and the framing part of
    [src/messageSerializer.cpp] ([readExact], [buildFrame], [readFrame],
    [sendAll]).  The JSON payload builders are in [Payloads.v]. *)

From S2P Require Import Prelude Net.
Local Open Scope Z_scope.

Module MessageSerializer.

Definition PROTOCOL_VERSION : Z := 1.
Definition ENVELOPE_SIZE : Z := 10.
Definition FRAME_LENGTH_PREFIX_SIZE : Z := 4.
Definition MAX_FRAME_PAYLOAD : Z := 65536.

(** [enum class MessageType : uint8_t].  The type has a fixed underlying
    type, so a cast from the wire may also give a value without a name. *)
Inductive MessageType :=
| REGISTER | ACK | ERROR_MSG | QUERY_NODE | LIST_NODES | HEARTBEAT
| UNNAMED (v : byte).

#[global] Instance MessageType_eq_dec : EqDecision MessageType.
Proof. solve_decision. Defined.

Definition type_byte (t : MessageType) : byte :=
  match t with
  | REGISTER => x01 | ACK => x02 | ERROR_MSG => x03
  | QUERY_NODE => x04 | LIST_NODES => x05 | HEARTBEAT => x06
  | UNNAMED v => v
  end.

Definition byte_type (b : byte) : MessageType :=
  match b with
  | x01 => REGISTER | x02 => ACK | x03 => ERROR_MSG
  | x04 => QUERY_NODE | x05 => LIST_NODES | x06 => HEARTBEAT
  | v => UNNAMED v
  end.

Inductive ProtocolErrorCode :=
| ERR_DUPLICATE | ERR_NOT_FOUND | ERR_MALFORMED | ERR_SERVICE_UNAVAIL
| ERR_TIMEOUT | ERR_CAPACITY | ERR_INTERNAL.

Definition error_code (c : ProtocolErrorCode) : Z :=
  match c with
  | ERR_DUPLICATE => 1 | ERR_NOT_FOUND => 2 | ERR_MALFORMED => 3
  | ERR_SERVICE_UNAVAIL => 4 | ERR_TIMEOUT => 5 | ERR_CAPACITY => 6
  | ERR_INTERNAL => 255
  end.

Inductive FrameReadStatus := OK | PEER_CLOSED | TIMEOUT | IO_ERROR.

#[global] Instance FrameReadStatus_eq_dec : EqDecision FrameReadStatus.
Proof. solve_decision. Defined.

(** [messageType] is value-initialised to 0 by the [{}] of the error
    returns. *)
Record FrameReadResult := mkFrameReadResult {
  fr_status : FrameReadStatus;
  fr_messageType : MessageType;
  fr_messageId : Z;
  fr_payload : string
}.

Definition read_failure (s : FrameReadStatus) : FrameReadResult :=
  mkFrameReadResult s (UNNAMED x00) 0 "".

(** The receiving side of a descriptor: what is still to arrive, and the
    thread's errno, which successful calls leave alone. *)
Record rstate := mkRstate { rs_in : list recv_ev; rs_errno : Z }.

(** ** [readExact]

    One iteration of the loop per unit of fuel.  Every iteration but the last
    uses up an event, so the fuel given below is always enough:
    [readExact_loop_fuel] shows that more changes nothing. *)

Fixpoint readExact_loop (fuel : nat) (n : nat) (buf : list byte) (rs : rstate)
    : FrameReadStatus * list byte * rstate :=
  match fuel with
  | O => (IO_ERROR, buf, rs)
  | S fuel =>
      if (length buf <? n)%nat then
        let '(r, ins) := recv (n - length buf) (rs_in rs) in
        match r with
        | Got [] => (PEER_CLOSED, buf, mkRstate ins (rs_errno rs))
        | Got bs => readExact_loop fuel n (buf ++ bs) (mkRstate ins (rs_errno rs))
        | Failed e =>
            if e =? EINTR then readExact_loop fuel n buf (mkRstate ins e)
            else if (e =? EAGAIN) || (e =? EWOULDBLOCK)
            then (TIMEOUT, buf, mkRstate ins e)
            else (IO_ERROR, buf, mkRstate ins e)
        end
      else (OK, buf, rs)
  end.

Definition readExact (n : nat) (rs : rstate) : FrameReadStatus * list byte * rstate :=
  readExact_loop (S (S (length (rs_in rs)))) n [] rs.

(** ** [buildFrame] *)

(** [memcpy]/indexed stores into the frame at [offset]. *)
Definition store (offset : nat) (bs frame : list byte) : list byte :=
  list_inserts offset bs frame.

Definition buildFrame (type : MessageType) (messageId : Z) (payload : string)
    : list byte :=
  let payloadLen := u32 (str_size payload) in
  let frameLen := u32 (ENVELOPE_SIZE + payloadLen) in
  let totalSize := u32 (FRAME_LENGTH_PREFIX_SIZE + frameLen) in
  let frame := replicate (Z.to_nat totalSize) x00 in
  let frame := store 0 (u32_be frameLen) frame in
  let frame := store 4 [byte_of PROTOCOL_VERSION] frame in
  let frame := store 5 [type_byte type] frame in
  let frame := store 6 (u32_be messageId) frame in
  let frame := store 10 (u32_be payloadLen) frame in
  if 0 <? payloadLen
  then store 14 (take (Z.to_nat payloadLen) (bytes_of_string payload)) frame
  else frame.

(** ** [readFrame] *)

Definition readFrame (rs : rstate) : FrameReadResult * rstate :=
  let '(lenStatus, lenBuf, rs1) := readExact 4 rs in
  if bool_decide (lenStatus ≠ OK) then (read_failure lenStatus, rs1)
  else
    let frameLen := be_u32 lenBuf in
    if frameLen <? ENVELOPE_SIZE then (read_failure IO_ERROR, rs1)
    else
      let payloadLen := u32 (frameLen - ENVELOPE_SIZE) in
      if MAX_FRAME_PAYLOAD <? payloadLen then (read_failure IO_ERROR, rs1)
      else
        let '(envStatus, envelope, rs2) := readExact 10 rs1 in
        if bool_decide (envStatus ≠ OK) then (read_failure envStatus, rs2)
        else
          let msgType := byte_type (nth 1 envelope x00) in
          let messageId := be_u32 (take 4 (drop 2 envelope)) in
          if 0 <? payloadLen then
            let '(payStatus, payload, rs3) := readExact (Z.to_nat payloadLen) rs2 in
            if bool_decide (payStatus ≠ OK) then (read_failure payStatus, rs3)
            else (mkFrameReadResult OK msgType messageId (string_of_bytes payload), rs3)
          else (mkFrameReadResult OK msgType messageId "", rs2).

(** ** [sendAll]

    Returns the verdict, the bytes handed to the kernel, and the remaining
    schedule and errno.  Every call consumes an event of the schedule, and
    with none left the kernel takes everything. *)

Record wstate := mkWstate { ws_snd : list send_ev; ws_errno : Z }.

Fixpoint sendAll_loop (fuel : nat) (totalSent : nat) (data : list byte) (ws : wstate)
    : bool * nat * wstate :=
  match fuel with
  | O => (false, totalSent, ws)
  | S fuel =>
      if (totalSent <? length data)%nat then
        let '(r, snd) := send (length data - totalSent) (ws_snd ws) in
        match r with
        | SendFailed e =>
            if e =? EINTR then sendAll_loop fuel totalSent data (mkWstate snd e)
            else (false, totalSent, mkWstate snd e)
        | Sent k =>
            sendAll_loop fuel (totalSent + k) data (mkWstate snd (ws_errno ws))
        end
      else (true, totalSent, ws)
  end.

Definition sendAll (data : list byte) (ws : wstate) : bool * list byte * wstate :=
  let '(ok, sent, ws') := sendAll_loop (S (S (length (ws_snd ws)))) 0 data ws in
  (ok, take sent data, ws').

(** ** Lemmas: types on the wire *)

Lemma type_byte_type b : type_byte (byte_type b) = b.
Proof. by destruct b. Qed.

(** The value-level enum: [UNNAMED] is only used for values without a name. *)
Definition canonical (t : MessageType) : Prop := byte_type (type_byte t) = t.

#[global] Instance canonical_dec t : Decision (canonical t).
Proof. unfold canonical. apply _. Defined.

Lemma byte_type_canonical b : canonical (byte_type b).
Proof. unfold canonical. by rewrite type_byte_type. Qed.

(** ** Lemmas: [readExact] against the byte stream *)

Definition status_of_stop (s : stop) : FrameReadStatus :=
  match s with
  | StopEof => PEER_CLOSED
  | StopTimeout => TIMEOUT
  | StopErr _ => IO_ERROR
  end.

(** What reading [k] more bytes behind [buf] must return on a stream. *)
Definition reads (k : nat) (buf : list byte) (stream : list byte * stop)
    (r : FrameReadStatus * list byte * rstate) : Prop :=
  let '(av, st) := stream in
  let '(s, buf', rs') := r in
  if decide (k ≤ length av)%nat
  then s = OK ∧ buf' = buf ++ take k av ∧ view (rs_in rs') = (drop k av, st)
  else s = status_of_stop st ∧ ∀ e, st = StopErr e → rs_errno rs' = e.

(** A whole chunk is used up and reading goes on. *)
Lemma reads_chunk k buf bs av st r :
  (length bs ≤ k)%nat → reads (k - length bs) (buf ++ bs) (av, st) r →
  reads k buf (bs ++ av, st) r.
Proof.
  destruct r as [[s buf'] rs']. unfold reads. intros Hk Hr.
  destruct (decide (k - length bs ≤ length av)%nat).
  - destruct Hr as (-> & -> & ->). rewrite decide_True by (rewrite length_app; lia).
    by rewrite take_app_ge, drop_app_ge, <-app_assoc by lia.
  - by rewrite decide_False by (rewrite length_app; lia).
Qed.

(** The chunk is longer than what is missing. *)
Lemma reads_split k buf bs ins er :
  (k < length bs)%nat →
  reads k buf (bs ++ (view ins).1, (view ins).2)
    (OK, buf ++ take k bs, mkRstate (RData (drop k bs) :: ins) er).
Proof.
  intros Hk. unfold reads. rewrite decide_True by (rewrite length_app; lia).
  rewrite take_app_le, drop_app_le by lia. split_and!; [done..|]. cbn [rs_in].
  rewrite view_data; [done|]. intros Hd. apply (f_equal length) in Hd.
  rewrite length_drop in Hd. simpl in Hd. lia.
Qed.

(** The stream ends before the missing bytes. *)
Lemma reads_stop k buf st s buf' rs' :
  (0 < k)%nat → s = status_of_stop st → (∀ e, st = StopErr e → rs_errno rs' = e) →
  reads k buf ([], st) (s, buf', rs').
Proof. intros Hk Hs He. unfold reads. by rewrite decide_False by (simpl; lia). Qed.

Lemma readExact_loop_spec fuel n buf rs :
  (length buf ≤ n)%nat → (S (length (rs_in rs)) < fuel)%nat →
  reads (n - length buf) buf (view (rs_in rs)) (readExact_loop fuel n buf rs).
Proof.
  revert buf rs. induction fuel as [|fuel IH]; intros buf [ins er] Hb Hf; [lia|].
  simpl rs_in in *. simpl readExact_loop.
  destruct (Nat.ltb_spec (length buf) n) as [Hlt|Hge].
  2: { unfold reads. destruct (view ins) eqn:Hv. rewrite decide_True by lia.
       replace (n - length buf)%nat with 0%nat by lia. by rewrite app_nil_r. }
  destruct ins as [|[[|b bs]| |e] ins]; cbn [recv rs_in rs_errno] in *; simpl length in Hf.
  - by apply reads_stop; [lia|..].
  - rewrite take_nil. by apply reads_stop; [lia|..].
  - rewrite view_data by done. set (c := b :: bs) in *.
    destruct (take (n - length buf) c) as [|x xs] eqn:Ht.
    { apply (f_equal length) in Ht. rewrite length_take in Ht. simpl in Ht. lia. }
    rewrite <-Ht. clear x xs Ht.
    destruct (Nat.ltb_spec (n - length buf) (length c)) as [Hs|Hs].
    + destruct fuel as [|fuel]; [lia|]. simpl readExact_loop.
      rewrite length_app, length_take, (proj2 (Nat.ltb_ge _ _)) by lia.
      by apply (reads_split (n - length buf) buf c ins er).
    + rewrite take_ge by lia. apply reads_chunk; [lia|].
      specialize (IH (buf ++ c) (mkRstate ins er)). rewrite length_app, Nat.sub_add_distr in IH.
      rewrite <-surjective_pairing. apply IH; simpl in *; lia.
  - by apply reads_stop; [lia|..].
  - cbn [view]. destruct (Z.eqb_spec e EINTR) as [->|Hne];
      [apply (IH buf (mkRstate ins EINTR)); simpl; lia|].
    destruct ((e =? EAGAIN) || (e =? EWOULDBLOCK)) eqn:Et; (apply reads_stop; [lia|..]).
    1-2: by rewrite stop_of_errno_timeout.
    all: rewrite stop_of_errno_other by done; naive_solver.
Qed.

Lemma readExact_spec n rs :
  let '(av, st) := view (rs_in rs) in
  let '(s, buf, rs') := readExact n rs in
  if decide (n ≤ length av)%nat
  then s = OK ∧ buf = take n av ∧ view (rs_in rs') = (drop n av, st)
  else s = status_of_stop st ∧ ∀ e, st = StopErr e → rs_errno rs' = e.
Proof.
  pose proof (readExact_loop_spec (S (S (length (rs_in rs)))) n [] rs) as H.
  unfold readExact, reads in *.
  destruct (view (rs_in rs)) as [av st].
  destruct (readExact_loop _ _ _ _) as [[s buf] rs'].
  simpl in H. rewrite Nat.sub_0_r in H. apply H; lia.
Qed.

(** More fuel changes nothing. *)
Lemma readExact_loop_fuel f1 f2 n buf rs :
  (S (length (rs_in rs)) < f1)%nat → (S (length (rs_in rs)) < f2)%nat →
  (length buf ≤ n)%nat →
  readExact_loop f1 n buf rs = readExact_loop f2 n buf rs.
Proof.
  revert f2 buf rs. induction f1 as [|f1 IH]; intros [|f2] buf [ins er] H1 H2 Hb;
    simpl in *; try lia.
  destruct (Nat.ltb_spec (length buf) n); [|done].
  destruct ins as [|[bs| |e] ins]; simpl in *; try done.
  - destruct (take (n - length buf) bs) as [|x xs] eqn:Ht; [done|].
    rewrite <-Ht. pose proof (length_take bs (n - length buf)) as Hl.
    destruct (Nat.ltb_spec (n - length buf) (length bs)) as [Hs|Hs].
    + destruct f1 as [|f1], f2 as [|f2]; try lia. simpl.
      rewrite length_app, Hl. by rewrite (proj2 (Nat.ltb_ge _ _)) by lia.
    + apply IH; simpl; [lia..|]. rewrite length_app. lia.
  - destruct (e =? EINTR); [|done]. apply IH; simpl; lia.
Qed.
(** ** Lemmas: [readFrame] as a function of the byte stream *)

(** The frame at the head of a byte stream that ends with [st]. *)
Definition frame_of_stream (av : list byte) (st : stop) : FrameReadResult :=
  if (length av <? 4)%nat then read_failure (status_of_stop st)
  else
    let frameLen := be_u32 (take 4 av) in
    if (frameLen <? ENVELOPE_SIZE) || (ENVELOPE_SIZE + MAX_FRAME_PAYLOAD <? frameLen)
    then read_failure IO_ERROR
    else if Z.of_nat (length av) <? 4 + frameLen then read_failure (status_of_stop st)
    else mkFrameReadResult OK (byte_type (nth 5 av x00)) (be_u32 (take 4 (drop 6 av)))
           (string_of_bytes (take (Z.to_nat (frameLen - ENVELOPE_SIZE)) (drop 14 av))).

Lemma frame_of_stream_ok av st :
  fr_status (frame_of_stream av st) = OK →
  str_size (fr_payload (frame_of_stream av st)) ≤ MAX_FRAME_PAYLOAD ∧
  in_width 32 (fr_messageId (frame_of_stream av st)) ∧
  4 + be_u32 (take 4 av) ≤ Z.of_nat (length av).
Proof.
  unfold frame_of_stream, ENVELOPE_SIZE, MAX_FRAME_PAYLOAD.
  destruct (Nat.ltb_spec (length av) 4); [by destruct st|].
  set (fl := be_u32 (take 4 av)).
  destruct ((fl <? 10) || (10 + 65536 <? fl)) eqn:Hfl; [done|]. bool_to_prop.
  destruct (Z.ltb_spec (Z.of_nat (length av)) (4 + fl)); [by destruct st|].
  intros _. cbn [fr_payload fr_messageId]. split_and!; [| |done].
  - rewrite str_size_bytes, length_take. lia.
  - apply be_u32_range. rewrite length_take, length_drop. lia.
Qed.

Lemma frame_of_stream_min av st :
  fr_status (frame_of_stream av st) = OK → ENVELOPE_SIZE ≤ be_u32 (take 4 av).
Proof.
  unfold frame_of_stream, ENVELOPE_SIZE, MAX_FRAME_PAYLOAD.
  destruct (Nat.ltb_spec (length av) 4); [by destruct st|].
  set (fl := be_u32 (take 4 av)).
  destruct ((fl <? 10) || (10 + 65536 <? fl)) eqn:Hfl; [done|]. bool_to_prop. intros _. lia.
Qed.

Lemma take_drop_commute' {A} n m (l : list A) : take n (drop m l) = drop m (take (m + n) l).
Proof. by rewrite take_drop_commute. Qed.

Lemma nth_take {A} i n (l : list A) d : (i < n)%nat → nth i (take n l) d = nth i l d.
Proof.
  revert i l. induction n as [|n IH]; intros [|i] [|x l] H; simpl; try lia; try done.
  apply IH. lia.
Qed.

Lemma nth_drop {A} i n (l : list A) d : nth i (drop n l) d = nth (n + i) l d.
Proof.
  revert l. induction n as [|n IH]; intros l; [done|].
  destruct l as [|x l]; [by destruct i|]. simpl. apply IH.
Qed.

Lemma readFrame_stream rs :
  let '(av, st) := view (rs_in rs) in
  (readFrame rs).1 = frame_of_stream av st ∧
  (fr_status (readFrame rs).1 = OK →
   view (rs_in (readFrame rs).2) = (drop (Z.to_nat (4 + be_u32 (take 4 av))) av, st)) ∧
  (∀ e, (length av < 4)%nat → st = StopErr e → rs_errno (readFrame rs).2 = e).
Proof.
  unfold readFrame, frame_of_stream.
  pose proof (readExact_spec 4 rs) as H1.
  destruct (view (rs_in rs)) as [av st].
  destruct (readExact 4 rs) as [[s1 b1] rs1].
  destruct (decide (4 ≤ length av)%nat) as [Hl|Hl].
  2: { destruct H1 as [-> He]. rewrite (proj2 (Nat.ltb_lt _ _)) by lia.
       destruct st; split_and!; naive_solver. }
  destruct H1 as (-> & -> & Hv1). rewrite (proj2 (Nat.ltb_ge _ _)) by lia. simpl.
  set (fl := be_u32 (take 4 av)).
  assert (in_width 32 fl) as [Hfl1 Hfl2].
  { apply be_u32_range. rewrite length_take. lia. }
  unfold ENVELOPE_SIZE, MAX_FRAME_PAYLOAD in *.
  destruct (Z.ltb_spec fl 10) as [|Hge]; simpl; [split_and!; [done..|lia]|].
  rewrite wrap_small by (unfold in_width; lia).
  destruct (Z.ltb_spec 65536 (fl - 10)) as [|Hle]; simpl.
  { rewrite (proj2 (Z.ltb_lt _ _)) by lia. split_and!; [done..|lia]. }
  rewrite (proj2 (Z.ltb_ge (10 + 65536) fl)) by lia.
  pose proof (readExact_spec 10 rs1) as H2. rewrite Hv1 in H2.
  destruct (readExact 10 rs1) as [[s2 b2] rs2].
  rewrite length_drop in H2.
  destruct (decide (10 ≤ length av - 4)%nat) as [Hl2|Hl2].
  2: { destruct H2 as [-> _]. rewrite (proj2 (Z.ltb_lt (Z.of_nat (length av)) (4 + fl))) by lia.
       destruct st; split_and!; (done || lia). }
  destruct H2 as (-> & -> & Hv2). simpl.
  rewrite drop_drop in Hv2. simpl in Hv2.
  rewrite nth_take, nth_drop by lia. simpl.
  rewrite take_drop_commute', take_take, take_drop_commute', drop_drop. simpl.
  rewrite (take_drop_commute' 4 6). simpl.
  destruct (Z.ltb_spec 0 (fl - 10)) as [Hp|Hp].
  2: { rewrite (proj2 (Z.ltb_ge (Z.of_nat (length av)) (4 + fl))) by lia.
       replace (fl - 10) with 0 by lia. simpl. split_and!; [done| |lia].
       intros _. rewrite Hv2. repeat f_equal. lia. }
  pose proof (readExact_spec (Z.to_nat (fl - 10)) rs2) as H3. rewrite Hv2 in H3.
  destruct (readExact (Z.to_nat (fl - 10)) rs2) as [[s3 b3] rs3].
  rewrite length_drop in H3.
  destruct (decide (Z.to_nat (fl - 10) ≤ length av - 14)%nat) as [Hl3|Hl3].
  2: { destruct H3 as [-> _]. rewrite (proj2 (Z.ltb_lt (Z.of_nat (length av)) (4 + fl))) by lia.
       destruct st; split_and!; (done || lia). }
  destruct H3 as (-> & -> & Hv3). simpl.
  rewrite (proj2 (Z.ltb_ge (Z.of_nat (length av)) (4 + fl))) by lia. split_and!; [done| |lia].
  intros _. rewrite Hv3, drop_drop. repeat f_equal. lia.
Qed.

(** ** Lemmas: the layout of a built frame *)

Lemma store_app pre bs mid post :
  length mid = length bs →
  store (length pre) bs (pre ++ mid ++ post) = pre ++ bs ++ post.
Proof.
  unfold store. intros Hl.
  rewrite <-(Nat.add_0_r (length pre)), list_inserts_app_r.
  by rewrite list_inserts_0_r.
Qed.

Definition frame_bytes (type : MessageType) (messageId : Z) (payload : list byte)
    : list byte :=
  u32_be (ENVELOPE_SIZE + Z.of_nat (length payload)) ++
  [byte_of PROTOCOL_VERSION; type_byte type] ++
  u32_be messageId ++ u32_be (Z.of_nat (length payload)) ++ payload.

Lemma store_at off pre bs mid post :
  off = length pre → length mid = length bs →
  store off bs (pre ++ mid ++ post) = pre ++ bs ++ post.
Proof. intros ->. apply store_app. Qed.

Lemma store_at_0 bs mid post :
  length mid = length bs → store 0 bs (mid ++ post) = bs ++ post.
Proof. intros Hl. by apply list_inserts_0_r. Qed.

Lemma buildFrame_layout type messageId payload :
  str_size payload < 2 ^ 32 - 14 →
  buildFrame type messageId payload =
  frame_bytes type messageId (bytes_of_string payload).
Proof.
  intros Hs. unfold buildFrame, frame_bytes. unfold str_size in *.
  set (bs := bytes_of_string payload) in *. set (n := length bs) in *.
  unfold ENVELOPE_SIZE, FRAME_LENGTH_PREFIX_SIZE in *.
  rewrite (wrap_small 32 (Z.of_nat n)) by (unfold in_width; lia).
  rewrite (wrap_small 32 (10 + Z.of_nat n)) by (unfold in_width; lia).
  rewrite (wrap_small 32 (4 + _)) by (unfold in_width; lia).
  replace (Z.to_nat (4 + (10 + Z.of_nat n))) with (4 + (1 + (1 + (4 + (4 + n)))))%nat by lia.
  rewrite !replicate_add.
  set (e1 := u32_be (10 + Z.of_nat n)). set (e2 := u32_be messageId).
  set (e3 := u32_be (Z.of_nat n)).
  rewrite store_at_0 by done.
  rewrite (store_at 4 e1) by done.
  rewrite (app_assoc e1), (store_at 5 (e1 ++ [_])) by done.
  rewrite (app_assoc (e1 ++ _)), (store_at 6 ((e1 ++ _) ++ _)) by done.
  rewrite (app_assoc ((e1 ++ _) ++ _)), (store_at 10 (((e1 ++ _) ++ _) ++ _)) by done.
  destruct (Z.ltb_spec 0 (Z.of_nat n)) as [Hn|Hn].
  - rewrite Nat2Z.id, take_ge by done.
    rewrite (app_assoc (((e1 ++ _) ++ _) ++ _)).
    rewrite <-(app_nil_r (replicate n x00)).
    rewrite (store_at 14) by (rewrite ?length_replicate; done).
    by rewrite app_nil_r, <-!app_assoc.
  - destruct bs; [|subst n; simpl in Hn; lia]. by rewrite <-!app_assoc.
Qed.

Lemma length_frame_bytes t id bs : length (frame_bytes t id bs) = (14 + length bs)%nat.
Proof. unfold frame_bytes. rewrite !length_app, !length_u32_be. done. Qed.

(** A built frame at the head of a stream is what [frame_of_stream] finds. *)
Lemma frame_of_stream_build t id payload rest st :
  canonical t → in_width 32 id → str_size payload ≤ MAX_FRAME_PAYLOAD →
  frame_of_stream (buildFrame t id payload ++ rest) st =
    mkFrameReadResult OK t id payload ∧
  drop (Z.to_nat (4 + be_u32 (take 4 (buildFrame t id payload ++ rest))))
    (buildFrame t id payload ++ rest) = rest.
Proof.
  intros Ht Hid Hs. unfold MAX_FRAME_PAYLOAD in Hs.
  rewrite buildFrame_layout by lia. unfold str_size in Hs.
  set (bs := bytes_of_string payload) in *.
  assert (take 4 (frame_bytes t id bs ++ rest) =
          u32_be (ENVELOPE_SIZE + Z.of_nat (length bs))) as Htake by done.
  unfold frame_of_stream. rewrite Htake, be_u32_be
    by (unfold in_width, ENVELOPE_SIZE; lia).
  rewrite length_app, length_frame_bytes.
  unfold ENVELOPE_SIZE, MAX_FRAME_PAYLOAD.
  rewrite (proj2 (Nat.ltb_ge _ _)), !(proj2 (Z.ltb_ge _ _)) by lia. cbn [orb].
  split.
  - f_equal.
    + exact Ht.
    + change (take 4 (drop 6 (frame_bytes t id bs ++ rest))) with (u32_be id).
      by apply be_u32_be.
    + change (drop 14 (frame_bytes t id bs ++ rest)) with (bs ++ rest).
      replace (Z.to_nat _) with (length bs) by lia.
      rewrite take_app_length. apply string_of_bytes_of_string.
  - rewrite drop_app_ge; rewrite length_frame_bytes; [|lia].
    by replace (_ - _)%nat with 0%nat by lia.
Qed.

(** ** Lemmas: [sendAll] *)

Lemma sendAll_loop_spec fuel sent data ws ok sent' ws' :
  (sent ≤ length data)%nat → (S (length (ws_snd ws)) < fuel)%nat →
  sendAll_loop fuel sent data ws = (ok, sent', ws') →
  (sent ≤ sent' ≤ length data)%nat ∧
  (ok = true → sent' = length data) ∧
  (ok = false → (sent' < length data)%nat ∧ ws_errno ws' ≠ EINTR) ∧
  (send_ok (ws_snd ws) → ok = true).
Proof.
  revert sent ws. induction fuel as [|fuel IH]; intros sent [snd er] Hs Hf H; [lia|].
  simpl in H, Hf. destruct (Nat.ltb_spec sent (length data)) as [Hlt|Hge].
  2: { simplify_eq. split_and!; [lia..|done|done]. }
  destruct snd as [|[k|e] snd]; simpl in H.
  - destruct fuel as [|fuel]; [simpl in Hf; lia|]. simpl in H.
    rewrite (proj2 (Nat.ltb_ge _ _)) in H by lia. simplify_eq.
    split_and!; [lia..|done|done].
  - apply IH in H; simpl in *; [|lia..].
    destruct H as (H1 & H2 & H3 & H4). split_and!; [lia..|done|done|].
    intros Hok. apply H4. by apply Forall_cons in Hok as [_ ?].
  - destruct (Z.eqb_spec e EINTR) as [->|Hne].
    + apply IH in H; simpl in *; [|lia..].
      destruct H as (H1 & H2 & H3 & H4). split_and!; [lia..|done|done|].
      intros Hok. apply H4. by apply Forall_cons in Hok as [_ ?].
    + simplify_eq. split_and!; [lia..|done|done|].
      intros Hok. apply Forall_cons in Hok as [? _]. done.
Qed.

Lemma sendAll_spec data ws ok out ws' :
  sendAll data ws = (ok, out, ws') →
  (ok = true → out = data) ∧
  (ok = false → ∃ k, (k < length data)%nat ∧ out = take k data) ∧
  (send_ok (ws_snd ws) → ok = true).
Proof.
  unfold sendAll. destruct (sendAll_loop _ _ _ _) as [[ok' k] ws''] eqn:E.
  intros. simplify_eq. apply sendAll_loop_spec in E; [|lia..].
  destruct E as (H1 & H2 & H3 & H4). split_and!; [|naive_solver|done].
  intros Hok. apply take_ge. rewrite H2 by done. done.
Qed.

(** A schedule without unrecoverable errors stays one. *)
Lemma sendAll_loop_schedule fuel sent data ws :
  send_ok (ws_snd ws) → send_ok (ws_snd (sendAll_loop fuel sent data ws).2).
Proof.
  revert sent ws. induction fuel as [|fuel IH]; intros sent [snd er] Hok; [done|].
  simpl. case_goal; [|done]. destruct snd as [|[k|e] snd]; simpl in *; [by apply IH|..];
    apply Forall_cons in Hok as [He Hok]; [by apply IH|].
  subst e. by apply IH.
Qed.

Lemma sendAll_schedule data ws ok out ws' :
  sendAll data ws = (ok, out, ws') → send_ok (ws_snd ws) → send_ok (ws_snd ws').
Proof.
  unfold sendAll.
  pose proof (sendAll_loop_schedule (S (S (length (ws_snd ws)))) 0 data ws) as Hs.
  destruct (sendAll_loop _ _ _ _) as [[ok' k] ws'']. intros. simplify_eq. by apply Hs.
Qed.

(** ** Correctness of the component *)

(** A message as the two ends of a connection see it. *)
Definition message : Type := MessageType * Z * string.

Definition message_ok (m : message) : Prop :=
  let '(t, id, payload) := m in
  canonical t ∧ in_width 32 id ∧ str_size payload ≤ MAX_FRAME_PAYLOAD.

Definition message_frame (m : message) : list byte :=
  let '(t, id, payload) := m in buildFrame t id payload.

Definition message_result (m : message) : FrameReadResult :=
  let '(t, id, payload) := m in mkFrameReadResult OK t id payload.

Fixpoint readFrames (n : nat) (rs : rstate) : list FrameReadResult * rstate :=
  match n with
  | O => ([], rs)
  | S n =>
      let '(r, rs1) := readFrame rs in
      let '(l, rs2) := readFrames n rs1 in (r :: l, rs2)
  end.

(** C21: however the kernel splits and interrupts the byte stream, reading it
    frame by frame gives back exactly the messages whose [buildFrame]
    encodings were concatenated, in order, and leaves exactly the bytes after
    them. *)
Theorem frames_roundtrip msgs rest st rs :
  Forall message_ok msgs →
  view (rs_in rs) = (concat (message_frame <$> msgs) ++ rest, st) →
  (readFrames (length msgs) rs).1 = message_result <$> msgs ∧
  view (rs_in (readFrames (length msgs) rs).2) = (rest, st).
Proof.
  intros Hok. revert rs. induction Hok as [|[[t id] payload] msgs (Ht & Hid & Hs) Hok IH];
    intros rs Hv; [done|].
  pose proof (readFrame_stream rs) as H. rewrite Hv in H.
  rewrite fmap_cons in H. cbn [concat message_frame] in H. rewrite <-app_assoc in H.
  destruct (frame_of_stream_build t id payload (concat (message_frame <$> msgs) ++ rest) st)
    as [H1 H2]; try done.
  rewrite H1, H2 in H. simpl readFrames.
  destruct (readFrame rs) as [r rs1]. simpl in H. destruct H as (-> & Hv1 & _).
  destruct (IH rs1 (Hv1 eq_refl)) as [IH1 IH2].
  destruct (readFrames (length msgs) rs1) as [l rs2]. simpl in *. by rewrite IH1.
Qed.

Lemma frames_roundtrip_witness :
  let rs := mkRstate [RData (take 3 (buildFrame HEARTBEAT 7 "")); RErr EINTR;
                      RData (drop 3 (buildFrame HEARTBEAT 7 "") ++
                             take 9 (buildFrame QUERY_NODE 8 "{}"));
                      RData (drop 9 (buildFrame QUERY_NODE 8 "{}")); REof] 0 in
  (readFrames 2 rs).1 = [mkFrameReadResult OK HEARTBEAT 7 "";
                         mkFrameReadResult OK QUERY_NODE 8 "{}"].
Proof.
  intros rs.
  refine (proj1 (frames_roundtrip [(HEARTBEAT, 7, ""); (QUERY_NODE, 8, "{}")] [] StopEof rs _ _)).
  - repeat constructor; done.
  - reflexivity.
Defined.

(** C27: [readFrame] is a function of the byte stream alone; it accepts
    exactly the streams whose announced length is that of an envelope and a
    payload of at most [MAX_FRAME_PAYLOAD] bytes and that hold the whole
    frame, rejects other lengths as IO_ERROR and otherwise reports how the
    stream ended. *)
Theorem readFrame_correct rs :
  let '(av, st) := view (rs_in rs) in
  (readFrame rs).1 = frame_of_stream av st ∧
  (fr_status (readFrame rs).1 = OK →
     str_size (fr_payload (readFrame rs).1) ≤ MAX_FRAME_PAYLOAD ∧
     in_width 32 (fr_messageId (readFrame rs).1) ∧
     view (rs_in (readFrame rs).2) = (drop (Z.to_nat (4 + be_u32 (take 4 av))) av, st)).
Proof.
  pose proof (readFrame_stream rs) as H.
  destruct (view (rs_in rs)) as [av st]. destruct H as (-> & Hv & _).
  split; [done|]. intros Hst.
  destruct (frame_of_stream_ok av st Hst) as (? & ? & ?). auto.
Qed.

(** [sendAll] hands the kernel a prefix of the buffer; it reports true
    only when that is the whole buffer, and always does when the socket has
    no error other than interruptions, however short the individual sends. *)
Theorem sendAll_correct data ws :
  let '(ok, out, ws') := sendAll data ws in
  (ok = true → out = data) ∧
  (ok = false → ∃ k, (k < length data)%nat ∧ out = take k data) ∧
  (send_ok (ws_snd ws) → ok = true).
Proof.
  destruct (sendAll data ws) as [[ok out] ws'] eqn:E. by apply sendAll_spec in E.
Qed.

End MessageSerializer.
