(* ===== verification/Session.v ===== *)
(** * SessionManager: session and message identifiers

    Models [include/sessionManager.hpp] and [src/sessionManager.cpp].  The two
    counters are [std::atomic], so a concurrent execution is a sequence of
    [nextSessionId]/[nextMessageId] calls on one [state]. *)

From S2P Require Import Prelude.
Local Open Scope Z_scope.

Module SessionManager.

Record state := mkState {
  m_sessionCounter : Z;
  m_messageCounter : Z
}.

Definition init : state := mkState 0 0.

Definition SESSION_ID_HEX_WIDTH : nat := 16.

Definition nextSessionId (s : state) : string * state :=
  let id := u64 (m_sessionCounter s + 1) in
  (hex_padded SESSION_ID_HEX_WIDTH id,
   mkState (u64 (m_sessionCounter s + 1)) (m_messageCounter s)).

Definition nextMessageId (s : state) : Z * state :=
  (u32 (m_messageCounter s + 1),
   mkState (m_sessionCounter s) (u32 (m_messageCounter s + 1))).

(** [n] calls in the order the atomic counter serialises them. *)
Fixpoint sessionIds (n : nat) (s : state) : list string :=
  match n with
  | O => []
  | S n => (nextSessionId s).1 :: sessionIds n (nextSessionId s).2
  end.

Fixpoint messageIds (n : nat) (s : state) : list Z :=
  match n with
  | O => []
  | S n => (nextMessageId s).1 :: messageIds n (nextMessageId s).2
  end.

(** ** Lemmas *)

Lemma sessionIds_values n s :
  hex_value <$> sessionIds n s =
  (λ k, u64 (m_sessionCounter s + Z.of_nat (S k))) <$> seq 0 n.
Proof.
  revert s. induction n as [|n IH]; intros s; [done|].
  cbn [sessionIds seq]. rewrite !fmap_cons, IH.
  unfold nextSessionId. cbn [fst snd m_sessionCounter]. f_equal.
  - rewrite hex_padded_value; [done|]. apply (wrap_range 64 _ ltac:(lia)).
  - rewrite <-(fmap_S_seq 0), <-list_fmap_compose. apply list_fmap_ext.
    intros _ k _. unfold compose, wrap. rewrite Zplus_mod_idemp_l. f_equal. lia.
Qed.

Lemma messageIds_values n s :
  messageIds n s = (λ k, u32 (m_messageCounter s + Z.of_nat (S k))) <$> seq 0 n.
Proof.
  revert s. induction n as [|n IH]; intros s; [done|].
  cbn [messageIds seq]. rewrite !fmap_cons, IH.
  unfold nextMessageId. cbn [fst snd m_messageCounter]. f_equal.
  rewrite <-(fmap_S_seq 0), <-list_fmap_compose. apply list_fmap_ext.
  intros _ k _. unfold compose, wrap. rewrite Zplus_mod_idemp_l. f_equal. lia.
Qed.

Lemma NoDup_wrap_window w a n :
  0 ≤ w → Z.of_nat n ≤ 2 ^ w →
  NoDup ((λ k, wrap w (a + Z.of_nat (S k))) <$> seq 0 n).
Proof.
  intros Hw Hn. apply NoDup_fmap_2_strong; [|apply NoDup_seq].
  intros i j Hi Hj H. apply elem_of_seq in Hi, Hj.
  replace (a + Z.of_nat (S i)) with ((a + 1) + Z.of_nat i) in H by lia.
  replace (a + Z.of_nat (S j)) with ((a + 1) + Z.of_nat j) in H by lia.
  apply wrap_window_inj in H; lia.
Qed.

Lemma sessionIds_length n s :
  Forall (λ id, length (bytes_of_string id) = SESSION_ID_HEX_WIDTH) (sessionIds n s).
Proof.
  revert s. induction n as [|n IH]; intros s; simpl; constructor; [|apply IH].
  apply hex_padded_length; [unfold SESSION_ID_HEX_WIDTH; lia|].
  apply (wrap_range 64). lia.
Qed.

(** ** Correctness of the component *)

(** Up to [2^64] session ids issued from any counter value, by any number
    of threads, are pairwise distinct strings of exactly 16 characters that
    are the hexadecimal form of the counter. *)
Theorem session_ids_unique n s :
  Z.of_nat n ≤ 2 ^ 64 →
  NoDup (sessionIds n s) ∧
  Forall (λ id, length (bytes_of_string id) = SESSION_ID_HEX_WIDTH) (sessionIds n s) ∧
  hex_value <$> sessionIds n s =
    (λ k, u64 (m_sessionCounter s + Z.of_nat (S k))) <$> seq 0 n.
Proof.
  intros Hn. split_and!; [|apply sessionIds_length|apply sessionIds_values].
  apply (NoDup_fmap_1 hex_value). rewrite sessionIds_values.
  apply NoDup_wrap_window; [lia|done].
Qed.

Lemma session_ids_unique_witness :
  NoDup (sessionIds 3 init) ∧
  sessionIds 3 init = ["0000000000000001"; "0000000000000002"; "0000000000000003"].
Proof.
  split; [|vm_compute; reflexivity].
  refine (proj1 (session_ids_unique 3 init _)). vm_compute. discriminate.
Defined.

(** Message ids are the successive values of a 32-bit counter: any
    [2^32] consecutive ones are distinct. *)
Theorem message_ids_unique n s :
  Z.of_nat n ≤ 2 ^ 32 →
  NoDup (messageIds n s) ∧
  messageIds n s = (λ k, u32 (m_messageCounter s + Z.of_nat (S k))) <$> seq 0 n.
Proof.
  intros Hn. rewrite messageIds_values.
  split; [apply NoDup_wrap_window; [lia|done]|done].
Qed.

Lemma message_ids_unique_witness :
  NoDup (messageIds 2 (mkState 0 (2 ^ 32 - 1))) ∧
  messageIds 2 (mkState 0 (2 ^ 32 - 1)) = [0; 1].
Proof.
  split; [|vm_compute; reflexivity].
  refine (proj1 (message_ids_unique 2 (mkState 0 (2 ^ 32 - 1)) _)).
  vm_compute. discriminate.
Defined.

End SessionManager.
