(* ===== verification/Config.v ===== *)
(** * ServerConfig: configuration from the environment

    Models [include/serverConfig.hpp] and [src/serverConfig.cpp].  The
    environment is a finite map; [std::stoul] is the C++ library function on
    the bytes of the value; the second component of a parse is what it prints
    to stderr. *)

From S2P Require Import Prelude.
Local Open Scope Z_scope.

Module ServerConfig.

Abbreviation environ := (gmap string string).

Definition DEFAULT_PORT : Z := 9026.
Definition DEFAULT_METRICS_PORT : Z := 9464.
Definition DEFAULT_IDLE_TIMEOUT : Z := 30.
Definition DEFAULT_THREAD_POOL_SIZE : Z := 16.
Definition DEFAULT_MAX_CLIENTS : Z := 10000.
Definition DEFAULT_HEARTBEAT_INTERVAL : Z := 5.

Record config := mkConfig {
  m_port : Z;
  m_metricsPort : Z;
  m_idleTimeoutSecs : Z;
  m_threadPoolSize : Z;
  m_maxClients : Z;
  m_heartbeatIntervalSecs : Z
}.

(** ** [std::stoul(str, &pos)], base 10: leading white space, an optional
    sign, digits.  A minus sign negates in [unsigned long].  [None] is the
    exception ([invalid_argument] or [out_of_range]). *)

Definition isspace (b : byte) : bool :=
  let v := byte_val b in (v =? 32) || ((9 <=? v) && (v <=? 13)).

Definition stoul (str : list byte) : option (Z * nat) :=
  let '(spaces, s1) := span isspace str in
  let '(neg, s2, signlen) :=
    match s1 with
    | x2d :: r => (true, r, 1%nat)
    | x2b :: r => (false, r, 1%nat)
    | _ => (false, s1, 0%nat)
    end in
  let '(digits, _) := span isdigit s2 in
  match digits with
  | [] => None
  | _ =>
      let v := of_digits 10 (map char_digit digits) in
      if 2 ^ 64 - 1 <? v then None
      else Some (if neg then u64 (- v) else v,
                 (length spaces + signlen + length digits)%nat)
  end.

(** ** The parse helpers *)

Definition readUnsignedLong (env : environ) (name : string) : option Z :=
  match env !! name with
  | None => None
  | Some raw =>
      if str_empty raw then None
      else
        match stoul (bytes_of_string raw) with
        | None => None
        | Some (val, pos) =>
            if (pos =? length (bytes_of_string raw))%nat then Some val else None
        end
  end.

Record ParseRange := mkParseRange { m_min : Z; m_max : Z; m_defaultVal : Z }.

(** [w] is the width of the template argument [T]. *)
Definition parseEnv (w : Z) (env : environ) (name : string) (range : ParseRange)
    : Z * list string :=
  match readUnsignedLong env name with
  | None =>
      (m_defaultVal range,
       match env !! name with
       | Some _ => ["[WARN] serverConfig: " +:+ name +:+
                    " is not a valid number — using default " +:+
                    to_string (m_defaultVal range)]
       | None => []
       end)
  | Some raw =>
      if (raw <? m_min range) || (m_max range <? raw) then
        (m_defaultVal range,
         ["[WARN] serverConfig: " +:+ name +:+ "=" +:+ to_string raw +:+
          " out of range [" +:+ to_string (m_min range) +:+ ", " +:+
          to_string (m_max range) +:+ "] — using default " +:+
          to_string (m_defaultVal range)])
      else (wrap w raw, [])
  end.

Definition parseMetricsPort (env : environ) : Z * list string :=
  match readUnsignedLong env "EOP_METRICS_PORT" with
  | None =>
      (DEFAULT_METRICS_PORT,
       match env !! "EOP_METRICS_PORT" with
       | Some _ => ["[WARN] serverConfig: EOP_METRICS_PORT is not a valid number — using default "
                    +:+ to_string DEFAULT_METRICS_PORT]
       | None => []
       end)
  | Some raw =>
      if 65535 <? raw then
        (DEFAULT_METRICS_PORT,
         ["[WARN] serverConfig: EOP_METRICS_PORT=" +:+ to_string raw +:+
          " out of range — using default " +:+ to_string DEFAULT_METRICS_PORT])
      else (u16 raw, [])
  end.

Definition fromEnv (env : environ) : config * list string :=
  let '(port, w1) := parseEnv 16 env "EOP_PORT" (mkParseRange 1 65535 DEFAULT_PORT) in
  let '(mport, w2) := parseMetricsPort env in
  let '(idle, w3) :=
    parseEnv 32 env "EOP_IDLE_TIMEOUT" (mkParseRange 1 3600 DEFAULT_IDLE_TIMEOUT) in
  let '(pool, w4) :=
    parseEnv 32 env "EOP_THREAD_POOL_SIZE" (mkParseRange 1 256 DEFAULT_THREAD_POOL_SIZE) in
  let '(maxc, w5) :=
    parseEnv 32 env "EOP_MAX_CLIENTS" (mkParseRange 1 100000 DEFAULT_MAX_CLIENTS) in
  let '(hb, w6) :=
    parseEnv 32 env "EOP_HEARTBEAT_INTERVAL"
      (mkParseRange 1 300 DEFAULT_HEARTBEAT_INTERVAL) in
  (mkConfig port mport idle pool maxc hb, w1 ++ w2 ++ w3 ++ w4 ++ w5 ++ w6).

(** ** Lemmas *)

(** What every field of a configuration satisfies. *)
Definition valid (c : config) : Prop :=
  1 ≤ m_port c ≤ 65535 ∧ 0 ≤ m_metricsPort c ≤ 65535 ∧
  1 ≤ m_idleTimeoutSecs c ≤ 3600 ∧ 1 ≤ m_threadPoolSize c ≤ 256 ∧
  1 ≤ m_maxClients c ≤ 100000 ∧ 1 ≤ m_heartbeatIntervalSecs c ≤ 300.

Lemma isdigit_not_space b : isdigit b = true → isspace b = false.
Proof. by destruct b. Qed.

Lemma stoul_dec n :
  in_width 64 n → stoul (dec_digits n) = Some (n, length (dec_digits n)).
Proof.
  intros [Hn1 Hn2]. unfold stoul.
  pose proof (dec_digits_isdigit n Hn1) as Hd.
  pose proof (dec_digits_nonnil n) as Hne.
  pose proof (dec_digits_read n Hn1) as Hr.
  destruct (dec_digits n) as [|d ds] eqn:E; [done|].
  apply Forall_cons in Hd as Hd'. destruct Hd' as [Hd1 _].
  pose proof (span_app isspace [] (d :: ds) ltac:(done)) as Hsp.
  simpl app in Hsp. rewrite Hsp
    by (intros b r' H; simplify_eq; by apply isdigit_not_space).
  assert (∀ A (x y z : A), match d with x2d => x | x2b => y | _ => z end = z) as Hm
    by (intros; by destruct d).
  rewrite Hm. rewrite span_all by done.
  rewrite Hr, (proj2 (Z.ltb_ge _ _)) by lia. done.
Qed.

Lemma to_string_nonneg n : 0 ≤ n → bytes_of_string (to_string n) = dec_digits n.
Proof.
  intros Hn. unfold to_string. rewrite (proj2 (Z.ltb_ge n 0)) by lia.
  apply bytes_of_string_of_bytes.
Qed.

Lemma readUnsignedLong_to_string env name n :
  in_width 64 n → env !! name = Some (to_string n) →
  readUnsignedLong env name = Some n.
Proof.
  intros Hn He. unfold readUnsignedLong. rewrite He.
  assert (bytes_of_string (to_string n) = dec_digits n) as Hb
    by (apply to_string_nonneg; apply Hn).
  destruct (str_empty (to_string n)) eqn:E.
  { apply str_empty_true in E. rewrite E in Hb.
    by destruct (dec_digits_nonnil n). }
  by rewrite Hb, stoul_dec, Nat.eqb_refl.
Qed.

Lemma parseEnv_range w env name range :
  0 ≤ m_min range → m_max range < 2 ^ w →
  m_min range ≤ m_defaultVal range ≤ m_max range →
  m_min range ≤ (parseEnv w env name range).1 ≤ m_max range.
Proof.
  intros H1 H2 H3. unfold parseEnv. destruct (readUnsignedLong env name) as [raw|]; [|done].
  destruct ((raw <? m_min range) || (m_max range <? raw)) eqn:E; [done|].
  bool_to_prop. simpl. rewrite wrap_small by (unfold in_width; lia). lia.
Qed.

Lemma parseEnv_to_string w env name range n :
  0 ≤ w ≤ 64 → 0 ≤ m_min range → m_max range < 2 ^ w →
  m_min range ≤ n ≤ m_max range → env !! name = Some (to_string n) →
  parseEnv w env name range = (n, []).
Proof.
  intros Hw H1 H2 H3 He.
  assert (2 ^ w ≤ 2 ^ 64) by (apply Z.pow_le_mono_r; lia).
  unfold parseEnv. rewrite (readUnsignedLong_to_string env name n)
    by (done || unfold in_width; lia).
  rewrite !(proj2 (Z.ltb_ge _ _)) by lia. cbn [orb].
  by rewrite wrap_small by (unfold in_width; lia).
Qed.

Lemma of_digits_nonneg ds : Forall (λ d, 0 ≤ d) ds → 0 ≤ of_digits 10 ds.
Proof.
  intros Hds. unfold of_digits.
  enough (∀ a, 0 ≤ a → 0 ≤ fold_left (λ acc d, acc * 10 + d) ds a) as H by (by apply H).
  induction Hds as [|d ds Hd Hds IH]; intros a Ha; simpl; [done|]. apply IH. lia.
Qed.

Lemma isdigit_char_digit b : isdigit b = true → 0 ≤ char_digit b.
Proof. by destruct b. Qed.

Lemma stoul_nonneg bs v pos : stoul bs = Some (v, pos) → 0 ≤ v.
Proof.
  unfold stoul. destruct (span isspace bs) as [sp s1].
  destruct (match s1 with x2d :: r => _ | x2b :: r => _ | _ => _ end) as [[neg s2] sl].
  pose proof (span_forall isdigit s2) as Hd.
  destruct (span isdigit s2) as [[|d ds] ?]; [done|]. simpl in Hd.
  destruct (Z.ltb_spec (2 ^ 64 - 1) (of_digits 10 (map char_digit (d :: ds)))); [done|].
  intros. simplify_eq. destruct neg; [apply (wrap_range 64 _ ltac:(lia))|].
  apply of_digits_nonneg, Forall_map. eapply Forall_impl; [done|].
  intros. by apply isdigit_char_digit.
Qed.

Lemma parseMetricsPort_range env : 0 ≤ (parseMetricsPort env).1 ≤ 65535.
Proof.
  unfold parseMetricsPort. destruct (readUnsignedLong env _) as [raw|] eqn:E; [|done].
  destruct (Z.ltb_spec 65535 raw); [done|]. simpl.
  pose proof (wrap_range 16 raw ltac:(lia)). unfold in_width in *. lia.
Qed.

Lemma parseMetricsPort_to_string env n :
  0 ≤ n ≤ 65535 → env !! "EOP_METRICS_PORT" = Some (to_string n) →
  parseMetricsPort env = (n, []).
Proof.
  intros Hn He. unfold parseMetricsPort.
  rewrite (readUnsignedLong_to_string env _ n) by (done || unfold in_width; lia).
  rewrite (proj2 (Z.ltb_ge _ _)) by lia. by rewrite wrap_small by (unfold in_width; lia).
Qed.

(** The environment that spells a configuration out. *)
Definition environ_of (c : config) : environ :=
  {[ "EOP_PORT" := to_string (m_port c);
     "EOP_METRICS_PORT" := to_string (m_metricsPort c);
     "EOP_IDLE_TIMEOUT" := to_string (m_idleTimeoutSecs c);
     "EOP_THREAD_POOL_SIZE" := to_string (m_threadPoolSize c);
     "EOP_MAX_CLIENTS" := to_string (m_maxClients c);
     "EOP_HEARTBEAT_INTERVAL" := to_string (m_heartbeatIntervalSecs c) ]}.

(** ** Correctness of the component *)

(** C40: whatever the environment holds, every field of the loaded
    configuration is within its documented range. *)
Theorem fromEnv_valid env : valid (fromEnv env).1.
Proof.
  unfold fromEnv, valid.
  pose proof (parseMetricsPort_range env) as Hm.
  pose proof (λ w name mn mx d, parseEnv_range w env name (mkParseRange mn mx d)) as H.
  repeat match goal with
  | |- context [parseEnv ?w env ?name (mkParseRange ?a ?b ?d)] =>
      pose proof (H w name a b d ltac:(done) ltac:(done) ltac:(done));
      destruct (parseEnv w env name (mkParseRange a b d)) as [? ?]; simpl in *
  end.
  destruct (parseMetricsPort env). simpl in *. lia.
Qed.

(** C39: an environment that spells out a valid configuration in decimal is
    read back exactly, with no warning. *)
Theorem fromEnv_roundtrip c : valid c → fromEnv (environ_of c) = (c, []).
Proof.
  intros (H1 & H2 & H3 & H4 & H5 & H6). unfold fromEnv.
  rewrite (parseEnv_to_string 16 _ "EOP_PORT" _ (m_port c)) by done.
  rewrite (parseMetricsPort_to_string _ (m_metricsPort c)) by done.
  rewrite (parseEnv_to_string 32 _ "EOP_IDLE_TIMEOUT" _ (m_idleTimeoutSecs c)) by done.
  rewrite (parseEnv_to_string 32 _ "EOP_THREAD_POOL_SIZE" _ (m_threadPoolSize c)) by done.
  rewrite (parseEnv_to_string 32 _ "EOP_MAX_CLIENTS" _ (m_maxClients c)) by done.
  rewrite (parseEnv_to_string 32 _ "EOP_HEARTBEAT_INTERVAL" _ (m_heartbeatIntervalSecs c))
    by done.
  by destruct c.
Qed.

Lemma fromEnv_roundtrip_witness :
  fromEnv (environ_of (mkConfig 9026 0 30 16 10000 5)) =
  (mkConfig 9026 0 30 16 10000 5, []).
Proof.
  refine (fromEnv_roundtrip (mkConfig 9026 0 30 16 10000 5) _).
  unfold valid. simpl. lia.
Defined.

(** [std::stoul] accepts a minus sign and negates modulo [2^64], so the
    out-of-range value "-18446744073709551536" is taken as port 80 without a
    warning instead of falling back to the default. *)
Theorem negative_port_accepted :
  fromEnv {[ "EOP_PORT" := "-18446744073709551536" ]} =
  (mkConfig 80 DEFAULT_METRICS_PORT DEFAULT_IDLE_TIMEOUT DEFAULT_THREAD_POOL_SIZE
     DEFAULT_MAX_CLIENTS DEFAULT_HEARTBEAT_INTERVAL, []).
Proof. vm_compute. reflexivity. Qed.

End ServerConfig.
