(* ===== verification/Time.v ===== *)
(** * Calendar time

    The C++ library calls behind the three ISO-8601 formatters of the program
    ([QueryHandler::toIso8601], [Logger::nowIso8601Utc] and
    [getIso8601Timestamp] of the thread pool): [system_clock::to_time_t],
    [gmtime_r] and the format ["%Y-%m-%dT%H:%M:%SZ"].  Time points are
    nanoseconds since the epoch, not before 1970. *)

From S2P Require Import Prelude.
Local Open Scope Z_scope.

Module Time.

(** [std::tm], the fields the format uses (month and day from 1). *)
Record tm := mkTm {
  tm_year : Z; tm_mon : Z; tm_mday : Z; tm_hour : Z; tm_min : Z; tm_sec : Z
}.

Definition is_leap (y : Z) : bool :=
  ((y mod 4 =? 0) && negb (y mod 100 =? 0)) || (y mod 400 =? 0).

Definition year_days (y : Z) : Z := if is_leap y then 366 else 365.

Definition month_lengths (y : Z) : list Z :=
  [31; if is_leap y then 29 else 28; 31; 30; 31; 30; 31; 31; 30; 31; 30; 31].

(** The year containing day [d] (0-based) counted from January 1st of [y]. *)
Fixpoint year_loop (fuel : nat) (y d : Z) : Z * Z :=
  match fuel with
  | O => (y, d)
  | S fuel =>
      if d <? year_days y then (y, d) else year_loop fuel (y + 1) (d - year_days y)
  end.

Fixpoint month_loop (lens : list Z) (m d : Z) : Z * Z :=
  match lens with
  | [] => (m, d)
  | n :: lens => if d <? n then (m, d) else month_loop lens (m + 1) (d - n)
  end.

Definition gmtime (t : Z) : tm :=
  let days := t / 86400 in
  let secs := t mod 86400 in
  let '(y, yd) := year_loop (S (Z.to_nat (days / 365))) 1970 days in
  let '(m, md) := month_loop (month_lengths y) 1 yd in
  mkTm y m (md + 1) (secs / 3600) (secs mod 3600 / 60) (secs mod 60).

(** Decimal, zero-padded to at least [k] characters. *)
Definition pad_dec (k : nat) (n : Z) : list byte :=
  replicate (k - length (dec_digits n)) x30 ++ dec_digits n.

Definition strftime_iso (t : tm) : string :=
  string_of_bytes
    (pad_dec 4 (tm_year t) ++ [x2d] ++ pad_dec 2 (tm_mon t) ++ [x2d] ++
     pad_dec 2 (tm_mday t) ++ [x54] ++ pad_dec 2 (tm_hour t) ++ [x3a] ++
     pad_dec 2 (tm_min t) ++ [x3a] ++ pad_dec 2 (tm_sec t) ++ [x5a]).

(** [system_clock::to_time_t] of a nanosecond time point. *)
Definition to_time_t (ns : Z) : Z := Z.quot ns 1000000000.

Definition iso8601 (ns : Z) : string := strftime_iso (gmtime (to_time_t ns)).

(** ** The inverse *)

Fixpoint days_before_year (n : nat) (y : Z) : Z :=
  match n with O => 0 | S n => year_days y + days_before_year n (y + 1) end.

Fixpoint days_before_month (n : nat) (lens : list Z) : Z :=
  match n, lens with
  | S n, l :: lens => l + days_before_month n lens
  | _, _ => 0
  end.

Definition timegm (t : tm) : Z :=
  86400 * (days_before_year (Z.to_nat (tm_year t - 1970)) 1970 +
           days_before_month (Z.to_nat (tm_mon t - 1)) (month_lengths (tm_year t)) +
           (tm_mday t - 1)) +
  3600 * tm_hour t + 60 * tm_min t + tm_sec t.

(** ** Lemmas *)

Lemma year_days_range y : 365 ≤ year_days y ≤ 366.
Proof. unfold year_days. case_goal; lia. Qed.

Lemma year_loop_spec fuel y d y' d' :
  0 ≤ d → d / 365 < Z.of_nat fuel → year_loop fuel y d = (y', d') →
  y ≤ y' ∧ 0 ≤ d' < year_days y' ∧
  days_before_year (Z.to_nat (y' - y)) y + d' = d.
Proof.
  revert y d. induction fuel as [|fuel IH]; intros y d Hd Hf H; simpl in H.
  { pose proof (Z.div_pos d 365). lia. }
  destruct (Z.ltb_spec d (year_days y)).
  { simplify_eq. replace (y' - y') with 0 by lia. simpl. lia. }
  pose proof (year_days_range y).
  apply IH in H; [|lia|].
  - destruct H as (? & ? & ?). split_and!; [lia..|].
    replace (Z.to_nat (y' - y)) with (S (Z.to_nat (y' - (y + 1)))) by lia. simpl. lia.
  - assert ((d - year_days y) / 365 ≤ (d - 365) / 365) by (apply Z.div_le_mono; lia).
    replace (d - 365) with (d + (-1) * 365) in * by lia.
    rewrite Z.div_add in * by lia. lia.
Qed.

Lemma month_loop_spec lens m d m' d' :
  0 ≤ d < foldr Z.add 0 lens → Forall (λ n, 0 ≤ n) lens →
  month_loop lens m d = (m', d') →
  m ≤ m' < m + Z.of_nat (length lens) ∧
  (∃ n, lens !! Z.to_nat (m' - m) = Some n ∧ 0 ≤ d' < n) ∧
  days_before_month (Z.to_nat (m' - m)) lens + d' = d.
Proof.
  revert m d. induction lens as [|n lens IH]; intros m d Hd Hl H; simpl in *; [lia|].
  apply Forall_cons in Hl as [Hn Hl].
  destruct (Z.ltb_spec d n).
  { simplify_eq. replace (m' - m') with 0 by lia. simpl. split_and!; [lia..| |lia].
    eauto with lia. }
  apply IH in H; [|lia|done]. destruct H as (? & ? & ?).
  split; [lia|].
  replace (Z.to_nat (m' - m)) with (S (Z.to_nat (m' - (m + 1)))) by lia. simpl.
  split; [done|lia].
Qed.

Lemma month_lengths_sum y : foldr Z.add 0 (month_lengths y) = year_days y.
Proof. unfold month_lengths, year_days. by destruct (is_leap y). Qed.

Lemma month_lengths_range y : Forall (λ n, 0 ≤ n ≤ 31) (month_lengths y).
Proof. unfold month_lengths. repeat constructor; by destruct (is_leap y). Qed.

Definition tm_ok (t : tm) : Prop :=
  1970 ≤ tm_year t ∧ 1 ≤ tm_mon t ≤ 12 ∧ 1 ≤ tm_mday t ≤ 31 ∧
  0 ≤ tm_hour t < 24 ∧ 0 ≤ tm_min t < 60 ∧ 0 ≤ tm_sec t < 60.

Lemma gmtime_spec t : 0 ≤ t → tm_ok (gmtime t) ∧ timegm (gmtime t) = t.
Proof.
  intros Ht. unfold gmtime, timegm, tm_ok.
  assert (0 ≤ t / 86400) by (apply Z.div_pos; lia).
  destruct (year_loop _ _ _) as [y yd] eqn:Ey.
  apply year_loop_spec in Ey as (Hy & Hyd & Hd1); [|done|].
  2: { pose proof (Z.div_pos (t / 86400) 365). lia. }
  destruct (month_loop _ _ _) as [m md] eqn:Em.
  pose proof (month_lengths_range y) as Hr.
  apply month_loop_spec in Em as (Hm & (n & Hl & Hmd) & Hd2).
  - change (length (month_lengths y)) with 12%nat in Hm.
    rewrite Forall_lookup in Hr. pose proof (Hr _ _ Hl). simpl.
    replace (md + 1 - 1) with md by lia.
    assert (days_before_year (Z.to_nat (y - 1970)) 1970 +
            days_before_month (Z.to_nat (m - 1)) (month_lengths y) + md = t / 86400)
      as -> by lia.
    pose proof (Z.div_mod t 86400 ltac:(lia)).
    pose proof (Z.mod_pos_bound t 86400 ltac:(lia)).
    split_and!; try lia; Z.to_euclidean_division_equations; lia.
  - by rewrite month_lengths_sum.
  - eapply Forall_impl; [apply month_lengths_range|]. simpl. lia.
Qed.

(** Zero-padded decimals of a fixed width read back. *)
Lemma pad_dec_length k n :
  (0 < k)%nat → 0 ≤ n < 10 ^ Z.of_nat k → length (pad_dec k n) = k.
Proof.
  intros Hk Hn. unfold pad_dec. rewrite length_app, length_replicate.
  unfold dec_digits. rewrite length_map.
  pose proof (to_digits_length 10 n k ltac:(lia) Hn Hk). lia.
Qed.

Lemma pad_dec_value k n :
  0 ≤ n → of_digits 10 (map char_digit (pad_dec k n)) = n.
Proof.
  intros Hn. unfold pad_dec. rewrite map_app, map_replicate.
  change (char_digit x30) with 0. rewrite of_digits_zeros. by apply dec_digits_read.
Qed.

Lemma pad_dec_inj k n m : 0 ≤ n → 0 ≤ m → pad_dec k n = pad_dec k m → n = m.
Proof.
  intros Hn Hm H. rewrite <-(pad_dec_value k n), <-(pad_dec_value k m) by done.
  by rewrite H.
Qed.

Lemma strftime_iso_length t :
  tm_ok t → tm_year t ≤ 9999 → str_size (strftime_iso t) = 20.
Proof.
  intros (H1 & H2 & H3 & H4 & H5 & H6) Hy. unfold strftime_iso.
  rewrite str_size_bytes, !length_app, !pad_dec_length by (simpl; lia). done.
Qed.

Lemma strftime_iso_inj t1 t2 :
  tm_ok t1 → tm_ok t2 → tm_year t1 ≤ 9999 → tm_year t2 ≤ 9999 →
  strftime_iso t1 = strftime_iso t2 → t1 = t2.
Proof.
  intros O1 O2 Y1 Y2 Heq. unfold tm_ok in O1, O2.
  apply (f_equal bytes_of_string) in Heq. unfold strftime_iso in Heq.
  rewrite !bytes_of_string_of_bytes in Heq.
  destruct t1, t2; simpl in *.
  repeat (apply app_inj_1 in Heq as [?%pad_dec_inj Heq];
          [|lia|lia|by rewrite !pad_dec_length by (simpl; lia)];
          simpl in Heq; injection Heq as Heq).
  apply app_inj_1 in Heq as [?%pad_dec_inj _];
    [congruence|lia|lia|by rewrite !pad_dec_length by (simpl; lia)].
Qed.

(** The text is ASCII. *)
Lemma dec_digits_ascii n : 0 ≤ n → Forall (λ b, byte_val b ≤ 127) (dec_digits n).
Proof.
  intros Hn. eapply Forall_impl; [by apply dec_digits_isdigit|].
  intros b Hb. unfold isdigit in Hb. bool_to_prop. lia.
Qed.

Lemma pad_dec_ascii k n : 0 ≤ n → Forall (λ b, byte_val b ≤ 127) (pad_dec k n).
Proof.
  intros Hn. apply Forall_app. split; [|by apply dec_digits_ascii].
  by apply Forall_replicate.
Qed.

Lemma iso8601_ascii ns :
  0 ≤ ns → Forall (λ b, byte_val b ≤ 127) (bytes_of_string (iso8601 ns)).
Proof.
  intros Hns. unfold iso8601, to_time_t. rewrite Z.quot_div_nonneg by lia.
  destruct (gmtime_spec (ns / 1000000000)) as [(? & ? & ? & ? & ? & ?) _].
  { apply Z.div_pos; lia. }
  unfold strftime_iso. rewrite bytes_of_string_of_bytes.
  rewrite !Forall_app, !Forall_singleton.
  split_and!; try (apply pad_dec_ascii; lia); vm_compute; discriminate.
Qed.

(** ** Correctness *)

(** The ISO-8601 text of a time point (years 1970 to 9999) has 20
    characters and determines the second: [gmtime] is inverted by [timegm]
    and equal texts come from equal seconds. *)
Theorem iso8601_faithful t1 t2 :
  0 ≤ t1 → 0 ≤ t2 →
  tm_year (gmtime (to_time_t t1)) ≤ 9999 → tm_year (gmtime (to_time_t t2)) ≤ 9999 →
  str_size (iso8601 t1) = 20 ∧
  timegm (gmtime (to_time_t t1)) = t1 / 1000000000 ∧
  (iso8601 t1 = iso8601 t2 → t1 / 1000000000 = t2 / 1000000000).
Proof.
  intros H1 H2 Hy1 Hy2. unfold iso8601, to_time_t in *.
  rewrite (Z.quot_div_nonneg t1) in * by lia.
  rewrite (Z.quot_div_nonneg t2) in * by lia.
  assert (0 ≤ t1 / 1000000000) as P1 by (apply Z.div_pos; lia).
  assert (0 ≤ t2 / 1000000000) as P2 by (apply Z.div_pos; lia).
  destruct (gmtime_spec _ P1) as [O1 E1]. destruct (gmtime_spec _ P2) as [O2 E2].
  split_and!; [by apply strftime_iso_length|done|].
  intros H. rewrite <-E1, <-E2. f_equal. by apply strftime_iso_inj.
Qed.

Lemma iso8601_faithful_witness :
  str_size (iso8601 1774224000000000000) = 20 ∧
  iso8601 1774224000000000000 = "2026-03-23T00:00:00Z".
Proof.
  split; [|vm_compute; reflexivity].
  refine (proj1 (iso8601_faithful 1774224000000000000 0 _ _ _ _));
    vm_compute; discriminate.
Defined.

End Time.
