(* ===== verification/Json.v ===== *)
(** * The JSON library as the program uses it

    The server calls nlohmann::json, which is not part of the repository.  It
    is a parameter: [JsonLib] names the operations the code calls and
    [JsonLaws] the documented behaviour the theorems rely on.  [JsonRef.v]
    gives an instance.  [dump] and [parse] are partial: [None] is a thrown
    [nlohmann::json::exception]. *)

From S2P Require Import Prelude.
Local Open Scope Z_scope.

(** ** UTF-8 (Unicode table 3-7), as an automaton over bytes *)

Module Utf8.

Inductive st := U0 | U1 | U2 | U3 | UE0 | UED | UF0 | UF4.

#[global] Instance st_eq_dec : EqDecision st.
Proof. solve_decision. Defined.

Definition between (a b v : Z) : bool := (a <=? v) && (v <=? b).

Definition step (s : st) (b : byte) : option st :=
  let v := byte_val b in
  match s with
  | U0 =>
      if v <=? 127 then Some U0
      else if between 194 223 v then Some U1
      else if v =? 224 then Some UE0
      else if v =? 237 then Some UED
      else if between 225 239 v then Some U2
      else if v =? 240 then Some UF0
      else if between 241 243 v then Some U3
      else if v =? 244 then Some UF4
      else None
  | U1 => if between 128 191 v then Some U0 else None
  | U2 => if between 128 191 v then Some U1 else None
  | U3 => if between 128 191 v then Some U2 else None
  | UE0 => if between 160 191 v then Some U1 else None
  | UED => if between 128 159 v then Some U1 else None
  | UF0 => if between 144 191 v then Some U2 else None
  | UF4 => if between 128 143 v then Some U2 else None
  end.

Fixpoint run (s : st) (bs : list byte) : option st :=
  match bs with
  | [] => Some s
  | b :: bs => match step s b with Some s' => run s' bs | None => None end
  end.

Definition valid_bytes (bs : list byte) : bool := bool_decide (run U0 bs = Some U0).
Definition valid (s : string) : bool := valid_bytes (bytes_of_string s).

Lemma run_app s bs1 bs2 :
  run s (bs1 ++ bs2) = match run s bs1 with Some s' => run s' bs2 | None => None end.
Proof.
  revert s. induction bs1 as [|b bs1 IH]; intros s; simpl; [done|].
  destruct (step s b); [apply IH|done].
Qed.

Lemma valid_app bs1 bs2 :
  valid_bytes bs1 = true → valid_bytes bs2 = true → valid_bytes (bs1 ++ bs2) = true.
Proof.
  unfold valid_bytes. rewrite !bool_decide_eq_true, run_app. by intros -> ->.
Qed.

Lemma valid_ascii bs : Forall (λ b, byte_val b ≤ 127) bs → valid_bytes bs = true.
Proof.
  unfold valid_bytes. rewrite bool_decide_eq_true.
  induction 1 as [|b bs Hb Hbs IH]; [done|]. simpl.
  by rewrite (proj2 (Z.leb_le _ _)).
Qed.

End Utf8.

(** ** The interface *)

Class JsonLib := {
  json : Type;
  j_null : json;                          (* nlohmann::json j; *)
  j_string : string → json;               (* from std::string, const char* *)
  j_unsigned : Z → json;                  (* from an unsigned integer *)
  j_integer : Z → json;                   (* from a signed integer *)
  j_array : list json → json;             (* json::array(), push_back *)
  j_set : string → json → json → json;    (* j[key] = value *)
  j_contains : json → string → bool;      (* j.contains(key) *)
  j_at : json → string → json;            (* j[key], key present *)
  j_is_string : json → bool;
  j_is_number_unsigned : json → bool;
  j_get_string : json → string;           (* get<std::string>() *)
  j_get_u64 : json → Z;                   (* get<uint64_t>() *)
  j_parse : string → option json;         (* json::parse *)
  j_parse_what : string → string;         (* what() of the exception parse throws *)
  j_dump : json → option string           (* dump() *)
}.

(** [j_fields k1 v1 ... ] assignments in program order are written with
    [j_obj]. *)
Definition j_obj `{JsonLib} (fields : list (string * json)) : json :=
  fold_left (λ j '(k, v), j_set k v j) fields j_null.

Class JsonLaws `{JL : JsonLib} := {
  (* null or an object: what [operator[]] may be applied to *)
  j_is_object : json → Prop;
  j_is_object_null : j_is_object j_null;
  j_is_object_set k v j : j_is_object j → j_is_object (j_set k v j);
  j_contains_null k : j_contains j_null k = false;
  j_contains_set k v j k' :
    j_is_object j →
    j_contains (j_set k v j) k' = bool_decide (k = k') || j_contains j k';
  j_at_set_eq k v j : j_is_object j → j_at (j_set k v j) k = v;
  j_at_set_ne k v j k' :
    j_is_object j → k ≠ k' → j_at (j_set k v j) k' = j_at j k';
  j_is_string_string s : j_is_string (j_string s) = true;
  j_is_string_unsigned n : j_is_string (j_unsigned n) = false;
  j_is_unsigned_string s : j_is_number_unsigned (j_string s) = false;
  j_is_unsigned_unsigned n : in_width 64 n → j_is_number_unsigned (j_unsigned n) = true;
  j_get_string_string s : j_get_string (j_string s) = s;
  j_get_u64_unsigned n : in_width 64 n → j_get_u64 (j_unsigned n) = n;
  j_get_u64_range j : j_is_number_unsigned j = true → in_width 64 (j_get_u64 j);
  (* dump throws type_error.316 exactly when a string is not UTF-8 *)
  j_utf8 : json → Prop;
  j_utf8_null : j_utf8 j_null;
  j_utf8_string s : j_utf8 (j_string s) ↔ Utf8.valid s = true;
  j_utf8_unsigned n : j_utf8 (j_unsigned n);
  j_utf8_integer n : j_utf8 (j_integer n);
  j_utf8_array l : j_utf8 (j_array l) ↔ Forall j_utf8 l;
  j_utf8_set k v j :
    j_is_object j → j_utf8 j → Utf8.valid k = true → j_utf8 v → j_utf8 (j_set k v j);
  j_utf8_at k j : j_contains j k = true → j_utf8 j → j_utf8 (j_at j k);
  j_utf8_get_string j : j_is_string j = true → j_utf8 j → Utf8.valid (j_get_string j) = true;
  j_dump_utf8 j : j_utf8 j → is_Some (j_dump j);
  j_dump_not_utf8 j : ¬ j_utf8 j → j_dump j = None;
  (* the compact form is one line: control characters are escaped *)
  j_dump_one_line j s : j_dump j = Some s → x0a ∉ bytes_of_string s;
  (* the parser rejects text that is not UTF-8 *)
  j_parse_utf8 s j : j_parse s = Some j → j_utf8 j;
  (* an empty text is a parse error *)
  j_parse_empty : j_parse "" = None;
  (* values made of strings, unsigned integers, arrays and objects round-trip *)
  j_plain : json → Prop;
  j_plain_null : j_plain j_null;
  j_plain_string s : j_plain (j_string s);
  j_plain_unsigned n : in_width 64 n → j_plain (j_unsigned n);
  j_plain_array l : Forall j_plain l → j_plain (j_array l);
  j_plain_set k v j : j_is_object j → j_plain j → j_plain v → j_plain (j_set k v j);
  j_parse_dump j s : j_plain j → j_dump j = Some s → j_parse s = Some j
}.

#[global] Hint Resolve j_is_object_null j_is_object_set j_utf8_null j_utf8_unsigned
  j_utf8_integer j_plain_null j_plain_string j_plain_unsigned : eop.

(** ** Objects built by assignments *)

Section objects.
Context `{JsonLaws}.

Lemma j_obj_snoc fields k v : j_obj (fields ++ [(k, v)]) = j_set k v (j_obj fields).
Proof. unfold j_obj. by rewrite fold_left_app. Qed.

Lemma j_is_object_obj fields : j_is_object (j_obj fields).
Proof.
  induction fields as [|[k v] fields IH] using rev_ind; [apply j_is_object_null|].
  rewrite j_obj_snoc. by apply j_is_object_set.
Qed.

Lemma j_utf8_obj fields :
  Forall (λ '(k, v), Utf8.valid k = true ∧ j_utf8 v) fields → j_utf8 (j_obj fields).
Proof.
  induction fields as [|[k v] fields IH] using rev_ind; intros Hf; [apply j_utf8_null|].
  apply Forall_app in Hf as [Hf Hkv]. apply Forall_singleton in Hkv as [Hk Hv].
  rewrite j_obj_snoc. apply j_utf8_set; auto using j_is_object_obj.
Qed.

Lemma j_plain_obj fields :
  Forall (λ '(k, v), j_plain v) fields → j_plain (j_obj fields).
Proof.
  induction fields as [|[k v] fields IH] using rev_ind; intros Hf; [apply j_plain_null|].
  apply Forall_app in Hf as [Hf Hkv]. rewrite Forall_singleton in Hkv.
  rewrite j_obj_snoc.
  apply j_plain_set; [apply j_is_object_obj|by apply IH|exact Hkv].
Qed.

(** A field assigned once reads back. *)
Lemma j_obj_lookup fields k v :
  NoDup fields.*1 → (k, v) ∈ fields →
  j_contains (j_obj fields) k = true ∧ j_at (j_obj fields) k = v.
Proof.
  induction fields as [|[k' v'] fields IH] using rev_ind; intros Hnd Hin;
    [by apply not_elem_of_nil in Hin|].
  rewrite fmap_app in Hnd. apply NoDup_app in Hnd as (Hnd & Hdisj & _).
  pose proof (j_is_object_obj fields).
  rewrite j_obj_snoc, j_contains_set by done.
  apply elem_of_app in Hin as [Hin|Hin].
  - destruct (IH Hnd Hin) as [IH1 IH2].
    assert (k' ≠ k).
    { intros ->. apply (Hdisj k); [|simpl; by apply list_elem_of_here].
      apply list_elem_of_fmap. by exists (k, v). }
    rewrite IH1, orb_true_r, j_at_set_ne by done. done.
  - apply list_elem_of_singleton in Hin. simplify_eq.
    rewrite bool_decide_true by done. by rewrite j_at_set_eq.
Qed.

(** A field never assigned is absent. *)
Lemma j_obj_absent fields k :
  k ∉ fields.*1 → j_contains (j_obj fields) k = false.
Proof.
  induction fields as [|[k' v'] fields IH] using rev_ind; intros Hk;
    [apply j_contains_null|].
  rewrite fmap_app, not_elem_of_app in Hk. destruct Hk as [Hk1 Hk2].
  rewrite j_obj_snoc, j_contains_set, IH by auto using j_is_object_obj.
  rewrite bool_decide_false; [done|]. intros ->. apply Hk2. simpl.
  by apply list_elem_of_here.
Qed.
End objects.
