(* ===== verification/JsonRef.v ===== *)
(** * A reference JSON library

    A concrete instance of [JsonLib] and [JsonLaws]: JSON values with an
    ordered object, a compact printer and a recursive-descent parser.  It
    shows that the assumptions on the JSON library can hold together and lets
    the examples run on actual JSON text.  It does not model nlohmann::json:
    floating-point numbers and escapes above U+007F are not parsed. *)

From S2P Require Import Prelude Json.
Local Open Scope Z_scope.

Module JsonRef.

Inductive jv :=
| JNull
| JBool (b : bool)
| JStr (s : string)
| JUns (n : Z)
| JInt (n : Z)
| JArr (l : list jv)
| JObj (l : list (string * jv)).

Section jv_ind.
Variable P : jv → Prop.
Hypothesis Hnull : P JNull.
Hypothesis Hbool : ∀ b, P (JBool b).
Hypothesis Hstr : ∀ s, P (JStr s).
Hypothesis Huns : ∀ n, P (JUns n).
Hypothesis Hint : ∀ n, P (JInt n).
Hypothesis Harr : ∀ l, Forall P l → P (JArr l).
Hypothesis Hobj : ∀ l, Forall (λ kv, P kv.2) l → P (JObj l).

Fixpoint jv_ind' (v : jv) : P v :=
  match v with
  | JNull => Hnull
  | JBool b => Hbool b
  | JStr s => Hstr s
  | JUns n => Huns n
  | JInt n => Hint n
  | JArr l =>
      Harr l ((fix go l : Forall P l :=
                 match l with
                 | [] => List.Forall_nil _
                 | v :: l => List.Forall_cons _ _ _ (jv_ind' v) (go l)
                 end) l)
  | JObj l =>
      Hobj l ((fix go l : Forall (λ kv, P kv.2) l :=
                 match l with
                 | [] => List.Forall_nil _
                 | kv :: l => List.Forall_cons _ _ _ (jv_ind' kv.2) (go l)
                 end) l)
  end.
End jv_ind.

(** ** Printing *)

Definition hexd (n : Z) : byte := digit_char n.

Definition esc (b : byte) : list byte :=
  match b with
  | x22 => [x5c; x22]
  | x5c => [x5c; x5c]
  | _ =>
      let v := byte_val b in
      if v <? 32 then [x5c; x75; x30; x30; hexd (v / 16); hexd (v mod 16)] else [b]
  end.

Definition pr_str (s : string) : list byte :=
  x22 :: flat_map esc (bytes_of_string s) ++ [x22].

Fixpoint join (l : list (list byte)) : list byte :=
  match l with
  | [] => []
  | [x] => x
  | x :: l => x ++ x2c :: join l
  end.

Fixpoint pr (v : jv) : list byte :=
  match v with
  | JNull => [x6e; x75; x6c; x6c]
  | JBool true => [x74; x72; x75; x65]
  | JBool false => [x66; x61; x6c; x73; x65]
  | JStr s => pr_str s
  | JUns n => dec_digits (u64 n)
  | JInt n => bytes_of_string (to_string n)
  | JArr l => x5b :: join (map pr l) ++ [x5d]
  | JObj l => x7b :: join (map (λ kv, pr_str kv.1 ++ x3a :: pr kv.2) l) ++ [x7d]
  end.

(** ** Parsing *)

Definition isws (b : byte) : bool :=
  match b with x20 | x09 | x0a | x0d => true | _ => false end.

Fixpoint skip_ws (bs : list byte) : list byte :=
  match bs with
  | b :: bs' => if isws b then skip_ws bs' else bs
  | [] => []
  end.

Definition consb (b : byte) (r : option (list byte * list byte)) :=
  match r with Some (l, r) => Some (b :: l, r) | None => None end.

Fixpoint pstr (bs : list byte) : option (list byte * list byte) :=
  match bs with
  | [] => None
  | x22 :: r => Some ([], r)
  | x5c :: x22 :: r => consb x22 (pstr r)
  | x5c :: x5c :: r => consb x5c (pstr r)
  | x5c :: x2f :: r => consb x2f (pstr r)
  | x5c :: x6e :: r => consb x0a (pstr r)
  | x5c :: x74 :: r => consb x09 (pstr r)
  | x5c :: x75 :: x30 :: x30 :: a :: b :: r =>
      let v := char_digit a * 16 + char_digit b in
      if (0 <=? v) && (v <? 128) then consb (byte_of v) (pstr r) else None
  | x5c :: _ => None
  | b :: r => if byte_val b <? 32 then None else consb b (pstr r)
  end.

Definition pnum (bs : list byte) : option (Z * list byte) :=
  let '(ds, r) := span isdigit bs in
  match ds with
  | [] => None
  | _ => Some (of_digits 10 (map char_digit ds), r)
  end.

(** The rest after white space and the byte [c]. *)
Definition strip (c : byte) (bs : list byte) : option (list byte) :=
  match skip_ws bs with
  | b :: r => if decide (b = c) then Some r else None
  | [] => None
  end.

(** The rest after the letters of a keyword. *)
Fixpoint lit (w bs : list byte) : option (list byte) :=
  match w, bs with
  | [], _ => Some bs
  | c :: w, b :: bs => if decide (b = c) then lit w bs else None
  | _ :: _, [] => None
  end.

Fixpoint pv (fuel : nat) (bs : list byte) : option (jv * list byte) :=
  match fuel with
  | O => None
  | S fuel =>
      match skip_ws bs with
      | x5b :: r =>
          match strip x5d r with
          | Some r => Some (JArr [], r)
          | None => '(l, r) ← parr fuel r; Some (JArr l, r)
          end
      | x7b :: r =>
          match strip x7d r with
          | Some r => Some (JObj [], r)
          | None => '(l, r) ← pobj fuel r; Some (JObj l, r)
          end
      | x22 :: r => '(s, r) ← pstr r; Some (JStr (string_of_bytes s), r)
      | x6e :: r => r ← lit [x75; x6c; x6c] r; Some (JNull, r)
      | x74 :: r => r ← lit [x72; x75; x65] r; Some (JBool true, r)
      | x66 :: r => r ← lit [x61; x6c; x73; x65] r; Some (JBool false, r)
      | x2d :: r => '(n, r) ← pnum r; Some (JInt (- n), r)
      | r => '(n, r) ← pnum r; if n <? 2 ^ 64 then Some (JUns n, r) else None
      end
  end
with parr (fuel : nat) (bs : list byte) : option (list jv * list byte) :=
  match fuel with
  | O => None
  | S fuel =>
      '(v, r) ← pv fuel bs;
      match strip x2c r with
      | Some r => '(l, r) ← parr fuel r; Some (v :: l, r)
      | None => r ← strip x5d r; Some ([v], r)
      end
  end
with pobj (fuel : nat) (bs : list byte) : option (list (string * jv) * list byte) :=
  match fuel with
  | O => None
  | S fuel =>
      r ← strip x22 bs;
      '(k, r) ← pstr r;
      r ← strip x3a r;
      '(v, r) ← pv fuel r;
      match strip x2c r with
      | Some r => '(l, r) ← pobj fuel r; Some ((string_of_bytes k, v) :: l, r)
      | None => r ← strip x7d r; Some ([(string_of_bytes k, v)], r)
      end
  end.

(** ** The operations of the interface *)

Fixpoint utf8b (v : jv) : bool :=
  match v with
  | JStr s => Utf8.valid s
  | JArr l => forallb utf8b l
  | JObj l => forallb (λ kv, Utf8.valid kv.1 && utf8b kv.2) l
  | _ => true
  end.

Fixpoint plainb (v : jv) : bool :=
  match v with
  | JUns n => (0 <=? n) && (n <? 2 ^ 64)
  | JInt _ => false
  | JArr l => forallb plainb l
  | JObj l => forallb (λ kv, plainb kv.2) l
  | _ => true
  end.

Definition dump (v : jv) : option string :=
  if utf8b v then Some (string_of_bytes (pr v)) else None.

Definition parse (s : string) : option jv :=
  let bs := bytes_of_string s in
  match pv (S (2 * length bs)) bs with
  | Some (v, r) =>
      match skip_ws r with [] => if utf8b v then Some v else None | _ => None end
  | None => None
  end.

Fixpoint upd (k : string) (v : jv) (l : list (string * jv)) : list (string * jv) :=
  match l with
  | [] => [(k, v)]
  | (k', v') :: l =>
      if bool_decide (k' = k) then (k, v) :: l else (k', v') :: upd k v l
  end.

Fixpoint look (k : string) (l : list (string * jv)) : option jv :=
  match l with
  | [] => None
  | (k', v') :: l => if bool_decide (k' = k) then Some v' else look k l
  end.

Definition fields (v : jv) : list (string * jv) :=
  match v with JObj l => l | _ => [] end.

#[export] Instance lib : JsonLib := {|
  json := jv;
  j_null := JNull;
  j_string := JStr;
  j_unsigned := JUns;
  j_integer := JInt;
  j_array := JArr;
  j_set k v j := JObj (upd k v (fields j));
  j_contains j k := bool_decide (is_Some (look k (fields j)));
  j_at j k := default JNull (look k (fields j));
  j_is_string j := match j with JStr _ => true | _ => false end;
  j_is_number_unsigned j :=
    match j with JUns n => (0 <=? n) && (n <? 2 ^ 64) | _ => false end;
  j_get_string j := match j with JStr s => s | _ => "" end;
  j_get_u64 j := match j with JUns n => n | _ => 0 end;
  j_parse := parse;
  j_parse_what _ := "parse error";
  j_dump := dump
|}.

(** ** The laws *)

Lemma look_upd k v l k' :
  look k' (upd k v l) = if bool_decide (k = k') then Some v else look k' l.
Proof.
  induction l as [|[k1 v1] l IH]; simpl; [done|].
  repeat case_bool_decide; simplify_eq; simpl;
    rewrite ?bool_decide_true, ?bool_decide_false by congruence; try done.
  all: rewrite IH; rewrite ?bool_decide_true, ?bool_decide_false by congruence; done.
Qed.

Lemma look_in k l v : look k l = Some v → ∃ k', (k', v) ∈ l ∧ k' = k.
Proof.
  induction l as [|[k1 v1] l IH]; simpl; [done|].
  case_bool_decide; intros H1; simplify_eq.
  - eexists. split; [apply list_elem_of_here|done].
  - destruct (IH H1) as (k' & Hin & ->). eexists. split; [by apply list_elem_of_further|done].
Qed.

Lemma forallb_upd p k v l :
  forallb p l = true → p (k, v) = true → forallb p (upd k v l) = true.
Proof.
  intros Hl Hkv. induction l as [|[k1 v1] l IH]; simpl in *; [by rewrite Hkv|].
  apply andb_true_iff in Hl as [H1 H2].
  case_bool_decide; simpl; rewrite ?Hkv, ?H1, ?H2, ?IH by done; done.
Qed.

Lemma forallb_Forall {A} (p : A → bool) l : forallb p l = true ↔ Forall (λ x, p x = true) l.
Proof.
  induction l as [|x l IH]; simpl; [done|].
  by rewrite andb_true_iff, IH, Forall_cons.
Qed.

(** A string printed and followed by its closing quote parses back. *)
Lemma consb_some b l r : consb b (Some (l, r)) = Some (b :: l, r).
Proof. done. Qed.

Lemma pstr_esc b bs l r :
  pstr bs = Some (l, r) → pstr (esc b ++ bs) = Some (b :: l, r).
Proof. intros H. destruct b; simpl; rewrite H; reflexivity. Qed.

Lemma pstr_flat s r : pstr (flat_map esc s ++ x22 :: r) = Some (s, r).
Proof.
  induction s as [|b s IH]; [done|]. simpl flat_map. rewrite <-app_assoc.
  by apply pstr_esc.
Qed.

Lemma pr_str_app s rest :
  pr_str s ++ rest = x22 :: flat_map esc (bytes_of_string s) ++ x22 :: rest.
Proof. unfold pr_str. simpl. by rewrite <-app_assoc. Qed.

Definition no_digit (r : list byte) : Prop :=
  match r with [] => True | b :: _ => isdigit b = false end.

Lemma pnum_dec n r : 0 ≤ n → no_digit r → pnum (dec_digits n ++ r) = Some (n, r).
Proof.
  intros Hn Hr. unfold pnum. rewrite span_app;
    [|by apply dec_digits_isdigit|intros b r' ->; exact Hr].
  rewrite dec_digits_read by done.
  pose proof (dec_digits_nonnil n). by destruct (dec_digits n).
Qed.

(** Fuel that suffices to parse a printed value. *)
Fixpoint need (v : jv) : nat :=
  match v with
  | JArr l => S (foldr (λ v acc, S (need v + acc))%nat 0%nat l)
  | JObj l => S (foldr (λ kv acc, S (need kv.2 + acc))%nat 0%nat l)
  | _ => 1
  end.

Lemma join_length_ge (xs : list (list byte)) :
  (foldr (λ x acc, S (length x) + acc) 0 xs ≤ S (length (join xs)))%nat.
Proof.
  induction xs as [|x [|y xs] IH]; simpl in *; [lia..|].
  rewrite length_app. simpl. lia.
Qed.

Lemma pr_length v : (1 ≤ length (pr v))%nat.
Proof.
  destruct v as [|[]|s|n|n|l|l]; simpl; try lia.
  - pose proof (dec_digits_nonnil (u64 n)).
    destruct (dec_digits (u64 n)); simpl; [done|lia].
  - unfold to_string. rewrite bytes_of_string_of_bytes.
    pose proof (dec_digits_nonnil n). destruct (n <? 0); simpl; [lia|].
    destruct (dec_digits n); simpl; [done|lia].
Qed.

Lemma need_le v : (need v ≤ 2 * length (pr v))%nat.
Proof.
  induction v as [|b|s|n|n|l IH|l IH] using jv_ind';
    try (match goal with |- (_ ≤ 2 * length (pr ?x))%nat => pose proof (pr_length x) end;
         simpl need; lia).
  - cbn [need pr length]. rewrite length_app. cbn [length].
    pose proof (join_length_ge (map pr l)) as Hj.
    assert (foldr (λ v acc, S (need v + acc)) 0 l ≤
            2 * foldr (λ x acc, S (length x) + acc) 0 (map pr l))%nat.
    { clear Hj. induction IH as [|v l Hv Hl IH']; simpl in *; lia. }
    lia.
  - cbn [need pr length]. rewrite length_app. cbn [length].
    pose proof (join_length_ge (map (λ kv, pr_str kv.1 ++ x3a :: pr kv.2) l)) as Hj.
    assert (foldr (λ kv acc, S (need kv.2 + acc)) 0 l ≤
            2 * foldr (λ x acc, S (length x) + acc) 0
                  (map (λ kv, pr_str kv.1 ++ x3a :: pr kv.2) l))%nat.
    { clear Hj. induction IH as [|v l Hv Hl IH']; simpl in *; [lia|].
      rewrite !length_app. simpl. lia. }
    lia.
Qed.

(** ** Printing then parsing *)

Lemma strip_eq c bs : isws c = false → strip c (c :: bs) = Some bs.
Proof. intros H. unfold strip. simpl. rewrite H. by rewrite decide_True. Qed.

Lemma strip_ne c b bs : isws b = false → b ≠ c → strip c (b :: bs) = None.
Proof. intros H Hne. unfold strip. simpl. rewrite H. by rewrite decide_False. Qed.

Lemma isdigit_head b :
  isdigit b = true → isws b = false ∧ b ≠ x5d ∧ b ≠ x7d ∧ b ≠ x2d.
Proof. by destruct b. Qed.

Lemma pr_head v :
  plainb v = true → ∃ b r, pr v = b :: r ∧ isws b = false ∧ b ≠ x5d.
Proof.
  destruct v as [|[]|s|n|n|l|l]; simpl; intros Hp; try done; try (by eauto 10).
  bool_to_prop. rewrite wrap_small by (unfold in_width; lia).
  pose proof (dec_digits_isdigit n ltac:(lia)) as Hd.
  pose proof (dec_digits_nonnil n). destruct (dec_digits n) as [|b r]; [done|].
  apply Forall_cons in Hd as [Hb _]. apply isdigit_head in Hb. naive_solver.
Qed.

(** A number is parsed by the last case of the dispatch. *)
Lemma pv_digit fuel b r :
  isdigit b = true →
  pv (S fuel) (b :: r) =
  ('(n, r) ← pnum (b :: r); if n <? 2 ^ 64 then Some (JUns n, r) else None).
Proof. intros Hb. destruct b; try discriminate Hb; reflexivity. Qed.

Definition parses (v : jv) : Prop :=
  ∀ fuel rest, (need v ≤ fuel)%nat → no_digit rest →
    pv fuel (pr v ++ rest) = Some (v, rest).

Lemma parr_join v l fuel rest :
  Forall parses (v :: l) →
  (foldr (λ v acc, S (need v + acc)) 0 (v :: l) ≤ fuel)%nat →
  parr fuel (join (map pr (v :: l)) ++ x5d :: rest) = Some (v :: l, rest).
Proof.
  revert v fuel. induction l as [|v' l IH]; intros v fuel Hp Hf;
    apply Forall_cons in Hp as [Hv Hl];
    (destruct fuel as [|fuel]; [simpl in Hf; lia|]).
  - cbn [map join parr]. rewrite Hv by (done || simpl in *; lia).
    cbn [mbind option_bind]. by rewrite strip_ne, strip_eq.
  - change (join (map pr (v :: v' :: l))) with (pr v ++ x2c :: join (map pr (v' :: l))).
    cbn [parr]. rewrite <-app_assoc. rewrite Hv by (done || simpl in *; lia).
    cbn [mbind option_bind app]. rewrite strip_eq by done.
    rewrite IH by (done || simpl in *; lia). done.
Qed.

Definition pr_kv (kv : string * jv) : list byte := pr_str kv.1 ++ x3a :: pr kv.2.

(** Follows a successful run of the key/value parser. *)
Local Ltac kv_steps :=
  repeat (match goal with
          | H : mbind _ ?o = Some _ |- _ => destruct o as [?|]; [|done]
          | H : context [let '(_, _) := ?p in _] |- _ => destruct p
          end; cbn [mbind option_bind] in *);
  simplify_eq.

Lemma pobj_join kv l fuel rest :
  Forall (λ kv, parses kv.2) (kv :: l) →
  (foldr (λ kv acc, S (need kv.2 + acc)) 0 (kv :: l) ≤ fuel)%nat →
  pobj fuel (join (map pr_kv (kv :: l)) ++ x7d :: rest) = Some (kv :: l, rest).
Proof.
  assert (∀ f k v rest', parses v → (need v ≤ f)%nat → no_digit rest' →
    (r ← strip x22 (pr_kv (k, v) ++ rest');
     '(k, r) ← pstr r; r ← strip x3a r; '(v, r) ← pv f r; Some (string_of_bytes k, v, r))
    = Some (k, v, rest')) as Hkv.
  { intros f k v rest' Hv Hf Hr. unfold pr_kv. cbn [fst snd].
    rewrite <-app_assoc, pr_str_app. rewrite strip_eq by done. cbn [mbind option_bind].
    rewrite pstr_flat. cbn [mbind option_bind app]. rewrite strip_eq by done.
    cbn [mbind option_bind]. rewrite Hv by done. cbn [mbind option_bind].
    by rewrite string_of_bytes_of_string. }
  revert kv fuel. induction l as [|kv' l IH]; intros [k v] fuel Hp Hf;
    apply Forall_cons in Hp as [Hv Hl];
    (destruct fuel as [|fuel]; [simpl in Hf; lia|]).
  - cbn [map join]. specialize (Hkv fuel k v (x7d :: rest) Hv).
    cbn [foldr snd] in Hf. specialize (Hkv ltac:(lia) eq_refl).
    cbn [pobj]. kv_steps. by rewrite strip_ne, strip_eq.
  - change (join (map pr_kv ((k, v) :: kv' :: l)))
      with (pr_kv (k, v) ++ x2c :: join (map pr_kv (kv' :: l))).
    rewrite <-app_assoc.
    specialize (Hkv fuel k v ((x2c :: join (map pr_kv (kv' :: l))) ++ x7d :: rest) Hv).
    cbn [foldr snd] in Hf. specialize (Hkv ltac:(lia) eq_refl).
    cbn [pobj]. kv_steps. cbn [app]. rewrite strip_eq by done.
    rewrite IH by (done || simpl in *; lia). done.
Qed.

Lemma join_head_strip c x xs rest b r :
  x = b :: r → isws b = false → b ≠ c →
  strip c (join (x :: xs) ++ rest) = None.
Proof.
  intros -> Hw Hne. destruct xs; simpl; by apply strip_ne.
Qed.

Lemma pr_parses v : plainb v = true → parses v.
Proof.
  induction v as [|[]|s|n|n|l IH|l IH] using jv_ind'; intros Hp fuel rest Hf Hr;
    (destruct fuel as [|fuel]; [simpl in Hf; lia|]); try done.
  - cbn [pr]. rewrite pr_str_app. cbn [pv skip_ws isws]. rewrite pstr_flat.
    cbn [mbind option_bind]. by rewrite string_of_bytes_of_string.
  - cbn [pr plainb] in *. bool_to_prop. rewrite wrap_small by (unfold in_width; lia).
    pose proof (dec_digits_isdigit n ltac:(lia)) as Hd.
    pose proof (pnum_dec n rest ltac:(lia) Hr) as Hn.
    pose proof (dec_digits_nonnil n).
    destruct (dec_digits n) as [|b ds]; [done|]. apply Forall_cons in Hd as [Hb _].
    cbn [app] in *. rewrite pv_digit, Hn by done. cbn [mbind option_bind].
    by rewrite (proj2 (Z.ltb_lt _ _)).
  - cbn [plainb] in Hp. rewrite forallb_Forall in Hp.
    assert (Forall parses l) as Hl.
    { rewrite Forall_forall in *. auto. }
    cbn [pr app pv skip_ws isws]. rewrite <-app_assoc. cbn [app].
    destruct l as [|v l].
    { cbn [map join app]. by rewrite strip_eq. }
    apply Forall_cons in Hp as [Hpv _]. destruct (pr_head v Hpv) as (b & r & E & Hw & Hb).
    cbn [map]. rewrite (join_head_strip x5d _ _ _ b r E Hw Hb).
    change (pr v :: map pr l) with (map pr (v :: l)).
    rewrite parr_join; [done|done|]. cbn [need] in Hf. lia.
  - cbn [plainb] in Hp. rewrite forallb_Forall in Hp.
    assert (Forall (λ kv, parses kv.2) l) as Hl.
    { rewrite Forall_forall in *. auto. }
    cbn [pr app pv skip_ws isws]. rewrite <-app_assoc. cbn [app].
    destruct l as [|kv l].
    { cbn [map join app]. by rewrite strip_eq. }
    cbn [map]. erewrite join_head_strip; [|reflexivity|done|done].
    change (_ :: map _ l) with (map pr_kv (kv :: l)).
    rewrite pobj_join; [done|done|]. cbn [need] in Hf. lia.
Qed.

Lemma parse_dump v s : plainb v = true → dump v = Some s → parse s = Some v.
Proof.
  unfold dump, parse. intros Hp Hd. destruct (utf8b v) eqn:Hu; [|done]. simplify_eq.
  rewrite bytes_of_string_of_bytes.
  pose proof (pr_parses v Hp (S (2 * length (pr v))) []) as H.
  rewrite app_nil_r in H. pose proof (need_le v).
  rewrite H by (done || lia). cbn [skip_ws]. by rewrite Hu.
Qed.

(** ** The compact form is one line *)

Lemma esc_no_newline b : Forall (λ c, c ≠ x0a) (esc b).
Proof. destruct b; simpl; repeat constructor; discriminate. Qed.

Lemma pr_str_no_newline s : Forall (λ c, c ≠ x0a) (pr_str s).
Proof.
  unfold pr_str. constructor; [done|]. apply Forall_app. split; [|by repeat constructor].
  induction (bytes_of_string s) as [|b bs IH]; simpl; [done|].
  apply Forall_app. split; [apply esc_no_newline|done].
Qed.

Lemma join_Forall (P : byte → Prop) xs :
  P x2c → Forall (Forall P) xs → Forall P (join xs).
Proof.
  intros Hc. induction 1 as [|x [|y xs] Hx Hxs IH]; [done..|].
  change (join (x :: y :: xs)) with (x ++ x2c :: join (y :: xs)).
  apply Forall_app. auto.
Qed.

Lemma dec_digits_no_newline n : 0 ≤ n → Forall (λ c, c ≠ x0a) (dec_digits n).
Proof.
  intros Hn. eapply Forall_impl; [by apply dec_digits_isdigit|]. by intros b ? ->.
Qed.

Lemma pr_no_newline v : Forall (λ c, c ≠ x0a) (pr v).
Proof.
  induction v as [|[]|s|n|n|l IH|l IH] using jv_ind'; cbn [pr];
    try (by repeat constructor).
  - apply pr_str_no_newline.
  - apply dec_digits_no_newline, (wrap_range 64 n). lia.
  - unfold to_string. rewrite bytes_of_string_of_bytes. destruct (Z.ltb_spec n 0).
    + constructor; [done|]. apply dec_digits_no_newline. lia.
    + by apply dec_digits_no_newline.
  - constructor; [done|]. apply Forall_app. split; [|by repeat constructor].
    apply join_Forall; [done|]. by apply Forall_map.
  - constructor; [done|]. apply Forall_app. split; [|by repeat constructor].
    apply join_Forall; [done|]. apply Forall_map.
    eapply Forall_impl; [exact IH|]. intros kv Hkv. cbv beta.
    apply Forall_app. split; [apply pr_str_no_newline|by constructor].
Qed.

Lemma utf8b_look k l v :
  look k l = Some v → utf8b (JObj l) = true → utf8b v = true.
Proof.
  intros Hl Hu. apply look_in in Hl as (k' & Hin & _). cbn [utf8b] in Hu.
  rewrite forallb_Forall, Forall_forall in Hu. specialize (Hu _ Hin).
  by apply andb_true_iff in Hu as [_ ?].
Qed.

Lemma utf8b_fields v : utf8b v = true → utf8b (JObj (fields v)) = true.
Proof. by destruct v. Qed.

Definition is_object (v : jv) : Prop :=
  match v with JNull | JObj _ => True | _ => False end.

#[local] Obligation Tactic := idtac.

(** The laws hold together. *)
#[export] Program Instance laws : JsonLaws (JL := lib) := {|
  j_is_object := is_object;
  j_utf8 v := utf8b v = true;
  j_plain v := plainb v = true
|}.
Next Obligation. done. Qed.
Next Obligation. done. Qed.
Next Obligation. done. Qed.
Next Obligation.
  intros k v j k' _. simpl. rewrite look_upd.
  by destruct (bool_decide (k = k')).
Qed.
Next Obligation. intros k v j _. simpl. by rewrite look_upd, bool_decide_true. Qed.
Next Obligation. intros k v j k' _ Hne. simpl. by rewrite look_upd, bool_decide_false. Qed.
Next Obligation. done. Qed.
Next Obligation. done. Qed.
Next Obligation. done. Qed.
Next Obligation.
  intros n [H1 H2]. simpl. apply andb_true_intro. split; [by apply Z.leb_le|by apply Z.ltb_lt].
Qed.
Next Obligation. done. Qed.
Next Obligation. done. Qed.
Next Obligation. intros [] H; simpl in *; try done. bool_to_prop. done. Qed.
Next Obligation. done. Qed.
Next Obligation. done. Qed.
Next Obligation. done. Qed.
Next Obligation. done. Qed.
Next Obligation. intros l. simpl. apply forallb_Forall. Qed.
Next Obligation.
  intros k v j _ Hj Hk Hv. simpl. apply forallb_upd; [by apply utf8b_fields in Hj|].
  simpl. by rewrite Hk, Hv.
Qed.
Next Obligation.
  intros k j Hc Hj. simpl in *. bool_to_prop. destruct Hc as [v Hv]. rewrite Hv. simpl.
  eapply utf8b_look; [done|]. by apply utf8b_fields.
Qed.
Next Obligation. by intros []. Qed.
Next Obligation. intros j Hj. simpl. unfold dump. rewrite Hj. by eexists. Qed.
Next Obligation. intros j Hj. simpl. unfold dump. destruct (utf8b j) eqn:E; [by destruct Hj|done]. Qed.
Next Obligation.
  intros j s Hd Hin. simpl in Hd. unfold dump in Hd. destruct (utf8b j); [|done].
  simplify_eq. rewrite bytes_of_string_of_bytes in Hin.
  pose proof (pr_no_newline j) as H. rewrite Forall_forall in H. by apply (H x0a).
Qed.
Next Obligation.
  intros s j Hp. simpl in Hp. unfold parse in Hp.
  destruct (pv _ _) as [[v r]|]; [|done]. destruct (skip_ws r); [|done].
  destruct (utf8b v) eqn:E; [|done]. by simplify_eq.
Qed.
Next Obligation. vm_compute. done. Qed.
Next Obligation. done. Qed.
Next Obligation. done. Qed.
Next Obligation.
  intros n [H1 H2]. simpl. apply andb_true_intro. split; [by apply Z.leb_le|by apply Z.ltb_lt].
Qed.
Next Obligation. intros l Hl. simpl. by apply forallb_Forall. Qed.
Next Obligation.
  intros k v j _ Hj Hv. simpl. apply forallb_upd; [|done]. by destruct j.
Qed.
Next Obligation. intros j s Hp Hd. by apply parse_dump. Qed.

End JsonRef.
