(* ===== verification/Otel.v ===== *)
(** * OtelScope: trace spans

    Models [include/otelScope.hpp] and [src/otelScope.cpp]: identifier
    generation, endpoint resolution, the thread-local scope stack, the RAII
    span object and the batch exporter's queue.  A scope object lives in a
    heap under the address it was given; the stack holds addresses, so the
    aliasing between a handler's span and the stack is kept.  The random
    engine is a parameter: the n-th 64-bit value it draws. *)

From S2P Require Import Prelude Config.
Local Open Scope Z_scope.

Module Otel.

Class Rng := { rng : nat → Z }.

(** ** Identifiers *)

(** The loop of [generateHexId] from index [i], [n] bytes to go. *)
Fixpoint hexid_loop `{Rng} (n i : nat) (value : Z) (draws : nat) : list byte * nat :=
  match n with
  | O => ([], draws)
  | S n =>
      let '(value, draws) :=
        if (i =? 8)%nat then (u64 (rng draws), S draws) else (value, draws) in
      let b := Z.land (Z.shiftr value (Z.of_nat (i mod 8) * 8)) 255 in
      let '(rest, draws) := hexid_loop n (S i) value draws in
      (bytes_of_string (hex_padded 2 b) ++ rest, draws)
  end.

Definition generateHexId `{Rng} (byteCount : nat) (draws : nat) : string * nat :=
  let '(bs, draws) := hexid_loop byteCount 0 (u64 (rng draws)) (S draws) in
  (string_of_bytes bs, draws).

Definition generateTraceId `{Rng} (draws : nat) : string * nat := generateHexId 16 draws.
Definition generateSpanId `{Rng} (draws : nat) : string * nat := generateHexId 8 draws.

(** [std::to_string] of the nanoseconds since the epoch. *)
Definition nowNanos (now : Z) : string := to_string now.

(** ** Endpoint resolution *)

Definition DEFAULT_OTEL_ENDPOINT : string := "localhost".
Definition DEFAULT_OTEL_PORT : Z := 4318.

Record OtlpEndpoint := mkEndpoint { m_host : string; m_port : Z }.

(** [std::string::find] of a needle: the text before its first occurrence and
    after it. *)
Fixpoint find_split (needle bs : list byte) : option (list byte * list byte) :=
  if bool_decide (take (length needle) bs = needle)
  then Some ([], drop (length needle) bs)
  else
    match bs with
    | [] => None
    | b :: bs =>
        match find_split needle bs with
        | Some (l, r) => Some (b :: l, r)
        | None => None
        end
    end.

(** [std::string::rfind] of a character. *)
Definition rfind_split (c : byte) (bs : list byte) : option (list byte * list byte) :=
  match find_split [c] (reverse bs) with
  | Some (l, r) => Some (reverse r, reverse l)
  | None => None
  end.

(** [std::atoi]: white space, a sign, digits; 0 without digits.  Values out
    of the range of [int] are undefined behaviour in C and left as they are
    here. *)
Definition atoi (bs : list byte) : Z :=
  let '(_, s1) := span ServerConfig.isspace bs in
  let '(neg, s2) :=
    match s1 with
    | x2d :: r => (true, r)
    | x2b :: r => (false, r)
    | _ => (false, s1)
    end in
  let v := of_digits 10 (map char_digit (span isdigit s2).1) in
  if (neg : bool) then - v else v.

Definition getenv_nonempty (env : ServerConfig.environ) (name : string) : option string :=
  match env !! name with
  | Some v => if str_empty v then None else Some v
  | None => None
  end.

Definition resolveEndpoint (env : ServerConfig.environ) : OtlpEndpoint :=
  let url :=
    match getenv_nonempty env "OTEL_EXPORTER_OTLP_TRACES_ENDPOINT" with
    | Some v => v
    | None =>
        match getenv_nonempty env "OTEL_EXPORTER_OTLP_ENDPOINT" with
        | Some v => v
        | None => ""
        end
    end in
  if str_empty url then mkEndpoint DEFAULT_OTEL_ENDPOINT DEFAULT_OTEL_PORT
  else
    let url := bytes_of_string url in
    let url :=
      match find_split [x3a; x2f; x2f] url with Some (_, r) => r | None => url end in
    let url :=
      match find_split [x2f] url with Some (l, _) => l | None => url end in
    match rfind_split x3a url with
    | Some (host, p) =>
        let port := atoi p in
        mkEndpoint (string_of_bytes host) (if port <=? 0 then DEFAULT_OTEL_PORT else port)
    | None => mkEndpoint (string_of_bytes url) DEFAULT_OTEL_PORT
    end.

(** ** Spans *)

Inductive AttributeValue :=
| AStr (s : string)
| AInt (n : Z).

Record Impl := mkImpl {
  m_traceId : string;
  m_spanId : string;
  m_parentSpanId : string;
  m_name : string;
  m_startTimeNano : string;
  m_statusCode : Z;
  m_statusMessage : string;
  m_attributes : list (string * AttributeValue)
}.

Record FinishedSpan := mkFinished {
  fs_traceId : string;
  fs_spanId : string;
  fs_parentSpanId : string;
  fs_name : string;
  fs_startTimeNano : string;
  fs_endTimeNano : string;
  fs_statusCode : Z;
  fs_statusMessage : string;
  fs_attributes : list (string * AttributeValue)
}.

(** The thread's tracing state: live scope objects by address, the
    [t_scopeStack] (innermost first), values drawn from [t_rng], and the
    exporter's [m_pending]. *)
Record state := mkOtel {
  ot_heap : gmap nat Impl;
  ot_next : nat;
  ot_stack : list nat;
  ot_draws : nat;
  ot_pending : list FinishedSpan
}.

Definition init : state := mkOtel ∅ 0 [] 0 [].

Definition traceId (id : nat) (o : state) : string :=
  match ot_heap o !! id with Some i => m_traceId i | None => "" end.

Definition spanId (id : nat) (o : state) : string :=
  match ot_heap o !! id with Some i => m_spanId i | None => "" end.

Definition currentTraceId (o : state) : string :=
  match ot_stack o with [] => "" | top :: _ => traceId top o end.

Definition currentSpanId (o : state) : string :=
  match ot_stack o with [] => "" | top :: _ => spanId top o end.

Definition parentTraceIdOrNew `{Rng} (o : state) : string * nat :=
  match ot_stack o with
  | top :: _ => (traceId top o, ot_draws o)
  | [] => generateTraceId (ot_draws o)
  end.

Definition parentSpanId (o : state) : string :=
  match ot_stack o with top :: _ => spanId top o | [] => "" end.

(** The member initialisers of [Impl], in declaration order, then the
    [push_back] of the [OtelScope] constructor. *)
Definition open_scope `{Rng} (name : string) (attrs : list (string * AttributeValue))
    (now : Z) (o : state) : nat * state :=
  let '(tid, d1) := parentTraceIdOrNew o in
  let '(sid, d2) := generateSpanId d1 in
  let impl := mkImpl tid sid (parentSpanId o) name (nowNanos now) 0 "" attrs in
  let id := ot_next o in
  (id, mkOtel (<[id := impl]> (ot_heap o)) (S id) (id :: ot_stack o) d2 (ot_pending o)).

(** [OtelScope(operationName)] *)
Definition open_operation `{Rng} (name : string) (now : Z) (o : state) : nat * state :=
  open_scope name [] now o.

(** [OtelScope(sessionId, clientIp)] *)
Definition open_connection `{Rng} (sessionId clientIp : string) (now : Z) (o : state)
    : nat * state :=
  open_scope "client_connection"
    [("session.id", AStr sessionId); ("net.peer.ip", AStr clientIp)] now o.

(** [BatchExporter::enqueue] *)
Definition enqueue (s : FinishedSpan) (o : state) : state :=
  mkOtel (ot_heap o) (ot_next o) (ot_stack o) (ot_draws o) (ot_pending o ++ [s]).

(** [~OtelScope()] *)
Definition close_scope (id : nat) (now : Z) (o : state) : state :=
  let stack := match ot_stack o with [] => [] | _ :: s => s end in
  match ot_heap o !! id with
  | Some i =>
      enqueue
        (mkFinished (m_traceId i) (m_spanId i) (m_parentSpanId i) (m_name i)
           (m_startTimeNano i) (nowNanos now) (m_statusCode i) (m_statusMessage i)
           (m_attributes i))
        (mkOtel (delete id (ot_heap o)) (ot_next o) stack (ot_draws o) (ot_pending o))
  | None => mkOtel (ot_heap o) (ot_next o) stack (ot_draws o) (ot_pending o)
  end.

Definition update_impl (f : Impl → Impl) (id : nat) (o : state) : state :=
  mkOtel (alter f id (ot_heap o)) (ot_next o) (ot_stack o) (ot_draws o) (ot_pending o).

Definition recordError (id : nat) (description : string) : state → state :=
  update_impl (λ i,
    mkImpl (m_traceId i) (m_spanId i) (m_parentSpanId i) (m_name i)
      (m_startTimeNano i) 2 description (m_attributes i)) id.

Definition setAttribute (id : nat) (key : string) (value : AttributeValue)
    : state → state :=
  update_impl (λ i,
    mkImpl (m_traceId i) (m_spanId i) (m_parentSpanId i) (m_name i)
      (m_startTimeNano i) (m_statusCode i) (m_statusMessage i)
      (m_attributes i ++ [(key, value)])) id.

(** ** Lemmas: identifiers *)

Lemma hexid_loop_length `{Rng} n i value draws :
  length (hexid_loop n i value draws).1 = (2 * n)%nat.
Proof.
  revert i value draws. induction n as [|n IH]; intros i value draws; [done|].
  cbn [hexid_loop].
  destruct (if (i =? 8)%nat then _ else _) as [v d].
  specialize (IH (S i) v d). destruct (hexid_loop n (S i) v d) as [rest d'].
  simpl in *. rewrite length_app, hex_padded_length, IH; [lia|lia|].
  rewrite land_255. apply Z.mod_pos_bound. lia.
Qed.

Lemma generateHexId_length `{Rng} n draws : str_size (generateHexId n draws).1 = 2 * Z.of_nat n.
Proof.
  unfold generateHexId.
  pose proof (hexid_loop_length n 0 (u64 (rng draws)) (S draws)) as Hl.
  destruct (hexid_loop _ _ _ _) as [bs d]. simpl in *.
  rewrite str_size_bytes. lia.
Qed.

Lemma hexid_loop_hex `{Rng} n i value draws :
  forallb is_hex (hexid_loop n i value draws).1 = true.
Proof.
  revert i value draws. induction n as [|n IH]; intros i value draws; [done|].
  cbn [hexid_loop].
  destruct (if (i =? 8)%nat then _ else _) as [v d].
  specialize (IH (S i) v d). destruct (hexid_loop n (S i) v d) as [rest d'].
  simpl in *. rewrite forallb_app, IH, andb_true_r.
  apply hex_padded_hex. rewrite land_255. apply Z.mod_pos_bound. lia.
Qed.

(** An identifier: at most 32 hexadecimal digits. *)
Definition id_ok (s : string) : Prop := hex_text s = true ∧ str_size s ≤ 32.

Lemma id_ok_empty : id_ok "".
Proof. by split. Qed.

Lemma generateHexId_ok `{Rng} n draws : (n ≤ 16)%nat → id_ok (generateHexId n draws).1.
Proof.
  intros Hn. split.
  - unfold generateHexId, hex_text.
    pose proof (hexid_loop_hex n 0 (u64 (rng draws)) (S draws)) as Hh.
    destruct (hexid_loop _ _ _ _) as [bs d]. simpl in *.
    by rewrite bytes_of_string_of_bytes.
  - rewrite generateHexId_length. lia.
Qed.

(** ** Lemmas: scope objects *)

(** Live objects have been allocated, the stack points to live objects, and
    every span carries well-formed identifiers. *)
Definition wf (o : state) : Prop :=
  (∀ id, id ∈ dom (ot_heap o) → (id < ot_next o)%nat) ∧
  (∀ id, id ∈ ot_stack o → id ∈ dom (ot_heap o)) ∧
  (∀ id, id_ok (traceId id o) ∧ id_ok (spanId id o)).

(** [nested o o']: [o'] comes from [o] by opening and closing scopes and
    annotating live ones.  The stack and the live objects are the same, with
    the same identifiers, and every span exported meanwhile belongs to the
    trace that was current, if there was one. *)
Record nested (o o' : state) : Prop := {
  ne_stack : ot_stack o' = ot_stack o;
  ne_dom : dom (ot_heap o') = dom (ot_heap o);
  ne_trace id : traceId id o' = traceId id o;
  ne_span id : spanId id o' = spanId id o;
  ne_next : (ot_next o ≤ ot_next o')%nat;
  ne_pending : ∃ new, ot_pending o' = ot_pending o ++ new ∧
    (ot_stack o ≠ [] → Forall (λ s, fs_traceId s = currentTraceId o) new)
}.

#[global] Instance nested_refl : Reflexive nested.
Proof.
  intros o. split; try done. exists []. by rewrite app_nil_r.
Qed.

Lemma nested_currentTraceId o o' : nested o o' → currentTraceId o' = currentTraceId o.
Proof.
  intros N. unfold currentTraceId. rewrite (ne_stack _ _ N).
  destruct (ot_stack o); [done|]. apply (ne_trace _ _ N).
Qed.

#[global] Instance nested_trans : Transitive nested.
Proof.
  intros o1 o2 o3 N1 N2.
  pose proof (nested_currentTraceId _ _ N1) as Hc.
  destruct N1 as [S1 D1 T1 P1 X1 (n1 & E1 & F1)], N2 as [S2 D2 T2 P2 X2 (n2 & E2 & F2)].
  split.
  - congruence.
  - congruence.
  - intros id. by rewrite T2.
  - intros id. by rewrite P2.
  - lia.
  - exists (n1 ++ n2). rewrite E2, E1, app_assoc. split; [done|].
    intros Hs. apply Forall_app. split; [auto|].
    rewrite <-Hc. apply F2. by rewrite S1.
Qed.

Lemma nested_wf o o' : nested o o' → wf o → wf o'.
Proof.
  intros N (H1 & H2 & H3). split_and!; intros id;
    rewrite ?(ne_dom _ _ N), ?(ne_stack _ _ N), ?(ne_trace _ _ N), ?(ne_span _ _ N);
    [|auto|auto].
  intros Hid. pose proof (ne_next _ _ N). specialize (H1 id Hid). lia.
Qed.

(** Annotating a live span. *)
Lemma update_impl_nested f id o :
  (∀ i, m_traceId (f i) = m_traceId i) → (∀ i, m_spanId (f i) = m_spanId i) →
  nested o (update_impl f id o).
Proof.
  intros Ht Hs. split; try done; simpl.
  - apply dom_alter_L.
  - intros id'. unfold traceId. simpl. rewrite lookup_alter. case_decide; [subst|done].
    destruct (ot_heap o !! id'); simpl; [apply Ht|done].
  - intros id'. unfold spanId. simpl. rewrite lookup_alter. case_decide; [subst|done].
    destruct (ot_heap o !! id'); simpl; [apply Hs|done].
  - exists []. by rewrite app_nil_r.
Qed.

Lemma recordError_nested id d o : nested o (recordError id d o).
Proof. by apply update_impl_nested. Qed.

Lemma setAttribute_nested id k v o : nested o (setAttribute id k v o).
Proof. by apply update_impl_nested. Qed.

Lemma parentTraceIdOrNew_ok `{Rng} o :
  (∀ id, id_ok (traceId id o) ∧ id_ok (spanId id o)) → id_ok (parentTraceIdOrNew o).1.
Proof.
  intros Hok. unfold parentTraceIdOrNew. destruct (ot_stack o); [|apply Hok].
  by apply generateHexId_ok.
Qed.

(** The state just after a constructor. *)
Lemma open_scope_spec `{Rng} name attrs now o id o' :
  wf o → open_scope name attrs now o = (id, o') →
  id = ot_next o ∧ ot_stack o' = id :: ot_stack o ∧ wf o' ∧
  dom (ot_heap o') = {[id]} ∪ dom (ot_heap o) ∧ id ∉ dom (ot_heap o) ∧
  (∀ id', id' ≠ id → ot_heap o' !! id' = ot_heap o !! id') ∧
  ot_next o' = S id ∧ ot_pending o' = ot_pending o ∧
  (ot_stack o ≠ [] → traceId id o' = currentTraceId o).
Proof.
  intros (W1 & W2 & W3) Ho. unfold open_scope in Ho.
  destruct (parentTraceIdOrNew o) as [tid d1] eqn:E1.
  pose proof (parentTraceIdOrNew_ok o W3) as Ht. rewrite E1 in Ht.
  pose proof (generateHexId_ok 8 d1 ltac:(lia)) as Hs. fold (generateSpanId d1) in Hs.
  destruct (generateSpanId d1) as [sid d2]. simplify_eq. simpl.
  assert (ot_next o ∉ dom (ot_heap o)) by (intros Hin%W1; lia).
  rewrite dom_insert_L. split_and!; try done.
  - split_and!; simpl; rewrite ?dom_insert_L.
    + intros id Hid. apply elem_of_union in Hid as [->%elem_of_singleton|Hid]; [lia|].
      specialize (W1 id Hid). lia.
    + intros id Hid. apply elem_of_union. apply elem_of_cons in Hid as [->|Hid];
        [left; set_solver|right; auto].
    + intros id. unfold traceId, spanId. simpl. rewrite lookup_insert.
      case_decide; [done|]. apply (W3 id).
  - intros id' Hne. by rewrite lookup_insert_ne.
  - intros Hne. unfold traceId. simpl. rewrite lookup_insert_eq. simpl.
    unfold parentTraceIdOrNew in E1. unfold currentTraceId.
    destruct (ot_stack o); [done|]. by simplify_eq.
Qed.

(** A scope around nested work is nested. *)
Lemma scope_nested `{Rng} name attrs now1 now2 o id o1 o2 :
  wf o → open_scope name attrs now1 o = (id, o1) → nested o1 o2 →
  nested o (close_scope id now2 o2).
Proof.
  intros Hwf Ho N. pose proof Hwf as (W1 & _).
  destruct (open_scope_spec _ _ _ _ _ _ Hwf Ho)
    as (Hid & Hst & Hwf1 & Hdom & Hni & Hheap & Hnext & Hpend & Htr).
  destruct (ot_heap o2 !! id) as [i|] eqn:Hi.
  2: { apply not_elem_of_dom in Hi. rewrite (ne_dom _ _ N), Hdom in Hi. set_solver. }
  assert (∀ id', id' ≠ id → traceId id' o1 = traceId id' o) as Ht1.
  { intros id' Hne. unfold traceId. by rewrite Hheap. }
  assert (∀ id', id' ≠ id → spanId id' o1 = spanId id' o) as Hs1.
  { intros id' Hne. unfold spanId. by rewrite Hheap. }
  assert (ot_heap o !! id = None) as Hnone by by apply not_elem_of_dom.
  unfold close_scope. rewrite Hi, (ne_stack _ _ N), Hst. unfold enqueue.
  split; simpl.
  - done.
  - rewrite dom_delete_L, (ne_dom _ _ N), Hdom. set_solver.
  - intros id'. unfold traceId at 1. simpl.
    destruct (decide (id' = id)) as [->|Hne].
    { rewrite lookup_delete_eq. unfold traceId. by rewrite Hnone. }
    rewrite lookup_delete_ne by done. rewrite <-Ht1 by done. apply (ne_trace _ _ N id').
  - intros id'. unfold spanId at 1. simpl.
    destruct (decide (id' = id)) as [->|Hne].
    { rewrite lookup_delete_eq. unfold spanId. by rewrite Hnone. }
    rewrite lookup_delete_ne by done. rewrite <-Hs1 by done. apply (ne_span _ _ N id').
  - pose proof (ne_next _ _ N). lia.
  - destruct (ne_pending _ _ N) as (new & -> & Hnew). rewrite Hpend, <-app_assoc.
    eexists. split; [done|]. intros Hs.
    assert (currentTraceId o1 = currentTraceId o) as Hc.
    { unfold currentTraceId at 1. rewrite Hst. by apply Htr. }
    apply Forall_app. split.
    + rewrite <-Hc. apply Hnew. by rewrite Hst.
    + constructor; [|done]. simpl. rewrite <-Hc.
      rewrite <-(nested_currentTraceId _ _ N). unfold currentTraceId.
      rewrite (ne_stack _ _ N), Hst. unfold traceId. by rewrite Hi.
Qed.

(** ** Lemmas: the endpoint *)

(** The first occurrence, when what precedes it has no first character of
    the needle. *)
(** The first occurrence. *)
Lemma find_split_least needle l r :
  (∀ l' r', l ++ needle ++ r = l' ++ needle ++ r' → (length l ≤ length l')%nat) →
  find_split needle (l ++ needle ++ r) = Some (l, r).
Proof.
  induction l as [|x l IH]; intros Hleast; cbn [app].
  - destruct (needle ++ r) as [|y s] eqn:E; cbn [find_split]; rewrite <-?E;
      rewrite take_app_length, bool_decide_true, drop_app_length by done; done.
  - cbn [find_split]. case_bool_decide as Ht.
    + specialize (Hleast [] (drop (length needle) (x :: l ++ needle ++ r))).
      rewrite app_nil_l in Hleast. rewrite <-Ht in Hleast at 2. rewrite take_drop in Hleast.
      specialize (Hleast eq_refl). simpl in Hleast. lia.
    + rewrite IH; [done|]. intros l' r' E. specialize (Hleast (x :: l') r').
      simpl in Hleast. rewrite E in Hleast. specialize (Hleast eq_refl). lia.
Qed.

Lemma find_split_some needle bs l r :
  find_split needle bs = Some (l, r) →
  bs = l ++ needle ++ r ∧ ∀ l' r', bs = l' ++ needle ++ r' → (length l ≤ length l')%nat.
Proof.
  revert l. induction bs as [|b bs IH]; intros l; cbn [find_split]; case_bool_decide as Ht; intros Hf.
  - simplify_eq. rewrite <-Ht at 1. rewrite app_nil_l, take_drop. split; [done|]. simpl. lia.
  - done.
  - simplify_eq. rewrite <-Ht at 1. rewrite app_nil_l, take_drop. split; [done|]. simpl. lia.
  - destruct (find_split needle bs) as [[l1 r1]|]; [|done]. simplify_eq.
    destruct (IH l1 eq_refl) as [-> Hl]. split; [done|]. intros [|y l'] r' E.
    + exfalso. apply Ht. rewrite E, app_nil_l. apply take_app_length.
    + simpl in E. injection E as _ E. apply Hl in E. simpl. lia.
Qed.

Lemma find_split_first c n l r :
  c ∉ l → find_split (c :: n) (l ++ (c :: n) ++ r) = Some (l, r).
Proof.
  intros Hc. change ((c :: n) ++ r) with (c :: n ++ r).
  induction l as [|x l IH]; cbn [app find_split].
  - rewrite bool_decide_true.
    + f_equal. f_equal. apply (drop_app_length (c :: n) r).
    + apply (take_app_length (c :: n) r).
  - rewrite not_elem_of_cons in Hc. destruct Hc as [Hx Hl]. rewrite bool_decide_false.
    + by rewrite IH.
    + simpl. congruence.
Qed.

Lemma rfind_split_last c l r : c ∉ r → rfind_split c (l ++ [c] ++ r) = Some (l, r).
Proof.
  intros Hc. unfold rfind_split. rewrite !reverse_app, <-app_assoc.
  change (reverse [c]) with [c]. rewrite (find_split_first c []).
  - by rewrite !reverse_involutive.
  - by rewrite elem_of_reverse.
Qed.

Lemma atoi_dec n : 0 ≤ n → atoi (dec_digits n) = n.
Proof.
  intros Hn. pose proof (dec_digits_isdigit n Hn) as Hd.
  assert (span ServerConfig.isspace (dec_digits n) = ([], dec_digits n)) as Hsp.
  { apply (span_app ServerConfig.isspace []); [done|]. intros b r E.
    rewrite E in Hd. apply Forall_cons in Hd as [Hb _]. by apply ServerConfig.isdigit_not_space. }
  unfold atoi. rewrite Hsp.
  pose proof (dec_digits_nonnil n). pose proof (dec_digits_read n Hn) as Hr.
  destruct (dec_digits n) as [|d ds] eqn:E; [done|].
  assert (isdigit d = true) as Hd0 by by apply Forall_cons in Hd as [? _].
  assert (span isdigit (d :: ds) = (d :: ds, [])) as Hsd by by apply span_all.
  destruct d; try (vm_compute in Hd0; discriminate); by rewrite Hsd.
Qed.

Lemma digits_without c n : 0 ≤ n → isdigit c = false → c ∉ dec_digits n.
Proof.
  intros Hn Hc Hin. pose proof (dec_digits_isdigit n Hn) as Hd.
  rewrite Forall_forall in Hd. specialize (Hd _ Hin). congruence.
Qed.

(** ** Correctness *)

(** An OTLP endpoint written as a URL is understood: from
    [http://host:port/path] in either environment variable (the one for
    traces first) the exporter takes exactly that host and that port. *)
Theorem endpoint_of_url env host port path :
  x2f ∉ host → x3a ∉ host → 0 < port →
  env !! "OTEL_EXPORTER_OTLP_TRACES_ENDPOINT" = Some (string_of_bytes
    (bytes_of_string "http://" ++ host ++ [x3a] ++ dec_digits port ++ [x2f] ++ path)) ∨
  (getenv_nonempty env "OTEL_EXPORTER_OTLP_TRACES_ENDPOINT" = None ∧
   env !! "OTEL_EXPORTER_OTLP_ENDPOINT" = Some (string_of_bytes
    (bytes_of_string "http://" ++ host ++ [x3a] ++ dec_digits port ++ [x2f] ++ path))) →
  resolveEndpoint env = mkEndpoint (string_of_bytes host) port.
Proof.
  intros Hh1 Hh2 Hp Henv.
  set (u := string_of_bytes _) in Henv.
  assert (str_empty u = false) as Hne by reflexivity.
  unfold resolveEndpoint.
  set (url := match getenv_nonempty env "OTEL_EXPORTER_OTLP_TRACES_ENDPOINT" with
              | Some v => v | None => _ end).
  assert (url = u) as ->.
  { subst url. unfold getenv_nonempty in *.
    destruct Henv as [->|[-> ->]]; by rewrite Hne. }
  rewrite Hne. subst u. rewrite bytes_of_string_of_bytes.
  change (bytes_of_string "http://") with ([x68; x74; x74; x70] ++ [x3a; x2f; x2f]).
  rewrite <-app_assoc, (find_split_first x3a [x2f; x2f]) by (vm_compute; set_solver).
  rewrite (app_assoc host), (app_assoc (host ++ [x3a])).
  assert (x2f ∉ (host ++ [x3a]) ++ dec_digits port) as Hs.
  { rewrite !not_elem_of_app. split_and!; [done|by intros ?%list_elem_of_singleton|].
    apply digits_without; [lia|done]. }
  rewrite (find_split_first x2f []) by done.
  rewrite <-app_assoc, rfind_split_last by (apply digits_without; [lia|done]).
  rewrite atoi_dec by lia. by rewrite (proj2 (Z.leb_gt port 0)) by lia.
Qed.

Lemma endpoint_witness :
  resolveEndpoint {[ "OTEL_EXPORTER_OTLP_ENDPOINT" := "http://collector:4318/" ]}
  = mkEndpoint "collector" 4318.
Proof.
  apply (endpoint_of_url _ (bytes_of_string "collector") 4318 []).
  - apply (bool_decide_eq_true_1 (_ ∉ _)). vm_compute. reflexivity.
  - apply (bool_decide_eq_true_1 (_ ∉ _)). vm_compute. reflexivity.
  - lia.
  - right. split; vm_compute; reflexivity.
Defined.

(** A span opened while another is the innermost one belongs to the same
    trace and names it as its parent; one opened on an empty stack starts a
    new trace without a parent; the span id has 16 hexadecimal digits and a
    new trace id 32. *)
Theorem span_parentage `{Rng} name now o :
  wf o →
  let '(id, o') := open_operation name now o in
  ∃ i, ot_heap o' !! id = Some i ∧ ot_stack o' = id :: ot_stack o ∧ m_name i = name ∧
    hex_text (m_spanId i) = true ∧ str_size (m_spanId i) = 16 ∧
    match ot_stack o with
    | top :: _ => m_traceId i = traceId top o ∧ m_parentSpanId i = spanId top o
    | [] => hex_text (m_traceId i) = true ∧ str_size (m_traceId i) = 32 ∧ m_parentSpanId i = ""
    end.
Proof.
  intros Hwf. unfold open_operation, open_scope, parentTraceIdOrNew, parentSpanId.
  destruct (ot_stack o) as [|top stack] eqn:Es.
  - destruct (generateHexId_ok 16 (ot_draws o) ltac:(lia)) as [Hh _].
    pose proof (generateHexId_length 16 (ot_draws o)) as Hl.
    fold (generateTraceId (ot_draws o)) in Hh, Hl.
    destruct (generateTraceId (ot_draws o)) as [tid d1]. simpl in Hh, Hl.
    destruct (generateHexId_ok 8 d1 ltac:(lia)) as [Hh2 _].
    pose proof (generateHexId_length 8 d1) as Hl2. fold (generateSpanId d1) in Hh2, Hl2.
    destruct (generateSpanId d1) as [sid d2]. simpl in Hh2, Hl2.
    eexists. simpl. rewrite lookup_insert_eq. split_and!; [reflexivity|done..].
  - destruct (generateHexId_ok 8 (ot_draws o) ltac:(lia)) as [Hh2 _].
    pose proof (generateHexId_length 8 (ot_draws o)) as Hl2.
    fold (generateSpanId (ot_draws o)) in Hh2, Hl2.
    destruct (generateSpanId (ot_draws o)) as [sid d2]. simpl in Hh2, Hl2.
    eexists. simpl. rewrite lookup_insert_eq. split_and!; [reflexivity|done..].
Qed.

Lemma init_wf : wf init.
Proof.
  split_and!; intros id; simpl.
  - by rewrite dom_empty_L.
  - by intros ?%not_elem_of_nil.
  - done.
Qed.

Lemma span_parentage_witness :
  let R := {| rng n := Z.of_nat n |} in
  ∃ i, ot_heap (open_operation (H := R) "root" 0 init).2 !! 0%nat = Some i ∧
       str_size (m_spanId i) = 16.
Proof.
  intros R. pose proof (span_parentage (H := R) "root" 0 init init_wf) as Hp.
  destruct Hp as (i & Hi & _ & _ & _ & Hs & _). exists i. exact (conj Hi Hs).
Defined.

End Otel.
