(* ===== verification/Exporter.v ===== *)
(** * BatchExporter: sending finished spans

    Models the class [BatchExporter] and [httpPost] of [src/otelScope.cpp].
    The OTLP request is built as a JSON value; the network is given as the
    results of the calls [httpPost] makes.  Workers add spans and the flusher
    thread takes and posts them; a flush releases the mutex between the two,
    so a concurrent execution is a sequence of [op]s. *)

From S2P Require Import Prelude Net Json JsonRef Otel.
Local Open Scope Z_scope.

Module Exporter.

Definition TRACES_PATH : string := "/v1/traces".
Definition SERVICE_NAME : string := "eop-server".
Definition RESPONSE_SIZE : nat := 63.

(** ** The OTLP payload *)

Section payload.
Context `{JL : JsonLib}.

Definition attribute_json (kv : string * Otel.AttributeValue) : json :=
  j_obj [("key", j_string kv.1);
         ("value", j_obj [match kv.2 with
                          | Otel.AStr s => ("stringValue", j_string s)
                          | Otel.AInt n => ("intValue", j_string (to_string n))
                          end])].

Definition status_json (s : Otel.FinishedSpan) : json :=
  j_obj (("code", j_integer (Otel.fs_statusCode s))
         :: if negb (str_empty (Otel.fs_statusMessage s))
            then [("message", j_string (Otel.fs_statusMessage s))] else []).

Definition span_json (s : Otel.FinishedSpan) : json :=
  j_obj ([("traceId", j_string (Otel.fs_traceId s)); ("spanId", j_string (Otel.fs_spanId s))]
         ++ (if negb (str_empty (Otel.fs_parentSpanId s))
             then [("parentSpanId", j_string (Otel.fs_parentSpanId s))] else [])
         ++ [("name", j_string (Otel.fs_name s)); ("kind", j_integer 2);
             ("startTimeUnixNano", j_string (Otel.fs_startTimeNano s));
             ("endTimeUnixNano", j_string (Otel.fs_endTimeNano s));
             ("attributes", j_array (map attribute_json (Otel.fs_attributes s)));
             ("status", status_json s)]).

Definition payload_json (batch : list Otel.FinishedSpan) : json :=
  j_obj [("resourceSpans", j_array [j_obj [
    ("resource", j_obj [("attributes", j_array [
       j_obj [("key", j_string "service.name");
              ("value", j_obj [("stringValue", j_string SERVICE_NAME)])]])]);
    ("scopeSpans", j_array [j_obj [
       ("scope", j_obj [("name", j_string SERVICE_NAME)]);
       ("spans", j_array (map span_json batch))]])]])].
End payload.

(** ** [httpPost] *)

Definition crlf : list byte := [x0d; x0a].

Definition request_lines (endpoint : Otel.OtlpEndpoint) (size : nat) : list (list byte) :=
  [bytes_of_string "POST " ++ bytes_of_string TRACES_PATH ++ bytes_of_string " HTTP/1.1";
   bytes_of_string "Host: " ++ bytes_of_string (Otel.m_host endpoint) ++ bytes_of_string ":"
     ++ bytes_of_string (to_string (Otel.m_port endpoint));
   bytes_of_string "Content-Type: application/json";
   bytes_of_string "Content-Length: " ++ bytes_of_string (to_string (Z.of_nat size));
   bytes_of_string "Connection: close"].

Definition request (endpoint : Otel.OtlpEndpoint) (body : list byte) : list byte :=
  concat (map (λ l, l ++ crlf) (request_lines endpoint (length body))) ++ crlf ++ body.

(** What the calls return: whether [getaddrinfo] resolves, the descriptor of
    [socket] (none: -1), whether [connect] succeeds, the schedule of [send]
    and the events [recv] sees. *)
Record http_calls := mkHttp {
  hc_resolves : bool;
  hc_socket : option Z;
  hc_connects : bool;
  hc_snd : list send_ev;
  hc_in : list recv_ev
}.

(** [send] is called without [MSG_NOSIGNAL] and the process leaves SIGPIPE at
    its default: writing to a connection the peer has closed kills it. *)
Inductive http_result :=
| Answered (ok : bool)
| KilledBySigpipe.

Fixpoint post_loop (fuel : nat) (totalSent : nat) (raw : list byte) (snd : list send_ev)
    : option bool * nat :=
  match fuel with
  | O => (Some false, totalSent)
  | S fuel =>
      if (totalSent <? length raw)%nat then
        match send (length raw - totalSent) snd with
        | (Sent O, _) => (Some false, totalSent)
        | (Sent k, snd) => post_loop fuel (totalSent + k) raw snd
        | (SendFailed e, _) => (if e =? EPIPE then None else Some false, totalSent)
        end
      else (Some true, totalSent)
  end.

(** [strstr] on the buffer: the text up to the first NUL. *)
Definition c_text (buf : list byte) : list byte :=
  match Otel.find_split [x00] buf with Some (l, _) => l | None => buf end.

Definition mentions (needle : string) (buf : list byte) : bool :=
  match Otel.find_split (bytes_of_string needle) (c_text buf) with Some _ => true | None => false end.

(** The result, the bytes sent and the descriptors closed. *)
Definition httpPost (endpoint : Otel.OtlpEndpoint) (body : list byte) (calls : http_calls)
    : http_result * list byte * list Z :=
  if negb (hc_resolves calls) then (Answered false, [], [])
  else
    match hc_socket calls with
    | None => (Answered false, [], [])
    | Some sock =>
        if negb (hc_connects calls) then (Answered false, [], [sock])
        else
          let raw := request endpoint body in
          match post_loop (S (S (length (hc_snd calls)))) 0 raw (hc_snd calls) with
          | (None, n) => (KilledBySigpipe, take n raw, [])
          | (Some false, n) => (Answered false, take n raw, [sock])
          | (Some true, n) =>
              let buf := match recv RESPONSE_SIZE (hc_in calls) with
                         | (Got bs, _) => bs
                         | (Failed _, _) => []
                         end in
              (Answered (mentions "200" buf || mentions "202" buf), take n raw, [sock])
          end
    end.

(** ** The exporter *)

Record state := mkExporter {
  m_pending : list Otel.FinishedSpan;
  in_flight : option (list Otel.FinishedSpan);         (* [batch] of the flush under way *)
  posted : list (list Otel.FinishedSpan * bool);       (* batches given to [httpPost], with its verdict: false is a batch that was lost *)
  terminated : bool                                    (* the process has died *)
}.

Definition init : state := mkExporter [] None [] false.

Inductive op :=
| Enqueue (s : Otel.FinishedSpan)
| Swap                                (* [flush] up to the unlock *)
| Post (calls : http_calls).          (* the rest of [flush] *)

Section exporter.
Context `{JL : JsonLib}.
Context (endpoint : Otel.OtlpEndpoint).

Definition enqueue (span : Otel.FinishedSpan) (e : state) : state :=
  mkExporter (m_pending e ++ [span]) (in_flight e) (posted e) (terminated e).

Definition flush_swap (e : state) : state :=
  match m_pending e, in_flight e with
  | _ :: _, None => mkExporter [] (Some (m_pending e)) (posted e) (terminated e)
  | _, _ => e
  end.

(** [payload.dump()] and the post: an exception leaves the thread's function
    and ends the process. *)
Definition flush_post (calls : http_calls) (e : state) : state :=
  match in_flight e with
  | None => e
  | Some batch =>
      match j_dump (payload_json batch) with
      | None => mkExporter (m_pending e) (in_flight e) (posted e) true
      | Some body =>
          match httpPost endpoint (bytes_of_string body) calls with
          | (Answered ok, _, _) =>
              mkExporter (m_pending e) None (posted e ++ [(batch, ok)]) (terminated e)
          | (KilledBySigpipe, _, _) => mkExporter (m_pending e) (in_flight e) (posted e) true
          end
      end
  end.

Definition step (o : op) (e : state) : state :=
  if terminated e then e
  else match o with
       | Enqueue s => enqueue s e
       | Swap => flush_swap e
       | Post calls => flush_post calls e
       end.

Definition run_ops (ops : list op) : state := fold_left (λ e o, step o e) ops init.

(** The destructor, once no flush is under way and the flusher is joined. *)
Definition final_flush (calls : http_calls) (e : state) : state :=
  step (Post calls) (step Swap e).
End exporter.

(** The spans handed in. *)
Definition offered (ops : list op) : list Otel.FinishedSpan :=
  omap (λ o, match o with Enqueue s => Some s | _ => None end) ops.

(** ** Lemmas: the request on the wire *)

(** A reader of HTTP lines: the lines up to the empty one, and the rest. *)
Fixpoint read_lines (n : nat) (bs : list byte) : option (list (list byte) * list byte) :=
  match n with
  | O => None
  | S n =>
      match Otel.find_split crlf bs with
      | None => None
      | Some ([], rest) => Some ([], rest)
      | Some (l, rest) =>
          match read_lines n rest with
          | Some (ls, body) => Some (l :: ls, body)
          | None => None
          end
      end
  end.

Lemma read_lines_concat ls body :
  Forall (λ l, l ≠ [] ∧ x0d ∉ l) ls →
  read_lines (S (length ls)) (concat (map (λ l, l ++ crlf) ls) ++ crlf ++ body)
  = Some (ls, body).
Proof.
  induction 1 as [|l ls [Hne Hl] Hls IH]; [done|].
  cbn [length map concat]. rewrite <-!app_assoc.
  change (read_lines (S (S (length ls))) ?x) with
    (match Otel.find_split crlf x with
     | None => None
     | Some ([], rest) => Some ([], rest)
     | Some (l, rest) =>
         match read_lines (S (length ls)) rest with
         | Some (ls, body) => Some (l :: ls, body)
         | None => None
         end
     end).
  rewrite (Otel.find_split_first x0d [x0a]) by done. destruct l; [done|]. by rewrite IH.
Qed.

Lemma to_string_no_cr n : 0 ≤ n → x0d ∉ bytes_of_string (to_string n).
Proof.
  intros Hn. unfold to_string. rewrite (proj2 (Z.ltb_ge n 0)) by done.
  rewrite bytes_of_string_of_bytes. intros Hin.
  pose proof (dec_digits_isdigit n Hn) as Hd. rewrite Forall_forall in Hd.
  by specialize (Hd _ Hin).
Qed.

(** The loop sends a prefix; true exactly when it is everything. *)
Lemma post_loop_spec fuel n raw snd r n' :
  post_loop fuel n raw snd = (r, n') → (n ≤ length raw)%nat →
  (n' ≤ length raw)%nat ∧ (r = Some true → n' = length raw).
Proof.
  revert n snd. induction fuel as [|fuel IH]; intros n snd Hp Hn; simpl in Hp.
  { by simplify_eq. }
  destruct (Nat.ltb_spec n (length raw)); [|simplify_eq; split; [done|lia]].
  destruct (send (length raw - n) snd) as [[[|k]|e] snd'] eqn:Es.
  - by simplify_eq.
  - apply (IH (n + S k)%nat snd' Hp).
    destruct snd as [|[j|e] ?]; simpl in Es; simplify_eq; lia.
  - destruct (e =? EPIPE); by simplify_eq.
Qed.

(** A schedule that always takes something is sent whole. *)
Lemma post_loop_all fuel n raw snd :
  (S (length snd) < fuel)%nat → (n ≤ length raw)%nat →
  Forall (λ ev, match ev with SAccept k => (0 < k)%nat | SErr _ => False end) snd →
  post_loop fuel n raw snd = (Some true, length raw).
Proof.
  revert n snd. induction fuel as [|fuel IH]; intros n snd Hf Hn Hs; [lia|]. simpl.
  destruct (Nat.ltb_spec n (length raw)); [|by replace n with (length raw) by lia].
  destruct Hs as [|[k|e] snd Hk Hs]; simpl in *; [| |done].
  - destruct (length raw - n)%nat eqn:E; [lia|].
    replace (n + S n0)%nat with (length raw) by lia.
    destruct fuel; [lia|]. simpl. by rewrite Nat.ltb_irrefl.
  - destruct (Nat.min k (length raw - n)) eqn:E; [lia|]. apply IH; [lia|lia|done].
Qed.

(** ** Lemmas: when the payload can be written *)

(** The texts of a span that reach the payload. *)
Definition span_texts (s : Otel.FinishedSpan) : list string :=
  [Otel.fs_traceId s; Otel.fs_spanId s; Otel.fs_parentSpanId s; Otel.fs_name s;
   Otel.fs_startTimeNano s; Otel.fs_endTimeNano s; Otel.fs_statusMessage s]
  ++ flat_map (λ kv, kv.1 :: match kv.2 with Otel.AStr v => [v] | Otel.AInt _ => [] end)
       (Otel.fs_attributes s).

Definition span_ok (s : Otel.FinishedSpan) : bool := forallb Utf8.valid (span_texts s).

Section facts.
Context `{JL : JsonLib} `{!JsonLaws}.

(** An object whose keys are distinct and valid is UTF-8 when its values
    are. *)
Lemma utf8_obj_iff fields :
  bool_decide (NoDup fields.*1) = true → forallb Utf8.valid fields.*1 = true →
  j_utf8 (j_obj fields) ↔ Forall (λ kv, j_utf8 kv.2) fields.
Proof.
  intros Hnd Hk. apply bool_decide_eq_true in Hnd. split.
  - intros Hu. apply Forall_forall. intros [k v] Hin.
    destruct (j_obj_lookup fields k v Hnd Hin) as [Hc <-]. by apply j_utf8_at.
  - intros Hv. apply j_utf8_obj. apply Forall_forall. intros [k v] Hin. split.
    + rewrite forallb_forall in Hk. apply Hk, list_elem_of_In, list_elem_of_fmap.
      by exists (k, v).
    + rewrite Forall_forall in Hv. by apply (Hv (k, v)).
Qed.

Lemma to_string_valid n : Utf8.valid (to_string n) = true.
Proof.
  apply Utf8.valid_ascii. unfold to_string. rewrite bytes_of_string_of_bytes.
  assert (Forall (λ b, byte_val b ≤ 127) (dec_digits (Z.abs n))) as Hd.
  { eapply Forall_impl; [apply dec_digits_isdigit; lia|]. intros b Hb.
    apply is_hex_ascii. unfold is_hex. by rewrite Hb. }
  destruct (Z.ltb_spec n 0).
  - constructor; [by vm_compute|]. by replace (- n) with (Z.abs n) by lia.
  - by replace n with (Z.abs n) at 1 by lia.
Qed.

Lemma attribute_utf8 kv :
  j_utf8 (attribute_json kv) ↔
  Utf8.valid kv.1 = true ∧
  match kv.2 with Otel.AStr v => Utf8.valid v = true | Otel.AInt _ => True end.
Proof.
  unfold attribute_json. rewrite utf8_obj_iff by (vm_compute; reflexivity).
  rewrite !Forall_cons, Forall_nil. cbn [snd]. rewrite j_utf8_string.
  destruct kv.2 as [v|n]; rewrite utf8_obj_iff by (vm_compute; reflexivity);
    rewrite Forall_cons, Forall_nil; cbn [snd]; rewrite j_utf8_string; [tauto|].
  pose proof (to_string_valid n). tauto.
Qed.

Lemma attributes_utf8 attrs :
  j_utf8 (j_array (map attribute_json attrs)) ↔
  forallb Utf8.valid
    (flat_map (λ kv, kv.1 :: match kv.2 with Otel.AStr v => [v] | Otel.AInt _ => [] end) attrs)
  = true.
Proof.
  rewrite j_utf8_array. induction attrs as [|[k v] attrs IH]; [simpl; by rewrite Forall_nil|].
  cbn [map flat_map]. rewrite Forall_cons, IH, forallb_app, andb_true_iff.
  rewrite attribute_utf8. destruct v; simpl; rewrite ?andb_true_iff; tauto.
Qed.

(** An optional text field. *)
Lemma optional_utf8 (k t : string) :
  Forall (λ kv : string * json, j_utf8 kv.2)
    (if negb (str_empty t) then [(k, j_string t)] else []) ↔ Utf8.valid t = true.
Proof.
  destruct (str_empty t) eqn:E; simpl.
  - apply str_empty_true in E as ->. by rewrite Forall_nil.
  - rewrite Forall_cons, Forall_nil. cbn [snd]. rewrite j_utf8_string. tauto.
Qed.

Lemma span_utf8 s : j_utf8 (span_json s) ↔ span_ok s = true.
Proof.
  assert (j_utf8 (status_json s) ↔ Utf8.valid (Otel.fs_statusMessage s) = true) as Hst.
  { unfold status_json. rewrite utf8_obj_iff by (by destruct (str_empty _)).
    rewrite Forall_cons, optional_utf8. cbn [snd]. pose proof (j_utf8_integer (Otel.fs_statusCode s)).
    tauto. }
  unfold span_json. rewrite utf8_obj_iff by (by destruct (str_empty _)).
  rewrite !Forall_app, optional_utf8, !Forall_cons, Forall_nil. cbn [snd].
  rewrite !j_utf8_string, Hst, attributes_utf8. pose proof (j_utf8_integer 2).
  unfold span_ok, span_texts. cbn [app forallb]. rewrite !andb_true_iff. tauto.
Qed.

Lemma utf8_array_one j : j_utf8 (j_array [j]) ↔ j_utf8 j.
Proof. rewrite j_utf8_array, Forall_cons, Forall_nil. tauto. Qed.

Lemma utf8_obj_one k j : Utf8.valid k = true → j_utf8 (j_obj [(k, j)]) ↔ j_utf8 j.
Proof.
  intros Hk. rewrite utf8_obj_iff, Forall_cons, Forall_nil; cbn [fmap list_fmap fst snd forallb].
  - tauto.
  - apply bool_decide_eq_true. apply NoDup_singleton.
  - by rewrite Hk.
Qed.

Lemma utf8_obj_two k1 j1 k2 j2 :
  Utf8.valid k1 = true → Utf8.valid k2 = true → k1 ≠ k2 →
  j_utf8 (j_obj [(k1, j1); (k2, j2)]) ↔ j_utf8 j1 ∧ j_utf8 j2.
Proof.
  intros H1 H2 Hne. rewrite utf8_obj_iff, !Forall_cons, Forall_nil;
    cbn [fmap list_fmap fst snd forallb].
  - tauto.
  - apply bool_decide_eq_true. apply NoDup_cons. split; [|apply NoDup_singleton].
    by intros ->%list_elem_of_singleton.
  - by rewrite H1, H2.
Qed.

Lemma payload_utf8 batch : j_utf8 (payload_json batch) ↔ forallb span_ok batch = true.
Proof.
  assert (j_utf8 (j_array (map span_json batch)) ↔ forallb span_ok batch = true) as Hb.
  { rewrite j_utf8_array, Forall_fmap, forallb_forall, Forall_forall.
    setoid_rewrite list_elem_of_In. split; intros Hx s Hs; by apply span_utf8, Hx. }
  unfold payload_json.
  rewrite utf8_obj_one, utf8_array_one, utf8_obj_two, utf8_obj_one, !utf8_array_one,
    !utf8_obj_two, !utf8_obj_one, !j_utf8_string, Hb by done.
  assert (Utf8.valid "service.name" = true ∧ Utf8.valid SERVICE_NAME = true) by done. tauto.
Qed.

(** A flush dies exactly when the payload cannot be written or the collector
    has closed the connection. *)
Lemma flush_post_run ep calls e batch :
  in_flight e = Some batch →
  flush_post ep calls e =
    if forallb span_ok batch then
      match (httpPost ep (bytes_of_string (default "" (j_dump (payload_json batch)))) calls).1.1 with
      | Answered ok => mkExporter (m_pending e) None (posted e ++ [(batch, ok)]) (terminated e)
      | KilledBySigpipe => mkExporter (m_pending e) (in_flight e) (posted e) true
      end
    else mkExporter (m_pending e) (in_flight e) (posted e) true.
Proof.
  intros Hf. unfold flush_post. rewrite Hf. destruct (forallb span_ok batch) eqn:Hok.
  - apply payload_utf8, j_dump_utf8 in Hok as [body ->]. simpl.
    by destruct (httpPost _ _ _) as [[[] ?] ?].
  - rewrite j_dump_not_utf8; [done|]. rewrite payload_utf8. by rewrite Hok.
Qed.

Lemma post_loop_killed fuel n raw snd n' :
  post_loop fuel n raw snd = (None, n') → SErr EPIPE ∈ snd.
Proof.
  revert n snd. induction fuel as [|fuel IH]; intros n snd; simpl; [done|].
  destruct (n <? length raw)%nat; [|done]. destruct snd as [|[k|e] snd]; simpl.
  - destruct (length raw - n)%nat; [done|]. intros Hn%IH. by apply not_elem_of_nil in Hn.
  - destruct (Nat.min _ _); [done|]. intros Hn%IH. by apply list_elem_of_further.
  - destruct (Z.eqb_spec e EPIPE) as [->|]; [|done]. intros _. apply list_elem_of_here.
Qed.

Lemma httpPost_killed ep body calls :
  (httpPost ep body calls).1.1 = KilledBySigpipe → SErr EPIPE ∈ hc_snd calls.
Proof.
  unfold httpPost. destruct (negb _); [done|]. destruct (hc_socket calls); [|done].
  destruct (negb _); [done|].
  destruct (post_loop _ _ _ _) as [[[]|] n] eqn:E; try done.
  intros _. by eapply post_loop_killed.
Qed.

(** ** Lemmas: every span goes once *)

Lemma run_ops_snoc ep ops o : run_ops ep (ops ++ [o]) = step ep o (run_ops ep ops).
Proof. unfold run_ops. by rewrite fold_left_app. Qed.

Lemma offered_snoc ops o :
  offered (ops ++ [o]) = offered ops ++ match o with Enqueue s => [s] | _ => [] end.
Proof. unfold offered. rewrite omap_app. by destruct o. Qed.

(** What has been posted, is being posted and waits. *)
Definition ledger (e : state) : list Otel.FinishedSpan :=
  concat (posted e).*1 ++ default [] (in_flight e) ++ m_pending e.

(** Every step adds what it is handed, at the end. *)
Lemma step_ledger ep o e :
  terminated e = false →
  ledger (step ep o e) = ledger e ++ match o with Enqueue s => [s] | _ => [] end.
Proof.
  intros Ht. unfold step. rewrite Ht. destruct o as [s| |calls].
  - unfold ledger, enqueue. simpl. by rewrite !app_assoc.
  - rewrite app_nil_r. unfold flush_swap, ledger.
    destruct (m_pending e) eqn:Hp, (in_flight e) eqn:Hf; rewrite ?Hp, ?Hf; try done. simpl.
    by rewrite app_nil_r.
  - rewrite app_nil_r. destruct (in_flight e) as [batch|] eqn:Hf.
    2: { unfold flush_post. by rewrite Hf. }
    rewrite (flush_post_run ep calls e batch Hf). unfold ledger.
    destruct (forallb _ _); [|simpl; by rewrite Hf].
    destruct (httpPost _ _ _).1.1; simpl; rewrite Hf; [|done].
    rewrite fmap_app, concat_app. simpl. by rewrite app_nil_r, <-app_assoc.
Qed.

Lemma run_ops_ledger ep ops :
  ledger (run_ops ep ops) `prefix_of` offered ops ∧
  (terminated (run_ops ep ops) = false → ledger (run_ops ep ops) = offered ops).
Proof.
  induction ops as [|o ops [IHp IH]] using rev_ind; [done|].
  rewrite run_ops_snoc, offered_snoc.
  destruct (terminated (run_ops ep ops)) eqn:Ht.
  - unfold step. rewrite Ht. split; [by apply prefix_app_r|congruence].
  - rewrite step_ledger, IH by done. by split.
Qed.
End facts.

(** ** Correctness *)

(** However the workers' [enqueue] calls interleave with the flushes of
    the exporter's thread, and whatever the collector answers, every finished
    span is posted at most once and in the order it was finished, and while
    the process lives it has been posted, is being posted, or is waiting;
    after the destructor's flush none is left waiting, unless the process dies
    in it. *)
Theorem exporter_exactly_once `{JL : JsonLib} `{!JsonLaws} ep ops calls :
  let e := run_ops ep ops in
  let e' := final_flush ep calls e in
  concat (posted e).*1 `prefix_of` offered ops ∧
  (terminated e = false →
   concat (posted e).*1 ++ default [] (in_flight e) ++ m_pending e = offered ops) ∧
  (terminated e = false → in_flight e = None →
   Forall (λ s, span_ok s = true) (m_pending e) → SErr EPIPE ∉ hc_snd calls →
   terminated e' = false ∧ concat (posted e').*1 = offered ops ∧ m_pending e' = []).
Proof.
  intros e e'. destruct (run_ops_ledger ep ops) as [Hp Hl]. fold e in Hp, Hl. split_and!.
  - etrans; [|exact Hp]. by apply prefix_app_r.
  - exact Hl.
  - intros Ht Hf Hok Hpipe. specialize (Hl Ht). unfold ledger in Hl. rewrite Hf in Hl.
    subst e'. unfold final_flush, step. rewrite Ht. unfold flush_swap. rewrite Hf.
    destruct (m_pending e) as [|s pend] eqn:Hpe; rewrite Ht.
    + unfold flush_post. rewrite Hf, Ht, Hpe, <-Hl. by rewrite !app_nil_r.
    + erewrite flush_post_run by reflexivity.
      rewrite (proj2 (forallb_forall _ _))
        by (intros x Hx; rewrite Forall_forall in Hok; by apply Hok, list_elem_of_In).
      destruct (httpPost _ _ _).1.1 eqn:Eh; [|by apply httpPost_killed in Eh].
      simpl. rewrite fmap_app, concat_app. simpl. by rewrite app_nil_r.
Qed.

(** [httpPost] hands the kernel a prefix of the request and closes the
    socket it opened on every way out; it reports success only when the whole
    request went out and the answer names status 200 or 202.  The request
    reads back: line by line up to the empty line, with the exact length of
    the body in [Content-Length], and then the body.  When the collector is
    reached and keeps reading, the whole request goes out. *)
Theorem httpPost_correct ep body calls :
  let '(r, out, closed) := httpPost ep body calls in
  out `prefix_of` request ep body ∧
  (r = Answered true → out = request ep body ∧
     ∃ bs ins, recv RESPONSE_SIZE (hc_in calls) = (Got bs, ins) ∧
       (mentions "200" bs || mentions "202" bs = true)) ∧
  (r ≠ KilledBySigpipe →
   closed = if hc_resolves calls then option_list (hc_socket calls) else []) ∧
  (x0d ∉ bytes_of_string (Otel.m_host ep) → 0 ≤ Otel.m_port ep →
   read_lines 6 (request ep body) = Some (request_lines ep (length body), body)) ∧
  (hc_resolves calls = true → is_Some (hc_socket calls) → hc_connects calls = true →
   Forall (λ ev, match ev with SAccept k => (0 < k)%nat | SErr _ => False end) (hc_snd calls) →
   out = request ep body ∧ ∃ ok, r = Answered ok).
Proof.
  assert (x0d ∉ bytes_of_string (Otel.m_host ep) → 0 ≤ Otel.m_port ep →
    read_lines 6 (request ep body) = Some (request_lines ep (length body), body)) as Hread.
  { intros Hh Hport. apply (read_lines_concat (request_lines ep (length body)) body).
    pose proof (to_string_no_cr (Otel.m_port ep) Hport).
    pose proof (to_string_no_cr (Z.of_nat (length body)) ltac:(lia)).
    unfold request_lines. rewrite !Forall_cons, Forall_nil, !not_elem_of_app.
    split_and!; try done; apply (bool_decide_eq_true_1 (_ ∉ _)); vm_compute; reflexivity. }
  unfold httpPost. destruct (hc_resolves calls); cbn [negb];
    [|by split_and!; [apply prefix_nil|..]].
  destruct (hc_socket calls) as [sock|]; [|by split_and!; [apply prefix_nil|..]].
  destruct (hc_connects calls); cbn [negb]; [|by split_and!; [apply prefix_nil|..]].
  destruct (post_loop _ _ _ _) as [[[]|] n] eqn:E.
  all: assert (take n (request ep body) `prefix_of` request ep body) as Hpre
    by (exists (drop n (request ep body)); by rewrite take_drop).
  2,3: split_and!; try done; intros _ _ _ Hs;
    rewrite post_loop_all in E by (done || lia); discriminate.
  apply post_loop_spec in E as [_ Hn]; [|lia]. rewrite (Hn eq_refl), take_ge in * by lia.
  split_and!; try done; [|by eauto]. intros [= Hok]. split; [done|].
  destruct (recv RESPONSE_SIZE (hc_in calls)) as [[bs|e] ins]; [by eauto|].
  vm_compute in Hok. discriminate.
Qed.

(** A flush takes the process down exactly when the batch holds a span with
    a text that is not UTF-8 (the exception of [dump] leaves the flusher
    thread) or the collector has closed the connection while the request is
    being sent (SIGPIPE); otherwise it ends with the batch posted. *)
Theorem flush_terminates `{JL : JsonLib} `{!JsonLaws} ep calls e batch :
  terminated e = false → in_flight e = Some batch →
  let killed := (httpPost ep (bytes_of_string (default "" (j_dump (payload_json batch)))) calls).1.1
                = KilledBySigpipe in
  (terminated (step ep (Post calls) e) = true ↔ Exists (λ s, span_ok s = false) batch ∨ killed) ∧
  (terminated (step ep (Post calls) e) = false →
   ∃ ok, posted (step ep (Post calls) e) = posted e ++ [(batch, ok)]).
Proof.
  intros Ht Hf killed. subst killed. unfold step. rewrite Ht, (flush_post_run ep calls e batch Hf).
  assert (forallb span_ok batch = true ↔ ¬ Exists (λ s, span_ok s = false) batch) as Hb.
  { rewrite forallb_forall, Exists_exists. setoid_rewrite list_elem_of_In. split.
    - intros Ha (s & Hs & Hbad). by rewrite Ha in Hbad.
    - intros Hn s Hs. destruct (span_ok s) eqn:Es; [done|]. destruct Hn. eauto. }
  destruct (forallb span_ok batch).
  - destruct (httpPost _ _ _).1.1; simpl; [|by split; [naive_solver|]].
    split; [|by eauto]. rewrite Ht. naive_solver.
  - simpl. split; [|done]. split; [|done]. intros _. left.
    destruct (decide (Exists (λ s, span_ok s = false) batch)); [done|].
    by apply Hb in n.
Qed.

(** ** Examples *)

Section witnesses.
Existing Instances JsonRef.lib JsonRef.laws.

Definition demo_span (message : string) : Otel.FinishedSpan :=
  Otel.mkFinished "0a" "0b" "" "heartbeat" "1" "2" 0 message [("node.id", Otel.AStr "N1")].

Definition demo_calls : http_calls :=
  mkHttp true (Some 9) true [SAccept 10] [RData (bytes_of_string "HTTP/1.1 200 OK")].

Definition demo_endpoint : Otel.OtlpEndpoint := Otel.mkEndpoint "collector" 4318.

Lemma exporter_witness :
  m_pending (final_flush demo_endpoint demo_calls
               (run_ops demo_endpoint [Enqueue (demo_span ""); Enqueue (demo_span "x")])) = [].
Proof.
  destruct (exporter_exactly_once demo_endpoint
    [Enqueue (demo_span ""); Enqueue (demo_span "x")] demo_calls) as (_ & _ & Hd).
  apply Hd; [reflexivity|reflexivity|repeat constructor|].
  by intros Hin%list_elem_of_singleton.
Defined.

Lemma flush_terminates_witness :
  let e := mkExporter [] (Some [demo_span (string_of_bytes [xff])]) [] false in
  terminated (step demo_endpoint (Post demo_calls) e) = true.
Proof.
  intros e.
  destruct (flush_terminates demo_endpoint demo_calls e [demo_span (string_of_bytes [xff])])
    as [Ht _]; [reflexivity|reflexivity|].
  apply Ht. left. constructor. vm_compute. reflexivity.
Defined.
End witnesses.

End Exporter.
