(* ===== verification/Metrics.v ===== *)
(** * PrometheusMetrics: counters and histograms per operation

    Models [include/prometheusMetrics.hpp] and [src/prometheusMetrics.cpp].
    The prometheus-cpp library is seen through what the code uses of it: a
    counter is incremented by one, a histogram records an observation.
    Starting the HTTP exposer may throw; the text of the exception, if it does,
    is an argument. *)

From S2P Require Import Prelude Serializer.
Import MessageSerializer.
Local Open Scope Z_scope.

Module PrometheusMetrics.

Definition kOpCount : nat := 5.

Definition kLabels : list string :=
  ["REGISTER"; "QUERY_NODE"; "LIST_NODES"; "HEARTBEAT"; "UNKNOWN"].

Definition messageTypeIndex (t : MessageType) : nat :=
  match t with
  | REGISTER => 0
  | QUERY_NODE => 1
  | LIST_NODES => 2
  | HEARTBEAT => 3
  | _ => 4
  end.

(** One counter value and one list of observations (nanoseconds) per
    operation; the port the exposer listens on, if started. *)
Record state := mkMetrics {
  counters : list Z;
  histograms : list (list Z);
  exposer : option Z
}.

Definition init : state := mkMetrics (replicate kOpCount 0) (replicate kOpCount []) None.

Definition recordMessage (type : MessageType) (elapsed : Z) (s : state) : state :=
  let idx := messageTypeIndex type in
  mkMetrics (alter (Z.add 1) idx (counters s))
            (alter (λ l, l ++ [elapsed]) idx (histograms s)) (exposer s).

(** The bucket boundaries of every histogram, in nanoseconds. *)
Definition defaultLatencyBuckets : list Z :=
  [50000; 100000; 250000; 500000; 1000000; 2500000; 5000000; 10000000; 25000000; 50000000;
   100000000; 250000000; 500000000; 1000000000; 2500000000; 5000000000].

(** [failure] is the exception of the exposer's constructor, if it throws;
    with the state, what is written to stderr. *)
Definition start (failure : option string) (port : Z) (s : state) : state * list string :=
  if port =? 0 then (s, [])
  else
    match exposer s with
    | Some _ => (s, [])
    | None =>
        match failure with
        | None =>
            (mkMetrics (counters s) (histograms s) (Some port),
             ["[INFO] prometheusMetrics: /metrics on http://0.0.0.0:" +:+ to_string port
              +:+ "/metrics"])
        | Some what =>
            (mkMetrics (counters s) (histograms s) None,
             ["[WARN] prometheusMetrics: failed to start exposer on port " +:+ to_string port
              +:+ ": " +:+ what])
        end
    end.

Definition shutdown (s : state) : state := mkMetrics (counters s) (histograms s) None.

(** ** Lemmas *)

Definition wf (s : state) : Prop :=
  length (counters s) = kOpCount ∧ length (histograms s) = kOpCount ∧
  ∀ i c h, counters s !! i = Some c → histograms s !! i = Some h →
    c = Z.of_nat (length h).

Lemma messageTypeIndex_lt t : (messageTypeIndex t < kOpCount)%nat.
Proof. unfold kOpCount. destruct t; simpl; lia. Qed.

Lemma metrics_init_wf : wf init.
Proof.
  split_and!; [done..|]. intros i c h Hc Hh. unfold init in *. simpl in *.
  do 5 (destruct i as [|i]; [by simplify_eq/=|]). done.
Qed.

Lemma recordMessage_wf t e s : wf s → wf (recordMessage t e s).
Proof.
  intros (H1 & H2 & H3). unfold recordMessage.
  split_and!; simpl; [by rewrite length_alter..|].
  intros i c h Hc Hh. destruct (decide (i = messageTypeIndex t)) as [->|Hne].
  - rewrite list_lookup_alter_eq in Hc. rewrite list_lookup_alter_eq in Hh.
    destruct (counters s !! messageTypeIndex t) as [c0|] eqn:Ec; [|done].
    destruct (histograms s !! messageTypeIndex t) as [h0|] eqn:Eh; [|done].
    simplify_eq/=. rewrite (H3 _ _ _ Ec Eh), length_app. simpl. lia.
  - rewrite list_lookup_alter_ne in Hc by done.
    rewrite list_lookup_alter_ne in Hh by done. eauto.
Qed.

(** The boundaries are in order, as a histogram needs them. *)
Lemma defaultLatencyBuckets_sorted i a b :
  defaultLatencyBuckets !! i = Some a → defaultLatencyBuckets !! S i = Some b → a < b.
Proof. intros Ha Hb. do 16 (destruct i as [|i]; [by simplify_eq/=|]). done. Qed.

(** Starting twice is starting once; port 0 starts nothing. *)
Lemma start_idempotent f1 f2 port port' s :
  let s1 := (start f1 port s).1 in
  exposer s1 ≠ None → start f2 port' s1 = (s1, []).
Proof.
  intros s1 He. unfold start at 1. destruct (port' =? 0); [done|]. by destruct (exposer s1).
Qed.

(** ** Correctness of the component *)

Definition record_all (ms : list (MessageType * Z)) (s : state) : state :=
  fold_left (λ s '(t, e), recordMessage t e s) ms s.

Definition of_index (i : nat) (ms : list (MessageType * Z)) : list (MessageType * Z) :=
  filter (λ m, messageTypeIndex m.1 = i) ms.

Lemma record_all_counts ms s i c :
  counters s !! i = Some c →
  counters (record_all ms s) !! i = Some (c + Z.of_nat (length (of_index i ms))).
Proof.
  revert s c. induction ms as [|[t e] ms IH]; intros s c Hc.
  { simpl. rewrite Hc. f_equal. unfold of_index. simpl. lia. }
  unfold of_index. rewrite filter_cons. cbn [record_all fold_left fst].
  change (fold_left _ ms ?s') with (record_all ms s').
  case_decide as Hi.
  - rewrite (IH _ (1 + c)).
    + f_equal. simpl length. unfold of_index. lia.
    + simpl. rewrite Hi, list_lookup_alter_eq, Hc. done.
  - rewrite (IH _ c); [done|]. simpl. by rewrite list_lookup_alter_ne.
Qed.

Lemma record_all_wf ms s : wf s → wf (record_all ms s).
Proof.
  revert s. induction ms as [|[t e] ms IH]; intros s Hs; [done|].
  by apply IH, recordMessage_wf.
Qed.

(** After any sequence of handled messages every counter is the number of
    messages of its operation, every message is counted under exactly one
    label, and each histogram holds one observation per counted message. *)
Theorem metrics_count_messages ms :
  let s := record_all ms init in
  wf s ∧
  (∀ i, (i < kOpCount)%nat →
     counters s !! i = Some (Z.of_nat (length (of_index i ms)))) ∧
  length (of_index 0 ms ++ of_index 1 ms ++ of_index 2 ms ++ of_index 3 ms ++ of_index 4 ms)
    = length ms.
Proof.
  split_and!.
  - apply record_all_wf, metrics_init_wf.
  - intros i Hi. rewrite (record_all_counts ms init i 0); [done|].
    by apply (lookup_replicate_2 kOpCount).
  - induction ms as [|[t e] ms IH]; [done|]. unfold of_index in *.
    rewrite !filter_cons. rewrite !length_app in *. simpl fst.
    destruct t; simpl; lia.
Qed.

End PrometheusMetrics.
