(* ===== verification/World.v ===== *)
(** * The server process

    The state the components share and the effects they have on it, as a
    state-and-exception monad.  C++ destructors of local objects are
    [finally]; a throwing JSON call is [Throw].  The clocks are parameters:
    the n-th reading of each. *)

From S2P Require Import Prelude Net Registry Otel Metrics Json Serializer.
Local Open Scope Z_scope.

(** ** Environment *)

Class Clock := {
  sys_clock : nat → Z;      (* system_clock, nanoseconds since the epoch *)
  steady_clock : nat → Z    (* steady_clock, nanoseconds *)
}.

(** Readings after 1970. *)
Class ClockOk `{Clock} := sys_clock_nonneg n : 0 ≤ sys_clock n.

(** A connected socket: schedules of both directions, what has been sent, the
    time-outs set on it and whether [setsockopt] succeeds on it. *)
Record sock := mkSock {
  sk_in : list recv_ev;
  sk_snd : list send_ev;
  sk_out : list byte;
  sk_rcvtimeo : option Z;
  sk_sndtimeo : option Z;
  sk_opt_ok : bool
}.

Record world := mkWorld {
  w_reg : gmap string NodeRegistry.NodeEntry;
  w_active : Z;
  w_otel : Otel.state;
  w_log : list string;
  w_metrics : PrometheusMetrics.state;
  w_socks : gmap Z sock;
  w_errno : Z;
  w_closed : list Z;
  w_reads : nat
}.

(** ** The monad *)

Inductive exn :=
| JsonTypeError.

Inductive outcome (A : Type) :=
| Ret (a : A)
| Throw (e : exn).
Arguments Ret {A} a.
Arguments Throw {A} e.

Definition M (A : Type) : Type := world → outcome A * world.

#[export] Instance M_ret : MRet M := λ A a w, (Ret a, w).
#[export] Instance M_bind : MBind M := λ A B k m w,
  match m w with
  | (Ret a, w') => k a w'
  | (Throw e, w') => (Throw e, w')
  end.

Definition throw {A} (e : exn) : M A := λ w, (Throw e, w).
Definition gets {A} (f : world → A) : M A := λ w, (Ret (f w), w).
Definition state {A} (f : world → A * world) : M A := λ w,
  let '(a, w') := f w in (Ret a, w').
Definition modify (f : world → world) : M unit := λ w, (Ret tt, f w).

(** Runs [f] when the scope of [m] is left, normally or by an exception. *)
Definition finally {A} (m : M A) (f : world → world) : M A := λ w,
  let '(r, w') := m w in (r, f w').

(** ** Field updates *)

Definition set_reg r w := mkWorld r (w_active w) (w_otel w) (w_log w) (w_metrics w)
  (w_socks w) (w_errno w) (w_closed w) (w_reads w).
Definition set_active a w := mkWorld (w_reg w) a (w_otel w) (w_log w) (w_metrics w)
  (w_socks w) (w_errno w) (w_closed w) (w_reads w).
Definition set_otel o w := mkWorld (w_reg w) (w_active w) o (w_log w) (w_metrics w)
  (w_socks w) (w_errno w) (w_closed w) (w_reads w).
Definition set_log l w := mkWorld (w_reg w) (w_active w) (w_otel w) l (w_metrics w)
  (w_socks w) (w_errno w) (w_closed w) (w_reads w).
Definition set_metrics m w := mkWorld (w_reg w) (w_active w) (w_otel w) (w_log w) m
  (w_socks w) (w_errno w) (w_closed w) (w_reads w).
Definition set_socks s w := mkWorld (w_reg w) (w_active w) (w_otel w) (w_log w)
  (w_metrics w) s (w_errno w) (w_closed w) (w_reads w).
Definition set_errno e w := mkWorld (w_reg w) (w_active w) (w_otel w) (w_log w)
  (w_metrics w) (w_socks w) e (w_closed w) (w_reads w).
Definition set_closed c w := mkWorld (w_reg w) (w_active w) (w_otel w) (w_log w)
  (w_metrics w) (w_socks w) (w_errno w) c (w_reads w).
Definition set_reads n w := mkWorld (w_reg w) (w_active w) (w_otel w) (w_log w)
  (w_metrics w) (w_socks w) (w_errno w) (w_closed w) n.

(** ** Effects *)

Section effects.
Context `{Clock} `{Otel.Rng}.

Definition sys_now : M Z := λ w,
  (Ret (sys_clock (w_reads w)), set_reads (S (w_reads w)) w).
Definition steady_now : M Z := λ w,
  (Ret (steady_clock (w_reads w)), set_reads (S (w_reads w)) w).

(** Registry methods, each one critical section. *)
Definition registry_registerNode (e : NodeRegistry.NodeEntry) : M NodeRegistry.RegisterResult :=
  state (λ w, let '(r, m) := NodeRegistry.registerNode e (w_reg w) in (r, set_reg m w)).
Definition registry_setOffline (id : string) : M unit :=
  now ← sys_now; modify (λ w, set_reg (NodeRegistry.setOffline id now (w_reg w)) w).
Definition registry_updateLastSeen (id : string) : M bool :=
  now ← sys_now;
  state (λ w, let '(b, m) := NodeRegistry.updateLastSeen id now (w_reg w) in
              (b, set_reg m w)).

(** Spans. *)
Definition on_otel (f : Otel.state → Otel.state) (w : world) : world :=
  set_otel (f (w_otel w)) w.
Definition new_operation (name : string) : M nat :=
  now ← sys_now;
  state (λ w, let '(id, o) := Otel.open_operation name now (w_otel w) in
              (id, set_otel o w)).
Definition new_connection (sessionId clientIp : string) : M nat :=
  now ← sys_now;
  state (λ w, let '(id, o) := Otel.open_connection sessionId clientIp now (w_otel w) in
              (id, set_otel o w)).
(** The destructor: reads the clock, exports the span. *)
Definition end_span (id : nat) (w : world) : world :=
  on_otel (Otel.close_scope id (sys_clock (w_reads w))) (set_reads (S (w_reads w)) w).
(** A block with a local [OtelScope]. *)
Definition with_span {A} (name : string) (body : nat → M A) : M A :=
  id ← new_operation name; finally (body id) (end_span id).
Definition setAttribute (id : nat) (k v : string) : M unit :=
  modify (on_otel (Otel.setAttribute id k (Otel.AStr v))).
Definition setAttributeInt (id : nat) (k : string) (v : Z) : M unit :=
  modify (on_otel (Otel.setAttribute id k (Otel.AInt v))).
Definition recordError (id : nat) (d : string) : M unit :=
  modify (on_otel (Otel.recordError id d)).
Definition span_ids (id : nat) : M (string * string) :=
  gets (λ w, (Otel.traceId id (w_otel w), Otel.spanId id (w_otel w))).

(** [json::dump], which throws on a string that is not UTF-8. *)
Definition dump `{JsonLib} (j : json) : M string :=
  match j_dump j with Some s => mret s | None => throw JsonTypeError end.

(** Sockets. *)
Definition close_fd (fd : Z) (w : world) : world := set_closed (w_closed w ++ [fd]) w.
Definition sendAll (fd : Z) (data : list byte) : M bool := λ w,
  match w_socks w !! fd with
  | None => (Ret false, set_errno EBADF w)
  | Some s =>
      let '(ok, out, ws) :=
        MessageSerializer.sendAll data (MessageSerializer.mkWstate (sk_snd s) (w_errno w)) in
      (Ret ok,
       set_errno (MessageSerializer.ws_errno ws)
         (set_socks (<[fd := mkSock (sk_in s) (MessageSerializer.ws_snd ws)
                               (sk_out s ++ out) (sk_rcvtimeo s) (sk_sndtimeo s) (sk_opt_ok s)]>
                       (w_socks w)) w))
  end.
Definition readFrame (fd : Z) : M MessageSerializer.FrameReadResult := λ w,
  match w_socks w !! fd with
  | None =>
      (Ret (MessageSerializer.read_failure MessageSerializer.IO_ERROR), set_errno EBADF w)
  | Some s =>
      let '(r, rs) :=
        MessageSerializer.readFrame (MessageSerializer.mkRstate (sk_in s) (w_errno w)) in
      (Ret r,
       set_errno (MessageSerializer.rs_errno rs)
         (set_socks (<[fd := mkSock (MessageSerializer.rs_in rs) (sk_snd s)
                               (sk_out s) (sk_rcvtimeo s) (sk_sndtimeo s) (sk_opt_ok s)]>
                       (w_socks w)) w))
  end.
(** [setsockopt(fd, SOL_SOCKET, SO_RCVTIMEO, ...)]: true on success. *)
Definition set_rcvtimeo (fd secs : Z) : M bool := λ w,
  match w_socks w !! fd with
  | Some s =>
      if sk_opt_ok s
      then (Ret true,
            set_socks (<[fd := mkSock (sk_in s) (sk_snd s) (sk_out s) (Some secs)
                                 (sk_sndtimeo s) (sk_opt_ok s)]> (w_socks w)) w)
      else (Ret false, w)
  | None => (Ret false, set_errno EBADF w)
  end.
(** [setsockopt(fd, SOL_SOCKET, SO_SNDTIMEO, ...)], in microseconds. *)
Definition set_sndtimeo (fd usecs : Z) : M bool := λ w,
  match w_socks w !! fd with
  | Some s =>
      if sk_opt_ok s
      then (Ret true,
            set_socks (<[fd := mkSock (sk_in s) (sk_snd s) (sk_out s) (sk_rcvtimeo s)
                                 (Some usecs) (sk_opt_ok s)]> (w_socks w)) w)
      else (Ret false, w)
  | None => (Ret false, set_errno EBADF w)
  end.
End effects.
