(* ===== verification/Concrete.v ===== *)
(** * Concrete parameters for the examples

    A clock, a random source and a world with one connected client, used to
    run the model on concrete inputs. *)

From S2P Require Import Prelude Net Registry Otel Metrics Json JsonRef World.
Local Open Scope Z_scope.

Module Demo.

(** 2026-03-23, one second per reading. *)
#[export] Instance demo_clock : Clock := {|
  sys_clock n := 1774224000000000000 + Z.of_nat n * 1000000000;
  steady_clock n := Z.of_nat n * 1000000
|}.

#[export] Instance demo_clock_ok : ClockOk.
Proof. intros n. simpl. lia. Qed.

#[export] Instance demo_rng : Otel.Rng := {| Otel.rng n := Z.of_nat n * 6364136223846793005 + 1 |}.

#[export] Program Instance demo_iter : NodeRegistry.MapIter := {|
  NodeRegistry.iter_order := map_to_list
|}.
Next Obligation. done. Qed.

(** One client on descriptor 7 whose stream is [ins]. *)
Definition demo_world (reg : gmap string NodeRegistry.NodeEntry) (ins : list recv_ev) : world :=
  mkWorld reg 1 Otel.init [] PrometheusMetrics.init
    {[ 7 := mkSock ins [] [] None None true ]} 0 [] 0.

Lemma init_otel_wf : Otel.wf Otel.init.
Proof. apply Otel.init_wf. Qed.

(** Requests about node N1. *)
Definition register_text (nid : string) : string :=
  string_of_bytes (x7b :: bytes_of_string (quoted "node_id") ++ x3a :: bytes_of_string (quoted nid)
    ++ x2c :: bytes_of_string (quoted "bunker_name") ++ x3a :: bytes_of_string (quoted "B")
    ++ x2c :: bytes_of_string (quoted "ip_address") ++ x3a :: bytes_of_string (quoted "10.0.0.1")
    ++ x2c :: bytes_of_string (quoted "capacity") ++ bytes_of_string ":25}").
Definition demo_register : string := register_text "N1".

Definition demo_query : string :=
  string_of_bytes (x7b :: bytes_of_string (quoted "node_id") ++ x3a :: bytes_of_string (quoted "N1")
    ++ [x7d]).

Definition demo_register_json : json (JsonLib := JsonRef.lib) :=
  default JsonRef.JNull (JsonRef.parse demo_register).
Definition demo_query_json : json (JsonLib := JsonRef.lib) :=
  default JsonRef.JNull (JsonRef.parse demo_query).

#[export] Existing Instances JsonRef.lib JsonRef.laws.

End Demo.
