(* ===== verification/Logger.v ===== *)
(** * Logger: structured log lines

    Models [include/logger.hpp] and [src/logger.cpp].  A [Logger] object is
    its [m_minLevel]; stdout is the world's list of lines. *)

From S2P Require Import Prelude Json Time Otel World Concrete.
Local Open Scope Z_scope.

Module Logger.

Definition SERVICE_NAME : string := "eop-server".
Definition MAX_LOG_FIELD_LENGTH : nat := 512.

Inductive Level := INFO | WARN | ERROR | NONE.

Definition level_rank (l : Level) : Z :=
  match l with INFO => 0 | WARN => 1 | ERROR => 2 | NONE => 3 end.

(** [a > b] on the enum. *)
Definition level_gt (a b : Level) : bool := level_rank b <? level_rank a.

Definition levelToString (level : Level) : string :=
  match level with INFO => "INFO" | WARN => "WARN" | ERROR => "ERROR" | NONE => "NONE" end.

(** ** Sanitising *)

Definition tolower (b : byte) : byte :=
  let v := byte_val b in if (65 <=? v) && (v <=? 90) then byte_of (v + 32) else b.

Definition toLowerCopy (value : list byte) : list byte := map tolower value.

(** [str.find(needle) != npos] *)
Definition contains_sub (needle bs : list byte) : bool :=
  match Otel.find_split needle bs with Some _ => true | None => false end.

Definition BLOCKED : list string :=
  ["password"; "passwd"; "token"; "secret"; "authorization"; "bearer"; "payload"].

Definition containsSensitiveMarker (value : list byte) : bool :=
  let lower := toLowerCopy value in
  existsb (λ marker, contains_sub (bytes_of_string marker) lower) BLOCKED.

Definition sanitizeText (value : string) : string :=
  let bs := bytes_of_string value in
  if str_empty value then value
  else if containsSensitiveMarker bs then "[REDACTED]"
  else if (MAX_LOG_FIELD_LENGTH <? length bs)%nat
  then string_of_bytes (take MAX_LOG_FIELD_LENGTH bs)
  else value.

(** ** Fields of the events *)

Record BaseFields := mkBase { m_traceId : string; m_spanId : string }.

Section logger.
Context `{Clock} `{Otel.Rng} `{JsonLib}.

Definition writeToStdout (line : string) : M unit :=
  modify (λ w, set_log (w_log w ++ [line]) w).

Definition nowIso8601Utc : M string := now ← sys_now; mret (Time.iso8601 now).

(** The assignments every event starts with. *)
Definition base_fields (ts level : string) (base : BaseFields) : list (string * json) :=
  [("timestamp", j_string ts); ("level", j_string level);
   ("service", j_string SERVICE_NAME);
   ("trace_id", j_string (sanitizeText (m_traceId base)));
   ("span_id", j_string (sanitizeText (m_spanId base)))].

Definition text (k v : string) : string * json := (k, j_string (sanitizeText v)).
Definition lit (k v : string) : string * json := (k, j_string v).

(** Builds the object, dumps it and writes the line. *)
Definition emit (level : string) (base : BaseFields) (extra : list (string * json))
    : M unit :=
  ts ← nowIso8601Utc;
  line ← dump (j_obj (base_fields ts level base ++ extra));
  writeToStdout line.

Definition logConnected (m_minLevel : Level) (base : BaseFields)
    (clientIp sessionId : string) (activeConnections : Z) : M unit :=
  if level_gt m_minLevel INFO then mret tt
  else emit "INFO" base
    [lit "event" "clientConnected"; text "client_ip" clientIp;
     text "session_id" sessionId;
     ("active_connections", j_unsigned activeConnections);
     lit "message" "New client connection established"].

Definition logDisconnected (m_minLevel : Level) (base : BaseFields)
    (nodeId sessionId : string) (connectionDurationMs : Z) (reason : string) : M unit :=
  if level_gt m_minLevel INFO then mret tt
  else emit "INFO" base
    [lit "event" "clientDisconnected"; text "node_id" nodeId;
     text "session_id" sessionId;
     ("connection_duration_ms", j_integer connectionDurationMs);
     text "reason" reason; lit "message" "Client connection closed"].

Definition logNodeRegistered (m_minLevel : Level) (base : BaseFields)
    (nodeId sessionId : string) : M unit :=
  if level_gt m_minLevel INFO then mret tt
  else emit "INFO" base
    [lit "event" "node_registered"; text "node_id" nodeId;
     text "session_id" sessionId; lit "message" "Node registered successfully"].

Definition logHeartbeatReceived (m_minLevel : Level) (base : BaseFields)
    (nodeId sessionId : string) : M unit :=
  if level_gt m_minLevel INFO then mret tt
  else emit "INFO" base
    [lit "event" "heartbeat_received"; text "node_id" nodeId;
     text "session_id" sessionId; lit "message" "Heartbeat received"].

Definition logHeartbeatUnknownNode (m_minLevel : Level) (base : BaseFields)
    (nodeId sessionId : string) : M unit :=
  if level_gt m_minLevel WARN then mret tt
  else emit "WARN" base
    [lit "event" "heartbeat_unknown_node"; text "node_id" nodeId;
     text "session_id" sessionId; lit "message" "Heartbeat received for unknown node"].

Definition logNodeOffline (m_minLevel : Level) (base : BaseFields)
    (nodeId : string) : M unit :=
  if level_gt m_minLevel WARN then mret tt
  else emit "WARN" base
    [lit "event" "node_offline"; text "node_id" nodeId;
     lit "message" "Node marked OFFLINE — heartbeat timeout"].

(** No level test in the source. *)
Definition logNodeRegisterError (m_minLevel : Level) (base : BaseFields)
    (nodeId sessionId reason : string) : M unit :=
  emit "WARN" base
    [lit "event" "node_register_error"; text "node_id" nodeId;
     text "session_id" sessionId; text "reason" reason;
     lit "message" "Node registration failed"].

Definition logNodeQueried (m_minLevel : Level) (base : BaseFields)
    (nodeId sessionId result : string) : M unit :=
  let ok := bool_decide (result = "OK") in
  if level_gt m_minLevel (if ok then INFO else WARN) then mret tt
  else emit (if ok then "INFO" else "WARN") base
    [lit "event" "node_queried"; text "node_id" nodeId;
     text "session_id" sessionId; text "result" result;
     lit "message" (if ok then "Node query succeeded" else "Node not found")].

Definition logNodesListed (m_minLevel : Level) (base : BaseFields)
    (sessionId : string) (nodeCount : Z) : M unit :=
  if level_gt m_minLevel INFO then mret tt
  else emit "INFO" base
    [lit "event" "nodes_listed"; text "session_id" sessionId;
     ("node_count", j_unsigned nodeCount); lit "message" "Node list returned"].

(** A general message, with the identifiers of the innermost span. *)
Definition log (m_minLevel : Level) (level : Level) (message : string) : M unit :=
  if level_gt m_minLevel level then mret tt
  else
    ts ← nowIso8601Utc;
    ids ← gets (λ w, mkBase (Otel.currentTraceId (w_otel w)) (Otel.currentSpanId (w_otel w)));
    line ← dump (j_obj (base_fields ts (levelToString level) ids ++ [text "message" message]));
    writeToStdout line.
End logger.

(** ** Lemmas: searching *)

Lemma find_split_nil bs : Otel.find_split [] bs = Some ([], bs).
Proof. by destruct bs. Qed.

Lemma contains_sub_spec needle bs :
  contains_sub needle bs = true ↔ ∃ l r, bs = l ++ needle ++ r.
Proof.
  unfold contains_sub. split.
  - induction bs as [|b bs IH]; simpl; case_bool_decide as Hd.
    + intros _. exists [], []. rewrite app_nil_r. rewrite take_nil in Hd. by rewrite <-Hd.
    + done.
    + intros _. exists [], (drop (length needle) (b :: bs)). simpl app.
      rewrite <-Hd at 1. by rewrite take_drop.
    + destruct (Otel.find_split needle bs) as [[l r]|]; [|done].
      intros _. destruct IH as (l' & r' & ->); [done|]. by exists (b :: l'), r'.
  - intros (l & r & ->). induction l as [|b l IH].
    + simpl. destruct needle as [|n ns].
      { by rewrite find_split_nil. }
      simpl. rewrite bool_decide_true; [done|]. f_equal. by rewrite take_app_length.
    + simpl. case_bool_decide; [done|].
      by destruct (Otel.find_split needle (l ++ needle ++ r)) as [[]|].
Qed.

Lemma contains_sub_take needle n bs :
  contains_sub needle bs = false → contains_sub needle (take n bs) = false.
Proof.
  intros Hf. apply not_true_iff_false. intros Ht.
  apply contains_sub_spec in Ht as (l & r & E).
  apply not_true_iff_false in Hf. apply Hf, contains_sub_spec.
  exists l, (r ++ drop n bs). rewrite <-(take_drop n bs) at 1. rewrite E.
  by rewrite <-!app_assoc.
Qed.

Lemma sensitive_take n bs :
  containsSensitiveMarker bs = false → containsSensitiveMarker (take n bs) = false.
Proof.
  unfold containsSensitiveMarker, toLowerCopy. intros Hf.
  apply not_true_iff_false. intros Ht. apply existsb_exists in Ht as (mk & Hin & Ht).
  apply not_true_iff_false in Hf. apply Hf. apply existsb_exists. exists mk. split; [done|].
  rewrite <-List.firstn_map in Ht. apply not_false_iff_true. intros Hc.
  by rewrite contains_sub_take in Ht.
Qed.

Lemma sanitizeText_cases v :
  sanitizeText v = "[REDACTED]" ∨
  (containsSensitiveMarker (bytes_of_string v) = false ∧
   bytes_of_string (sanitizeText v) = take MAX_LOG_FIELD_LENGTH (bytes_of_string v)).
Proof.
  unfold sanitizeText. destruct (str_empty v) eqn:E.
  { apply str_empty_true in E. subst. by right. }
  destruct (containsSensitiveMarker _); [by left|]. right. split; [done|].
  destruct (Nat.ltb_spec MAX_LOG_FIELD_LENGTH (length (bytes_of_string v))).
  - apply bytes_of_string_of_bytes.
  - by rewrite take_ge.
Qed.

(** ** The events as data *)

Inductive event :=
| EConnected (clientIp sessionId : string) (activeConnections : Z)
| EDisconnected (nodeId sessionId : string) (durationMs : Z) (reason : string)
| ENodeRegistered (nodeId sessionId : string)
| EHeartbeatReceived (nodeId sessionId : string)
| EHeartbeatUnknownNode (nodeId sessionId : string)
| ENodeOffline (nodeId : string)
| ENodeRegisterError (nodeId sessionId reason : string)
| ENodeQueried (nodeId sessionId result : string)
| ENodesListed (sessionId : string) (nodeCount : Z).

Definition run_event `{Clock} `{JsonLib} (ml : Level) (base : BaseFields) (ev : event)
    : M unit :=
  match ev with
  | EConnected ip sid n => logConnected ml base ip sid n
  | EDisconnected nid sid d r => logDisconnected ml base nid sid d r
  | ENodeRegistered nid sid => logNodeRegistered ml base nid sid
  | EHeartbeatReceived nid sid => logHeartbeatReceived ml base nid sid
  | EHeartbeatUnknownNode nid sid => logHeartbeatUnknownNode ml base nid sid
  | ENodeOffline nid => logNodeOffline ml base nid
  | ENodeRegisterError nid sid r => logNodeRegisterError ml base nid sid r
  | ENodeQueried nid sid r => logNodeQueried ml base nid sid r
  | ENodesListed sid n => logNodesListed ml base sid n
  end.

(** The level the line carries. *)
Definition event_level (ev : event) : Level :=
  match ev with
  | EHeartbeatUnknownNode _ _ | ENodeOffline _ | ENodeRegisterError _ _ _ => WARN
  | ENodeQueried _ _ r => if bool_decide (r = "OK") then INFO else WARN
  | _ => INFO
  end.

(** The texts of an event that are sanitised into its line. *)
Definition event_texts (base : BaseFields) (ev : event) : list string :=
  [m_traceId base; m_spanId base] ++
  match ev with
  | EConnected ip sid _ => [ip; sid]
  | EDisconnected nid sid _ r => [nid; sid; r]
  | ENodeRegistered nid sid | EHeartbeatReceived nid sid
  | EHeartbeatUnknownNode nid sid => [nid; sid]
  | ENodeOffline nid => [nid]
  | ENodeRegisterError nid sid r => [nid; sid; r]
  | ENodeQueried nid sid r => [nid; sid; r]
  | ENodesListed sid _ => [sid]
  end.

(** Whether the call is dropped.  [logNodeRegisterError] never is. *)
Definition suppressed (ml : Level) (ev : event) : bool :=
  match ev with
  | ENodeRegisterError _ _ _ => false
  | _ => level_gt ml (event_level ev)
  end.

(** ** Lemmas: what a log call does to the world *)

(** [logs k w w']: only the log and the clock have moved, and the log has
    grown by [k] lines, none of which contains a line break. *)
Definition logs (k : nat) (w w' : world) : Prop :=
  ∃ lines, length lines = k ∧ Forall (λ l, x0a ∉ bytes_of_string l) lines ∧
    ∃ n, (w_reads w ≤ n)%nat ∧ w' = set_reads n (set_log (w_log w ++ lines) w).

Definition text_ok (v : string) : bool := Utf8.valid (sanitizeText v).

(** Membership in an explicit list. *)
Local Ltac in_list :=
  solve [repeat first [apply list_elem_of_here | apply list_elem_of_further]].

Section facts.
Context `{CL : Clock} `{!ClockOk} `{JL : JsonLib} `{!JsonLaws}.

(** A field is a literal, a sanitised text or a number. *)
Definition field_ok (texts : list string) (f : string * json) : Prop :=
  Utf8.valid f.1 = true ∧
  ((∃ v, v ∈ texts ∧ f = text f.1 v) ∨ j_utf8 f.2).

Lemma emit_utf8 ts level base extra texts :
  Forall (field_ok texts) extra →
  Forall (λ v, text_ok v = true) (m_traceId base :: m_spanId base :: texts) →
  Utf8.valid ts = true → Utf8.valid level = true →
  j_utf8 (j_obj (base_fields ts level base ++ extra)).
Proof.
  intros He Ht Hts Hl. apply j_utf8_obj. apply Forall_app. split.
  - apply Forall_cons in Ht as [Ht1 Ht]. apply Forall_cons in Ht as [Ht2 _].
    repeat (constructor; [split; [reflexivity|]; by apply j_utf8_string|]). done.
  - eapply Forall_impl; [exact He|]. intros [k v] [Hk [(t & Hin & Heq)|Hv]]; [|done].
    split; [done|]. simpl in Heq. unfold text in Heq. simplify_eq.
    apply j_utf8_string.
    apply Forall_cons in Ht as [_ Ht]. apply Forall_cons in Ht as [_ Ht].
    rewrite Forall_forall in Ht. by apply Ht.
Qed.

Lemma emit_spec level base extra texts w :
  Forall (field_ok texts) extra → Utf8.valid level = true →
  Forall (λ v, text_ok v = true) (m_traceId base :: m_spanId base :: texts) →
  ∃ w', emit level base extra w = (Ret tt, w') ∧ logs 1 w w'.
Proof.
  intros He Hl Ht.
  unfold emit, nowIso8601Utc, sys_now, mbind, M_bind, mret, M_ret, dump.
  assert (Utf8.valid (Time.iso8601 (sys_clock (w_reads w))) = true) as Hts.
  { apply Utf8.valid_ascii, Time.iso8601_ascii, sys_clock_nonneg. }
  destruct (j_dump_utf8 _ (emit_utf8 _ _ _ _ _ He Ht Hts Hl)) as [line Hd].
  rewrite Hd. eexists. split; [reflexivity|]. exists [line]. split_and!; [done| |].
  - constructor; [|done]. by eapply j_dump_one_line.
  - exists (S (w_reads w)). split; [lia|]. by destruct w.
Qed.

(** A text that is not UTF-8 once sanitised makes the dump throw. *)
Lemma emit_throws level base extra k v w :
  NoDup (base_fields "" level base ++ extra).*1 →
  (∀ ts, text k v ∈ base_fields ts level base ++ extra) → text_ok v = false →
  emit level base extra w = (Throw JsonTypeError, set_reads (S (w_reads w)) w).
Proof.
  intros Hnd Hin Hv.
  unfold emit, nowIso8601Utc, sys_now, mbind, M_bind, mret, M_ret, dump.
  rewrite j_dump_not_utf8; [done|]. intros Hu.
  set (fs := base_fields _ level base ++ extra) in Hu.
  destruct (j_obj_lookup fs k (j_string (sanitizeText v))) as [Hc Ha].
  { done. }
  { apply Hin. }
  apply (j_utf8_at k) in Hu; [|done]. rewrite Ha, j_utf8_string in Hu.
  unfold text_ok in Hv. congruence.
Qed.

Lemma run_event_suppressed ml base ev w :
  suppressed ml ev = true → run_event ml base ev w = (Ret tt, w).
Proof.
  destruct ev; simpl;
    unfold logConnected, logDisconnected, logNodeRegistered, logHeartbeatReceived,
      logHeartbeatUnknownNode, logNodeOffline, logNodeQueried, logNodesListed;
    try done; by intros ->.
Qed.

(** The emission behind an event that is not suppressed. *)
Lemma run_event_emit ml base ev :
  suppressed ml ev = false →
  ∃ level extra,
    run_event ml base ev = emit level base extra ∧ Utf8.valid level = true ∧
    Forall (field_ok (drop 2 (event_texts base ev))) extra ∧
    NoDup (base_fields "" level base ++ extra).*1 ∧
    ∀ v, v ∈ event_texts base ev →
      ∃ k, ∀ ts, text k v ∈ base_fields ts level base ++ extra.
Proof.
  intros Hs. destruct ev; simpl in Hs |- *;
    unfold logConnected, logDisconnected, logNodeRegistered, logHeartbeatReceived,
      logHeartbeatUnknownNode, logNodeOffline, logNodeRegisterError, logNodeQueried,
      logNodesListed; rewrite ?Hs;
    try (destruct (bool_decide _) in Hs |- *; rewrite ?Hs);
    (do 2 eexists; split_and!; [reflexivity|reflexivity| | |]).
  all: try match goal with
    | |- NoDup ?l => apply (bool_decide_eq_true_1 (NoDup l)); vm_compute; reflexivity
    end.
  all: try (repeat apply Forall_cons_2; try apply Forall_nil_2;
    (split; [reflexivity|]; first
      [ right; apply j_utf8_unsigned | right; apply j_utf8_integer
      | left; eexists; split; [|reflexivity]; cbn; in_list
      | right; apply j_utf8_string; reflexivity ])).
  all: intros v Hv; repeat (apply elem_of_cons in Hv as [->|Hv]);
    try (by apply not_elem_of_nil in Hv).
  all: first
    [ exists "trace_id"; intros ts; in_list | exists "span_id"; intros ts; in_list
    | exists "node_id"; intros ts; in_list | exists "session_id"; intros ts; in_list
    | exists "client_ip"; intros ts; in_list | exists "reason"; intros ts; in_list
    | exists "result"; intros ts; in_list ].
Qed.

Lemma run_event_ok ml base ev w :
  suppressed ml ev = false → Forall (λ v, text_ok v = true) (event_texts base ev) →
  ∃ w', run_event ml base ev w = (Ret tt, w') ∧ logs 1 w w'.
Proof.
  intros Hs Ht. destruct (run_event_emit ml base ev Hs) as (lv & ex & -> & Hl & He & _ & _).
  by apply (emit_spec lv base ex (drop 2 (event_texts base ev))).
Qed.

Lemma run_event_throws ml base ev v w :
  suppressed ml ev = false → v ∈ event_texts base ev → text_ok v = false →
  run_event ml base ev w = (Throw JsonTypeError, set_reads (S (w_reads w)) w).
Proof.
  intros Hs Hv Ht. destruct (run_event_emit ml base ev Hs) as (lv & ex & -> & _ & _ & Hn & Hk).
  destruct (Hk v Hv) as [k Hin]. by apply (emit_throws lv base ex k v).
Qed.
End facts.

Lemma text_ok_short v :
  Utf8.valid v = true → (length (bytes_of_string v) ≤ MAX_LOG_FIELD_LENGTH)%nat →
  text_ok v = true.
Proof.
  intros Hv Hl. unfold text_ok, Utf8.valid.
  destruct (sanitizeText_cases v) as [->|[_ ->]]; [done|]. by rewrite take_ge.
Qed.

#[global] Hint Resolve text_ok_short : eop.

(** ** Correctness of the component *)

(** A sanitised field never contains a sensitive marker in any mixture of
    cases, has at most 512 bytes, is not changed by sanitising again, and is
    the original text when that was short and free of markers. *)
Theorem sanitizeText_correct v :
  containsSensitiveMarker (bytes_of_string (sanitizeText v)) = false ∧
  (length (bytes_of_string (sanitizeText v)) ≤ MAX_LOG_FIELD_LENGTH)%nat ∧
  sanitizeText (sanitizeText v) = sanitizeText v ∧
  (containsSensitiveMarker (bytes_of_string v) = false →
   (length (bytes_of_string v) ≤ MAX_LOG_FIELD_LENGTH)%nat → sanitizeText v = v).
Proof.
  assert (∀ u, containsSensitiveMarker (bytes_of_string u) = false →
            (length (bytes_of_string u) ≤ MAX_LOG_FIELD_LENGTH)%nat → sanitizeText u = u) as Hid.
  { intros u Hm Hl. unfold sanitizeText. rewrite Hm, (proj2 (Nat.ltb_ge _ _)) by done.
    by destruct (str_empty u). }
  assert (containsSensitiveMarker (bytes_of_string (sanitizeText v)) = false ∧
          (length (bytes_of_string (sanitizeText v)) ≤ MAX_LOG_FIELD_LENGTH)%nat) as [Hm Hl].
  { destruct (sanitizeText_cases v) as [->|[Hm ->]].
    - split; [reflexivity|]. vm_compute. lia.
    - split; [by apply sensitive_take|]. rewrite length_take. lia. }
  split_and!; [done|done|by apply Hid|apply Hid].
Qed.

(** C38: a log call that is not suppressed by the level writes exactly one
    line without a line break and touches nothing else, provided every
    sanitised text is UTF-8; if one is not, the call throws and writes
    nothing; a suppressed call does nothing at all. *)
Theorem log_event_correct `{CL : Clock} `{!ClockOk} `{JL : JsonLib} `{!JsonLaws} ml base ev w :
  if suppressed ml ev then run_event ml base ev w = (Ret tt, w)
  else if forallb text_ok (event_texts base ev)
  then ∃ w', run_event ml base ev w = (Ret tt, w') ∧ logs 1 w w'
  else run_event ml base ev w = (Throw JsonTypeError, set_reads (S (w_reads w)) w).
Proof.
  destruct (suppressed ml ev) eqn:Hs; [by apply run_event_suppressed|].
  destruct (forallb text_ok (event_texts base ev)) eqn:Ht.
  - apply run_event_ok; [done|]. apply Forall_forall. intros v Hv.
    rewrite forallb_forall in Ht. by apply Ht, list_elem_of_In.
  - assert (∃ v, v ∈ event_texts base ev ∧ text_ok v = false) as (v & Hv & Hf).
    { revert Ht. induction (event_texts base ev) as [|v vs IH]; simpl; [done|].
      destruct (text_ok v) eqn:E; simpl.
      - intros Ht. destruct (IH Ht) as (u & Hu & Hf). exists u.
        split; [by apply list_elem_of_further|done].
      - intros _. exists v. split; [apply list_elem_of_here|done]. }
    by eapply run_event_throws.
Qed.

(** A 513-byte node id, valid UTF-8, whose 512-byte prefix is not: the cut
    falls inside a two-byte character. *)
Definition long_node_id : string := string_of_bytes (replicate 511 x61 ++ [xc3; xa9]).

Lemma long_node_id_bad : Utf8.valid long_node_id = true ∧ text_ok long_node_id = false.
Proof. split; vm_compute; reflexivity. Qed.

(** The 512-byte truncation can cut a UTF-8 sequence: there is a valid
    UTF-8 node id for which, with any JSON library that behaves as
    documented, logging its registration at the default level throws. *)
Theorem truncation_breaks_utf8 `{CL : Clock} `{JL : JsonLib} `{!JsonLaws} base sessionId w :
  Utf8.valid long_node_id = true ∧
  logNodeRegistered INFO base long_node_id sessionId w =
    (Throw JsonTypeError, set_reads (S (w_reads w)) w).
Proof.
  destruct long_node_id_bad as [Hv Hb]. split; [done|].
  apply (run_event_throws INFO base (ENodeRegistered long_node_id sessionId) long_node_id);
    [done| |done].
  simpl. do 2 apply list_elem_of_further. apply list_elem_of_here.
Qed.

(** [logNodeRegisterError] writes its line whatever the minimum level is,
    also for a logger constructed with NONE. *)
Theorem register_error_ignores_level `{CL : Clock} `{!ClockOk} `{JL : JsonLib} `{!JsonLaws}
    ml base nodeId sessionId reason w :
  Forall (λ v, text_ok v = true) (event_texts base (ENodeRegisterError nodeId sessionId reason)) →
  ∃ w', logNodeRegisterError ml base nodeId sessionId reason w = (Ret tt, w') ∧ logs 1 w w'.
Proof. by apply (run_event_ok ml base (ENodeRegisterError nodeId sessionId reason)). Qed.

Section witnesses.
Import Demo.

Lemma log_event_witness :
  ∃ w', run_event INFO (mkBase "ab" "cd") (ENodeRegistered "N1" "s1") (demo_world ∅ [])
          = (Ret tt, w') ∧ logs 1 (demo_world ∅ []) w'.
Proof.
  pose proof (log_event_correct INFO (mkBase "ab" "cd") (ENodeRegistered "N1" "s1")
                (demo_world ∅ [])) as Hl.
  replace (forallb text_ok _) with true in Hl by (vm_compute; reflexivity).
  exact Hl.
Defined.

Lemma truncation_witness :
  (logNodeRegistered INFO (mkBase "ab" "cd") long_node_id "s1" (demo_world ∅ [])).1
  = Throw JsonTypeError.
Proof.
  destruct (truncation_breaks_utf8 (mkBase "ab" "cd") "s1" (demo_world ∅ [])) as [_ E].
  rewrite E. reflexivity.
Defined.

Lemma register_error_level_witness :
  ∃ w', logNodeRegisterError NONE (mkBase "ab" "cd") "N1" "s1" "ERR_DUPLICATE" (demo_world ∅ [])
          = (Ret tt, w') ∧ logs 1 (demo_world ∅ []) w'.
Proof.
  apply register_error_ignores_level. repeat constructor.
Defined.
End witnesses.

End Logger.
