(* ===== verification/Effects.v ===== *)
(** * Reasoning about effects

    What a block does to the parts of the world a client or another component
    can see is a transformer of those parts ([Visible]); spans, log lines and
    clock readings are [quiet].  [perf m w T P] says that [m] started in [w]
    ends with an outcome in [P] and has the visible effect [T], and the rules
    below compose it along the program text. *)

From S2P Require Import Prelude Net Registry Otel Json World Logger.
Local Open Scope Z_scope.

(** ** Visible state *)

Record vis_eq (w w' : world) : Prop := {
  v_reg : w_reg w' = w_reg w;
  v_active : w_active w' = w_active w;
  v_metrics : w_metrics w' = w_metrics w;
  v_socks : w_socks w' = w_socks w;
  v_errno : w_errno w' = w_errno w;
  v_closed : w_closed w' = w_closed w
}.

#[export] Instance vis_eq_equiv : Equivalence vis_eq.
Proof.
  split.
  - by intros w.
  - by intros w w' [].
  - intros w1 w2 w3 [] []. split; congruence.
Qed.

(** Instrumentation. *)
Record quiet (w w' : world) : Prop := {
  q_vis : vis_eq w w';
  q_otel : Otel.wf (w_otel w) → Otel.nested (w_otel w) (w_otel w');
  q_log : w_log w `prefix_of` w_log w';
  q_reads : (w_reads w ≤ w_reads w')%nat
}.

#[export] Instance quiet_refl : Reflexive quiet.
Proof. intros w. by split. Qed.

#[export] Instance quiet_trans : Transitive quiet.
Proof.
  intros w1 w2 w3 [V1 O1 L1 R1] [V2 O2 L2 R2]. split; [by etrans| |by etrans|by etrans].
  intros Hwf. etrans; [auto|]. eauto using Otel.nested_wf.
Qed.

Lemma quiet_wf w w' : quiet w w' → Otel.wf (w_otel w) → Otel.wf (w_otel w').
Proof. intros Hq Hwf. eapply Otel.nested_wf; [by apply q_otel|done]. Qed.

Lemma quiet_reads n w : (w_reads w ≤ n)%nat → quiet w (set_reads n w).
Proof. by split. Qed.

Lemma quiet_logs k w w' : Logger.logs k w w' → quiet w w'.
Proof.
  intros (lines & _ & _ & n & Hn & ->). split; simpl; try done. by apply prefix_app_r.
Qed.

Lemma quiet_otel f w : (∀ o, Otel.nested o (f o)) → quiet w (on_otel f w).
Proof. intros Hf. by split. Qed.

#[export] Hint Resolve quiet_wf : eop.

(** A transformer of the visible state only. *)
Class Visible (T : world → world) : Prop := {
  vs_proper w w' : vis_eq w w' → vis_eq (T w) (T w');
  vs_otel w : w_otel (T w) = w_otel w;
  vs_log w : w_log (T w) = w_log w;
  vs_reads w : w_reads (T w) = w_reads w
}.

#[export] Instance visible_id : Visible id.
Proof. by split. Qed.

#[export] Instance visible_compose T T' : Visible T → Visible T' → Visible (T' ∘ T).
Proof.
  intros [P1 O1 L1 R1] [P2 O2 L2 R2]. unfold compose. split.
  - auto.
  - intros w. by rewrite O2.
  - intros w. by rewrite L2.
  - intros w. by rewrite R2.
Qed.

#[export] Instance visible_reg f : Visible (λ w, set_reg (f (w_reg w)) w).
Proof. split; [|done..]. intros w w' []. split; simpl; congruence. Qed.

#[export] Instance visible_active f : Visible (λ w, set_active (f (w_active w)) w).
Proof. split; [|done..]. intros w w' []. split; simpl; congruence. Qed.

#[export] Instance visible_metrics f : Visible (λ w, set_metrics (f (w_metrics w)) w).
Proof. split; [|done..]. intros w w' []. split; simpl; congruence. Qed.

#[export] Instance visible_close fd : Visible (close_fd fd).
Proof. split; [|done..]. intros w w' []. split; simpl; congruence. Qed.

Lemma visible_quiet T `{!Visible T} w w' : quiet w w' → quiet (T w) (T w').
Proof.
  intros [V O L R]. split.
  - by apply vs_proper.
  - by rewrite !vs_otel.
  - by rewrite !vs_log.
  - by rewrite !vs_reads.
Qed.

(** ** The judgement *)

Definition perf {A} (m : M A) (w : world) (T : world → world)
    (P : outcome A → Prop) : Prop :=
  P (m w).1 ∧ quiet (T w) (m w).2.

Lemma perf_mono {A} (m : M A) w T (P P' : outcome A → Prop) :
  perf m w T P → (∀ r, P r → P' r) → perf m w T P'.
Proof. intros [? ?] HP. split; auto. Qed.

Lemma perf_ext {A} (m : M A) w T T' (P : outcome A → Prop) :
  T w = T' w → perf m w T P → perf m w T' P.
Proof. unfold perf. by intros ->. Qed.

(** The run behind a judgement about one outcome. *)
Lemma perf_elim {A} (m : M A) w T a :
  perf m w T (λ r, r = a) → ∃ w', m w = (a, w') ∧ quiet (T w) w'.
Proof. intros [Hr Hq]. exists (m w).2. split; [|done]. by destruct (m w); simpl in *; subst. Qed.

Lemma bind_run {A B} (m : M A) (k : A → M B) w a w' :
  m w = (Ret a, w') → (m ≫= k) w = k a w'.
Proof. unfold mbind, M_bind. by intros ->. Qed.

Lemma perf_ret {A} (a : A) w (P : outcome A → Prop) : P (Ret a) → perf (mret a) w id P.
Proof. intros. by split. Qed.

(** Sequencing: the first part returns [a] with effect [T]. *)
Lemma perf_bind {A B} (m : M A) (k : A → M B) a w T T' P `{!Visible T'} :
  perf m w T (λ r, r = Ret a) →
  (∀ w', quiet (T w) w' → perf (k a) w' T' P) →
  perf (m ≫= k) w (T' ∘ T) P.
Proof.
  intros [Hr Hq] Hk. unfold perf, mbind, M_bind.
  destruct (m w) as [r w1]. simpl in *. subst r.
  destruct (Hk w1 Hq) as [HP Hq2]. split; [done|].
  etrans; [by apply visible_quiet|done].
Qed.

(** A part without visible effect that always returns. *)
Definition Quiet {A} (m : M A) : Prop := ∀ w, ∃ a, (m w).1 = Ret a ∧ quiet w (m w).2.

Lemma quiet_run {A B} (m : M A) (k : A → M B) w :
  Quiet m →
  ∃ a w', quiet w w' ∧
    ∀ T P, Visible T → perf (k a) w' T P → perf (m ≫= k) w T P.
Proof.
  intros Hm. destruct (Hm w) as (a & Hr & Hq). exists a, (m w).2. split; [done|].
  intros T P HT [HP Hk]. unfold perf, mbind, M_bind in *.
  destruct (m w) as [r w1]. simpl in *. subst r. split; [done|].
  etrans; [by apply visible_quiet|done].
Qed.

Lemma Quiet_bind {A B} (m : M A) (k : A → M B) :
  Quiet m → (∀ a, Quiet (k a)) → Quiet (m ≫= k).
Proof.
  intros Hm Hk w. unfold mbind, M_bind. destruct (Hm w) as (a & Hr & Hq).
  destruct (m w) as [r w1]. simpl in *. subst r.
  destruct (Hk a w1) as (b & Hr' & Hq'). exists b. split; [done|]. by etrans.
Qed.

Section effects.
Context `{CL : Clock} `{RN : Otel.Rng}.

Lemma Quiet_setAttribute i k v : Quiet (setAttribute i k v).
Proof. intros w. exists tt. split; [done|]. apply quiet_otel, Otel.setAttribute_nested. Qed.

Lemma Quiet_setAttributeInt i k v : Quiet (setAttributeInt i k v).
Proof. intros w. exists tt. split; [done|]. apply quiet_otel, Otel.setAttribute_nested. Qed.

Lemma Quiet_recordError i d : Quiet (recordError i d).
Proof. intros w. exists tt. split; [done|]. apply quiet_otel, Otel.recordError_nested. Qed.

(** An attribute, with the clock where it was. *)
Lemma perf_setAttribute {B} i k v (m : unit → M B) w T P `{!Visible T} :
  perf (m tt) (on_otel (Otel.setAttribute i k (Otel.AStr v)) w) T P →
  perf (setAttribute i k v ≫= m) w T P.
Proof.
  intros [HP Hq]. split; [exact HP|]. etrans; [|exact Hq].
  apply visible_quiet; [done|]. apply quiet_otel, Otel.setAttribute_nested.
Qed.

Lemma Quiet_steady_now : Quiet steady_now.
Proof. intros w. eexists. split; [done|]. apply quiet_reads; simpl; lia. Qed.

Lemma Quiet_sys_now : Quiet sys_now.
Proof. intros w. eexists. split; [done|]. apply quiet_reads; simpl; lia. Qed.

Lemma perf_gets {A B} (f : world → A) (k : A → M B) w T P :
  perf (k (f w)) w T P → perf (gets f ≫= k) w T P.
Proof. done. Qed.

Lemma perf_dump `{JsonLib} {B} j s (k : string → M B) w T P :
  j_dump j = Some s → perf (k s) w T P → perf (dump j ≫= k) w T P.
Proof. unfold perf, mbind, M_bind, dump. by intros ->. Qed.

(** A block with a local span: the span is ended on every way out, and does
    not show in the visible effect. *)
Lemma span_run {A} name (body : nat → M A) w :
  Otel.wf (w_otel w) →
  ∃ i w1, vis_eq w w1 ∧ Otel.wf (w_otel w1) ∧ w_reads w1 = S (w_reads w) ∧
    ∀ T P, Visible T → perf (body i) w1 T P → perf (with_span name body) w T P.
Proof.
  intros Hwf. unfold with_span, new_operation.
  unfold perf, mbind, M_bind, sys_now, state. cbn [w_otel set_reads].
  destruct (Otel.open_operation name (sys_clock (w_reads w)) (w_otel w)) as [i o] eqn:E.
  set (w1 := set_otel o (set_reads (S (w_reads w)) w)).
  assert (vis_eq w w1) as Hv by done.
  assert (Otel.wf (w_otel w1)) as Hwf1 by (by eapply Otel.open_scope_spec).
  exists i, w1. split_and!; [done..|]. intros T P HT [HP [V O L R]]. unfold finally.
  destruct (body i w1) as [r w2]. simpl in *. split; [done|].
  rewrite vs_otel in O. rewrite vs_log in L. rewrite vs_reads in R. split; simpl.
  - etrans; [by apply vs_proper|]. etrans; [exact V|done].
  - intros _. rewrite vs_otel. eapply Otel.scope_nested; [done|exact E|by apply O].
  - by rewrite vs_log.
  - rewrite vs_reads. simpl in R. lia.
Qed.
End effects.

#[export] Hint Resolve Quiet_setAttribute Quiet_setAttributeInt Quiet_recordError
  Quiet_steady_now Quiet_sys_now : eop.

(** ** Log calls at the end of a block *)

(** Identifiers of spans pass the sanitiser. *)
Lemma id_ok_text s : Otel.id_ok s → Logger.text_ok s = true.
Proof.
  intros [Hh Hl]. apply Logger.text_ok_short.
  - by apply Utf8.valid_ascii, hex_text_ascii.
  - unfold str_size in Hl. unfold Logger.MAX_LOG_FIELD_LENGTH. lia.
Qed.

Section logging.
Context `{CL : Clock} `{!ClockOk} `{JL : JsonLib} `{!JsonLaws}.

(** How a log call ends, given the texts of the event. *)
Definition log_outcome (ml : Logger.Level) (ev : Logger.event) : outcome unit :=
  if Logger.suppressed ml ev
     || forallb Logger.text_ok (drop 2 (Logger.event_texts (Logger.mkBase "" "") ev))
  then Ret tt else Throw JsonTypeError.

Lemma perf_log ml i ev w (P : outcome unit → Prop) :
  Otel.wf (w_otel w) → P (log_outcome ml ev) →
  perf (ids ← span_ids i; Logger.run_event ml (Logger.mkBase ids.1 ids.2) ev) w id P.
Proof.
  intros (_ & _ & Hids) HP. destruct (Hids i) as [Ht Hs].
  apply perf_gets. cbn [fst snd]. set (base := Logger.mkBase _ _). unfold perf.
  assert (∀ v, v ∈ Logger.event_texts base ev →
            v ∈ drop 2 (Logger.event_texts (Logger.mkBase "" "") ev) ∨
            Logger.text_ok v = true) as Hsplit.
  { intros v Hv. unfold Logger.event_texts in Hv. apply elem_of_app in Hv as [Hv|Hv].
    - right. apply elem_of_cons in Hv as [->|Hv]; [by apply id_ok_text|].
      apply list_elem_of_singleton in Hv as ->. by apply id_ok_text.
    - left. by destruct ev. }
  unfold log_outcome in HP.
  destruct (Logger.suppressed ml ev) eqn:Hsup; simpl in HP.
  { rewrite Logger.run_event_suppressed by done. by split. }
  destruct (forallb _ _) eqn:Hall.
  - destruct (Logger.run_event_ok ml base ev w Hsup) as (w' & -> & Hlog).
    { apply Forall_forall. intros v Hv. destruct (Hsplit v Hv) as [Hd|]; [|done].
      rewrite forallb_forall in Hall. by apply Hall, list_elem_of_In. }
    split; [done|]. by eapply quiet_logs.
  - apply not_true_iff_false in Hall. rewrite forallb_forall in Hall.
    destruct (decide (Forall (λ v, Logger.text_ok v = true)
                (drop 2 (Logger.event_texts (Logger.mkBase "" "") ev)))) as [Hf|Hf].
    { exfalso. apply Hall. intros v Hv. rewrite Forall_forall in Hf.
      by apply Hf, list_elem_of_In. }
    apply not_Forall_Exists, Exists_exists in Hf as (v & Hv & Hbad); [|apply _].
    rewrite (Logger.run_event_throws ml base ev v w Hsup).
    + split; [done|]. apply quiet_reads; simpl; lia.
    + by destruct ev; simpl in Hv |- *; do 2 apply list_elem_of_further.
    + by apply not_true_is_false.
Qed.

(** A general message. *)
Lemma log_run ml level msg w :
  Otel.wf (w_otel w) → Logger.text_ok msg = true →
  ∃ w', Logger.log ml level msg w = (Ret tt, w') ∧ quiet w w'.
Proof.
  intros (_ & _ & Hids) Hm. unfold Logger.log.
  destruct (Logger.level_gt ml level); [by exists w|].
  set (base := Logger.mkBase (Otel.currentTraceId (w_otel w)) (Otel.currentSpanId (w_otel w))).
  destruct (Logger.emit_spec (Logger.levelToString level) base
    [Logger.text "message" msg] [msg] w) as (w' & E & Hlog).
  - constructor; [|constructor]. split; [reflexivity|]. left. exists msg.
    split; [apply list_elem_of_here|done].
  - by destruct level.
  - unfold base, Otel.currentTraceId, Otel.currentSpanId. simpl.
    repeat constructor; try done; destruct (Otel.ot_stack (w_otel w)) as [|i ?]; try done;
      apply id_ok_text, (Hids i).
  - exists w'. split; [exact E|by eapply quiet_logs].
Qed.
End logging.

Lemma set_reg_same w : set_reg (w_reg w) w = w.
Proof. by destruct w. Qed.

(** ** Walking along a handler *)

(** What a handler's decisions depend on at a point of its body. *)
Definition ready (reg : gmap string NodeRegistry.NodeEntry) (w : world) : Prop :=
  w_reg w = reg ∧ Otel.wf (w_otel w).

Lemma ready_quiet reg w w' : ready reg w → quiet w w' → ready reg w'.
Proof.
  intros [Hr Hwf] Hq. split; [|by eapply quiet_wf].
  rewrite <-Hr. apply v_reg, q_vis, Hq.
Qed.

Lemma ready_step T `{!Visible T} w w' :
  Otel.wf (w_otel w) → quiet (T w) w' → ready (w_reg (T w)) w'.
Proof.
  intros Hwf Hq. eapply ready_quiet; [|exact Hq]. split; [done|]. by rewrite vs_otel.
Qed.

Lemma quiet_run_ready {A B} reg (m : M A) (k : A → M B) w :
  Quiet m → ready reg w →
  ∃ a w', ready reg w' ∧
    ∀ T P, Visible T → perf (k a) w' T P → perf (m ≫= k) w T P.
Proof.
  intros Hm Hr. destruct (quiet_run m k w Hm) as (a & w' & Hq & Hk).
  exists a, w'. eauto using ready_quiet.
Qed.

Lemma span_run_ready {A} `{CL : Clock} `{RN : Otel.Rng} reg name (body : nat → M A) w :
  ready reg w →
  ∃ i w', ready reg w' ∧
    ∀ T P, Visible T → perf (body i) w' T P → perf (with_span name body) w T P.
Proof.
  intros [Hr Hwf]. destruct (span_run name body w Hwf) as (i & w1 & Hv & Hwf1 & _ & Hb).
  exists i, w1. split; [|done]. split; [|done]. by rewrite (v_reg _ _ Hv).
Qed.

(** The log call that ends a handler, with the identifiers of its span. *)
Lemma perf_log_last `{CL : Clock} `{!ClockOk} `{JL : JsonLib} `{!JsonLaws}
    i ml ev (logf : Logger.BaseFields → M unit) reg w :
  ready reg w → (∀ base, logf base = Logger.run_event ml base ev) →
  perf (ids ← span_ids i; logf (Logger.mkBase ids.1 ids.2)) w id
    (λ r, r = log_outcome ml ev).
Proof.
  intros [_ Hwf] Hlog.
  destruct (perf_log ml i ev w (λ r, r = log_outcome ml ev) Hwf eq_refl) as [H1 H2].
  unfold perf, mbind, M_bind, span_ids, gets in *. by rewrite Hlog.
Qed.

(** [quiet_step]: past a call that only instruments; [enter_span]: into the
    block of a local span. *)
Ltac advance L w Hr :=
  let a := fresh "a" in let w' := fresh "w" in
  let Hr' := fresh Hr in let Hk := fresh "Hk" in
  destruct L as (a & w' & Hr' & Hk);
  lazymatch goal with
  | |- perf _ _ _ _ => apply Hk; [apply _|]
  | |- ∃ now : Z, 0 ≤ now ∧ perf _ _ (@?T now) ?P =>
      let now := fresh "now" in let Hn := fresh in let Hp := fresh in
      match type of Hk with
      | ∀ T P, _ → perf ?m _ T P → _ =>
          cut (∃ now : Z, 0 ≤ now ∧ perf m w' (T now) P);
          [intros (now & Hn & Hp); exists now; split; [exact Hn|];
           apply Hk; [apply _|exact Hp]|]
      end
  end;
  clear Hk; clear dependent w; try rename w' into w; try rename Hr' into Hr.
Ltac quiet_step :=
  cbv beta zeta;
  match goal with
  | H : ready ?reg ?w |- context [perf (?m ≫= ?k) ?w _ _] =>
      advance (quiet_run_ready reg m k w ltac:(solve [auto with eop]) H) w H
  end.
Ltac quiet_steps := repeat quiet_step.
Ltac enter_span :=
  cbv beta zeta;
  match goal with
  | H : ready ?reg ?w |- context [perf (with_span ?name ?body) ?w _ _] =>
      advance (span_run_ready reg name body w H) w H
  end.
