(* ===== verification/Payloads.v ===== *)
(** * JSON payload builders of MessageSerializer

    Models [buildWelcomePayload], [buildAckPayload] and [buildErrorPayload] of
    [src/messageSerializer.cpp].  [json::dump] may throw, so the builders are
    computations of [M]. *)

From S2P Require Import Prelude Json Serializer World.
Local Open Scope Z_scope.

Module Payloads.

Record WelcomePayloadData := mkWelcome {
  serverVersion : string;
  timestamp : string;
  sessionId : string
}.

Record AckPayloadData := mkAck {
  ack_refMessageId : Z;
  ack_nodeId : string
}.

Record ErrorPayloadData := mkError {
  err_refMessageId : Z;
  err_errorCode : MessageSerializer.ProtocolErrorCode;
  err_description : string
}.

Section payloads.
Context `{JsonLib}.

Definition welcome_json (data : WelcomePayloadData) : json :=
  j_obj [("server_version", j_string (serverVersion data));
         ("timestamp", j_string (timestamp data));
         ("session_id", j_string (sessionId data))].

Definition ack_json (data : AckPayloadData) : json :=
  j_obj [("ref_message_id", j_unsigned (ack_refMessageId data));
         ("node_id", j_string (ack_nodeId data))].

Definition error_json (data : ErrorPayloadData) : json :=
  j_obj [("ref_message_id", j_unsigned (err_refMessageId data));
         ("error_code",
          j_unsigned (u8 (MessageSerializer.error_code (err_errorCode data))));
         ("description", j_string (err_description data))].

Definition buildWelcomePayload (data : WelcomePayloadData) : M string :=
  dump (welcome_json data).
Definition buildAckPayload (data : AckPayloadData) : M string :=
  dump (ack_json data).
Definition buildErrorPayload (data : ErrorPayloadData) : M string :=
  dump (error_json data).
End payloads.

(** ** Lemmas *)

(** The text of a value whose dump does not throw. *)
Definition text_of `{JsonLib} (j : json) : string := default "" (j_dump j).

Section facts.
Context `{JsonLaws}.

Lemma dump_text j : j_utf8 j → j_dump j = Some (text_of j).
Proof. intros Hj. unfold text_of. by destruct (j_dump_utf8 j Hj) as [s ->]. Qed.

Lemma parse_text j : j_plain j → j_utf8 j → j_parse (text_of j) = Some j.
Proof. intros Hp Hu. by apply j_parse_dump, dump_text. Qed.

Lemma welcome_utf8 d :
  Utf8.valid (serverVersion d) = true → Utf8.valid (timestamp d) = true →
  Utf8.valid (sessionId d) = true → j_utf8 (welcome_json d).
Proof.
  intros. apply j_utf8_obj. repeat constructor; try reflexivity; by apply j_utf8_string.
Qed.

Lemma ack_utf8 d : Utf8.valid (ack_nodeId d) = true → j_utf8 (ack_json d).
Proof.
  intros. apply j_utf8_obj.
  repeat constructor; try reflexivity; auto with eop. by apply j_utf8_string.
Qed.

Lemma error_utf8 d : Utf8.valid (err_description d) = true → j_utf8 (error_json d).
Proof.
  intros. apply j_utf8_obj.
  repeat constructor; try reflexivity; auto with eop. by apply j_utf8_string.
Qed.

Lemma ack_plain d : in_width 32 (ack_refMessageId d) → j_plain (ack_json d).
Proof.
  intros Hr. apply j_plain_obj. repeat constructor; auto with eop.
  apply j_plain_unsigned. unfold in_width in *. lia.
Qed.

Lemma error_plain d : in_width 32 (err_refMessageId d) → j_plain (error_json d).
Proof.
  intros Hr. apply j_plain_obj. repeat constructor; auto with eop;
    apply j_plain_unsigned; unfold in_width in *; [lia|].
  destruct (err_errorCode d); vm_compute; split; congruence.
Qed.

Lemma welcome_fields d :
  j_get_string (j_at (welcome_json d) "server_version") = serverVersion d ∧
  j_get_string (j_at (welcome_json d) "timestamp") = timestamp d ∧
  j_get_string (j_at (welcome_json d) "session_id") = sessionId d.
Proof.
  unfold welcome_json. set (fs := [_; _; _]).
  assert (NoDup fs.*1) as Hnd.
  { apply (bool_decide_eq_true_1 (NoDup _)). vm_compute. reflexivity. }
  assert (∀ k v, (k, j_string v) ∈ fs → j_get_string (j_at (j_obj fs) k) = v) as Hl.
  { intros k v Hin. destruct (j_obj_lookup fs k (j_string v) Hnd Hin) as [_ ->].
    apply j_get_string_string. }
  split_and!; apply Hl; repeat first [apply list_elem_of_here|apply list_elem_of_further].
Qed.

Lemma error_code_field d :
  j_get_u64 (j_at (error_json d) "error_code") = MessageSerializer.error_code (err_errorCode d).
Proof.
  unfold error_json. set (fs := [_; _; _]).
  destruct (j_obj_lookup fs "error_code"
    (j_unsigned (u8 (MessageSerializer.error_code (err_errorCode d))))) as [_ ->].
  - apply (bool_decide_eq_true_1 (NoDup _)). vm_compute. reflexivity.
  - apply list_elem_of_further, list_elem_of_here.
  - rewrite j_get_u64_unsigned; destruct (err_errorCode d); vm_compute; try done;
      split; congruence.
Qed.

Lemma welcome_plain d : j_plain (welcome_json d).
Proof. apply j_plain_obj. repeat constructor; auto with eop. Qed.
End facts.

Lemma valid_string_app s1 s2 :
  Utf8.valid s1 = true → Utf8.valid s2 = true → Utf8.valid (s1 +:+ s2) = true.
Proof.
  unfold Utf8.valid. rewrite bytes_of_string_app. apply Utf8.valid_app.
Qed.

End Payloads.
