(* ===== verification/Sender.v ===== *)
(** * What handlers rely on

    [SendFn] is the interface between a handler and the connection it answers
    on ([using SendFn = std::function<bool(const uint8_t*, std::size_t)>]):
    the call returns and does nothing but change the visible state.  The
    handlers' theorems are proved against it; [sendAll] on a descriptor
    implements it.  The registry's methods are given their [perf] rules
    here. *)

From S2P Require Import Prelude Net Registry Otel Json Serializer World Logger Effects Payloads.
Local Open Scope Z_scope.

Class SendFn (sender : list byte → M bool) : Prop := {
  send_returns d w : ∃ b, (sender d w).1 = Ret b;
  send_visible d : Visible (λ w, (sender d w).2)
}.

(** The world after the call. *)
Definition sent (sender : list byte → M bool) (d : list byte) (w : world) : world :=
  (sender d w).2.

#[export] Instance sent_visible sender d `{!SendFn sender} : Visible (sent sender d).
Proof. apply send_visible. Qed.

(** The worker's sender. *)
#[export] Instance sendAll_SendFn fd : SendFn (sendAll fd).
Proof.
  split.
  - intros d w. unfold sendAll. destruct (w_socks w !! fd); [|eauto].
    destruct (MessageSerializer.sendAll _ _) as [[ok out] ws]. eauto.
  - intros d. split.
    + intros w w' [R A X S E C]. unfold sendAll. rewrite S, E.
      destruct (w_socks w !! fd); [|by split].
      destruct (MessageSerializer.sendAll _ _) as [[ok out] ws]. by split.
    + intros w. unfold sendAll. destruct (w_socks w !! fd); [|done].
      by destruct (MessageSerializer.sendAll _ _) as [[ok out] ws].
    + intros w. unfold sendAll. destruct (w_socks w !! fd); [|done].
      by destruct (MessageSerializer.sendAll _ _) as [[ok out] ws].
    + intros w. unfold sendAll. destruct (w_socks w !! fd); [|done].
      by destruct (MessageSerializer.sendAll _ _) as [[ok out] ws].
Qed.

(** Sending touches only the descriptor's socket and errno. *)
Lemma sendAll_same fd d w :
  let w' := (sendAll fd d w).2 in
  w_closed w' = w_closed w ∧ w_active w' = w_active w ∧ w_reg w' = w_reg w ∧
  w_otel w' = w_otel w ∧ w_log w' = w_log w ∧
  (∀ fd', fd' ≠ fd → w_socks w' !! fd' = w_socks w !! fd').
Proof.
  unfold sendAll. destruct (w_socks w !! fd); [|done].
  destruct (MessageSerializer.sendAll _ _) as [[ok out] ws]. simpl. split_and!; try done.
  intros fd' Hne. by rewrite lookup_insert_ne.
Qed.

(** A handler ignores the verdict of the sender. *)
Lemma perf_send {A} sender d (k : bool → M A) w T P `{!SendFn sender} `{!Visible T} :
  (∀ b w', quiet (sent sender d w) w' → perf (k b) w' T P) →
  perf (sender d ≫= k) w (T ∘ sent sender d) P.
Proof.
  intros Hk. destruct (send_returns d w) as [b Hb].
  eapply (perf_bind _ _ b); [done| |apply Hk].
  split; [exact Hb|reflexivity].
Qed.

Lemma perf_send_last {A} sender d (k : bool → M A) w P `{!SendFn sender} :
  (∀ b w', quiet (sent sender d w) w' → perf (k b) w' id P) →
  perf (sender d ≫= k) w (sent sender d) P.
Proof. apply (perf_send sender d k w id P). Qed.

(** The end of every handler: the answer, then one log call. *)
Lemma perf_answer `{CL : Clock} `{!ClockOk} `{JL : JsonLib} `{!JsonLaws}
    sender frame i ml ev (logf : Logger.BaseFields → M unit) reg w `{!SendFn sender} :
  ready reg w → (∀ base, logf base = Logger.run_event ml base ev) →
  perf (sender frame;; ids ← span_ids i; logf (Logger.mkBase ids.1 ids.2)) w
    (sent sender frame) (λ r, r = log_outcome ml ev).
Proof.
  intros [_ Hwf] Hlog. apply perf_send_last; [done|]. intros b w' Hq.
  eapply perf_log_last; [|done].
  by apply (ready_step (sent sender frame) w).
Qed.

(** ** Registry methods *)

Definition do_register (e : NodeRegistry.NodeEntry) (w : world) : world :=
  set_reg (NodeRegistry.registerNode e (w_reg w)).2 w.
Definition do_setOffline (nid : string) (now : Z) (w : world) : world :=
  set_reg (NodeRegistry.setOffline nid now (w_reg w)) w.
Definition do_updateLastSeen (nid : string) (now : Z) (w : world) : world :=
  set_reg (NodeRegistry.updateLastSeen nid now (w_reg w)).2 w.

#[export] Instance do_register_visible e : Visible (do_register e).
Proof. apply (visible_reg (λ m, (NodeRegistry.registerNode e m).2)). Qed.
#[export] Instance do_setOffline_visible nid now : Visible (do_setOffline nid now).
Proof. apply (visible_reg (NodeRegistry.setOffline nid now)). Qed.
#[export] Instance do_updateLastSeen_visible nid now : Visible (do_updateLastSeen nid now).
Proof. apply (visible_reg (λ m, (NodeRegistry.updateLastSeen nid now m).2)). Qed.

Section registry.
Context `{CL : Clock}.

Lemma perf_register {A} e (k : NodeRegistry.RegisterResult → M A) w T P `{!Visible T} :
  (∀ w', quiet (do_register e w) w' →
     perf (k (NodeRegistry.registerNode e (w_reg w)).1) w' T P) →
  perf (registry_registerNode e ≫= k) w (T ∘ do_register e) P.
Proof.
  intros Hk. eapply perf_bind; [done| |exact Hk].
  unfold registry_registerNode, state, perf, do_register.
  by destruct (NodeRegistry.registerNode e (w_reg w)).
Qed.

(** The clock reading a method makes is the time of the call. *)
Lemma setOffline_run nid w :
  registry_setOffline nid w =
    (Ret tt, do_setOffline nid (sys_clock (w_reads w)) (set_reads (S (w_reads w)) w)).
Proof. done. Qed.

Lemma perf_setOffline nid w (P : outcome unit → Prop) :
  P (Ret tt) →
  perf (registry_setOffline nid) w (do_setOffline nid (sys_clock (w_reads w))) P.
Proof.
  intros HP. split; [done|]. rewrite setOffline_run.
  apply visible_quiet; [apply _|apply quiet_reads; lia].
Qed.

Lemma perf_updateLastSeen {A} nid (k : bool → M A) w T P `{!Visible T} :
  (∀ w', quiet (do_updateLastSeen nid (sys_clock (w_reads w)) w) w' →
     perf (k (NodeRegistry.updateLastSeen nid (sys_clock (w_reads w)) (w_reg w)).1) w' T P) →
  perf (registry_updateLastSeen nid ≫= k) w
    (T ∘ do_updateLastSeen nid (sys_clock (w_reads w))) P.
Proof.
  intros Hk. eapply perf_bind; [done| |exact Hk].
  unfold registry_updateLastSeen, state, sys_now, mbind, M_bind, perf, do_updateLastSeen.
  cbn [w_reg set_reads].
  destruct (NodeRegistry.updateLastSeen nid _ (w_reg w)) as [b m] eqn:E.
  cbn [fst snd]. split; [done|]. split; simpl; [done..|lia].
Qed.
End registry.

(** ** Registries filled by the handlers

    Texts came out of a JSON parser, capacities out of a 64-bit field, time
    points out of the clock or the default. *)

Definition entry_ok (e : NodeRegistry.NodeEntry) : Prop :=
  Utf8.valid (NodeRegistry.node_id e) = true ∧
  Utf8.valid (NodeRegistry.bunker_name e) = true ∧
  Utf8.valid (NodeRegistry.ip_address e) = true ∧
  in_width 64 (NodeRegistry.capacity e) ∧ 0 ≤ NodeRegistry.last_seen_at e.

Definition reg_ok (reg : gmap string NodeRegistry.NodeEntry) : Prop :=
  map_Forall (λ _ e, entry_ok e) reg ∧ NodeRegistry.wf reg.

Lemma reg_ok_empty : reg_ok ∅.
Proof. split; [apply map_Forall_empty|apply NodeRegistry.wf_empty]. Qed.

Lemma reg_ok_insert nid e reg :
  reg_ok reg → entry_ok e → NodeRegistry.node_id e = nid → nid ≠ "" →
  reg_ok (<[nid := e]> reg).
Proof.
  intros [H1 H2] He Hid Hne. split; [by apply map_Forall_insert_2|].
  by apply NodeRegistry.wf_insert.
Qed.

Lemma reg_ok_setOffline nid now reg :
  0 ≤ now → reg_ok reg → reg_ok (NodeRegistry.setOffline nid now reg).
Proof.
  intros Hn [H1 H2]. unfold NodeRegistry.setOffline.
  destruct (str_empty nid); [done|]. destruct (reg !! nid) as [e|] eqn:E; [|done].
  destruct (H1 _ _ E) as (? & ? & ? & ? & ?). destruct (H2 _ _ E).
  by apply reg_ok_insert.
Qed.

Lemma reg_ok_updateLastSeen nid now reg :
  0 ≤ now → reg_ok reg → reg_ok (NodeRegistry.updateLastSeen nid now reg).2.
Proof.
  intros Hn [H1 H2]. unfold NodeRegistry.updateLastSeen.
  destruct (str_empty nid); [done|]. destruct (reg !! nid) as [e|] eqn:E; [|done].
  case_bool_decide; [|done].
  destruct (H1 _ _ E) as (? & ? & ? & ? & ?). destruct (H2 _ _ E).
  by apply reg_ok_insert.
Qed.

#[export] Hint Resolve reg_ok_empty reg_ok_setOffline reg_ok_updateLastSeen : eop.
