(* ===== verification/RegisterHandler.v ===== *)
(** * RegisterHandler

    Models [src/registerHandler.cpp].  [handle] is the method; [decide_reg]
    is its contract: what a REGISTER message means against a registry. *)

From S2P Require Import Prelude Net Registry Otel Json Serializer World Logger Effects Payloads.
From S2P Require Import Sender Concrete.
Local Open Scope Z_scope.

Module RegisterHandler.

Section handler.
Context `{CL : Clock} `{RN : Otel.Rng} `{JL : JsonLib}.

(** The negation of the condition of the field check. *)
Definition valid_fields (j : json) : bool :=
  j_contains j "node_id" && j_is_string (j_at j "node_id")
  && negb (str_empty (j_get_string (j_at j "node_id")))
  && j_contains j "bunker_name" && j_is_string (j_at j "bunker_name")
  && j_contains j "ip_address" && j_is_string (j_at j "ip_address")
  && j_contains j "capacity" && j_is_number_unsigned (j_at j "capacity").

Definition entry_of (j : json) : NodeRegistry.NodeEntry :=
  NodeRegistry.mkNodeEntry (j_get_string (j_at j "node_id"))
    (j_get_string (j_at j "bunker_name")) (j_get_string (j_at j "ip_address"))
    (j_get_u64 (j_at j "capacity")) NodeRegistry.ONLINE 0.

(** Builds the payload and the frame and hands the frame to the sender. *)
Definition send_error (messageId : Z) (code : MessageSerializer.ProtocolErrorCode)
    (description : string) (sender : list byte → M bool) : M bool :=
  payload ← Payloads.buildErrorPayload (Payloads.mkError messageId code description);
  sender (MessageSerializer.buildFrame MessageSerializer.ERROR_MSG messageId payload).

Definition handle (ml : Logger.Level) (messageId : Z) (jsonPayload sessionId : string)
    (sender : list byte → M bool) : M unit :=
  startTime ← steady_now;
  with_span "register_node" (λ span,
    setAttribute span "operation.name" "REGISTER";;
    setAttribute span "session.id" sessionId;;
    match j_parse jsonPayload with
    | None =>
        setAttribute span "result" "ERROR";;
        setAttribute span "error.code" "ERR_MALFORMED";;
        recordError span "Invalid JSON payload";;
        send_error messageId MessageSerializer.ERR_MALFORMED "Invalid JSON payload" sender;;
        ids ← span_ids span;
        Logger.logNodeRegisterError ml (Logger.mkBase ids.1 ids.2) "" sessionId "ERR_MALFORMED"
    | Some j =>
        if negb (valid_fields j) then
          setAttribute span "result" "ERROR";;
          setAttribute span "error.code" "ERR_MALFORMED";;
          recordError span "Missing or invalid required fields";;
          send_error messageId MessageSerializer.ERR_MALFORMED
            "Missing or invalid required fields: node_id, bunker_name, ip_address, capacity"
            sender;;
          ids ← span_ids span;
          Logger.logNodeRegisterError ml (Logger.mkBase ids.1 ids.2) "" sessionId "ERR_MALFORMED"
        else
          let nodeId := j_get_string (j_at j "node_id") in
          setAttribute span "node.id" nodeId;;
          result ← registry_registerNode (entry_of j);
          endTime ← steady_now;
          setAttributeInt span "duration_ms" (Z.quot (endTime - startTime) 1000000);;
          if bool_decide (result = NodeRegistry.OK) then
            setAttribute span "result" "OK";;
            payload ← Payloads.buildAckPayload (Payloads.mkAck messageId nodeId);
            sender (MessageSerializer.buildFrame MessageSerializer.ACK messageId payload);;
            ids ← span_ids span;
            Logger.logNodeRegistered ml (Logger.mkBase ids.1 ids.2) nodeId sessionId
          else
            setAttribute span "result" "ERROR";;
            setAttribute span "error.code" "ERR_DUPLICATE";;
            recordError span ("Node " +:+ nodeId +:+ " already registered");;
            send_error messageId MessageSerializer.ERR_DUPLICATE
              ("Node " +:+ nodeId +:+ " already registered") sender;;
            ids ← span_ids span;
            Logger.logNodeRegisterError ml (Logger.mkBase ids.1 ids.2) nodeId sessionId
              "ERR_DUPLICATE"
    end).

(** ** Contract *)

Inductive decision :=
| Rejected (description : string)
| Duplicate (nodeId : string)
| Registered (e : NodeRegistry.NodeEntry).

Definition decide_reg (jsonPayload : string) (reg : gmap string NodeRegistry.NodeEntry)
    : decision :=
  match j_parse jsonPayload with
  | None => Rejected "Invalid JSON payload"
  | Some j =>
      if valid_fields j then
        if NodeRegistry.isOffline (NodeRegistry.node_id (entry_of j)) reg
           || negb (NodeRegistry.contains (NodeRegistry.node_id (entry_of j)) reg)
        then Registered (entry_of j)
        else Duplicate (NodeRegistry.node_id (entry_of j))
      else
        Rejected "Missing or invalid required fields: node_id, bunker_name, ip_address, capacity"
  end.

(** The type of the answer and its JSON value. *)
Definition reply (messageId : Z) (d : decision) : MessageSerializer.MessageType * json :=
  match d with
  | Rejected description =>
      (MessageSerializer.ERROR_MSG,
       Payloads.error_json
         (Payloads.mkError messageId MessageSerializer.ERR_MALFORMED description))
  | Duplicate nodeId =>
      (MessageSerializer.ERROR_MSG,
       Payloads.error_json
         (Payloads.mkError messageId MessageSerializer.ERR_DUPLICATE
            ("Node " +:+ nodeId +:+ " already registered")))
  | Registered e =>
      (MessageSerializer.ACK,
       Payloads.ack_json (Payloads.mkAck messageId (NodeRegistry.node_id e)))
  end.

Definition reply_frame (messageId : Z) (d : decision) : list byte :=
  MessageSerializer.buildFrame (reply messageId d).1 messageId
    (Payloads.text_of (reply messageId d).2).

(** What becomes of the registry. *)
Definition effect (d : decision) (reg : gmap string NodeRegistry.NodeEntry)
    : gmap string NodeRegistry.NodeEntry :=
  match d with
  | Registered e => <[NodeRegistry.node_id e := e]> reg
  | _ => reg
  end.

Definition log_of (sessionId : string) (d : decision) : Logger.event :=
  match d with
  | Rejected _ => Logger.ENodeRegisterError "" sessionId "ERR_MALFORMED"
  | Duplicate nodeId => Logger.ENodeRegisterError nodeId sessionId "ERR_DUPLICATE"
  | Registered e => Logger.ENodeRegistered (NodeRegistry.node_id e) sessionId
  end.
End handler.

(** ** Lemmas *)

Section facts.
Context `{CL : Clock} `{!ClockOk} `{RN : Otel.Rng} `{JL : JsonLib} `{!JsonLaws}.

Lemma valid_fields_spec j :
  valid_fields j = true → j_utf8 j →
  NodeRegistry.node_id (entry_of j) ≠ "" ∧
  Utf8.valid (NodeRegistry.node_id (entry_of j)) = true ∧
  Utf8.valid (NodeRegistry.bunker_name (entry_of j)) = true ∧
  Utf8.valid (NodeRegistry.ip_address (entry_of j)) = true ∧
  in_width 64 (NodeRegistry.capacity (entry_of j)).
Proof.
  unfold valid_fields. intros Hv Hu.
  repeat (apply andb_true_iff in Hv as [Hv ?]). simpl.
  split_and!; try (apply j_utf8_get_string; [done|by apply j_utf8_at]).
  - intros Hempty. by rewrite Hempty in *.
  - by apply j_get_u64_range.
Qed.

Lemma decide_reg_online payload reg e :
  decide_reg payload reg = Registered e → NodeRegistry.status e = NodeRegistry.ONLINE.
Proof.
  unfold decide_reg. intros Hd. repeat case_hyp Hd; try done. by injection Hd as <-.
Qed.

(** Accepted registrations keep the registry's entries well-formed. *)
Lemma effect_reg_ok payload reg :
  reg_ok reg → reg_ok (effect (decide_reg payload reg) reg).
Proof.
  intros Hok. unfold decide_reg. destruct (j_parse payload) as [j|] eqn:Ej; [|done].
  destruct (valid_fields j) eqn:Hf; [|done]. destruct (_ || _); [|done].
  destruct (valid_fields_spec j Hf (j_parse_utf8 _ _ Ej)) as (? & ? & ? & ? & ?).
  by apply reg_ok_insert.
Qed.

(** The registry's answer is the contract's. *)
Lemma register_decides j reg :
  valid_fields j = true →
  NodeRegistry.registerNode (entry_of j) reg =
    if NodeRegistry.isOffline (NodeRegistry.node_id (entry_of j)) reg
       || negb (NodeRegistry.contains (NodeRegistry.node_id (entry_of j)) reg)
    then (NodeRegistry.OK, <[NodeRegistry.node_id (entry_of j) := entry_of j]> reg)
    else (NodeRegistry.ERR_DUPLICATE, reg).
Proof.
  intros Hv. unfold NodeRegistry.registerNode, NodeRegistry.isOffline, NodeRegistry.contains.
  unfold valid_fields in Hv. repeat (apply andb_true_iff in Hv as [Hv ?]).
  simpl. rewrite (proj1 (negb_true_iff _)) by done.
  by destruct (reg !! _) as [[? ? ? ? [] ?]|].
Qed.

Lemma perf_error_answer mid code desc sender i ml ev (logf : Logger.BaseFields → M unit)
    reg w `{!SendFn sender} :
  ready reg w → Utf8.valid desc = true → (∀ base, logf base = Logger.run_event ml base ev) →
  perf (send_error mid code desc sender;;
        ids ← span_ids i; logf (Logger.mkBase ids.1 ids.2)) w
    (sent sender (MessageSerializer.buildFrame MessageSerializer.ERROR_MSG mid
       (Payloads.text_of (Payloads.error_json (Payloads.mkError mid code desc)))))
    (λ r, r = log_outcome ml ev).
Proof.
  intros Hr Hd Hlog.
  pose proof (Payloads.dump_text _ (Payloads.error_utf8 (Payloads.mkError mid code desc) Hd)) as E.
  destruct (perf_answer sender (MessageSerializer.buildFrame MessageSerializer.ERROR_MSG mid
     (Payloads.text_of (Payloads.error_json (Payloads.mkError mid code desc)))) i ml ev logf
     reg w Hr Hlog) as [H1 H2].
  unfold perf, send_error, Payloads.buildErrorPayload, dump, mbind, M_bind, mret, M_ret in *.
  by rewrite E.
Qed.

(** The visible effect of a message: the registry, then the answer. *)
Definition transform (sender : list byte → M bool) (mid : Z) (d : decision) (w : world) : world :=
  sent sender (reply_frame mid d) (set_reg (effect d (w_reg w)) w).

#[global] Instance transform_visible sender mid d `{!SendFn sender} :
  Visible (transform sender mid d).
Proof.
  apply (visible_compose (λ w, set_reg (effect d (w_reg w)) w) (sent sender (reply_frame mid d)));
    [apply visible_reg|apply _].
Qed.

Lemma register_handle_perf ml mid payload sid sender reg w `{!SendFn sender} :
  ready reg w →
  let d := decide_reg payload reg in
  perf (handle ml mid payload sid sender) w (transform sender mid d)
    (λ r, r = log_outcome ml (log_of sid d)).
Proof.
  intros Hrdy d. unfold handle. quiet_step. enter_span. do 2 quiet_step.
  subst d. unfold decide_reg.
  destruct (j_parse payload) as [j|] eqn:Ej.
  2: { eapply (perf_ext _ _ (sent sender _));
         [unfold transform; simpl; by rewrite set_reg_same|].
       quiet_steps.
       by apply (perf_error_answer _ _ _ _ _ _ (log_of sid (Rejected ""))
         (λ base, Logger.logNodeRegisterError ml base "" sid "ERR_MALFORMED") reg). }
  pose proof (j_parse_utf8 _ _ Ej) as Hu.
  destruct (valid_fields j) eqn:Hf; simpl negb; cbn iota.
  2: { eapply (perf_ext _ _ (sent sender _));
         [unfold transform; simpl; by rewrite set_reg_same|].
       quiet_steps.
       by apply (perf_error_answer _ _ _ _ _ _ (log_of sid (Rejected ""))
         (λ base, Logger.logNodeRegisterError ml base "" sid "ERR_MALFORMED") reg). }
  destruct (valid_fields_spec j Hf Hu) as (_ & Hid & _).
  quiet_step.
  pose proof (register_decides j reg Hf) as Hreg.
  assert (w_reg w = reg) as Hw by apply Hrdy.
  destruct (_ || _) eqn:Hd.
  - apply (perf_ext _ _ (sent sender (reply_frame mid (Registered (entry_of j)))
                         ∘ do_register (entry_of j))).
    { unfold compose, do_register, transform. by rewrite Hw, Hreg. }
    apply perf_register; [apply _|]. intros w2 Hq. apply ready_step in Hq; [|apply _|apply Hrdy].
    rewrite Hw, Hreg. quiet_steps. simpl. quiet_steps.
    eapply perf_dump; [by apply Payloads.dump_text, Payloads.ack_utf8|].
    by eapply (perf_answer _ _ _ _ (log_of sid (Registered (entry_of j)))
      (λ base, Logger.logNodeRegistered ml base _ sid)).
  - apply (perf_ext _ _ (sent sender (reply_frame mid (Duplicate (NodeRegistry.node_id (entry_of j))))
                         ∘ do_register (entry_of j))).
    { unfold compose, do_register, transform. by rewrite Hw, Hreg. }
    apply perf_register; [apply _|]. intros w2 Hq. apply ready_step in Hq; [|apply _|apply Hrdy].
    rewrite Hw, Hreg. quiet_steps. simpl. quiet_steps.
    eapply (perf_error_answer _ _ _ _ _ _
      (log_of sid (Duplicate (NodeRegistry.node_id (entry_of j))))
      (λ base, Logger.logNodeRegisterError ml base _ sid "ERR_DUPLICATE"));
      [done|done|by repeat apply Payloads.valid_string_app|done].
Qed.

(** Decoding the answer. *)
Lemma reply_utf8 mid payload reg : j_utf8 (reply mid (decide_reg payload reg)).2.
Proof.
  unfold decide_reg. destruct (j_parse payload) as [j|] eqn:Ej;
    [|by apply Payloads.error_utf8].
  destruct (valid_fields j) eqn:Hf; [|by apply Payloads.error_utf8].
  destruct (valid_fields_spec j Hf (j_parse_utf8 _ _ Ej)) as (_ & Hid & _).
  destruct (_ || _); [by apply Payloads.ack_utf8|].
  by apply Payloads.error_utf8; repeat apply Payloads.valid_string_app.
Qed.

Lemma reply_plain mid d : in_width 32 mid → j_plain (reply mid d).2.
Proof. intros Hm. destruct d; [by apply Payloads.error_plain..|by apply Payloads.ack_plain]. Qed.

(** The fields a client reads. *)
Lemma reply_ref mid d : j_at (reply mid d).2 "ref_message_id" = j_unsigned mid.
Proof.
  destruct d; simpl; apply j_obj_lookup;
    first [apply (bool_decide_eq_true_1 (NoDup _)); vm_compute; reflexivity
          |apply list_elem_of_here].
Qed.
End facts.

(** ** Correctness *)

(** C10: a REGISTER message is answered by exactly one frame, the one the
    contract [decide_reg] prescribes (malformed, duplicate or accepted), the
    registry changes by exactly that decision, nothing else that a client can
    see changes, and the span opened for it is closed again, however the call
    ends.  It ends in an exception exactly when the final log call does. *)
Theorem register_handler_correct `{CL : Clock} `{!ClockOk} `{RN : Otel.Rng} `{JL : JsonLib}
    `{!JsonLaws} ml mid payload sid sender `{!SendFn sender} w :
  Otel.wf (w_otel w) →
  let d := decide_reg payload (w_reg w) in
  let w' := (handle ml mid payload sid sender w).2 in
  (handle ml mid payload sid sender w).1 = log_outcome ml (log_of sid d) ∧
  vis_eq (sent sender (reply_frame mid d) (set_reg (effect d (w_reg w)) w)) w' ∧
  Otel.nested (w_otel w) (w_otel w').
Proof.
  intros Hwf d w'.
  destruct (register_handle_perf ml mid payload sid sender (w_reg w) w (conj eq_refl Hwf))
    as [Ho [Hv Hn _]].
  split_and!; [exact Ho|exact Hv|].
  by rewrite vs_otel in Hn; apply Hn.
Qed.

(** The answer to a REGISTER message, whatever the message was, reads
    back: a reader of the stream gets one complete frame with the request's
    message id, whose payload parses to the value the handler built, with
    [ref_message_id] equal to the request's id. *)
Theorem register_reply_decodes `{JL : JsonLib} `{!JsonLaws} mid payload reg rest st :
  let d := decide_reg payload reg in
  in_width 32 mid →
  str_size (Payloads.text_of (reply mid d).2) ≤ MessageSerializer.MAX_FRAME_PAYLOAD →
  let fr := MessageSerializer.frame_of_stream (reply_frame mid d ++ rest) st in
  MessageSerializer.fr_status fr = MessageSerializer.OK ∧
  MessageSerializer.fr_messageType fr = (reply mid d).1 ∧
  MessageSerializer.fr_messageId fr = mid ∧
  ∃ j, j_parse (MessageSerializer.fr_payload fr) = Some j ∧ j = (reply mid d).2 ∧
       j_get_u64 (j_at j "ref_message_id") = mid.
Proof.
  intros d Hmid Hsz. unfold reply_frame.
  destruct (MessageSerializer.frame_of_stream_build (reply mid d).1 mid
              (Payloads.text_of (reply mid d).2) rest st) as [-> _]; [by destruct d|done..|].
  split_and!; try done. eexists. split_and!; [|done|].
  - apply Payloads.parse_text; [by apply reply_plain|apply reply_utf8].
  - rewrite reply_ref. apply j_get_u64_unsigned. unfold in_width in *. lia.
Qed.

Section witnesses.
Import Demo.

Lemma register_handler_witness :
  let w := demo_world ∅ [] in
  let w' := (handle Logger.INFO 5 demo_register "s1" (sendAll 7) w).2 in
  w_reg w' = {[ "N1" := NodeRegistry.mkNodeEntry "N1" "B" "10.0.0.1" 25 NodeRegistry.ONLINE 0 ]}.
Proof.
  intros w w'.
  destruct (register_handler_correct Logger.INFO 5 demo_register "s1" (sendAll 7) w)
    as (_ & [Hreg _ _ _ _ _] & _); [apply init_otel_wf|].
  subst w'. rewrite Hreg. vm_compute. reflexivity.
Defined.

Lemma register_reply_witness :
  let d := decide_reg demo_register ∅ in
  MessageSerializer.fr_messageType
    (MessageSerializer.frame_of_stream (reply_frame 5 d ++ []) StopEof) = MessageSerializer.ACK.
Proof.
  intros d. destruct (register_reply_decodes 5 demo_register ∅ [] StopEof) as (_ & Ht & _).
  - done.
  - apply Z.leb_le. vm_compute. reflexivity.
  - subst d. rewrite Ht. vm_compute. reflexivity.
Defined.
End witnesses.

End RegisterHandler.
