(* ===== verification/HeartbeatHandler.v ===== *)
(** * HeartbeatHandler

    Models [src/heartbeatHandler.cpp]. *)

From S2P Require Import Prelude Net Registry Otel Json World Concrete Logger Effects Sender.
Local Open Scope Z_scope.

Module HeartbeatHandler.

Definition handle `{CL : Clock} `{RN : Otel.Rng} `{JL : JsonLib} (ml : Logger.Level)
    (nodeId sessionId : string) : M unit :=
  with_span "heartbeat" (λ span,
    setAttribute span "node.id" nodeId;;
    setAttribute span "sesion.id" sessionId;;
    setAttribute span "operation.name" "HEARTBEAT";;
    seen ← registry_updateLastSeen nodeId;
    if (seen : bool) then
      setAttribute span "result" "OK";;
      ids ← span_ids span;
      Logger.logHeartbeatReceived ml (Logger.mkBase ids.1 ids.2) nodeId sessionId
    else
      setAttribute span "result" "UNKNOWN_OR_OFFLINE";;
      ids ← span_ids span;
      Logger.logHeartbeatUnknownNode ml (Logger.mkBase ids.1 ids.2) nodeId sessionId).

(** ** Contract *)

(** A heartbeat counts when the node is registered and ONLINE. *)
Definition alive (nodeId : string) (reg : gmap string NodeRegistry.NodeEntry) : bool :=
  negb (str_empty nodeId) && NodeRegistry.contains nodeId reg
  && negb (NodeRegistry.isOffline nodeId reg).

Definition log_of (nodeId sessionId : string) (reg : gmap string NodeRegistry.NodeEntry)
    : Logger.event :=
  if alive nodeId reg then Logger.EHeartbeatReceived nodeId sessionId
  else Logger.EHeartbeatUnknownNode nodeId sessionId.

Lemma alive_spec nodeId now reg :
  alive nodeId reg = (NodeRegistry.updateLastSeen nodeId now reg).1.
Proof.
  unfold alive, NodeRegistry.updateLastSeen, NodeRegistry.contains, NodeRegistry.isOffline.
  destruct (str_empty nodeId); [done|]. by destruct (reg !! nodeId) as [[? ? ? ? [] ?]|].
Qed.

(** ** Lemmas *)

Section facts.
Context `{CL : Clock} `{!ClockOk} `{RN : Otel.Rng} `{JL : JsonLib} `{!JsonLaws}.

(** The first reading of the clock is for the span, the second one for the
    registry. *)
Lemma heartbeat_handle_at ml nodeId sid reg w :
  ready reg w →
  perf (handle ml nodeId sid) w (do_updateLastSeen nodeId (sys_clock (S (w_reads w))))
    (λ r, r = log_outcome ml (log_of nodeId sid reg)).
Proof.
  intros [Hreg Hwf]. unfold handle.
  match goal with |- perf (with_span ?n ?body) _ _ _ =>
    destruct (span_run n body w Hwf) as (i & w1 & Hv & Hwf1 & Hrd & Hb) end.
  apply Hb; [apply _|]. clear Hb. rewrite <-Hrd, <-Hreg, <-(v_reg _ _ Hv). clear w Hv Hrd Hwf Hreg.
  do 3 (apply perf_setAttribute; [apply _|]).
  change (w_reads w1) with (w_reads (on_otel (Otel.setAttribute i "operation.name" (Otel.AStr "HEARTBEAT"))
    (on_otel (Otel.setAttribute i "sesion.id" (Otel.AStr sid))
      (on_otel (Otel.setAttribute i "node.id" (Otel.AStr nodeId)) w1)))).
  set (w := on_otel _ _). change (w_reg w1) with (w_reg w).
  assert (Otel.wf (w_otel w)) as Hwf.
  { unfold w. repeat (eapply Otel.nested_wf; [apply Otel.setAttribute_nested|]). done. }
  apply (perf_updateLastSeen nodeId _ w id); [apply _|]. intros w2 Hq.
  apply ready_step in Hq; [|apply _|apply Hwf]. rename Hq into Hrdy.
  rewrite <-alive_spec. unfold log_of.
  destruct (alive nodeId (w_reg w)); quiet_step.
  - by eapply (perf_log_last _ _ _
      (λ base, Logger.logHeartbeatReceived ml base nodeId sid)).
  - by eapply (perf_log_last _ _ _
      (λ base, Logger.logHeartbeatUnknownNode ml base nodeId sid)).
Qed.

Lemma heartbeat_handle_perf ml nodeId sid reg w :
  ready reg w →
  ∃ now, 0 ≤ now ∧
  perf (handle ml nodeId sid) w (do_updateLastSeen nodeId now)
    (λ r, r = log_outcome ml (log_of nodeId sid reg)).
Proof.
  intros Hrdy. exists (sys_clock (S (w_reads w))). split; [apply sys_clock_nonneg|].
  by apply heartbeat_handle_at.
Qed.
End facts.

(** ** Correctness *)

(** C26: a HEARTBEAT of a registered ONLINE node sets that node's
    [last_seen_at] to the time at which the registry is called (the second
    reading of the clock: the first one is the start of the span) and changes
    no other field and no other node; a heartbeat for a node that is empty,
    unknown or OFFLINE leaves the registry alone.  In both cases nothing is
    sent and the span is closed. *)
Theorem heartbeat_handler_correct `{CL : Clock} `{!ClockOk} `{RN : Otel.Rng} `{JL : JsonLib}
    `{!JsonLaws} ml nodeId sid w :
  Otel.wf (w_otel w) →
  let w' := (handle ml nodeId sid w).2 in
  (handle ml nodeId sid w).1 = log_outcome ml (log_of nodeId sid (w_reg w)) ∧
  vis_eq (set_reg
    (match w_reg w !! nodeId with
     | Some e =>
         if decide (nodeId ≠ "" ∧ NodeRegistry.status e = NodeRegistry.ONLINE)
         then <[nodeId := NodeRegistry.with_last_seen (sys_clock (S (w_reads w))) e]> (w_reg w)
         else w_reg w
     | None => w_reg w
     end) w) w' ∧
  Otel.nested (w_otel w) (w_otel w').
Proof.
  intros Hwf w'.
  destruct (heartbeat_handle_at ml nodeId sid (w_reg w) w (conj eq_refl Hwf)) as (Ho & [Hv Hne _ _]).
  split_and!; [exact Ho| |by apply Hne].
  unfold do_updateLastSeen in Hv. etrans; [|exact Hv]. unfold NodeRegistry.updateLastSeen.
  destruct nodeId as [|x n]; [by destruct (w_reg w !! "")|]. cbn [str_empty].
  destruct (w_reg w !! _) as [e|]; [|done].
  destruct (decide (NodeRegistry.status e = NodeRegistry.ONLINE)) as [Hs|Hs].
  - by rewrite decide_True, bool_decide_true.
  - rewrite decide_False by naive_solver. by rewrite bool_decide_false.
Qed.

Section witnesses.
Import Demo.

Lemma heartbeat_handler_witness :
  let e := NodeRegistry.mkNodeEntry "N1" "B" "10.0.0.1" 25 NodeRegistry.ONLINE 0 in
  let w := demo_world {[ "N1" := e ]} [] in
  let w' := (handle Logger.INFO "N1" "s1" w).2 in
  (handle Logger.INFO "N1" "s1" w).1 = Ret tt ∧ w_socks w' = w_socks w ∧
  NodeRegistry.last_seen_at <$> w_reg w' !! "N1" = Some (sys_clock 1) ∧ sys_clock 1 ≠ 0.
Proof.
  intros e w w'.
  destruct (heartbeat_handler_correct Logger.INFO "N1" "s1" w)
    as (Hr & [Hg _ _ Hs _ _] & _); [apply init_otel_wf|].
  split; [rewrite Hr; vm_compute; reflexivity|]. split; [exact Hs|].
  fold w' in Hg. rewrite Hg. split; [vm_compute; reflexivity|]. vm_compute. congruence.
Defined.
End witnesses.

End HeartbeatHandler.
