(* ===== verification/QueryHandler.v ===== *)
(** * QueryHandler

    Models [src/queryHandler.cpp]: QUERY_NODE and LIST_NODES.  [entryToJson]
    and the answers are JSON values; the order of LIST_NODES is the hash
    map's ([NodeRegistry.MapIter]). *)

From S2P Require Import Prelude Net Registry Time Otel Json Serializer World Concrete Logger.
From S2P Require Import Effects Payloads Sender RegisterHandler.
Local Open Scope Z_scope.

Module QueryHandler.

Definition statusToString (status : NodeRegistry.NodeStatus) : string :=
  if bool_decide (status = NodeRegistry.ONLINE) then "ONLINE" else "OFFLINE".

Definition toIso8601 (tp : Z) : string := Time.iso8601 tp.

Section handler.
Context `{CL : Clock} `{RN : Otel.Rng} `{JL : JsonLib} `{MI : NodeRegistry.MapIter}.

(** The assignments that describe an entry. *)
Definition entry_fields (entry : NodeRegistry.NodeEntry) : list (string * json) :=
  [("node_id", j_string (NodeRegistry.node_id entry));
   ("bunker_name", j_string (NodeRegistry.bunker_name entry));
   ("ip_address", j_string (NodeRegistry.ip_address entry));
   ("capacity", j_unsigned (NodeRegistry.capacity entry));
   ("status", j_string (statusToString (NodeRegistry.status entry)))]
  ++ if bool_decide (NodeRegistry.status entry = NodeRegistry.OFFLINE)
     then [("last_seen_at", j_string (toIso8601 (NodeRegistry.last_seen_at entry)))]
     else [].

Definition entryToJson (entry : NodeRegistry.NodeEntry) : json := j_obj (entry_fields entry).

(** The closure [setDuration] of [handleQueryNode]. *)
Definition setDuration (span : nat) (startTime : Z) : M unit :=
  now ← steady_now;
  setAttributeInt span "duration_ms" (Z.quot (now - startTime) 1000000).

Definition handleQueryNode (ml : Logger.Level) (messageId : Z)
    (jsonPayload sessionId : string) (sender : list byte → M bool) : M unit :=
  startTime ← steady_now;
  with_span "query_node" (λ span,
    setAttribute span "operation.name" "QUERY_NODE";;
    setAttribute span "session.id" sessionId;;
    match j_parse jsonPayload with
    | None =>
        setAttribute span "result" "ERROR";;
        setAttribute span "error.code" "ERR_MALFORMED";;
        recordError span "Invalid JSON payload";;
        setDuration span startTime;;
        RegisterHandler.send_error messageId MessageSerializer.ERR_MALFORMED
          "Invalid JSON payload" sender;;
        ids ← span_ids span;
        Logger.logNodeQueried ml (Logger.mkBase ids.1 ids.2) "" sessionId "ERR_MALFORMED"
    | Some j =>
        if negb (j_contains j "node_id") || negb (j_is_string (j_at j "node_id")) then
          setAttribute span "result" "ERROR";;
          setAttribute span "error.code" "ERR_MALFORMED";;
          recordError span "Missing or invalid field: node_id";;
          setDuration span startTime;;
          RegisterHandler.send_error messageId MessageSerializer.ERR_MALFORMED
            "Missing or invalid field: node_id" sender;;
          ids ← span_ids span;
          Logger.logNodeQueried ml (Logger.mkBase ids.1 ids.2) "" sessionId "ERR_MALFORMED"
        else
          let nodeId := j_get_string (j_at j "node_id") in
          setAttribute span "node.id" nodeId;;
          entry ← gets (λ w, NodeRegistry.queryNode nodeId (w_reg w));
          match entry with
          | None =>
              setAttribute span "result" "ERROR";;
              setAttribute span "error.code" "ERR_NOT_FOUND";;
              recordError span ("Node " +:+ nodeId +:+ " not found");;
              setDuration span startTime;;
              RegisterHandler.send_error messageId MessageSerializer.ERR_NOT_FOUND
                ("Node " +:+ nodeId +:+ " not found") sender;;
              ids ← span_ids span;
              Logger.logNodeQueried ml (Logger.mkBase ids.1 ids.2) nodeId sessionId
                "ERR_NOT_FOUND"
          | Some entry =>
              setAttribute span "result" "OK";;
              setDuration span startTime;;
              payload ← dump (j_obj (("ref_message_id", j_unsigned messageId)
                                       :: entry_fields entry));
              sender (MessageSerializer.buildFrame MessageSerializer.ACK messageId payload);;
              ids ← span_ids span;
              Logger.logNodeQueried ml (Logger.mkBase ids.1 ids.2) nodeId sessionId "OK"
          end
    end).

Definition handleListNodes (ml : Logger.Level) (messageId : Z) (sessionId : string)
    (sender : list byte → M bool) : M unit :=
  startTime ← steady_now;
  with_span "list_nodes" (λ span,
    setAttribute span "operation.name" "LIST_NODES";;
    setAttribute span "session.id" sessionId;;
    entries ← gets (λ w, NodeRegistry.listNodes (w_reg w));
    endTime ← steady_now;
    setAttributeInt span "node_count" (Z.of_nat (length entries));;
    setAttributeInt span "duration_ms" (Z.quot (endTime - startTime) 1000000);;
    setAttribute span "result" "OK";;
    payload ← dump (j_obj [("ref_message_id", j_unsigned messageId);
                           ("nodes", j_array (map entryToJson entries))]);
    sender (MessageSerializer.buildFrame MessageSerializer.ACK messageId payload);;
    ids ← span_ids span;
    Logger.logNodesListed ml (Logger.mkBase ids.1 ids.2) sessionId
      (Z.of_nat (length entries))).

Definition handle (ml : Logger.Level) (messageType : MessageSerializer.MessageType)
    (messageId : Z) (jsonPayload sessionId : string) (sender : list byte → M bool) : M unit :=
  if bool_decide (messageType = MessageSerializer.QUERY_NODE)
  then handleQueryNode ml messageId jsonPayload sessionId sender
  else handleListNodes ml messageId sessionId sender.

(** ** Contract *)

Inductive decision :=
| Malformed (description : string)
| NotFound (nodeId : string)
| Found (nodeId : string) (e : NodeRegistry.NodeEntry)
| Listed (entries : list NodeRegistry.NodeEntry).

Definition decide_query (messageType : MessageSerializer.MessageType) (jsonPayload : string)
    (reg : gmap string NodeRegistry.NodeEntry) : decision :=
  if bool_decide (messageType = MessageSerializer.QUERY_NODE) then
    match j_parse jsonPayload with
    | None => Malformed "Invalid JSON payload"
    | Some j =>
        if j_contains j "node_id" && j_is_string (j_at j "node_id") then
          let nodeId := j_get_string (j_at j "node_id") in
          match reg !! nodeId with
          | Some e => Found nodeId e
          | None => NotFound nodeId
          end
        else Malformed "Missing or invalid field: node_id"
    end
  else Listed (NodeRegistry.listNodes reg).

Definition reply (messageId : Z) (d : decision) : MessageSerializer.MessageType * json :=
  match d with
  | Malformed description =>
      (MessageSerializer.ERROR_MSG,
       Payloads.error_json
         (Payloads.mkError messageId MessageSerializer.ERR_MALFORMED description))
  | NotFound nodeId =>
      (MessageSerializer.ERROR_MSG,
       Payloads.error_json
         (Payloads.mkError messageId MessageSerializer.ERR_NOT_FOUND
            ("Node " +:+ nodeId +:+ " not found")))
  | Found _ e =>
      (MessageSerializer.ACK,
       j_obj (("ref_message_id", j_unsigned messageId) :: entry_fields e))
  | Listed entries =>
      (MessageSerializer.ACK,
       j_obj [("ref_message_id", j_unsigned messageId);
              ("nodes", j_array (map entryToJson entries))])
  end.

Definition reply_frame (messageId : Z) (d : decision) : list byte :=
  MessageSerializer.buildFrame (reply messageId d).1 messageId
    (Payloads.text_of (reply messageId d).2).

Definition log_of (sessionId : string) (d : decision) : Logger.event :=
  match d with
  | Malformed _ => Logger.ENodeQueried "" sessionId "ERR_MALFORMED"
  | NotFound nodeId => Logger.ENodeQueried nodeId sessionId "ERR_NOT_FOUND"
  | Found nodeId _ => Logger.ENodeQueried nodeId sessionId "OK"
  | Listed entries => Logger.ENodesListed sessionId (Z.of_nat (length entries))
  end.
End handler.

(** ** Lemmas *)

Section facts.
Context `{CL : Clock} `{!ClockOk} `{RN : Otel.Rng} `{JL : JsonLib} `{!JsonLaws}.
Context `{MI : NodeRegistry.MapIter}.

Lemma Quiet_setDuration i t : Quiet (setDuration i t).
Proof. apply Quiet_bind; auto with eop. Qed.

Local Hint Resolve Quiet_setDuration : eop.

Lemma entry_fields_ok e :
  entry_ok e →
  Forall (λ '(k, v), Utf8.valid k = true ∧ j_utf8 v) (entry_fields e) ∧
  Forall (λ '(k, v), j_plain v) (entry_fields e).
Proof.
  intros (Hn & Hb & Hi & Hc & Hl). unfold entry_fields.
  assert (Utf8.valid (toIso8601 (NodeRegistry.last_seen_at e)) = true).
  { by apply Utf8.valid_ascii, Time.iso8601_ascii. }
  assert (Utf8.valid (statusToString (NodeRegistry.status e)) = true).
  { by destruct (NodeRegistry.status e). }
  split; apply Forall_app; split.
  - repeat constructor; try reflexivity; auto with eop; by apply j_utf8_string.
  - case_bool_decide; [|done].
    repeat constructor; try reflexivity; by apply j_utf8_string.
  - repeat constructor; auto with eop.
  - case_bool_decide; [|done]. repeat constructor; auto with eop.
Qed.

Lemma entryToJson_ok e : entry_ok e → j_utf8 (entryToJson e) ∧ j_plain (entryToJson e).
Proof.
  intros [Hu Hp]%entry_fields_ok. split; [by apply j_utf8_obj|by apply j_plain_obj].
Qed.

(** Every answer to a query over a well-formed registry can be dumped. *)
Lemma reply_ok mid t payload reg :
  reg_ok reg → in_width 32 mid →
  let j := (reply mid (decide_query t payload reg)).2 in j_utf8 j ∧ j_plain j.
Proof.
  intros [Hok _] Hmid. assert (in_width 64 mid) by (unfold in_width in *; lia).
  unfold decide_query. case_bool_decide; simpl.
  - destruct (j_parse payload) as [j|] eqn:Ej; simpl;
      [|split; [by apply Payloads.error_utf8|by apply Payloads.error_plain]].
    destruct (j_contains j "node_id" && j_is_string (j_at j "node_id")) eqn:Hf; simpl;
      [|split; [by apply Payloads.error_utf8|by apply Payloads.error_plain]].
    apply andb_true_iff in Hf as [Hc Hs].
    destruct (reg !! _) as [e|] eqn:E; simpl.
    + destruct (entry_fields_ok e (Hok _ _ E)) as [Hu Hp].
      split; [apply j_utf8_obj|apply j_plain_obj]; (constructor; [|done]); auto with eop.
    + split; [|by apply Payloads.error_plain]. apply Payloads.error_utf8. simpl.
      repeat apply Payloads.valid_string_app; try done.
      apply j_utf8_get_string; [done|]. apply j_utf8_at; [done|]. by eapply j_parse_utf8.
  - assert (Forall (λ e, j_utf8 (entryToJson e) ∧ j_plain (entryToJson e))
              (NodeRegistry.listNodes reg)) as Hl.
    { apply Forall_forall. intros e [k Hk]%NodeRegistry.listNodes_elem.
      apply entryToJson_ok. by apply (Hok _ _ Hk). }
    apply Forall_and in Hl as [Hlu Hlp].
    split; [apply j_utf8_obj|apply j_plain_obj]; repeat constructor; auto with eop;
      try reflexivity.
    + apply j_utf8_array. by apply Forall_fmap.
    + apply j_plain_array. by apply Forall_fmap.
Qed.

Lemma query_handle_perf ml t mid payload sid sender reg w `{!SendFn sender} :
  ready reg w → reg_ok reg → in_width 32 mid →
  let d := decide_query t payload reg in
  perf (handle ml t mid payload sid sender) w (sent sender (reply_frame mid d))
    (λ r, r = log_outcome ml (log_of sid d)).
Proof.
  intros Hrdy Hok Hmid d. pose proof (reply_ok mid t payload reg Hok Hmid) as [Hu _].
  fold d in Hu. unfold handle. subst d. revert Hu. unfold decide_query.
  case_bool_decide; [unfold handleQueryNode|unfold handleListNodes];
    intros Hu; quiet_step; enter_span; do 2 quiet_step; revert Hu.
  - destruct (j_parse payload) as [j|] eqn:Ej.
    2: { intros _. quiet_steps.
         by eapply (RegisterHandler.perf_error_answer _ _ _ _ _ _ _
           (λ base, Logger.logNodeQueried ml base "" sid "ERR_MALFORMED")). }
    destruct (j_contains j "node_id") eqn:Hc, (j_is_string (j_at j "node_id")) eqn:Hs;
      simpl negb; simpl orb; simpl andb; cbn iota;
      try (intros _; quiet_steps;
         by eapply (RegisterHandler.perf_error_answer _ _ _ _ _ _ _
           (λ base, Logger.logNodeQueried ml base "" sid "ERR_MALFORMED"))).
    intros Hu. quiet_step. apply perf_gets. rewrite (proj1 Hrdy). revert Hu.
    unfold NodeRegistry.queryNode. destruct (reg !! _) as [e|] eqn:E; intros Hu; quiet_steps.
    + eapply perf_dump; [by apply Payloads.dump_text|].
      by eapply (perf_answer _ _ _ _ _
        (λ base, Logger.logNodeQueried ml base _ sid "OK")).
    + eapply (RegisterHandler.perf_error_answer _ _ _ _ _ _ _
        (λ base, Logger.logNodeQueried ml base _ sid "ERR_NOT_FOUND")); [done|done| |done].
      repeat apply Payloads.valid_string_app; try done.
      apply j_utf8_get_string; [done|]. apply j_utf8_at; [done|]. by eapply j_parse_utf8.
  - intros Hu. apply perf_gets. rewrite (proj1 Hrdy). quiet_steps.
    eapply perf_dump; [by apply Payloads.dump_text|].
    by eapply (perf_answer _ _ _ _ _ (λ base, Logger.logNodesListed ml base sid _)).
Qed.

(** What the fields of an answer about [e] say. *)
Definition describes (j : json) (mid : Z) (e : NodeRegistry.NodeEntry) : Prop :=
  j_get_u64 (j_at j "ref_message_id") = mid ∧
  j_get_string (j_at j "node_id") = NodeRegistry.node_id e ∧
  j_get_string (j_at j "bunker_name") = NodeRegistry.bunker_name e ∧
  j_get_string (j_at j "ip_address") = NodeRegistry.ip_address e ∧
  j_get_u64 (j_at j "capacity") = NodeRegistry.capacity e ∧
  j_get_string (j_at j "status") = statusToString (NodeRegistry.status e) ∧
  (j_contains j "last_seen_at" = true ↔ NodeRegistry.status e = NodeRegistry.OFFLINE) ∧
  (NodeRegistry.status e = NodeRegistry.OFFLINE →
   j_get_string (j_at j "last_seen_at") = toIso8601 (NodeRegistry.last_seen_at e)).

Lemma query_fields_nodup mid e :
  NoDup (("ref_message_id", j_unsigned mid) :: entry_fields e).*1.
Proof.
  unfold entry_fields. destruct (NodeRegistry.status e);
    apply (bool_decide_eq_true_1 (NoDup _)); vm_compute; reflexivity.
Qed.

Lemma reply_describes mid nid e :
  entry_ok e → in_width 32 mid → describes (reply mid (Found nid e)).2 mid e.
Proof.
  intros (_ & _ & _ & Hc & _) Hm. cbn [reply snd].
  set (fs := ("ref_message_id", j_unsigned mid) :: entry_fields e).
  assert (∀ k v, (k, v) ∈ fs → j_contains (j_obj fs) k = true ∧ j_at (j_obj fs) k = v) as Hl.
  { intros k v Hin. by apply j_obj_lookup; [apply query_fields_nodup|]. }
  assert (∀ k v, (k, v) ∈ take 6 fs → j_at (j_obj fs) k = v) as Hat.
  { intros k v Hin. apply Hl. rewrite <-(take_drop 6 fs). apply elem_of_app. by left. }
  cbn [take fs entry_fields app] in Hat. unfold describes.
  rewrite (Hat "ref_message_id" (j_unsigned mid)),
    (Hat "node_id" (j_string (NodeRegistry.node_id e))),
    (Hat "bunker_name" (j_string (NodeRegistry.bunker_name e))),
    (Hat "ip_address" (j_string (NodeRegistry.ip_address e))),
    (Hat "capacity" (j_unsigned (NodeRegistry.capacity e))),
    (Hat "status" (j_string (statusToString (NodeRegistry.status e))))
    by (repeat first [apply list_elem_of_here|apply list_elem_of_further]).
  rewrite !j_get_string_string, !j_get_u64_unsigned by (unfold in_width in *; lia).
  assert (NodeRegistry.status e = NodeRegistry.OFFLINE →
    ("last_seen_at", j_string (toIso8601 (NodeRegistry.last_seen_at e))) ∈ fs) as Hlast.
  { intros Es. subst fs. unfold entry_fields. rewrite Es.
    do 6 apply list_elem_of_further. apply list_elem_of_here. }
  split_and!; try done.
  - destruct (NodeRegistry.status e) eqn:Es.
    + split; [|done]. rewrite j_obj_absent; [done|]. subst fs. unfold entry_fields.
      rewrite Es. apply (bool_decide_eq_true_1 (_ ∉ _)). vm_compute. reflexivity.
    + split; [done|]. intros _. by apply (Hl _ _ (Hlast eq_refl)).
  - intros Es. rewrite (proj2 (Hl _ _ (Hlast Es))). apply j_get_string_string.
Qed.

(** The world a handled REGISTER leaves behind. *)
Lemma registered_world ml mid payload sid fd w :
  Otel.wf (w_otel w) →
  let w1 := (RegisterHandler.handle ml mid payload sid (sendAll fd) w).2 in
  Otel.wf (w_otel w1) ∧
  w_reg w1 = RegisterHandler.effect (RegisterHandler.decide_reg payload (w_reg w)) (w_reg w).
Proof.
  intros Hwf w1.
  destruct (RegisterHandler.register_handle_perf ml mid payload sid (sendAll fd) (w_reg w) w
    (conj eq_refl Hwf)) as [_ Hq]. fold w1 in Hq. split.
  - eapply quiet_wf; [exact Hq|]. by rewrite vs_otel.
  - rewrite (v_reg _ _ (q_vis _ _ Hq)). unfold RegisterHandler.transform, sent.
    by apply sendAll_same.
Qed.
End facts.

(** ** Correctness *)

(** C25: a QUERY_NODE or LIST_NODES message is answered by exactly one frame,
    the one the contract [decide_query] prescribes, and changes nothing else
    that a client can see; in particular it never changes the registry.  The
    span is closed however the call ends. *)
Theorem query_handler_correct `{CL : Clock} `{!ClockOk} `{RN : Otel.Rng} `{JL : JsonLib}
    `{!JsonLaws} `{MI : NodeRegistry.MapIter} ml t mid payload sid sender `{!SendFn sender} w :
  Otel.wf (w_otel w) → reg_ok (w_reg w) → in_width 32 mid →
  let d := decide_query t payload (w_reg w) in
  let w' := (handle ml t mid payload sid sender w).2 in
  (handle ml t mid payload sid sender w).1 = log_outcome ml (log_of sid d) ∧
  vis_eq (sent sender (reply_frame mid d) w) w' ∧
  Otel.nested (w_otel w) (w_otel w').
Proof.
  intros Hwf Hok Hm d w'.
  destruct (query_handle_perf ml t mid payload sid sender (w_reg w) w (conj eq_refl Hwf) Hok Hm)
    as [Ho [Hv Hn _]].
  split_and!; [exact Ho|exact Hv|]. by rewrite vs_otel in Hn; apply Hn.
Qed.

(** C11: what one client registers another client reads.  After a REGISTER
    message that is accepted has been handled, handling a QUERY_NODE message
    for that id, from any other connection, sends one ACK frame; it decodes
    from the wire, under the query's message id, to a JSON text with exactly
    the bunker name, address and capacity of the REGISTER message, status
    ONLINE and no [last_seen_at]. *)
Theorem query_after_register `{CL : Clock} `{!ClockOk} `{RN : Otel.Rng} `{JL : JsonLib}
    `{!JsonLaws} `{MI : NodeRegistry.MapIter} ml mid1 pr jr sid1 fd1 mid pq jq sid2 fd2 w :
  Otel.wf (w_otel w) → reg_ok (w_reg w) → in_width 32 mid →
  j_parse pr = Some jr →
  RegisterHandler.decide_reg pr (w_reg w)
    = RegisterHandler.Registered (RegisterHandler.entry_of jr) →
  j_parse pq = Some jq → j_contains jq "node_id" = true → j_is_string (j_at jq "node_id") = true →
  j_get_string (j_at jq "node_id") = j_get_string (j_at jr "node_id") →
  let w1 := (RegisterHandler.handle ml mid1 pr sid1 (sendAll fd1) w).2 in
  let w2 := (handle ml MessageSerializer.QUERY_NODE mid pq sid2 (sendAll fd2) w1).2 in
  ∃ text j,
    vis_eq (sent (sendAll fd2) (MessageSerializer.buildFrame MessageSerializer.ACK mid text) w1)
      w2 ∧
    (str_size text ≤ MessageSerializer.MAX_FRAME_PAYLOAD → ∀ rest st,
     MessageSerializer.frame_of_stream
       (MessageSerializer.buildFrame MessageSerializer.ACK mid text ++ rest) st
     = MessageSerializer.mkFrameReadResult MessageSerializer.OK MessageSerializer.ACK mid text) ∧
    j_parse text = Some j ∧
    j_get_u64 (j_at j "ref_message_id") = mid ∧
    j_get_string (j_at j "node_id") = j_get_string (j_at jr "node_id") ∧
    j_get_string (j_at j "bunker_name") = j_get_string (j_at jr "bunker_name") ∧
    j_get_string (j_at j "ip_address") = j_get_string (j_at jr "ip_address") ∧
    j_get_u64 (j_at j "capacity") = j_get_u64 (j_at jr "capacity") ∧
    j_get_string (j_at j "status") = "ONLINE" ∧
    j_contains j "last_seen_at" = false.
Proof.
  intros Hwf Hok Hm Epr Hdec Epq Hc Hs Hid w1 w2.
  destruct (registered_world ml mid1 pr sid1 fd1 w Hwf) as [Hwf1 Hreg1]. fold w1 in Hwf1, Hreg1.
  assert (reg_ok (w_reg w1)) as Hok1 by (rewrite Hreg1; by apply RegisterHandler.effect_reg_ok).
  destruct (query_handle_perf ml MessageSerializer.QUERY_NODE mid pq sid2 (sendAll fd2)
    (w_reg w1) w1 (conj eq_refl Hwf1) Hok1 Hm) as [_ [Hv _ _]].
  set (d := decide_query _ _ _) in Hv.
  assert (d = Found (j_get_string (j_at jq "node_id")) (RegisterHandler.entry_of jr)) as Ed.
  { subst d. unfold decide_query. rewrite Hreg1, Hdec, Epq, Hc, Hs, Hid. simpl.
    by rewrite lookup_insert_eq. }
  assert (entry_ok (RegisterHandler.entry_of jr)) as He.
  { destruct Hok1 as [He _]. eapply He. rewrite Hreg1, Hdec. apply lookup_insert_eq. }
  destruct (reply_ok mid MessageSerializer.QUERY_NODE pq (w_reg w1) Hok1 Hm) as [Hu Hp].
  fold d in Hu, Hp. rewrite Ed in Hv, Hu, Hp.
  destruct (reply_describes mid (j_get_string (j_at jq "node_id")) _ He Hm)
    as (D1 & D2 & D3 & D4 & D5 & D6 & D7 & _).
  do 2 eexists. split_and!; [exact Hv| |by apply Payloads.parse_text|done..|].
  - intros Hsz rest st. by apply MessageSerializer.frame_of_stream_build.
  - apply not_true_iff_false. by rewrite D7.
Qed.

Section witnesses.
Import Demo.

Lemma query_handler_witness :
  let e := NodeRegistry.mkNodeEntry "N1" "B" "10.0.0.1" 25 NodeRegistry.ONLINE 0 in
  let w := demo_world {[ "N1" := e ]} [] in
  let w' := (handle Logger.INFO MessageSerializer.QUERY_NODE 5 demo_query "s1" (sendAll 7) w).2 in
  w_reg w' = {[ "N1" := e ]}.
Proof.
  intros e w w'.
  destruct (query_handler_correct Logger.INFO MessageSerializer.QUERY_NODE 5 demo_query "s1"
              (sendAll 7) w) as (_ & [Hreg _ _ _ _ _] & _).
  - apply init_otel_wf.
  - apply (reg_ok_insert "N1" e ∅); [apply reg_ok_empty| |done|done].
    by repeat split.
  - done.
  - subst w'. rewrite Hreg. vm_compute. reflexivity.
Defined.

Lemma query_after_register_witness :
  let w1 := (RegisterHandler.handle Logger.INFO 1 demo_register "s1" (sendAll 7)
               (demo_world ∅ [])).2 in
  let w2 := (handle Logger.INFO MessageSerializer.QUERY_NODE 9 demo_query "s2" (sendAll 7) w1).2 in
  ∃ text j,
    w_reg w2 = w_reg (sent (sendAll 7)
                 (MessageSerializer.buildFrame MessageSerializer.ACK 9 text) w1) ∧
    j_parse text = Some j ∧ j_get_string (j_at j "bunker_name") = "B".
Proof.
  intros w1 w2.
  destruct (query_after_register Logger.INFO 1 demo_register demo_register_json "s1" 7
              9 demo_query demo_query_json "s2" 7 (demo_world ∅ []))
    as (text & j & [Hreg _ _ _ _ _] & _ & Hj & _ & _ & Hb & _);
    [apply init_otel_wf|apply reg_ok_empty|done|vm_compute; reflexivity..|].
  exists text, j. split; [exact Hreg|]. split; [exact Hj|].
  rewrite Hb. vm_compute. reflexivity.
Defined.
End witnesses.

End QueryHandler.
