(* ===== verification/ConnectionWorker.v ===== *)
(** * ConnectionWorker: one client connection

    Models [include/connectionWorker.hpp] and [src/connectionWorker.cpp].  The
    locals of [handleConnection] that change are the record [locals]; a
    handler that throws leaves them as they are ([catching]), so that the
    destructors of the function still see the lazily created span. *)

From S2P Require Import Prelude Net Registry Otel Metrics Json Serializer World Concrete Logger.
From S2P Require Import Effects Payloads Sender RegisterHandler HeartbeatHandler QueryHandler.
Local Open Scope Z_scope.

Module ConnectionWorker.

Record ConnectionContext := mkContext {
  m_nodeId : string;
  m_sessionId : string;
  m_clientIp : string
}.

Inductive DisconnectReason :=
| IDLE_TIMEOUT | CLEAN_DISCONNECT | ABRUPT_DISCONNECT | RECV_ERROR | SOCKET_CONFIG_ERROR.

#[global] Instance DisconnectReason_eq_dec : EqDecision DisconnectReason.
Proof. solve_decision. Defined.

Definition disconnectReasonToString (reason : DisconnectReason) : string :=
  match reason with
  | IDLE_TIMEOUT => "idle_timeout"
  | CLEAN_DISCONNECT => "clean_disconnect"
  | ABRUPT_DISCONNECT => "abrupt_disconnect"
  | RECV_ERROR => "recv_error"
  | SOCKET_CONFIG_ERROR => "socket_config_error"
  end.

Definition isAbruptDisconnect (n err : Z) : bool := (n <? 0) && (err =? ECONNRESET).

(** [~TeardownGuard()] *)
Definition teardown (fd : Z) (w : world) : world :=
  let w := if 0 <=? fd then close_fd fd w else w in
  set_active (u32 (w_active w - 1)) w.

Record locals := mkLocals {
  activeNodeId : string;
  connectionSpan : option nat
}.

(** Runs a call and keeps its exception as a value. *)
Definition catching {A} (m : M A) : M (outcome A) := λ w,
  let '(r, w') := m w in (Ret r, w').

(** Throws what was kept. *)
Definition rethrow {A} (r : outcome A) : M A :=
  match r with Ret a => mret a | Throw e => throw e end.

Section worker.
Context `{CL : Clock} `{RN : Otel.Rng} `{JL : JsonLib} `{MI : NodeRegistry.MapIter}.

Definition applyReceiveTimeout (idleTimeoutSecs fd : Z) : M bool :=
  set_rcvtimeo fd idleTimeoutSecs.

Definition markOfflineIfKnown (nodeId : string) : M unit :=
  if negb (str_empty nodeId) then registry_setOffline nodeId else mret tt.

(** The closure [ensureConnectionSpan]. *)
Definition ensureConnectionSpan (ml : Logger.Level) (ctx : ConnectionContext) (l : locals)
    : M (outcome unit * locals) :=
  match connectionSpan l with
  | Some _ => mret (Ret tt, l)
  | None =>
      span ← new_connection (m_sessionId ctx) (m_clientIp ctx);
      setAttribute span "operation.name" "CLIENT_CONNECTION";;
      setAttribute span "session.id" (m_sessionId ctx);;
      setAttribute span "result" "OK";;
      activeNow ← gets w_active;
      r ← catching (ids ← span_ids span;
            Logger.logConnected ml (Logger.mkBase ids.1 ids.2)
              (m_clientIp ctx) (m_sessionId ctx) activeNow);
      mret (r, mkLocals (activeNodeId l) (Some span))
  end.

(** The closure [emitDisconnection]. *)
Definition emitDisconnection (ml : Logger.Level) (ctx : ConnectionContext) (connectTime : Z)
    (l : locals) (finalReason : DisconnectReason) : M unit :=
  match connectionSpan l with
  | None => mret tt
  | Some _ =>
      now ← steady_now;
      let durationMs := Z.quot (now - connectTime) 1000000 in
      with_span "client_disconnection" (λ span,
        setAttribute span "operation.name" "CLIENT_DISCONNECTION";;
        setAttribute span "session.id" (m_sessionId ctx);;
        setAttribute span "node.id" (activeNodeId l);;
        setAttributeInt span "duration_ms" durationMs;;
        setAttribute span "disconnect.reason" (disconnectReasonToString finalReason);;
        (if bool_decide (finalReason = CLEAN_DISCONNECT)
         then setAttribute span "result" "OK"
         else setAttribute span "result" "ERROR";;
              recordError span (disconnectReasonToString finalReason));;
        ids ← span_ids span;
        Logger.logDisconnected ml (Logger.mkBase ids.1 ids.2) (activeNodeId l)
          (m_sessionId ctx) durationMs (disconnectReasonToString finalReason))
  end.

(** The [try] block before a REGISTER is handled: the id in the message
    becomes the connection's node. *)
Definition extractNodeId (payload : string) (l : locals) : M locals :=
  match j_parse payload with
  | Some j =>
      mret (if j_contains j "node_id" && j_is_string (j_at j "node_id")
            then mkLocals (j_get_string (j_at j "node_id")) (connectionSpan l) else l)
  | None =>
      match connectionSpan l with
      | Some span =>
          recordError span
            ("JSON parse failed during node_id extraction: " +:+ j_parse_what payload)
      | None => mret tt
      end;;
      mret l
  end.

(** The [switch]. *)
Definition dispatch (ml : Logger.Level) (ctx : ConnectionContext) (fd : Z)
    (fr : MessageSerializer.FrameReadResult) (l : locals) : M (outcome unit * locals) :=
  let senderFn := sendAll fd in
  let mid := MessageSerializer.fr_messageId fr in
  match MessageSerializer.fr_messageType fr with
  | MessageSerializer.REGISTER =>
      l ← extractNodeId (MessageSerializer.fr_payload fr) l;
      r ← catching (RegisterHandler.handle ml mid (MessageSerializer.fr_payload fr)
                      (m_sessionId ctx) senderFn);
      mret (r, l)
  | MessageSerializer.QUERY_NODE | MessageSerializer.LIST_NODES =>
      r ← catching (QueryHandler.handle ml (MessageSerializer.fr_messageType fr) mid
                      (MessageSerializer.fr_payload fr) (m_sessionId ctx) senderFn);
      mret (r, l)
  | MessageSerializer.HEARTBEAT =>
      r ← catching (HeartbeatHandler.handle ml (activeNodeId l) (m_sessionId ctx));
      mret (r, l)
  | _ =>
      r ← catching (RegisterHandler.send_error mid MessageSerializer.ERR_MALFORMED
                      "Unknown message type" senderFn;; mret tt);
      mret (r, l)
  end.

(** Why the loop ends, from the status of a failed read. *)
Definition reason_of (s : MessageSerializer.FrameReadStatus) (err : Z) : DisconnectReason :=
  match s with
  | MessageSerializer.PEER_CLOSED => CLEAN_DISCONNECT
  | MessageSerializer.TIMEOUT => IDLE_TIMEOUT
  | _ => if isAbruptDisconnect (-1) err then ABRUPT_DISCONNECT else RECV_ERROR
  end.

(** One iteration: [None] goes round again. *)
Definition iteration (ml : Logger.Level) (ctx : ConnectionContext) (fd : Z) (l : locals)
    : M (outcome (option DisconnectReason) * locals) :=
  result ← readFrame fd;
  if bool_decide (MessageSerializer.fr_status result ≠ MessageSerializer.OK) then
    err ← gets w_errno;
    mret (Ret (Some (reason_of (MessageSerializer.fr_status result) err)), l)
  else
    '(r, l) ← ensureConnectionSpan ml ctx l;
    match r with
    | Throw e => mret (Throw e, l)
    | Ret _ =>
        handlerStart ← steady_now;
        '(r, l) ← dispatch ml ctx fd result l;
        match r with
        | Throw e => mret (Throw e, l)
        | Ret _ =>
            handlerEnd ← steady_now;
            modify (λ w, set_metrics
              (PrometheusMetrics.recordMessage (MessageSerializer.fr_messageType result)
                 (handlerEnd - handlerStart) (w_metrics w)) w);;
            mret (Ret None, l)
        end
    end.

(** The [while (true)].  Every iteration that goes round has read a frame, so
    the bytes that are still to arrive bound the number of iterations. *)
Fixpoint loop (fuel : nat) (ml : Logger.Level) (ctx : ConnectionContext) (fd : Z) (l : locals)
    : M (outcome DisconnectReason * locals) :=
  match fuel with
  | O => mret (Ret RECV_ERROR, l)
  | S fuel =>
      '(r, l) ← iteration ml ctx fd l;
      match r with
      | Throw e => mret (Throw e, l)
      | Ret (Some reason) => mret (Ret reason, l)
      | Ret None => loop fuel ml ctx fd l
      end
  end.

Definition pending (fd : Z) (w : world) : list byte :=
  match w_socks w !! fd with Some s => (view (sk_in s)).1 | None => [] end.

(** What follows the loop, up to the destructor of [connectionSpan]. *)
Definition finish (ml : Logger.Level) (ctx : ConnectionContext) (connectTime : Z)
    (reason : DisconnectReason) (l : locals) : M unit :=
  match connectionSpan l with
  | Some span =>
      if bool_decide (reason ≠ CLEAN_DISCONNECT) then
        setAttribute span "result" "ERROR";;
        recordError span (disconnectReasonToString reason)
      else mret tt
  | None => mret tt
  end;;
  markOfflineIfKnown (activeNodeId l);;
  emitDisconnection ml ctx connectTime l reason.

Definition end_connection_span (l : locals) (w : world) : world :=
  match connectionSpan l with Some span => end_span span w | None => w end.

(** The loop, what follows it, and the destructor of the span. *)
Definition serve (ml : Logger.Level) (ctx : ConnectionContext) (clientFd connectTime : Z)
    (l : locals) : M unit :=
  fuel ← gets (λ w, S (length (pending clientFd w)));
  '(r, l) ← loop fuel ml ctx clientFd l;
  finally (reason ← rethrow r; finish ml ctx connectTime reason l) (end_connection_span l).

Definition handleConnection (idleTimeoutSecs : Z) (ml : Logger.Level) (clientFd : Z)
    (ctx : ConnectionContext) : M unit :=
  finally
    (if clientFd <? 0 then mret tt
     else
       connectTime ← steady_now;
       let l := mkLocals (m_nodeId ctx) None in
       configured ← applyReceiveTimeout idleTimeoutSecs clientFd;
       if negb configured then
         markOfflineIfKnown (activeNodeId l);;
         emitDisconnection ml ctx connectTime l SOCKET_CONFIG_ERROR
       else serve ml ctx clientFd connectTime l)
    (teardown clientFd).
End worker.

(** ** Contract of one message *)

Section contract.
Context `{JL : JsonLib} `{MI : NodeRegistry.MapIter}.

(** The node the connection stands for after a message. *)
Definition next_node (fr : MessageSerializer.FrameReadResult) (node : string) : string :=
  match MessageSerializer.fr_messageType fr with
  | MessageSerializer.REGISTER =>
      match j_parse (MessageSerializer.fr_payload fr) with
      | Some j =>
          if j_contains j "node_id" && j_is_string (j_at j "node_id")
          then j_get_string (j_at j "node_id") else node
      | None => node
      end
  | _ => node
  end.

(** The answer: none to a heartbeat. *)
Definition reply_of (fr : MessageSerializer.FrameReadResult)
    (reg : gmap string NodeRegistry.NodeEntry) : option (list byte) :=
  let mid := MessageSerializer.fr_messageId fr in
  let payload := MessageSerializer.fr_payload fr in
  match MessageSerializer.fr_messageType fr with
  | MessageSerializer.REGISTER =>
      Some (RegisterHandler.reply_frame mid (RegisterHandler.decide_reg payload reg))
  | MessageSerializer.QUERY_NODE | MessageSerializer.LIST_NODES =>
      Some (QueryHandler.reply_frame mid
              (QueryHandler.decide_query (MessageSerializer.fr_messageType fr) payload reg))
  | MessageSerializer.HEARTBEAT => None
  | _ =>
      Some (MessageSerializer.buildFrame MessageSerializer.ERROR_MSG mid
              (Payloads.text_of (Payloads.error_json
                 (Payloads.mkError mid MessageSerializer.ERR_MALFORMED "Unknown message type"))))
  end.

(** The registry after a message handled at time [now]. *)
Definition reg_after (now : Z) (fr : MessageSerializer.FrameReadResult) (node : string)
    (reg : gmap string NodeRegistry.NodeEntry) : gmap string NodeRegistry.NodeEntry :=
  match MessageSerializer.fr_messageType fr with
  | MessageSerializer.REGISTER =>
      RegisterHandler.effect
        (RegisterHandler.decide_reg (MessageSerializer.fr_payload fr) reg) reg
  | MessageSerializer.HEARTBEAT => (NodeRegistry.updateLastSeen node now reg).2
  | _ => reg
  end.

(** The log call of the handler, if any. *)
Definition event_of (sid : string) (fr : MessageSerializer.FrameReadResult) (node : string)
    (reg : gmap string NodeRegistry.NodeEntry) : option Logger.event :=
  let payload := MessageSerializer.fr_payload fr in
  match MessageSerializer.fr_messageType fr with
  | MessageSerializer.REGISTER =>
      Some (RegisterHandler.log_of sid (RegisterHandler.decide_reg payload reg))
  | MessageSerializer.QUERY_NODE | MessageSerializer.LIST_NODES =>
      Some (QueryHandler.log_of sid
              (QueryHandler.decide_query (MessageSerializer.fr_messageType fr) payload reg))
  | MessageSerializer.HEARTBEAT => Some (HeartbeatHandler.log_of node sid reg)
  | _ => None
  end.

Definition outcome_of (ml : Logger.Level) (sid : string)
    (fr : MessageSerializer.FrameReadResult) (node : string)
    (reg : gmap string NodeRegistry.NodeEntry) : outcome unit :=
  match event_of sid fr node reg with
  | Some ev => log_outcome ml ev
  | None => Ret tt
  end.
End contract.

(** The visible effect: the registry, then the answer. *)
Definition answer (fd : Z) (reg' : gmap string NodeRegistry.NodeEntry)
    (rep : option (list byte)) (w : world) : world :=
  match rep with
  | Some f => sent (sendAll fd) f (set_reg reg' w)
  | None => set_reg reg' w
  end.

#[global] Instance answer_visible fd reg' rep : Visible (answer fd reg' rep).
Proof.
  destruct rep as [f|]; [|apply (visible_reg (λ _, reg'))].
  apply (visible_compose (λ w, set_reg reg' w) (sent (sendAll fd) f));
    [apply (visible_reg (λ _, reg'))|apply _].
Qed.

(** ** Lemmas: one message *)

Section facts.
Context `{CL : Clock} `{!ClockOk} `{RN : Otel.Rng} `{JL : JsonLib} `{!JsonLaws}.
Context `{MI : NodeRegistry.MapIter}.

Lemma perf_catch {A L} (m : M A) (l : L) w T o :
  perf m w T (λ r, r = o) →
  perf (r ← catching m; mret (r, l)) w T (λ r, r = Ret (o, l)).
Proof.
  unfold perf, catching, mbind, M_bind, mret, M_ret. destruct (m w) as [r w'].
  simpl. by intros [-> Hq].
Qed.

Lemma extractNodeId_run fr l reg w (k : locals → M (outcome unit * locals)) :
  MessageSerializer.fr_messageType fr = MessageSerializer.REGISTER → ready reg w →
  ∃ w', ready reg w' ∧ ∀ T P, Visible T →
    perf (k (mkLocals (next_node fr (activeNodeId l)) (connectionSpan l))) w' T P →
    perf (extractNodeId (MessageSerializer.fr_payload fr) l ≫= k) w T P.
Proof.
  intros Ht Hr. unfold extractNodeId, next_node. rewrite Ht.
  destruct l as [node sp]. cbn [activeNodeId connectionSpan].
  destruct (j_parse (MessageSerializer.fr_payload fr)) as [j|].
  - exists w. split; [done|]. by destruct (_ && _).
  - destruct sp as [i|].
    + set (d := String.append _ _).
      destruct (quiet_run_ready reg (recordError i d) (λ _, k (mkLocals node (Some i))) w
        (Quiet_recordError i d) Hr) as (a & w' & Hr' & Hk).
      exists w'. split; [done|]. exact Hk.
    + by exists w.
Qed.

(** The answer to a message of unknown type. *)
Lemma perf_error_only mid code desc sender w `{!SendFn sender} :
  Utf8.valid desc = true →
  perf (RegisterHandler.send_error mid code desc sender;; mret tt) w
    (sent sender (MessageSerializer.buildFrame MessageSerializer.ERROR_MSG mid
       (Payloads.text_of (Payloads.error_json (Payloads.mkError mid code desc)))))
    (λ r, r = Ret tt).
Proof.
  intros Hd.
  pose proof (Payloads.dump_text _ (Payloads.error_utf8 (Payloads.mkError mid code desc) Hd)) as E.
  unfold perf, RegisterHandler.send_error, Payloads.buildErrorPayload, dump, mbind, M_bind,
    mret, M_ret, sent in *.
  rewrite E. set (f := MessageSerializer.buildFrame _ _ _).
  destruct (send_returns f w) as [b Hb]. destruct (sender f w) as [r w']. simpl in *. by subst r.
Qed.

Lemma dispatch_perf ml ctx fd fr l reg w :
  ready reg w → reg_ok reg → in_width 32 (MessageSerializer.fr_messageId fr) →
  ∃ now, 0 ≤ now ∧
  perf (dispatch ml ctx fd fr l) w
    (answer fd (reg_after now fr (activeNodeId l) reg) (reply_of fr reg))
    (λ r, r = Ret (outcome_of ml (m_sessionId ctx) fr (activeNodeId l) reg,
                   mkLocals (next_node fr (activeNodeId l)) (connectionSpan l))).
Proof.
  intros Hr Hok Hm. unfold dispatch.
  assert (set_reg reg w = w) as Hset by (destruct Hr as [<- _]; apply set_reg_same).
  unfold reg_after, reply_of, outcome_of, event_of.
  destruct (MessageSerializer.fr_messageType fr) eqn:Ht.
  4-5: exists 0; split; [done|]; unfold next_node; rewrite Ht;
    destruct l as [node sp]; apply perf_catch;
    (eapply perf_ext; [|eapply QueryHandler.query_handle_perf; [apply _|done..]]);
    unfold answer; by rewrite Hset.
  1: { exists 0. split; [done|].
       destruct (extractNodeId_run fr l reg w
         (λ l', r ← catching (RegisterHandler.handle ml (MessageSerializer.fr_messageId fr)
                   (MessageSerializer.fr_payload fr) (m_sessionId ctx) (sendAll fd));
                mret (r, l')) Ht Hr) as (w' & Hr' & Hk).
       apply Hk; [apply _|]. apply perf_catch.
       pose proof (RegisterHandler.register_handle_perf ml (MessageSerializer.fr_messageId fr)
         (MessageSerializer.fr_payload fr) (m_sessionId ctx) (sendAll fd) reg w' Hr') as HP.
       eapply perf_ext; [|exact HP]. unfold RegisterHandler.transform, answer.
       by rewrite (proj1 Hr'). }
  3: { destruct (HeartbeatHandler.heartbeat_handle_perf ml (activeNodeId l) (m_sessionId ctx) reg w Hr)
         as (now & Hn & HP).
       exists now. split; [done|]. unfold next_node. rewrite Ht.
       destruct l as [node sp]. apply perf_catch.
       eapply perf_ext; [|exact HP]. unfold do_updateLastSeen, answer. by rewrite (proj1 Hr). }
  all: exists 0; split; [done|]; unfold next_node; rewrite Ht;
    destruct l as [node sp]; apply perf_catch;
    (eapply perf_ext; [|eapply perf_error_only; [apply _|done]]); unfold answer; by rewrite Hset.
Qed.

(** ** Lemmas: the connection's span *)

(** [conn o0 l o]: [o] is the tracing state inside the connection that was
    entered with [o0]; ending the span, if there is one, gives back [o0]'s
    stack and objects. *)
Definition conn (o0 : Otel.state) (l : locals) (o : Otel.state) : Prop :=
  Otel.wf o ∧
  match connectionSpan l with
  | None => Otel.nested o0 o
  | Some i => ∀ o' now, Otel.nested o o' → Otel.nested o0 (Otel.close_scope i now o')
  end.

Lemma conn_nested o0 l o o' : conn o0 l o → Otel.nested o o' → conn o0 l o'.
Proof.
  intros [Hwf Hc] Hn. split; [by eapply Otel.nested_wf|].
  destruct (connectionSpan l).
  - intros o2 now H2. apply Hc. by etrans.
  - by etrans.
Qed.

Lemma conn_node o0 l o n : conn o0 l o → conn o0 (mkLocals n (connectionSpan l)) o.
Proof. done. Qed.

Lemma conn_quiet o0 l T w w' `{!Visible T} :
  conn o0 l (w_otel w) → quiet (T w) w' → conn o0 l (w_otel w').
Proof.
  intros Hc [_ Hn _ _]. rewrite vs_otel in Hn. eapply conn_nested; [done|].
  apply Hn, Hc.
Qed.

Lemma new_connection_run sid ip w :
  Otel.wf (w_otel w) →
  ∃ i w1, new_connection sid ip w = (Ret i, w1) ∧ vis_eq w w1 ∧ w_log w1 = w_log w ∧
    ∀ l, Otel.wf (w_otel w1) ∧ conn (w_otel w) (mkLocals l (Some i)) (w_otel w1).
Proof.
  intros Hwf. unfold new_connection, mbind, M_bind, sys_now, state. cbn [w_otel set_reads].
  destruct (Otel.open_connection sid ip (sys_clock (w_reads w)) (w_otel w)) as [i o] eqn:E.
  do 2 eexists. split; [reflexivity|]. split_and!; [done..|]. intros l.
  assert (Otel.wf o) by (by eapply Otel.open_scope_spec). split; [done|].
  split; [done|]. simpl. intros o' now Hn. by eapply Otel.scope_nested.
Qed.

Lemma ensure_run ml ctx l o0 w :
  conn o0 l (w_otel w) →
  ∃ r l' w', ensureConnectionSpan ml ctx l w = (Ret (r, l'), w') ∧
    vis_eq w w' ∧ conn o0 l' (w_otel w') ∧ w_log w `prefix_of` w_log w' ∧
    activeNodeId l' = activeNodeId l ∧ is_Some (connectionSpan l') ∧
    (Logger.text_ok (m_clientIp ctx) = true → Logger.text_ok (m_sessionId ctx) = true →
     r = Ret tt).
Proof.
  intros [Hwf Hc]. unfold ensureConnectionSpan. destruct l as [node [i|]]; simpl.
  { exists (Ret tt), (mkLocals node (Some i)), w. split_and!; done. }
  destruct (new_connection_run (m_sessionId ctx) (m_clientIp ctx) w Hwf)
    as (i & w1 & E & Hv & Hlog & Hconn).
  destruct (Hconn node) as [Hwf1 [_ Hclose]]. simpl in Hc, Hclose.
  unfold mbind at 1, M_bind. rewrite E. set (body := (_ : M (outcome unit * locals))).
  assert (perf body w1 id (λ r, ∃ n, r =
            Ret (log_outcome ml (Logger.EConnected (m_clientIp ctx) (m_sessionId ctx) n),
                 mkLocals node (Some i)))) as [(n & Hr) [Hv' Hn' Hl']].
  { subst body. clear Hclose Hconn E Hlog Hv.
    assert (∃ reg, ready reg w1) as [reg Hrdy] by (by exists (w_reg w1)).
    quiet_steps. apply perf_gets. eapply perf_mono.
    - apply perf_catch.
      by eapply (perf_log_last _ _ (Logger.EConnected (m_clientIp ctx) (m_sessionId ctx) _)
        (λ base, Logger.logConnected ml base _ _ _)).
    - intros r ->. by eexists. }
  destruct (body w1) as [r w']. simpl in Hr, Hv', Hn', Hl'. subst r.
  do 3 eexists. split; [reflexivity|]. split_and!.
  - by etrans.
  - split; [by eapply Otel.nested_wf; [apply Hn'|]|]. simpl. intros o' now Hn.
    etrans; [exact Hc|]. apply Hclose. etrans; [by apply Hn'|done].
  - by rewrite <-Hlog.
  - done.
  - by eexists.
  - simpl. intros Hip Hsid. unfold log_outcome. simpl. rewrite Hip, Hsid. simpl.
    by rewrite orb_true_r.
Qed.
End facts.

(** ** Reading from the connection *)

Definition frame_at (fd : Z) (w : world) : MessageSerializer.FrameReadResult :=
  match (readFrame fd w).1 with
  | Ret fr => fr
  | Throw _ => MessageSerializer.read_failure MessageSerializer.IO_ERROR
  end.
Definition after_read (fd : Z) (w : world) : world := (readFrame fd w).2.

Lemma readFrame_run fd w : readFrame fd w = (Ret (frame_at fd w), after_read fd w).
Proof.
  unfold frame_at, after_read, readFrame. destruct (w_socks w !! fd); [|done].
  by destruct (MessageSerializer.readFrame _).
Qed.

Lemma frame_at_proper fd w w' : vis_eq w w' → frame_at fd w' = frame_at fd w.
Proof.
  intros [_ _ _ S E _]. unfold frame_at, readFrame. rewrite S, E.
  destruct (w_socks w !! fd); [|done]. by destruct (MessageSerializer.readFrame _).
Qed.

#[global] Instance after_read_visible fd : Visible (after_read fd).
Proof.
  unfold after_read, readFrame. split.
  - intros w w' [R A X S E C]. rewrite S, E. destruct (w_socks w !! fd); [|by split].
    destruct (MessageSerializer.readFrame _). by split.
  - intros w. destruct (w_socks w !! fd); [|done]. by destruct (MessageSerializer.readFrame _).
  - intros w. destruct (w_socks w !! fd); [|done]. by destruct (MessageSerializer.readFrame _).
  - intros w. destruct (w_socks w !! fd); [|done]. by destruct (MessageSerializer.readFrame _).
Qed.

(** What a read leaves alone. *)
Lemma after_read_same fd w :
  w_reg (after_read fd w) = w_reg w ∧ w_active (after_read fd w) = w_active w ∧
  w_metrics (after_read fd w) = w_metrics w ∧ w_closed (after_read fd w) = w_closed w ∧
  (∀ fd', fd' ≠ fd → w_socks (after_read fd w) !! fd' = w_socks w !! fd').
Proof.
  unfold after_read, readFrame. destruct (w_socks w !! fd); [|done].
  destruct (MessageSerializer.readFrame _). simpl. split_and!; try done.
  intros fd' Hne. by rewrite lookup_insert_ne.
Qed.

(** A frame that was read has a 32-bit id and has used up input. *)
Lemma frame_at_ok fd w :
  MessageSerializer.fr_status (frame_at fd w) = MessageSerializer.OK →
  in_width 32 (MessageSerializer.fr_messageId (frame_at fd w)) ∧
  (length (pending fd (after_read fd w)) < length (pending fd w))%nat.
Proof.
  unfold frame_at, after_read, readFrame, pending.
  destruct (w_socks w !! fd) as [s|]; [|done]. 
  set (rs := MessageSerializer.mkRstate (sk_in s) (w_errno w)).
  pose proof (MessageSerializer.readFrame_stream rs) as Hs.
  simpl in Hs. destruct (view (sk_in s)) as [av st] eqn:Ev.
  destruct (MessageSerializer.readFrame rs) as [fr rs'] eqn:Er.
  destruct Hs as (Hfr & Hrest & _). simpl in *. intros Hok.
  rewrite lookup_insert_eq. simpl. rewrite (Hrest Hok). simpl.
  rewrite Hfr in Hok. destruct (MessageSerializer.frame_of_stream_ok _ _ Hok) as (_ & Hid & Hlen).
  rewrite Hfr. split; [done|]. rewrite length_drop.
  pose proof (MessageSerializer.frame_of_stream_min _ _ Hok).
  unfold MessageSerializer.ENVELOPE_SIZE in *. lia.
Qed.

(** ** What a connection does, message by message *)

Section serving.
Context `{CL : Clock} `{!ClockOk} `{RN : Otel.Rng} `{JL : JsonLib} `{!JsonLaws}.
Context `{MI : NodeRegistry.MapIter}.

(** The world after the message [fr] on behalf of [node]. *)
Definition msg_world (fd now elapsed : Z) (fr : MessageSerializer.FrameReadResult)
    (node : string) (w : world) : world :=
  let w' := answer fd (reg_after now fr node (w_reg w)) (reply_of fr (w_reg w)) w in
  set_metrics (PrometheusMetrics.recordMessage (MessageSerializer.fr_messageType fr)
                 elapsed (w_metrics w')) w'.

#[global] Instance msg_world_visible fd now el fr node :
  Visible (msg_world fd now el fr node).
Proof.
  unfold msg_world. split.
  - intros w w' Hv. rewrite (v_reg _ _ Hv).
    set (T := answer fd _ _). apply (vs_proper (T := T)) in Hv.
    by apply (vs_proper (T := λ w, set_metrics (PrometheusMetrics.recordMessage
      (MessageSerializer.fr_messageType fr) el (w_metrics w)) w)).
  - intros w. simpl. by rewrite vs_otel.
  - intros w. simpl. by rewrite vs_log.
  - intros w. simpl. by rewrite vs_reads.
Qed.

(** [serves ml sid fd node w frs node' w']: starting for [node] in [w], the
    frames [frs] are read, handled and logged, and end in [w'] for [node']. *)
Inductive serves (ml : Logger.Level) (sid : string) (fd : Z) : string → world → list MessageSerializer.FrameReadResult →
    string → world → Prop :=
| serves_nil node w w' : vis_eq w w' → serves ml sid fd node w [] node w'
| serves_cons node w fr frs now elapsed node' w' :
    frame_at fd w = fr → MessageSerializer.fr_status fr = MessageSerializer.OK → 0 ≤ now →
    outcome_of ml sid fr node (w_reg w) = Ret tt →
    serves ml sid fd (next_node fr node) (msg_world fd now elapsed fr node (after_read fd w))
      frs node' w' →
    serves ml sid fd node w (fr :: frs) node' w'.

Lemma serves_proper ml sid fd node w1 w2 frs node' w' :
  vis_eq w1 w2 → serves ml sid fd node w2 frs node' w' →
  serves ml sid fd node w1 frs node' w'.
Proof.
  intros Hv Hs. revert w1 Hv. induction Hs; intros w1 Hv.
  - constructor. by etrans.
  - apply (serves_cons _ _ _ _ _ _ _ now elapsed); [|done..| |].
    + by rewrite <-(frame_at_proper _ _ _ Hv).
    + by rewrite <-(v_reg _ _ Hv).
    + apply IHHs. apply vs_proper. by apply vs_proper.
Qed.

Lemma answer_same fd reg' rep w :
  w_reg (answer fd reg' rep w) = reg' ∧ w_active (answer fd reg' rep w) = w_active w ∧
  w_metrics (answer fd reg' rep w) = w_metrics w ∧
  w_closed (answer fd reg' rep w) = w_closed w ∧
  (∀ fd', fd' ≠ fd → w_socks (answer fd reg' rep w) !! fd' = w_socks w !! fd').
Proof.
  destruct rep as [f|]; [|done]. unfold answer, sent, sendAll. simpl.
  destruct (w_socks w !! fd); [|done].
  destruct (MessageSerializer.sendAll _ _) as [[ok out] ws]. simpl. split_and!; try done.
  intros fd' Hne. by rewrite lookup_insert_ne.
Qed.

Lemma reg_after_ok now fr node reg : 0 ≤ now → reg_ok reg → reg_ok (reg_after now fr node reg).
Proof.
  intros Hn Hok. unfold reg_after.
  destruct (MessageSerializer.fr_messageType fr); auto with eop.
  by apply RegisterHandler.effect_reg_ok.
Qed.

(** ** Lemmas: the loop *)

(** A part of the world a connection never touches before its teardown. *)
Definition kept (w w' : world) (fd : Z) : Prop :=
  w_active w' = w_active w ∧ w_closed w' = w_closed w ∧
  (∀ fd', fd' ≠ fd → w_socks w' !! fd' = w_socks w !! fd').

Lemma kept_trans w1 w2 w3 fd : kept w1 w2 fd → kept w2 w3 fd → kept w1 w3 fd.
Proof.
  intros (A1 & C1 & S1) (A2 & C2 & S2). split_and!; [congruence..|].
  intros fd' Hne. rewrite S2 by done. by apply S1.
Qed.

Lemma kept_vis w w' fd : vis_eq w w' → kept w w' fd.
Proof. intros []. split_and!; [done..|]. intros fd' _. congruence. Qed.

(** The log call of the handler of [fr] threw: the message has had its effect
    and its answer, and nothing else. *)
Definition thrown (ml : Logger.Level) (sid : string) (fd : Z)
    (fr : MessageSerializer.FrameReadResult) (node : string) (w w' : world) : Prop :=
  outcome_of ml sid fr node (w_reg w) ≠ Ret tt ∧
  ∃ now, 0 ≤ now ∧
    vis_eq (answer fd (reg_after now fr node (w_reg w)) (reply_of fr (w_reg w))
              (after_read fd w)) w'.

Lemma thrown_vis ml sid fd fr node w w1 w2 :
  thrown ml sid fd fr node w w1 → vis_eq w1 w2 → thrown ml sid fd fr node w w2.
Proof. intros (Ho & now & Hn & Hv) Hv2. split; [done|]. exists now. split; [done|by etrans]. Qed.

(** The message of an iteration, once the span of the connection is there. *)
Lemma message_run ml ctx fd fr l o0 w w1 :
  conn o0 l (w_otel w1) → reg_ok (w_reg w) → in_width 32 (MessageSerializer.fr_messageId fr) →
  vis_eq (after_read fd w) w1 → w_log w `prefix_of` w_log w1 →
  ∃ now w2, 0 ≤ now ∧
    dispatch ml ctx fd fr l (set_reads (S (w_reads w1)) w1) =
      (Ret (outcome_of ml (m_sessionId ctx) fr (activeNodeId l) (w_reg w),
            mkLocals (next_node fr (activeNodeId l)) (connectionSpan l)), w2) ∧
    vis_eq (answer fd (reg_after now fr (activeNodeId l) (w_reg w)) (reply_of fr (w_reg w))
              (after_read fd w)) w2 ∧
    conn o0 l (w_otel w2) ∧ w_log w `prefix_of` w_log w2 ∧ kept w w2 fd ∧ reg_ok (w_reg w2).
Proof.
  intros Hc1 Hok Hid Hv1 Hl1. destruct (after_read_same fd w) as (Hreg & Hact & Hmet & Hcl & Hso).
  assert (w_reg w1 = w_reg w) as Hreg1 by (by rewrite (v_reg _ _ Hv1)).
  assert (ready (w_reg w) w1) as Hrdy by (split; [done|apply Hc1]).
  destruct (dispatch_perf ml ctx fd fr l (w_reg w) (set_reads (S (w_reads w1)) w1) Hrdy Hok Hid)
    as (now & Hnow & HP).
  apply perf_elim in HP as (w2 & E2 & Hq2). set (T := answer fd _ _) in Hq2.
  assert (vis_eq (T (after_read fd w)) w2) as Hv2.
  { etrans; [|exact (q_vis _ _ Hq2)]. apply vs_proper. by etrans. }
  destruct (answer_same fd (reg_after now fr (activeNodeId l) (w_reg w))
    (reply_of fr (w_reg w)) (after_read fd w)) as (Ar & Aa & Am & Ac & As).
  exists now, w2. split_and!; [done|done|done|..].
  - apply (conn_quiet o0 l T (set_reads (S (w_reads w1)) w1) w2); [exact Hc1|exact Hq2].
  - etrans; [exact Hl1|]. pose proof (q_log _ _ Hq2) as Hl. by rewrite vs_log in Hl.
  - apply (kept_trans _ (after_read fd w)); [done|]. eapply kept_trans; [|by apply kept_vis].
    split_and!; [exact Aa|exact Ac|exact As].
  - rewrite (v_reg _ _ Hv2). subst T. rewrite Ar. by apply reg_after_ok.
Qed.

Lemma iteration_run ml ctx fd l o0 w :
  conn o0 l (w_otel w) → reg_ok (w_reg w) →
  let fr := frame_at fd w in
  if bool_decide (MessageSerializer.fr_status fr ≠ MessageSerializer.OK) then
    iteration ml ctx fd l w =
      (Ret (Ret (Some (reason_of (MessageSerializer.fr_status fr)
                         (w_errno (after_read fd w)))), l), after_read fd w)
  else
    ∃ r l' w', iteration ml ctx fd l w = (Ret (r, l'), w') ∧
      conn o0 l' (w_otel w') ∧ w_log w `prefix_of` w_log w' ∧ kept w w' fd ∧
      reg_ok (w_reg w') ∧
      match r with
      | Ret (Some _) => False
      | Ret None =>
          activeNodeId l' = next_node fr (activeNodeId l) ∧
          outcome_of ml (m_sessionId ctx) fr (activeNodeId l) (w_reg w) = Ret tt ∧
          ∃ now elapsed, 0 ≤ now ∧
            vis_eq (msg_world fd now elapsed fr (activeNodeId l) (after_read fd w)) w'
      | Throw _ =>
          Logger.text_ok (m_clientIp ctx) = true → Logger.text_ok (m_sessionId ctx) = true →
          thrown ml (m_sessionId ctx) fd fr (activeNodeId l) w w'
      end.
Proof.
  intros Hc Hok fr. unfold iteration. rewrite (bind_run _ _ _ _ _ (readFrame_run fd w)). fold fr.
  destruct (after_read_same fd w) as (Hreg & Hact & Hmet & Hcl & Hso).
  case_bool_decide as Hst; [done|].
  assert (MessageSerializer.fr_status fr = MessageSerializer.OK) as Hfr.
  { destruct (decide (MessageSerializer.fr_status fr = MessageSerializer.OK)); [done|].
    by destruct Hst. }
  destruct (frame_at_ok fd w Hfr) as [Hid _]. fold fr in Hid.
  assert (conn o0 l (w_otel (after_read fd w))) as Hc0 by by rewrite vs_otel.
  assert (kept w (after_read fd w) fd) as Hk0 by done.
  destruct (ensure_run ml ctx l o0 (after_read fd w) Hc0)
    as (r1 & l1 & w1 & E1 & Hv1 & Hc1 & Hl1 & Hn1 & _ & Hret).
  rewrite vs_log in Hl1. rewrite (bind_run _ _ _ _ _ E1).
  assert (w_reg w1 = w_reg w) as Hreg1 by (by rewrite (v_reg _ _ Hv1)).
  assert (kept w w1 fd) as Hk1 by (eapply kept_trans; [done|by apply kept_vis]).
  destruct r1 as [[]|e].
  2: { do 3 eexists. split; [reflexivity|]. split_and!; [done..| |].
       - by rewrite Hreg1.
       - intros Hip Hsid. by specialize (Hret Hip Hsid). }
  destruct (message_run ml ctx fd fr l1 o0 w w1) as (now & w2 & Hnow & E2 & Hv2 & Hc2 & Hl2 & Hk2 & Hok2);
    [done..|].
  erewrite (bind_run steady_now) by reflexivity. rewrite (bind_run _ _ _ _ _ E2). rewrite Hn1 in *.
  destruct (outcome_of _ _ _ _ _) as [[]|e] eqn:Ho.
  2: { do 3 eexists. split; [reflexivity|]. split_and!; [done..|]. intros _ _.
       split; [by rewrite Ho|]. by exists now. }
  erewrite (bind_run steady_now) by reflexivity.
  erewrite (bind_run (modify _)) by reflexivity.
  do 3 eexists. split; [reflexivity|]. split_and!; [done..|].
  eexists now, _. split; [done|]. unfold msg_world. rewrite Hreg.
  destruct Hv2 as [? ? Hm2 ? ? ?]. split; simpl; try done. rewrite Hm2. reflexivity.
Qed.

Lemma pending_proper fd w w' : vis_eq w w' → pending fd w' = pending fd w.
Proof. intros [_ _ _ S _ _]. unfold pending. by rewrite S. Qed.

(** Answering does not consume input. *)
Lemma answer_pending fd reg' rep w : pending fd (answer fd reg' rep w) = pending fd w.
Proof.
  destruct rep as [f|]; [|done]. unfold answer, sent, sendAll, pending. simpl.
  destruct (w_socks w !! fd) as [s|] eqn:E; simpl; [|by rewrite E].
  destruct (MessageSerializer.sendAll _ _) as [[ok out] ws]. simpl.
  by rewrite lookup_insert_eq.
Qed.

Lemma loop_run fuel ml ctx fd l o0 w :
  (length (pending fd w) < fuel)%nat → conn o0 l (w_otel w) → reg_ok (w_reg w) →
  ∃ r l' w', loop fuel ml ctx fd l w = (Ret (r, l'), w') ∧
    conn o0 l' (w_otel w') ∧ w_log w `prefix_of` w_log w' ∧ kept w w' fd ∧
    reg_ok (w_reg w') ∧
    ∃ frs node1 w1, serves ml (m_sessionId ctx) fd (activeNodeId l) w frs node1 w1 ∧
      let fr := frame_at fd w1 in
      match r with
      | Ret reason =>
          activeNodeId l' = node1 ∧
          MessageSerializer.fr_status fr ≠ MessageSerializer.OK ∧
          vis_eq (after_read fd w1) w' ∧
          reason = reason_of (MessageSerializer.fr_status fr) (w_errno w')
      | Throw _ =>
          MessageSerializer.fr_status fr = MessageSerializer.OK ∧
          (Logger.text_ok (m_clientIp ctx) = true → Logger.text_ok (m_sessionId ctx) = true →
           thrown ml (m_sessionId ctx) fd fr node1 w1 w')
      end.
Proof.
  revert l w. induction fuel as [|fuel IH]; intros l w Hf Hc Hok; [lia|].
  cbn [loop]. pose proof (iteration_run ml ctx fd l o0 w Hc Hok) as Hit. cbv zeta in Hit.
  destruct (after_read_same fd w) as (Hreg & Hact & Hmet & Hcl & Hso).
  case_bool_decide as Hst.
  { rewrite (bind_run _ _ _ _ _ Hit). do 3 eexists. split; [reflexivity|].
    split_and!; [by rewrite vs_otel|by rewrite vs_log|done|by rewrite Hreg|].
    exists [], (activeNodeId l), w. split; [by constructor|]. done. }
  assert (MessageSerializer.fr_status (frame_at fd w) = MessageSerializer.OK) as Hfr.
  { destruct (decide (MessageSerializer.fr_status (frame_at fd w) = MessageSerializer.OK));
      [done|by destruct Hst]. }
  destruct Hit as (r & l1 & w1 & E & Hc1 & Hl1 & Hk1 & Hok1 & Hr).
  rewrite (bind_run _ _ _ _ _ E). destruct r as [[reason|]|e]; [done| |].
  - destruct Hr as (Hn1 & Ho & now & el & Hnow & Hv).
    destruct (IH l1 w1) as (r & l' & w' & E' & Hc' & Hl' & Hk' & Hok' & frs & node & w2 & Hs & Hr);
      [|done..|].
    { rewrite (pending_proper _ _ _ Hv). unfold msg_world.
      destruct (frame_at_ok fd w Hfr) as [_ Hlt].
      change (pending fd (set_metrics ?m ?v)) with (pending fd v).
      rewrite answer_pending. lia. }
    exists r, l', w'. split_and!; [done|done|by etrans|by eapply kept_trans|done|].
    exists (frame_at fd w :: frs), node, w2. split; [|done].
    apply (serves_cons _ _ fd _ _ _ _ now el); [done..|]. rewrite <-Hn1.
    by eapply serves_proper.
  - do 3 eexists. split; [reflexivity|]. split_and!; [done..|].
    exists [], (activeNodeId l), w. split; [by constructor|]. done.
Qed.

Lemma Quiet_ret {A} (a : A) : Quiet (mret a : M A).
Proof. intros w. by exists a. Qed.

Lemma markOffline_perf {B} node (k : unit → M B) w T P `{!Visible T} :
  (∀ w', quiet (do_setOffline node (sys_clock (w_reads w)) w) w' → perf (k tt) w' T P) →
  perf (markOfflineIfKnown node ≫= k) w
    (T ∘ do_setOffline node (sys_clock (w_reads w))) P.
Proof.
  intros Hk. eapply perf_bind; [done| |exact Hk]. unfold markOfflineIfKnown.
  destruct (str_empty node) eqn:E; simpl.
  - split; [done|]. unfold do_setOffline, NodeRegistry.setOffline. rewrite E.
    by rewrite set_reg_same.
  - by apply perf_setOffline.
Qed.

Lemma emitDisconnection_perf ml ctx t l reason reg w :
  ready reg w →
  perf (emitDisconnection ml ctx t l reason) w id
    (λ r, Logger.text_ok (activeNodeId l) = true → Logger.text_ok (m_sessionId ctx) = true →
          r = Ret tt).
Proof.
  intros Hrdy. unfold emitDisconnection. destruct (connectionSpan l) as [i|]; [|by apply perf_ret].
  quiet_step. enter_span. do 5 quiet_step.
  assert (Quiet (if bool_decide (reason = CLEAN_DISCONNECT)
     then setAttribute a0 "result" "OK"
     else setAttribute a0 "result" "ERROR";;
          recordError a0 (disconnectReasonToString reason))) as HQ.
  { case_bool_decide; auto using Quiet_bind with eop. }
  quiet_step. eapply perf_mono.
  - by eapply (perf_log_last _ _ (Logger.EDisconnected _ _ _ _)
      (λ base, Logger.logDisconnected ml base _ _ _ _)).
  - intros r -> Hn Hs. unfold log_outcome. simpl. rewrite Hn, Hs.
    by destruct reason; simpl; rewrite orb_true_r.
Qed.

Lemma finish_perf ml ctx t reason l reg w :
  ready reg w →
  ∃ now, 0 ≤ now ∧
  perf (finish ml ctx t reason l) w (do_setOffline (activeNodeId l) now)
    (λ r, Logger.text_ok (activeNodeId l) = true → Logger.text_ok (m_sessionId ctx) = true →
          r = Ret tt).
Proof.
  intros Hrdy. unfold finish.
  assert (Quiet (match connectionSpan l with
    | Some span =>
        if bool_decide (reason ≠ CLEAN_DISCONNECT) then
          setAttribute span "result" "ERROR";;
          recordError span (disconnectReasonToString reason)
        else mret tt
    | None => mret tt
    end)) as HQ.
  { destruct (connectionSpan l); [|apply Quiet_ret].
    case_bool_decide; [|apply Quiet_ret]. apply Quiet_bind; auto with eop. }
  quiet_step. exists (sys_clock (w_reads w)). split; [apply sys_clock_nonneg|].
  apply (perf_ext _ _ (id ∘ do_setOffline (activeNodeId l) (sys_clock (w_reads w)))); [done|].
  apply markOffline_perf; [apply _|]. intros w' Hq.
  apply ready_step in Hq; [|apply _|apply Hrdy]. by eapply emitDisconnection_perf.
Qed.

(** How a connection that could be configured goes: frames are served until
    a read fails, then the node is set OFFLINE; or a handler's log call
    throws. *)
Definition session_done (ml : Logger.Level) (fd : Z) (ctx : ConnectionContext) (w : world)
    (r : outcome unit) (w' : world) : Prop :=
  ∃ frs node w1, serves ml (m_sessionId ctx) fd (m_nodeId ctx) w frs node w1 ∧
    let fr := frame_at fd w1 in
    ((MessageSerializer.fr_status fr ≠ MessageSerializer.OK ∧
      (∃ now, 0 ≤ now ∧ vis_eq (do_setOffline node now (after_read fd w1)) w') ∧
      (Logger.text_ok node = true → Logger.text_ok (m_sessionId ctx) = true → r = Ret tt)) ∨
     (MessageSerializer.fr_status fr = MessageSerializer.OK ∧ (∃ e, r = Throw e) ∧
      (Logger.text_ok (m_clientIp ctx) = true → Logger.text_ok (m_sessionId ctx) = true →
       thrown ml (m_sessionId ctx) fd fr node w1 w'))).

Lemma do_setOffline_kept node now w fd : kept w (do_setOffline node now w) fd.
Proof. done. Qed.

(** The destructor of the connection's span. *)
Lemma end_connection_span_run o0 l w w3 :
  conn o0 l (w_otel w) → Otel.nested (w_otel w) (w_otel w3) →
  Otel.nested o0 (w_otel (end_connection_span l w3)) ∧
  vis_eq w3 (end_connection_span l w3) ∧ w_log (end_connection_span l w3) = w_log w3.
Proof.
  intros [_ Hc] Hn. unfold end_connection_span.
  destruct (connectionSpan l); [|by split_and!; [etrans|..]].
  split_and!; [|done|done]. simpl. by apply Hc.
Qed.

(** What follows the loop: the node is set OFFLINE and the span ends. *)
Definition depart (ml : Logger.Level) (ctx : ConnectionContext) (t : Z)
    (reason : DisconnectReason) (l : locals) : M unit :=
  finally (finish ml ctx t reason l) (end_connection_span l).

Lemma depart_run ml ctx t reason l o0 w :
  conn o0 l (w_otel w) →
  ∃ r w' now, depart ml ctx t reason l w = (r, w') ∧ 0 ≤ now ∧
    vis_eq (do_setOffline (activeNodeId l) now w) w' ∧ Otel.nested o0 (w_otel w') ∧
    w_log w `prefix_of` w_log w' ∧
    (Logger.text_ok (activeNodeId l) = true → Logger.text_ok (m_sessionId ctx) = true → r = Ret tt).
Proof.
  intros Hc. unfold depart, finally.
  destruct (finish_perf ml ctx t reason l (w_reg w) w (conj eq_refl (proj1 Hc)))
    as (now & Hnow & HP & [Hv3 Hn3 Hl3]).
  destruct (finish ml ctx t reason l w) as [r w3]. simpl in HP, Hv3, Hn3, Hl3.
  destruct (end_connection_span_run o0 l w w3) as (Hne & Hve & Hle); [done|apply Hn3, Hc|].
  do 3 eexists. split; [reflexivity|]. split_and!; [done|by etrans|done| |done].
  by rewrite Hle.
Qed.

Lemma serve_run ml ctx fd t w :
  Otel.wf (w_otel w) → reg_ok (w_reg w) →
  ∃ r w', serve ml ctx fd t (mkLocals (m_nodeId ctx) None) w = (r, w') ∧ kept w w' fd ∧ Otel.nested (w_otel w) (w_otel w') ∧
    w_log w `prefix_of` w_log w' ∧ reg_ok (w_reg w') ∧ session_done ml fd ctx w r w'.
Proof.
  intros Hwf Hok. unfold serve. erewrite (bind_run (gets _)) by reflexivity. cbv beta.
  destruct (loop_run (S (length (pending fd w))) ml ctx fd (mkLocals (m_nodeId ctx) None)
    (w_otel w) w) as (r & l & w1 & E & Hc & Hl & Hk & Hok1 & frs & node & w2 & Hs & Hr);
    [lia|split; [done|simpl; reflexivity]|done|].
  rewrite (bind_run _ _ _ _ _ E). destruct r as [reason|e].
  - change (finally (reason ← rethrow (Ret reason); finish ml ctx t reason l) (end_connection_span l))
      with (depart ml ctx t reason l).
    destruct (depart_run ml ctx t reason l _ w1 Hc) as (r & w3 & now & E3 & Hnow & Hv3 & Hn3 & Hl3 & Ht).
    destruct Hr as (Hn & Hst & Hv & _). rewrite Hn in *.
    exists r, w3. split_and!; [done| |done|by etrans| |].
    + eapply kept_trans; [exact Hk|]. eapply kept_trans; [|by apply kept_vis]. done.
    + rewrite (v_reg _ _ Hv3). simpl. by apply reg_ok_setOffline.
    + exists frs, node, w2. split; [done|]. left. split_and!; [done| |done].
      exists now. split; [done|]. etrans; [|exact Hv3]. by apply vs_proper.
  - destruct (end_connection_span_run _ l w1 w1 Hc) as (Hne & Hve & Hle); [reflexivity|].
    unfold finally. simpl rethrow. do 2 eexists. split; [reflexivity|]. split_and!.
    + eapply kept_trans; [exact Hk|]. by apply kept_vis.
    + done.
    + by rewrite Hle.
    + by rewrite (v_reg _ _ Hve).
    + exists frs, node, w2. split; [done|]. right. destruct Hr as [Hst Hr].
      split_and!; [done|eauto|]. intros Hip Hsid. by eapply thrown_vis; [apply Hr|].
Qed.

(** [setsockopt] works on the descriptor. *)
Definition configurable (fd : Z) (w : world) : bool :=
  match w_socks w !! fd with Some s => sk_opt_ok s | None => false end.
Definition configured (fd idle : Z) (w : world) : world := (set_rcvtimeo fd idle w).2.

Lemma configure_run fd idle w :
  set_rcvtimeo fd idle w = (Ret (configurable fd w), configured fd idle w) ∧
  kept w (configured fd idle w) fd ∧ w_reg (configured fd idle w) = w_reg w ∧
  w_otel (configured fd idle w) = w_otel w ∧ w_log (configured fd idle w) = w_log w ∧
  w_metrics (configured fd idle w) = w_metrics w.
Proof.
  unfold configured, set_rcvtimeo, configurable. destruct (w_socks w !! fd) as [s|]; [|done].
  destruct (sk_opt_ok s); [|done]. simpl. split_and!; try done. split_and!; try done.
  intros fd' Hne. simpl. by rewrite lookup_insert_ne.
Qed.

(** The whole connection. *)
Lemma handleConnection_run idle ml fd ctx w :
  0 ≤ fd → Otel.wf (w_otel w) → reg_ok (w_reg w) →
  ∃ r wb, handleConnection idle ml fd ctx w = (r, teardown fd wb) ∧
    kept w wb fd ∧ Otel.nested (w_otel w) (w_otel wb) ∧ w_log w `prefix_of` w_log wb ∧
    reg_ok (w_reg wb) ∧
    if configurable fd w
    then ∃ n, session_done ml fd ctx (configured fd idle (set_reads n w)) r wb
    else r = Ret tt ∧ ∃ now, 0 ≤ now ∧
      w_reg wb = NodeRegistry.setOffline (m_nodeId ctx) now (w_reg w).
Proof.
  intros Hfd Hwf Hok. unfold handleConnection, finally at 1.
  rewrite (proj2 (Z.ltb_ge fd 0)) by done.
  erewrite (bind_run steady_now) by reflexivity. unfold applyReceiveTimeout.
  set (w0 := set_reads _ w).
  destruct (configure_run fd idle w0) as (E & Hk & Hr & Ho & Hl & Hm).
  rewrite (bind_run _ _ _ _ _ E). change (configurable fd w) with (configurable fd w0).
  destruct (configurable fd w0) eqn:Hcfg; cbn [negb activeNodeId].
  - destruct (serve_run ml ctx fd (steady_clock (w_reads w)) (configured fd idle w0))
      as (r & wb & Em & Hk' & Hn & Hl' & Hok' & Hd); [by rewrite Ho|by rewrite Hr|].
    rewrite Em. exists r, wb. split_and!; [done| |by rewrite Ho in Hn|by rewrite Hl in Hl'|done|].
    + by eapply kept_trans.
    + by exists (S (w_reads w)).
  - assert (ready (w_reg w) (configured fd idle w0)) as Hrdy by (by split; rewrite ?Hr, ?Ho).
    set (m := markOfflineIfKnown _ ≫= _).
    destruct (markOffline_perf (m_nodeId ctx)
      (λ _, emitDisconnection ml ctx (steady_clock (w_reads w)) (mkLocals (m_nodeId ctx) None)
              SOCKET_CONFIG_ERROR) (configured fd idle w0) id (λ r, r = Ret tt))
      as [HP [Hv Hn Hlg]].
    { intros w' _. by apply perf_ret. }
    set (now := sys_clock (w_reads (configured fd idle w0))) in *.
    fold m in HP, Hv, Hn, Hlg.
    destruct (m (configured fd idle w0)) as [r wb]. simpl in HP, Hv, Hn, Hlg. subst r. exists (Ret tt), wb. split_and!; try done.
    + eapply kept_trans; [exact Hk|]. by apply (kept_trans _ (do_setOffline (m_nodeId ctx) now
        (configured fd idle w0))); [|apply kept_vis].
    + change (w_otel w) with (w_otel w0) in Hwf |- *. rewrite <-Ho in Hwf |- *. by apply Hn.
    + change (w_log w) with (w_log w0). by rewrite <-Hl.
    + rewrite (v_reg _ _ Hv). simpl. rewrite Hr. apply reg_ok_setOffline; [|done].
      apply sys_clock_nonneg.
    + exists now. split; [apply sys_clock_nonneg|]. rewrite (v_reg _ _ Hv). simpl. by rewrite Hr.
Qed.
End serving.

End ConnectionWorker.
