(* ===== verification/ConnectionSpec.v ===== *)
(** * What a client can rely on

    The abstract session of a connection, a relation on messages, answers and
    registries without sockets, spans or logs, and the theorems that
    [ConnectionWorker.handleConnection] implements it and releases what it
    holds on every way out. *)

From S2P Require Import Prelude Net Registry Otel Metrics Json Serializer JsonRef World Concrete.
From S2P Require Import Logger Effects Payloads Sender RegisterHandler HeartbeatHandler.
From S2P Require Import QueryHandler ConnectionWorker.
Local Open Scope Z_scope.

Module ConnectionSpec.
Import ConnectionWorker.

(** ** The abstract session *)

Section spec.
Context `{JL : JsonLib} `{MI : NodeRegistry.MapIter}.

(** [session node reg frs outs node' reg']: the messages [frs], handled in
    order for a connection that stands for [node], are answered by [outs] and
    turn the registry [reg] into [reg']. *)
Inductive session : string → gmap string NodeRegistry.NodeEntry →
    list MessageSerializer.FrameReadResult → list (list byte) →
    string → gmap string NodeRegistry.NodeEntry → Prop :=
| session_nil node reg : session node reg [] [] node reg
| session_cons node reg fr frs now outs node' reg' :
    0 ≤ now →
    session (next_node fr node) (reg_after now fr node reg) frs outs node' reg' →
    session node reg (fr :: frs) (option_list (reply_of fr reg) ++ outs) node' reg'.

(** Node ids named in a message survive the logger's truncation. *)
Definition names_ok (payload : string) : Prop :=
  ∀ j, j_parse payload = Some j → j_contains j "node_id" = true →
    j_is_string (j_at j "node_id") = true →
    Logger.text_ok (j_get_string (j_at j "node_id")) = true.
End spec.

(** What every connection may rely on and keeps: the thread's spans and the
    shared registry are in order. *)
Definition sound (w : world) : Prop := Otel.wf (w_otel w) ∧ reg_ok (w_reg w).

(** ** Lemmas: messages on the stream *)

Section facts.
Context `{CL : Clock} `{!ClockOk} `{RN : Otel.Rng} `{JL : JsonLib} `{!JsonLaws}.
Context `{MI : NodeRegistry.MapIter}.

Lemma frame_at_view fd w s av st :
  w_socks w !! fd = Some s → view (sk_in s) = (av, st) →
  frame_at fd w = MessageSerializer.frame_of_stream av st ∧
  ∃ s', w_socks (after_read fd w) !! fd = Some s' ∧ sk_out s' = sk_out s ∧
    sk_snd s' = sk_snd s ∧
    (MessageSerializer.fr_status (frame_at fd w) = MessageSerializer.OK →
     view (sk_in s') = (drop (Z.to_nat (4 + be_u32 (take 4 av))) av, st)).
Proof.
  intros Hs Hv. unfold frame_at, after_read, readFrame. rewrite Hs.
  set (rs := MessageSerializer.mkRstate (sk_in s) (w_errno w)).
  pose proof (MessageSerializer.readFrame_stream rs) as Hf. simpl in Hf. rewrite Hv in Hf.
  destruct (MessageSerializer.readFrame rs) as [fr rs']. simpl in Hf |- *.
  destruct Hf as (-> & Hrest & _). split; [done|].
  eexists. rewrite lookup_insert_eq. split_and!; [reflexivity|done..].
Qed.

(** The answer reaches the socket whole. *)
Lemma answer_sock fd reg' rep w s :
  w_socks w !! fd = Some s → send_ok (sk_snd s) →
  ∃ s', w_socks (answer fd reg' rep w) !! fd = Some s' ∧ sk_in s' = sk_in s ∧
    send_ok (sk_snd s') ∧ sk_out s' = sk_out s ++ concat (option_list rep).
Proof.
  intros Hs Hok. destruct rep as [f|]; simpl.
  2: { exists s. rewrite app_nil_r. done. }
  unfold sent, sendAll. simpl. rewrite Hs.
  destruct (MessageSerializer.sendAll f _) as [[ok out] ws] eqn:E.
  pose proof (MessageSerializer.sendAll_schedule _ _ _ _ _ E Hok) as Hok'.
  destruct (MessageSerializer.sendAll_spec _ _ _ _ _ E) as (Ht & _ & Hsok).
  simpl. eexists. rewrite lookup_insert_eq. split_and!; [reflexivity|done|done|].
  simpl. by rewrite Ht, app_nil_r by auto.
Qed.

(** The next frame of a stream of messages. *)
Lemma frame_at_messages fd w s msgs st :
  w_socks w !! fd = Some s → Forall MessageSerializer.message_ok msgs →
  view (sk_in s) = (concat (MessageSerializer.message_frame <$> msgs), st) →
  match msgs with
  | [] => MessageSerializer.fr_status (frame_at fd w) ≠ MessageSerializer.OK
  | m :: msgs' =>
      frame_at fd w = MessageSerializer.message_result m ∧
      ∃ s', w_socks (after_read fd w) !! fd = Some s' ∧ sk_out s' = sk_out s ∧
        sk_snd s' = sk_snd s ∧
        view (sk_in s') = (concat (MessageSerializer.message_frame <$> msgs'), st)
  end.
Proof.
  intros Hs Hmsgs Hview. destruct Hmsgs as [|[[t id] payload] msgs (Ht & Hid & Hsz) Hmsgs].
  { destruct (frame_at_view fd w s _ _ Hs Hview) as [-> _]. by destruct st. }
  rewrite fmap_cons in Hview. simpl in Hview.
  destruct (frame_at_view fd w s _ _ Hs Hview) as (Hf & s1 & Hs1 & Ho1 & Hsnd1 & Hv1).
  destruct (MessageSerializer.frame_of_stream_build t id payload
    (concat (MessageSerializer.message_frame <$> msgs)) st) as [Hb Hrest]; [done..|].
  rewrite Hb in Hf. rewrite Hf, Hrest in Hv1. split; [done|]. exists s1. auto.
Qed.

(** Serving frames of [msgs] is the abstract session of those served. *)
Lemma serves_session ml sid fd node w frs node' w1 msgs st s :
  serves ml sid fd node w frs node' w1 →
  w_socks w !! fd = Some s → send_ok (sk_snd s) →
  Forall MessageSerializer.message_ok msgs →
  view (sk_in s) = (concat (MessageSerializer.message_frame <$> msgs), st) →
  ∃ m1 m2 outs s', msgs = m1 ++ m2 ∧ frs = MessageSerializer.message_result <$> m1 ∧
    session node (w_reg w) frs outs node' (w_reg w1) ∧
    w_socks w1 !! fd = Some s' ∧ sk_out s' = sk_out s ++ concat outs ∧
    view (sk_in s') = (concat (MessageSerializer.message_frame <$> m2), st).
Proof.
  intros Hs. revert msgs s.
  induction Hs as [node w w' Hv|node w fr frs now el node' w' Hfr Hst Hnow _ Hs IH];
    intros msgs s Hsock Hsnd Hmsgs Hview.
  { exists [], msgs, [], s. rewrite (v_socks _ _ Hv), (v_reg _ _ Hv), app_nil_r.
    split_and!; try done. constructor. }
  pose proof (frame_at_messages fd w s msgs st Hsock Hmsgs Hview) as Hf.
  destruct Hmsgs as [|m msgs Hm Hmsgs]; [by rewrite Hfr in Hf|].
  destruct Hf as (Hf & s1 & Hs1 & Ho1 & Hsnd1 & Hv1).
  destruct (after_read_same fd w) as (Hreg & _).
  set (reg' := reg_after now fr node (w_reg (after_read fd w))) in *.
  set (rep := reply_of fr (w_reg (after_read fd w))) in *.
  destruct (answer_sock fd reg' rep (after_read fd w) s1)
    as (s2 & Hs2 & Hi2 & Hsnd2 & Ho2); [done|by rewrite Hsnd1|].
  destruct (IH msgs s2) as (m1 & m2 & outs & s3 & -> & -> & Hses & Hs3 & Ho3 & Hv3);
    [exact Hs2|done|done|by rewrite Hi2|].
  exists (m :: m1), m2, (option_list rep ++ outs), s3. split_and!; try done.
  - by rewrite fmap_cons, <-Hf, Hfr.
  - subst rep reg'. rewrite Hreg. eapply session_cons; [done|].
    destruct (answer_same fd (reg_after now fr node (w_reg (after_read fd w)))
      (reply_of fr (w_reg (after_read fd w))) (after_read fd w)) as (Har & _).
    unfold msg_world in Hses. simpl in Hses. rewrite Har, Hreg in Hses. exact Hses.
  - rewrite Ho3, Ho2, Ho1, concat_app. by rewrite app_assoc.
Qed.

(** ** Lemmas: log calls that do not throw *)

Lemma log_outcome_calm ml ev :
  Forall (λ v, Logger.text_ok v = true)
    (drop 2 (Logger.event_texts (Logger.mkBase "" "") ev)) → log_outcome ml ev = Ret tt.
Proof.
  intros Ht. unfold log_outcome. destruct (Logger.suppressed ml ev); [done|]. simpl.
  rewrite (proj2 (forallb_forall _ _)); [done|]. intros v Hv.
  rewrite Forall_forall in Ht. by apply Ht, list_elem_of_In.
Qed.

Lemma outcome_calm ml sid fr node reg :
  names_ok (MessageSerializer.fr_payload fr) → Logger.text_ok node = true →
  Logger.text_ok sid = true → outcome_of ml sid fr node reg = Ret tt.
Proof.
  intros Hn Hnode Hsid. unfold outcome_of, event_of.
  assert (∀ t, log_outcome ml (QueryHandler.log_of sid
    (QueryHandler.decide_query t (MessageSerializer.fr_payload fr) reg)) = Ret tt) as Hq.
  { intros t. apply log_outcome_calm. unfold QueryHandler.decide_query.
    case_bool_decide; [|simpl; by constructor].
    destruct (j_parse _) as [j|] eqn:Ej; [|simpl; by repeat constructor].
    destruct (j_contains j "node_id") eqn:Hc, (j_is_string (j_at j "node_id")) eqn:Hs;
      simpl; try by repeat constructor.
    specialize (Hn j Ej Hc Hs). destruct (reg !! _); simpl; by repeat constructor. }
  destruct (MessageSerializer.fr_messageType fr); try done; apply log_outcome_calm.
  - unfold RegisterHandler.decide_reg.
    destruct (j_parse _) as [j|] eqn:Ej; [|simpl; by repeat constructor].
    destruct (RegisterHandler.valid_fields j) eqn:Hf; [|simpl; by repeat constructor].
    assert (Logger.text_ok (NodeRegistry.node_id (RegisterHandler.entry_of j)) = true).
    { unfold RegisterHandler.valid_fields in Hf.
      repeat (apply andb_true_iff in Hf as [Hf ?]). by apply Hn. }
    destruct (_ || _); simpl; by repeat constructor.
  - unfold HeartbeatHandler.log_of. case_match; simpl; by repeat constructor.
Qed.

Lemma next_node_text fr node :
  names_ok (MessageSerializer.fr_payload fr) → Logger.text_ok node = true →
  Logger.text_ok (next_node fr node) = true.
Proof.
  intros Hn Hnode. unfold next_node.
  destruct (MessageSerializer.fr_messageType fr); try done.
  destruct (j_parse _) as [j|] eqn:Ej; [|done].
  destruct (j_contains j "node_id") eqn:Hc, (j_is_string (j_at j "node_id")) eqn:Hs;
    simpl; try done. by apply Hn.
Qed.

Lemma session_text node reg frs outs node' reg' :
  session node reg frs outs node' reg' →
  Forall (λ fr, names_ok (MessageSerializer.fr_payload fr)) frs →
  Logger.text_ok node = true → Logger.text_ok node' = true.
Proof.
  induction 1; intros Hn Ht; [done|]. apply Forall_cons in Hn as [Hn Hns].
  apply IHsession; [done|]. by apply next_node_text.
Qed.

(** Setting the timeout leaves both directions of the socket alone. *)
Lemma configured_sock fd idle n w s :
  w_socks w !! fd = Some s → sk_opt_ok s = true →
  ∃ sc, w_socks (configured fd idle (set_reads n w)) !! fd = Some sc ∧
    sk_in sc = sk_in s ∧ sk_snd sc = sk_snd s ∧ sk_out sc = sk_out s.
Proof.
  intros Hs Hopt. unfold configured, set_rcvtimeo. simpl. rewrite Hs, Hopt. simpl.
  eexists. rewrite lookup_insert_eq. by split_and!.
Qed.

(** The log call of a REGISTER whose id is cut inside a character throws. *)
Lemma register_outcome_throws sid node mid payload reg e :
  RegisterHandler.decide_reg payload reg = RegisterHandler.Registered e →
  Logger.text_ok (NodeRegistry.node_id e) = false →
  outcome_of Logger.INFO sid
    (MessageSerializer.message_result (MessageSerializer.REGISTER, mid, payload)) node reg
  ≠ Ret tt.
Proof.
  intros Hd Ht. unfold outcome_of, event_of, log_outcome. simpl. rewrite Hd. simpl.
  by rewrite Ht.
Qed.

(** The id a message makes its connection stand for. *)
Definition named (m : MessageSerializer.message) : option string :=
  let '(t, _, payload) := m in
  match t with
  | MessageSerializer.REGISTER =>
      match j_parse payload with
      | Some j =>
          if j_contains j "node_id" && j_is_string (j_at j "node_id")
          then Some (j_get_string (j_at j "node_id")) else None
      | None => None
      end
  | _ => None
  end.

Lemma next_node_named m n : next_node (MessageSerializer.message_result m) n = default n (named m).
Proof.
  destruct m as [[t id] payload]. unfold next_node, named. simpl. destruct t; try done.
  destruct (j_parse payload) as [j|]; [|done]. by destruct (_ && _).
Qed.

Lemma registered_named mid payload reg e :
  RegisterHandler.decide_reg payload reg = RegisterHandler.Registered e →
  named (MessageSerializer.REGISTER, mid, payload) = Some (NodeRegistry.node_id e) ∧
  str_empty (NodeRegistry.node_id e) = false.
Proof.
  unfold RegisterHandler.decide_reg, named. destruct (j_parse payload) as [j|]; [|done].
  destruct (RegisterHandler.valid_fields j) eqn:Hf; [|done]. destruct (_ || _); [|done].
  intros [= <-]. unfold RegisterHandler.valid_fields in Hf.
  repeat (apply andb_true_iff in Hf as [Hf ?]). rewrite Hf. simpl in *.
  match goal with E : j_is_string _ = true |- _ => rewrite E end. split; [done|].
  by apply negb_true_iff.
Qed.

(** Of an accepted REGISTER the only name is the node's. *)
Lemma registered_names payload reg e :
  RegisterHandler.decide_reg payload reg = RegisterHandler.Registered e →
  names_ok payload ↔ Logger.text_ok (NodeRegistry.node_id e) = true.
Proof.
  unfold RegisterHandler.decide_reg, names_ok. destruct (j_parse payload) as [j|]; [|done].
  destruct (RegisterHandler.valid_fields j) eqn:Hf; [|done]. destruct (_ || _); [|done].
  intros [= <-]. unfold RegisterHandler.valid_fields in Hf.
  repeat (apply andb_true_iff in Hf as [Hf ?]). split; [by intros Hn; apply Hn|].
  by intros Ht j' [= <-].
Qed.

(** A connection over well-behaved messages. *)
Lemma connection_session idle ml fd ctx w s msgs st :
  0 ≤ fd → Otel.wf (w_otel w) → reg_ok (w_reg w) →
  w_socks w !! fd = Some s → sk_opt_ok s = true → send_ok (sk_snd s) →
  Forall MessageSerializer.message_ok msgs → Forall (λ m, names_ok m.2) msgs →
  view (sk_in s) = (concat (MessageSerializer.message_frame <$> msgs), st) →
  Logger.text_ok (m_nodeId ctx) = true → Logger.text_ok (m_sessionId ctx) = true →
  Logger.text_ok (m_clientIp ctx) = true →
  ∃ w' s' outs node reg' now, handleConnection idle ml fd ctx w = (Ret tt, w') ∧
    session (m_nodeId ctx) (w_reg w) (MessageSerializer.message_result <$> msgs) outs node reg' ∧
    w_socks w' !! fd = Some s' ∧ sk_out s' = sk_out s ++ concat outs ∧
    0 ≤ now ∧ w_reg w' = NodeRegistry.setOffline node now reg'.
Proof.
  intros Hfd Hwf Hok Hs Hopt Hsnd Hmsgs Hnames Hview Hnode Hsid Hip.
  destruct (handleConnection_run idle ml fd ctx w Hfd Hwf Hok)
    as (r & wb & E & _ & _ & _ & _ & Hd).
  assert (configurable fd w = true) as Hcfg by (unfold configurable; by rewrite Hs).
  rewrite Hcfg in Hd. destruct Hd as (n & frs & node & w1 & Hserve & Hd).
  set (wc := configured fd idle (set_reads n w)) in *.
  destruct (configure_run fd idle (set_reads n w)) as (_ & _ & Hreg & _ & _ & _).
  fold wc in Hreg. simpl in Hreg.
  destruct (configured_sock fd idle n w s Hs Hopt) as (sc & Hsc & Hin & Hsnds & Hout).
  fold wc in Hsc.
  destruct (serves_session ml _ fd _ wc frs node w1 msgs st sc Hserve Hsc)
    as (m1 & m2 & outs & s1 & -> & -> & Hses & Hs1 & Ho1 & Hv1);
    [by rewrite Hsnds|done|by rewrite Hin|].
  rewrite Hreg in Hses. apply Forall_app in Hmsgs as [_ Hm2].
  pose proof Hnames as Hnames'. apply Forall_app in Hnames' as [Hn1 Hn2].
  assert (Logger.text_ok node = true) as Htn.
  { eapply session_text; [exact Hses| |done]. apply Forall_fmap.
    eapply Forall_impl; [exact Hn1|]. by intros [[]]. }
  pose proof (frame_at_messages fd w1 s1 m2 st Hs1 Hm2 Hv1) as Hf.
  destruct m2 as [|m m2].
  - rewrite app_nil_r in *. destruct Hd as [(_ & (now & Hnow & Hv) & Hr)|(Hst & _)]; [|done].
    rewrite Hr in E by done.
    destruct (frame_at_view fd w1 s1 _ _ Hs1 Hv1) as (_ & s2 & Hs2 & Ho2 & _ & _).
    exists (teardown fd wb), s2, outs, node, (w_reg w1), now. split_and!; try done.
    + unfold teardown. rewrite (proj2 (Z.leb_le 0 fd)) by done. simpl.
      by rewrite (v_socks _ _ Hv).
    + by rewrite Ho2, Ho1, Hout.
    + unfold teardown. rewrite (proj2 (Z.leb_le 0 fd)) by done. simpl.
      rewrite (v_reg _ _ Hv). simpl. by destruct (after_read_same fd w1) as (-> & _).
  - exfalso. destruct Hf as (Hf & _). apply Forall_cons in Hn2 as [Hnm _].
    destruct m as [[t id] payload]. simpl in Hnm.
    destruct Hd as [(Hst & _)|(_ & _ & Hbad)]; [by rewrite Hf in Hst|].
    destruct (Hbad Hip Hsid) as [Ho _]. apply Ho, outcome_calm; [by rewrite Hf|done..].
Qed.

(** What every way out of the handler does. *)
Lemma connection_resources idle ml fd ctx w :
  Otel.wf (w_otel w) → reg_ok (w_reg w) →
  let w' := (handleConnection idle ml fd ctx w).2 in
  w_closed w' = w_closed w ++ (if 0 <=? fd then [fd] else []) ∧
  w_active w' = u32 (w_active w - 1) ∧
  (∀ fd', fd' ≠ fd → w_socks w' !! fd' = w_socks w !! fd') ∧
  Otel.nested (w_otel w) (w_otel w') ∧ w_log w `prefix_of` w_log w' ∧ reg_ok (w_reg w').
Proof.
  intros Hwf Hok. destruct (Z.leb_spec 0 fd) as [Hfd|Hfd].
  - destruct (handleConnection_run idle ml fd ctx w Hfd Hwf Hok)
      as (r & wb & -> & (Ha & Hc & Hs) & Hn & Hl & Hok' & _).
    unfold teardown. rewrite (proj2 (Z.leb_le 0 fd)) by done. simpl.
    by rewrite Ha, Hc.
  - unfold handleConnection, finally, teardown. rewrite (proj2 (Z.ltb_lt fd 0)) by done.
    simpl. rewrite (proj2 (Z.leb_gt 0 fd)) by done. rewrite app_nil_r. by split_and!.
Qed.
End facts.

(** ** Correctness *)

(** C1: [handleConnection] implements the abstract session.  On a connection
    whose stream is any list of well-formed messages, in whatever pieces and
    with whatever interruptions it arrives and however it ends, the call
    returns; the client has been sent exactly the answers of the session, in
    order; the registry is the one the session leaves, with the node the client
    stands for set OFFLINE; the connection's descriptor has been closed once,
    the count of active connections is one less, and no other socket has been
    touched.  The receive time-out can be set, [send] is interrupted but does
    not fail, and the names the logger writes (the session's, the address, the
    node ids in the messages) are texts it accepts: [long_node_id_throws] is
    what happens otherwise. *)
Theorem connection_refines_session `{CL : Clock} `{!ClockOk} `{RN : Otel.Rng} `{JL : JsonLib}
    `{!JsonLaws} `{MI : NodeRegistry.MapIter} idle ml fd ctx w s msgs st :
  0 ≤ fd → Otel.wf (w_otel w) → reg_ok (w_reg w) →
  w_socks w !! fd = Some s → sk_opt_ok s = true → send_ok (sk_snd s) →
  Forall MessageSerializer.message_ok msgs → Forall (λ m, names_ok m.2) msgs →
  view (sk_in s) = (concat (MessageSerializer.message_frame <$> msgs), st) →
  Logger.text_ok (m_nodeId ctx) = true → Logger.text_ok (m_sessionId ctx) = true →
  Logger.text_ok (m_clientIp ctx) = true →
  ∃ w' s' outs node reg' now, handleConnection idle ml fd ctx w = (Ret tt, w') ∧
    session (m_nodeId ctx) (w_reg w) (MessageSerializer.message_result <$> msgs) outs node reg' ∧
    w_socks w' !! fd = Some s' ∧ sk_out s' = sk_out s ++ concat outs ∧
    0 ≤ now ∧ w_reg w' = NodeRegistry.setOffline node now reg' ∧
    w_closed w' = w_closed w ++ [fd] ∧ w_active w' = u32 (w_active w - 1) ∧
    (∀ fd', fd' ≠ fd → w_socks w' !! fd' = w_socks w !! fd').
Proof.
  intros Hfd Hwf Hok Hs Hopt Hsnd Hm Hn Hv H1 H2 H3.
  destruct (connection_session idle ml fd ctx w s msgs st) as
    (w' & s' & outs & node & reg' & now & E & Hses & Hs' & Hout & Hnow & Hreg); try done.
  destruct (connection_resources idle ml fd ctx w Hwf Hok) as (Hc & Ha & Hk & _).
  rewrite E in Hc, Ha, Hk. rewrite (proj2 (Z.leb_le 0 fd)) in Hc by done.
  by exists w', s', outs, node, reg', now.
Qed.

(** C19: whatever a client sends, and whether the call returns or throws, the
    connection's descriptor is closed exactly once, the count of active
    connections goes down by one, no other descriptor and no other client's
    socket is touched, every span that was opened is closed, log lines are
    only added, and the next connection can rely on the same state of the
    process. *)
Theorem connection_teardown `{CL : Clock} `{!ClockOk} `{RN : Otel.Rng} `{JL : JsonLib}
    `{!JsonLaws} `{MI : NodeRegistry.MapIter} idle ml fd ctx w :
  sound w →
  let w' := (handleConnection idle ml fd ctx w).2 in
  w_closed w' = w_closed w ++ (if 0 <=? fd then [fd] else []) ∧
  w_active w' = u32 (w_active w - 1) ∧
  (∀ fd', fd' ≠ fd → w_socks w' !! fd' = w_socks w !! fd') ∧
  Otel.nested (w_otel w) (w_otel w') ∧ w_log w `prefix_of` w_log w' ∧ sound w'.
Proof.
  intros [Hwf Hok] w'.
  destruct (connection_resources idle ml fd ctx w Hwf Hok) as (Hc & Ha & Hs & Hn & Hl & Hr).
  split_and!; [done..|]. split; [by eapply Otel.nested_wf|done].
Qed.

(** A REGISTER that is refused as a duplicate still makes the connection
    stand for the node: when this client goes away the node is OFFLINE,
    although the client that owns it is still connected. *)
Theorem duplicate_register_evicts `{CL : Clock} `{!ClockOk} `{RN : Otel.Rng} `{JL : JsonLib}
    `{!JsonLaws} `{MI : NodeRegistry.MapIter} idle ml fd ctx w s mid payload nid st :
  0 ≤ fd → Otel.wf (w_otel w) → reg_ok (w_reg w) →
  w_socks w !! fd = Some s → sk_opt_ok s = true → send_ok (sk_snd s) →
  MessageSerializer.message_ok (MessageSerializer.REGISTER, mid, payload) → names_ok payload →
  view (sk_in s) = (MessageSerializer.buildFrame MessageSerializer.REGISTER mid payload, st) →
  Logger.text_ok (m_nodeId ctx) = true → Logger.text_ok (m_sessionId ctx) = true →
  Logger.text_ok (m_clientIp ctx) = true →
  RegisterHandler.decide_reg payload (w_reg w) = RegisterHandler.Duplicate nid →
  let w' := (handleConnection idle ml fd ctx w).2 in
  NodeRegistry.isOffline nid (w_reg w) = false ∧ NodeRegistry.isOffline nid (w_reg w') = true.
Proof.
  intros Hfd Hwf Hok Hs Hopt Hsnd Hmsg Hname Hview Hnode Hsid Hip Hdec.
  destruct (connection_session idle ml fd ctx w s
    [(MessageSerializer.REGISTER, mid, payload)] st Hfd Hwf Hok Hs Hopt Hsnd)
    as (w' & s' & outs & node & reg' & now & -> & Hses & _ & _ & _ & Hreg); try done.
  { by constructor. }
  { by constructor. }
  { simpl. by rewrite app_nil_r. }
  inversion Hses as [|? ? ? ? ? ? ? ? Hnow Hses' E1 E2 E3]. subst.
  inversion Hses'. subst. simpl in Hreg. cbn [snd]. rewrite Hreg. clear Hses Hses' Hreg.
  unfold RegisterHandler.decide_reg in Hdec.
  unfold next_node, reg_after, RegisterHandler.decide_reg. simpl.
  destruct (j_parse payload) as [j|]; [|done].
  destruct (RegisterHandler.valid_fields j) eqn:Hf; [|done].
  destruct (_ || _) eqn:Ho; [done|]. simplify_eq. simpl in *.
  unfold RegisterHandler.valid_fields in Hf. repeat (apply andb_true_iff in Hf as [Hf ?]).
  rewrite Hf. apply orb_false_iff in Ho as [Ho Hc]. split; [done|].
  destruct (j_is_string (j_at j "node_id")); [|done]. simpl.
  apply NodeRegistry.setOffline_isOffline; [by apply negb_true_iff|by apply negb_false_iff].
Qed.

(** A connection stands for the last id it named only: a client that
    registers two nodes and goes away leaves the first one ONLINE, with no
    connection behind it, and only the second one OFFLINE. *)
Theorem first_of_two_stays_online `{CL : Clock} `{!ClockOk} `{RN : Otel.Rng} `{JL : JsonLib}
    `{!JsonLaws} `{MI : NodeRegistry.MapIter} idle ml fd ctx w s mid1 mid2 p1 p2 e1 e2 st :
  0 ≤ fd → Otel.wf (w_otel w) → reg_ok (w_reg w) →
  w_socks w !! fd = Some s → sk_opt_ok s = true → send_ok (sk_snd s) →
  let msgs := [(MessageSerializer.REGISTER, mid1, p1); (MessageSerializer.REGISTER, mid2, p2)] in
  Forall MessageSerializer.message_ok msgs → Forall (λ m, names_ok m.2) msgs →
  view (sk_in s) = (concat (MessageSerializer.message_frame <$> msgs), st) →
  Logger.text_ok (m_nodeId ctx) = true → Logger.text_ok (m_sessionId ctx) = true →
  Logger.text_ok (m_clientIp ctx) = true →
  RegisterHandler.decide_reg p1 (w_reg w) = RegisterHandler.Registered e1 →
  RegisterHandler.decide_reg p2 (<[NodeRegistry.node_id e1 := e1]> (w_reg w))
    = RegisterHandler.Registered e2 →
  NodeRegistry.node_id e1 ≠ NodeRegistry.node_id e2 →
  let w' := (handleConnection idle ml fd ctx w).2 in
  w_reg w' !! NodeRegistry.node_id e1 = Some e1 ∧ NodeRegistry.status e1 = NodeRegistry.ONLINE ∧
  NodeRegistry.isOffline (NodeRegistry.node_id e2) (w_reg w') = true.
Proof.
  intros Hfd Hwf Hok Hs Hopt Hsnd msgs Hmsg Hname Hview Hnode Hsid Hip Hd1 Hd2 Hne.
  destruct (connection_session idle ml fd ctx w s msgs st Hfd Hwf Hok Hs Hopt Hsnd)
    as (w' & s' & outs & node & reg' & now & -> & Hses & _ & _ & _ & Hreg); try done.
  inversion Hses as [|? ? ? ? ? ? ? ? _ Hses' E1 E2 E3]. subst. clear Hses.
  inversion Hses' as [|? ? ? ? ? ? ? ? _ Hses2 E1 E2 E3]. subst. clear Hses'.
  inversion Hses2. subst. clear Hses2. cbn [snd]. rewrite Hreg.
  destruct (registered_named mid2 p2 _ e2 Hd2) as [Hn Hemp].
  pose proof (next_node_named (MessageSerializer.REGISTER, mid2, p2)) as Hnx. rewrite Hn in Hnx.
  simpl in Hnx. rewrite Hnx. unfold reg_after. simpl.
  rewrite Hd1. simpl. rewrite Hd2. simpl.
  split_and!.
  - rewrite NodeRegistry.setOffline_other by done. rewrite lookup_insert_ne by done.
    apply lookup_insert_eq.
  - by eapply RegisterHandler.decide_reg_online.
  - apply NodeRegistry.setOffline_isOffline; [done|].
    unfold NodeRegistry.contains. by rewrite lookup_insert_eq.
Qed.

(** The condition on names in the refinement is needed.  On a REGISTER that is
    accepted but whose node id the logger cuts inside a character, at the
    default log level, [handleConnection] ends in an exception of the JSON
    library, and on that way out the node is not set OFFLINE.  Nothing above
    catches it: [ThreadPool.long_node_id_ends_process]. *)
Theorem long_node_id_throws `{CL : Clock} `{!ClockOk} `{RN : Otel.Rng} `{JL : JsonLib}
    `{!JsonLaws} `{MI : NodeRegistry.MapIter} idle fd ctx w s mid payload rest st e :
  0 ≤ fd → Otel.wf (w_otel w) → reg_ok (w_reg w) →
  w_socks w !! fd = Some s → sk_opt_ok s = true →
  MessageSerializer.message_ok (MessageSerializer.REGISTER, mid, payload) →
  view (sk_in s)
    = (MessageSerializer.buildFrame MessageSerializer.REGISTER mid payload ++ rest, st) →
  Logger.text_ok (m_sessionId ctx) = true → Logger.text_ok (m_clientIp ctx) = true →
  RegisterHandler.decide_reg payload (w_reg w) = RegisterHandler.Registered e →
  ¬ names_ok payload →
  let '(r, w') := handleConnection idle Logger.INFO fd ctx w in
  r ≠ Ret tt ∧ NodeRegistry.queryNode (NodeRegistry.node_id e) (w_reg w') = Some e ∧
  NodeRegistry.isOffline (NodeRegistry.node_id e) (w_reg w') = false ∧
  w_closed w' = w_closed w ++ [fd].
Proof.
  intros Hfd Hwf Hok Hs Hopt (Ht & Hid & Hsz) Hview Hsid Hip Hdec Hbad.
  rewrite (registered_names payload (w_reg w) e Hdec), not_true_iff_false in Hbad.
  destruct (handleConnection_run idle Logger.INFO fd ctx w Hfd Hwf Hok)
    as (r & wb & -> & (_ & Hcl & _) & _ & _ & _ & Hd).
  assert (configurable fd w = true) as Hcfg by (unfold configurable; by rewrite Hs).
  rewrite Hcfg in Hd. destruct Hd as (n & frs & node & w1 & Hserve & Hd).
  set (wc := configured fd idle (set_reads n w)) in *.
  destruct (configure_run fd idle (set_reads n w)) as (_ & _ & Hreg & _ & _ & _).
  fold wc in Hreg. simpl in Hreg.
  destruct (configured_sock fd idle n w s Hs Hopt) as (sc & Hsc & Hin & _ & _). fold wc in Hsc.
  rewrite <-Hin in Hview. destruct (frame_at_view fd wc sc _ _ Hsc Hview) as [Hf _].
  destruct (MessageSerializer.frame_of_stream_build MessageSerializer.REGISTER mid payload
    rest st Ht Hid Hsz) as [Hb _]. rewrite Hb in Hf.
  pose proof (register_outcome_throws (m_sessionId ctx) (m_nodeId ctx) mid payload (w_reg w) e
    Hdec Hbad) as Hthrow.
  inversion Hserve as [? ? ? Hv|? ? fr ? ? ? ? ? Hfr Hst Hnow Ho]; subst.
  2: { by rewrite Hf, Hreg in Ho. }
  rewrite (frame_at_proper _ _ _ Hv), Hf in Hd.
  destruct Hd as [(Hst & _)|(_ & (x & ->) & Hth)]; [done|].
  destruct (Hth Hip Hsid) as (_ & now & _ & Hvb).
  assert (w_reg wb = <[NodeRegistry.node_id e := e]> (w_reg w)) as Hrb.
  { rewrite (v_reg _ _ Hvb), (proj1 (answer_same _ _ _ _)), (v_reg _ _ Hv), Hreg.
    unfold reg_after. simpl. by rewrite Hdec. }
  unfold teardown. rewrite (proj2 (Z.leb_le 0 fd)) by done. simpl.
  unfold NodeRegistry.queryNode, NodeRegistry.isOffline.
  rewrite Hrb, lookup_insert_eq, Hcl. split_and!; try done.
  apply RegisterHandler.decide_reg_online in Hdec. by rewrite Hdec.
Qed.

Section witnesses.
Import Demo.

Definition demo_ctx : ConnectionContext := mkContext "" "s1" "10.0.0.9".
Definition demo_messages : list MessageSerializer.message :=
  [(MessageSerializer.REGISTER, 1, demo_register); (MessageSerializer.HEARTBEAT, 2, "")].

Lemma demo_names : names_ok demo_register.
Proof.
  intros j Hj _ _. assert (j = demo_register_json) as ->.
  { apply (inj Some). rewrite <-Hj. vm_compute. reflexivity. }
  vm_compute. reflexivity.
Qed.

Lemma connection_session_witness :
  let w := demo_world ∅
    [RData (concat (MessageSerializer.message_frame <$> demo_messages)); REof] in
  ∃ w' outs node reg' now,
    handleConnection 30 Logger.INFO 7 demo_ctx w = (Ret tt, w') ∧
    session "" ∅ (MessageSerializer.message_result <$> demo_messages) outs node reg' ∧
    w_reg w' = NodeRegistry.setOffline node now reg' ∧ w_closed w' = [7] ∧ w_active w' = 0.
Proof.
  intros w.
  destruct (connection_refines_session 30 Logger.INFO 7 demo_ctx w
    (mkSock [RData (concat (MessageSerializer.message_frame <$> demo_messages)); REof]
       [] [] None None true) demo_messages StopEof)
    as (w' & s' & outs & node & reg' & now & E & Hses & _ & _ & _ & Hreg & Hc & Ha & _).
  - lia.
  - apply init_otel_wf.
  - apply reg_ok_empty.
  - reflexivity.
  - reflexivity.
  - constructor.
  - repeat constructor; vm_compute; congruence.
  - constructor; [apply demo_names|]. constructor; [|constructor].
    intros j Hj. vm_compute in Hj. discriminate.
  - vm_compute. reflexivity.
  - reflexivity.
  - vm_compute. reflexivity.
  - vm_compute. reflexivity.
  - exists w', outs, node, reg', now. exact (conj E (conj Hses (conj Hreg (conj Hc Ha)))).
Defined.

Lemma connection_teardown_witness :
  let w := demo_world ∅ [RData [x00; x00]; RErr ECONNRESET] in
  w_closed (handleConnection 30 Logger.INFO 7 demo_ctx w).2 = [7].
Proof.
  intros w. destruct (connection_teardown 30 Logger.INFO 7 demo_ctx w) as (Hc & _);
    [split; [apply init_otel_wf|apply reg_ok_empty]|exact Hc].
Defined.

Lemma duplicate_register_witness :
  let e := NodeRegistry.mkNodeEntry "N1" "B" "10.0.0.1" 25 NodeRegistry.ONLINE 0 in
  let w := demo_world {[ "N1" := e ]}
    [RData (MessageSerializer.buildFrame MessageSerializer.REGISTER 1 demo_register); REof] in
  NodeRegistry.isOffline "N1" (w_reg (handleConnection 30 Logger.INFO 7 demo_ctx w).2) = true.
Proof.
  intros e w.
  destruct (duplicate_register_evicts 30 Logger.INFO 7 demo_ctx w
    (mkSock [RData (MessageSerializer.buildFrame MessageSerializer.REGISTER 1 demo_register); REof]
       [] [] None None true) 1 demo_register "N1" StopEof) as [_ Hoff].
  - lia.
  - apply init_otel_wf.
  - apply (reg_ok_insert "N1" e ∅); [apply reg_ok_empty|by repeat split|done|done].
  - reflexivity.
  - reflexivity.
  - constructor.
  - repeat constructor; vm_compute; congruence.
  - apply demo_names.
  - vm_compute. reflexivity.
  - reflexivity.
  - vm_compute. reflexivity.
  - vm_compute. reflexivity.
  - vm_compute. reflexivity.
  - exact Hoff.
Defined.

Lemma register_names nid j :
  j_parse (register_text nid) = Some j → j_get_string (j_at j "node_id") = nid →
  Logger.text_ok nid = true → names_ok (register_text nid).
Proof. intros Hj Hn Ht j' Hj' _ _. rewrite Hj in Hj'. injection Hj' as <-. by rewrite Hn. Qed.

Definition two_registers : list MessageSerializer.message :=
  [(MessageSerializer.REGISTER, 1, demo_register); (MessageSerializer.REGISTER, 2, register_text "N2")].

Lemma first_of_two_witness :
  let w := demo_world ∅
    [RData (concat (MessageSerializer.message_frame <$> two_registers)); REof] in
  NodeRegistry.isOffline "N1" (w_reg (handleConnection 30 Logger.INFO 7 demo_ctx w).2) = false.
Proof.
  intros w.
  destruct (first_of_two_stays_online 30 Logger.INFO 7 demo_ctx w
    (mkSock [RData (concat (MessageSerializer.message_frame <$> two_registers)); REof]
       [] [] None None true) 1 2 demo_register (register_text "N2")
    (NodeRegistry.mkNodeEntry "N1" "B" "10.0.0.1" 25 NodeRegistry.ONLINE 0)
    (NodeRegistry.mkNodeEntry "N2" "B" "10.0.0.1" 25 NodeRegistry.ONLINE 0) StopEof) as (Hl & _).
  - lia.
  - apply init_otel_wf.
  - apply reg_ok_empty.
  - reflexivity.
  - reflexivity.
  - constructor.
  - repeat constructor; vm_compute; congruence.
  - constructor; [apply demo_names|]. constructor; [|constructor].
    by eapply register_names; [vm_compute; reflexivity..|].
  - vm_compute. reflexivity.
  - reflexivity.
  - vm_compute. reflexivity.
  - vm_compute. reflexivity.
  - vm_compute. reflexivity.
  - vm_compute. reflexivity.
  - done.
  - unfold NodeRegistry.isOffline. simpl NodeRegistry.node_id in Hl. by rewrite Hl.
Defined.

Lemma long_node_id_witness :
  let f := MessageSerializer.buildFrame MessageSerializer.REGISTER 1
             (register_text Logger.long_node_id) in
  (handleConnection 30 Logger.INFO 7 demo_ctx (demo_world ∅ [RData f; REof])).1 ≠ Ret tt.
Proof.
  intros f.
  pose proof (long_node_id_throws 30 7 demo_ctx (demo_world ∅ [RData f; REof])
    (mkSock [RData f; REof] [] [] None None true) 1 (register_text Logger.long_node_id) [] StopEof
    (NodeRegistry.mkNodeEntry Logger.long_node_id "B" "10.0.0.1" 25 NodeRegistry.ONLINE 0)) as H.
  destruct (handleConnection _ _ _ _ _) as [r w']. apply H; clear H.
  - lia.
  - apply init_otel_wf.
  - apply reg_ok_empty.
  - reflexivity.
  - reflexivity.
  - repeat constructor; vm_compute; congruence.
  - vm_compute. reflexivity.
  - vm_compute. reflexivity.
  - vm_compute. reflexivity.
  - vm_compute. reflexivity.
  - rewrite (registered_names (register_text Logger.long_node_id) ∅
      (NodeRegistry.mkNodeEntry Logger.long_node_id "B" "10.0.0.1" 25 NodeRegistry.ONLINE 0))
      by (vm_compute; reflexivity).
    vm_compute. congruence.
Defined.
End witnesses.

End ConnectionSpec.
