(* ===== verification/WorkQueue.v ===== *)
(** * WorkQueue: accepted sockets on their way to a worker

    Models [include/workQueue.hpp] and [src/workQueue.cpp].  Every method
    holds the mutex for its effect, so each is one atomic function (that the
    threads cannot tell the difference is proved in [PoolThreads.v]); the
    descriptors it closes are part of its result.  [dequeue] returns [None]
    where the code waits on the condition variable. *)

From S2P Require Import Prelude.
Local Open Scope Z_scope.

Module WorkQueue.

Record AcceptedSocket := mkAccepted { fd : Z; ip : string }.

#[global] Instance AcceptedSocket_eq_dec : EqDecision AcceptedSocket.
Proof. solve_decision. Defined.

Record state := mkQueue {
  m_queue : list AcceptedSocket;
  m_stopped : bool
}.

Definition init : state := mkQueue [] false.

Definition enqueue (socket : AcceptedSocket) (q : state) : list Z * state :=
  if m_stopped q then ([fd socket], q)
  else ([], mkQueue (m_queue q ++ [socket]) (m_stopped q)).

(** The predicate of the wait. *)
Definition ready (q : state) : bool :=
  negb (bool_decide (m_queue q = [])) || m_stopped q.

Definition dequeue (q : state) : option (option AcceptedSocket * state) :=
  if ready q then
    match m_queue q with
    | s :: rest => Some (Some s, mkQueue rest (m_stopped q))
    | [] => Some (None, q)
    end
  else None.

(** The [while (!m_queue.empty())] of [stop]. *)
Fixpoint drain (queue : list AcceptedSocket) (closed : list Z) : list Z :=
  match queue with
  | [] => closed
  | s :: queue => drain queue (closed ++ [fd s])
  end.

Definition stop (q : state) : list Z * state :=
  if m_stopped q then ([], q)
  else (drain (m_queue q) [], mkQueue [] true).

Definition size (q : state) : nat := length (m_queue q).
Definition isStopped (q : state) : bool := m_stopped q.

(** ** Interleavings of calls *)

Inductive op :=
| Enqueue (s : AcceptedSocket)
| Dequeue
| Stop.

(** What the callers have seen so far: sockets offered, sockets handed to
    workers, descriptors closed by the queue. *)
Record history := mkHistory {
  offered : list AcceptedSocket;
  taken : list AcceptedSocket;
  closed : list Z
}.

(** A waiting [dequeue] has not happened yet. *)
Definition step (o : op) (qh : state * history) : state * history :=
  let '(q, h) := qh in
  match o with
  | Enqueue s =>
      let '(c, q') := enqueue s q in
      (q', mkHistory (offered h ++ [s]) (taken h) (closed h ++ c))
  | Dequeue =>
      match dequeue q with
      | Some (Some s, q') => (q', mkHistory (offered h) (taken h ++ [s]) (closed h))
      | _ => qh
      end
  | Stop =>
      let '(c, q') := stop q in
      (q', mkHistory (offered h) (taken h) (closed h ++ c))
  end.

Definition run (ops : list op) : state * history :=
  fold_left (λ qh o, step o qh) ops (init, mkHistory [] [] []).

(** ** Lemmas *)

Lemma drain_spec queue acc : drain queue acc = acc ++ (fd <$> queue).
Proof.
  revert acc. induction queue as [|s queue IH]; intros acc; simpl.
  - by rewrite app_nil_r.
  - by rewrite IH, <-app_assoc.
Qed.

(** Nothing is lost, nothing is duplicated, order is kept, and the queue
    closes descriptors only once it is stopped, when it is empty for good. *)
Definition inv (qh : state * history) : Prop :=
  let '(q, h) := qh in
  fd <$> offered h = (fd <$> taken h) ++ (fd <$> m_queue q) ++ closed h ∧
  taken h `prefix_of` offered h ∧
  (m_stopped q = true → m_queue q = []) ∧
  (m_stopped q = false → closed h = [] ∧ offered h = taken h ++ m_queue q).

Lemma queue_step_inv o qh : inv qh → inv (step o qh).
Proof.
  destruct qh as [q h]. intros (Ho & Hp & Hs & Hr). destruct o as [s| |]; simpl.
  - unfold enqueue. destruct (m_stopped q) eqn:E; simpl; rewrite ?E.
    + split_and!; [|by apply prefix_app_r|done|done].
      rewrite fmap_app, Ho, (Hs eq_refl). simpl. by rewrite <-app_assoc.
    + destruct (Hr eq_refl) as [Hc Hq]. rewrite app_nil_r.
      split_and!; [|by apply prefix_app_r|done|intros _; split; [done|]].
      * rewrite !fmap_app, Ho, Hc, !app_nil_r. by rewrite <-app_assoc.
      * by rewrite Hq, <-app_assoc.
  - unfold dequeue, ready.
    destruct (m_queue q) as [|s rest] eqn:Eq; simpl.
    { destruct (m_stopped q) eqn:E; simpl; rewrite ?Eq, ?E; done. }
    destruct (m_stopped q) eqn:E; simpl; [by specialize (Hs eq_refl)|].
    destruct (Hr eq_refl) as [Hc Hq]. split_and!.
    + rewrite Ho, fmap_app. simpl. by rewrite <-app_assoc.
    + rewrite Hq. change (s :: rest) with ([s] ++ rest). rewrite app_assoc. by eexists.
    + done.
    + intros _. split; [done|]. by rewrite Hq, <-app_assoc.
  - unfold stop. destruct (m_stopped q) eqn:E; simpl.
    + rewrite E, app_nil_r. by split_and!.
    + rewrite drain_spec. destruct (Hr eq_refl) as [Hc Hq]. split_and!; try done.
      rewrite Ho, Hc, !app_nil_r. done.
Qed.

Lemma fold_inv ops qh : inv qh → inv (fold_left (λ qh o, step o qh) ops qh).
Proof.
  revert qh. induction ops as [|o ops IH]; intros qh Hqh; [done|]. simpl. by apply IH, queue_step_inv.
Qed.

Lemma run_inv ops : inv (run ops).
Proof. apply fold_inv. by split_and!. Qed.

(** ** Correctness *)

(** Under every interleaving of [enqueue], [dequeue] and [stop] by any
    number of threads, workers get the sockets in the order they were
    offered, and every offered descriptor is in exactly one place: handed to a
    worker, still queued, or closed by the queue; it is closed by the queue
    only after [stop], and then nothing is left queued and every waiting or
    later [dequeue] returns at once without a socket. *)
Theorem workqueue_fifo ops :
  let '(q, h) := run ops in
  fd <$> offered h = (fd <$> taken h) ++ (fd <$> m_queue q) ++ closed h ∧
  taken h `prefix_of` offered h ∧
  (m_stopped q = true → m_queue q = [] ∧ dequeue q = Some (None, q)) ∧
  (m_stopped q = false → closed h = []).
Proof.
  pose proof (run_inv ops) as Hi. destruct (run ops) as [q h].
  destruct Hi as (H1 & H2 & H3 & H4). split_and!; [done|done| |intros Hst; by apply H4].
  intros Hst. specialize (H3 Hst). split; [done|].
  unfold dequeue, ready. by rewrite H3, Hst.
Qed.

End WorkQueue.
