(* ===== verification/ThreadPool.v ===== *)
(** * ThreadPool: workers

    Models [include/threadPool.hpp] and [src/threadPool.cpp]: the body of
    [workerLoop] for one accepted socket, the loop over the work queue, the
    constructor and [shutdown].  Whether [std::thread] can be created is a
    parameter; joining waits for the worker and has no state of its own.
    [workerLoop] has no handler: an exception that leaves it reaches the
    function of the thread, where [std::terminate] ends the process
    ([worker_thread]). *)

From S2P Require Import Prelude Net Registry Session Time Otel Json Serializer JsonRef World.
From S2P Require Import Concrete Logger Effects Payloads Sender RegisterHandler ConnectionWorker ConnectionSpec.
From S2P Require Import WorkQueue.
Local Open Scope Z_scope.

Module ThreadPool.

Definition GRACEFUL_SHUTDOWN_TIMEOUT_SECS : Z := 15.

(** ** Construction and shutdown *)

Record pool := mkPool {
  m_workers : nat;
  m_shutdown : bool
}.

(** The spawning loop from index [i], [n] to go: the number of threads, and
    whether all of them could be created. *)
Fixpoint spawn (can_spawn : nat → bool) (i n : nat) : nat * bool :=
  match n with
  | O => (i, true)
  | S n => if can_spawn i then spawn can_spawn (S i) n else (i, false)
  end.

(** The constructor: [inl] when it rethrows, after stopping the queue and
    joining the threads already created. *)
Definition construct (can_spawn : nat → bool) (threadPoolSize : Z) (q : WorkQueue.state)
    : (list Z * WorkQueue.state) + pool :=
  let '(k, ok) := spawn can_spawn 0 (Z.to_nat threadPoolSize) in
  if (ok : bool) then inr (mkPool k false) else inl (WorkQueue.stop q).

(** Closed descriptors, the queue, the pool, and the watchdog if one is
    started (the seconds after which it ends the process). *)
Definition shutdown (p : pool) (q : WorkQueue.state)
    : list Z * WorkQueue.state * pool * option Z :=
  if m_shutdown p then ([], q, p, None)
  else
    let '(closed, q') := WorkQueue.stop q in
    (closed, q', mkPool 0 true, Some GRACEFUL_SHUTDOWN_TIMEOUT_SECS).

Definition workerCount (threadPoolSize : Z) : Z := threadPoolSize.

(** ** Workers *)

Section worker.
Context `{CL : Clock} `{RN : Otel.Rng} `{JL : JsonLib} `{MI : NodeRegistry.MapIter}.

Definition getIso8601Timestamp : M string := now ← sys_now; mret (Time.iso8601 now).

(** One iteration, after a socket has been dequeued. *)
Definition serve_socket (idle : Z) (ml : Logger.Level) (s : WorkQueue.AcceptedSocket)
    (sm : SessionManager.state) : M SessionManager.state :=
  let clientFd := WorkQueue.fd s in
  let clientIp := WorkQueue.ip s in
  let '(sessionId, sm) := SessionManager.nextSessionId sm in
  let '(msgId, sm) := SessionManager.nextMessageId sm in
  timestamp ← getIso8601Timestamp;
  payload ← Payloads.buildWelcomePayload (Payloads.mkWelcome "0.1.0" timestamp sessionId);
  sent_ok ← sendAll clientFd (MessageSerializer.buildFrame MessageSerializer.ACK msgId payload);
  if negb sent_ok then
    modify (λ w, let w := close_fd clientFd w in set_active (u32 (w_active w - 1)) w);;
    mret sm
  else
    ConnectionWorker.handleConnection idle ml clientFd
      (ConnectionWorker.mkContext "" sessionId clientIp);;
    mret sm.

Inductive worker_end := Waiting | Finished.

(** The loop of a worker that has the queue to itself: it ends when the queue
    is stopped and empty, and waits when it is empty.  Each iteration takes a
    socket, so one more than the number of queued sockets is enough fuel. *)
Fixpoint workerLoop (fuel : nat) (idle : Z) (ml : Logger.Level) (q : WorkQueue.state)
    (sm : SessionManager.state) : M (worker_end * WorkQueue.state * SessionManager.state) :=
  match fuel with
  | O => mret (Waiting, q, sm)
  | S fuel =>
      match WorkQueue.dequeue q with
      | None => mret (Waiting, q, sm)
      | Some (None, q) => mret (Finished, q, sm)
      | Some (Some s, q) =>
          sm ← serve_socket idle ml s sm;
          workerLoop fuel idle ml q sm
      end
  end.

(** The function a worker thread runs; [None] when the process ends in
    [std::terminate]. *)
Definition worker_thread (fuel : nat) (idle : Z) (ml : Logger.Level) (q : WorkQueue.state)
    (sm : SessionManager.state) (w : world)
    : option (worker_end * WorkQueue.state * SessionManager.state * world) :=
  match workerLoop fuel idle ml q sm w with
  | (Ret r, w') => Some (r, w')
  | (Throw _, _) => None
  end.
End worker.

(** ** Lemmas *)

Section facts.
Context `{CL : Clock} `{!ClockOk} `{RN : Otel.Rng} `{JL : JsonLib} `{!JsonLaws}.
Context `{MI : NodeRegistry.MapIter}.

Lemma session_id_text sm :
  Utf8.valid (SessionManager.nextSessionId sm).1 = true ∧
  Logger.text_ok (SessionManager.nextSessionId sm).1 = true.
Proof.
  unfold SessionManager.nextSessionId. cbn [fst].
  set (id := wrap 64 _). assert (0 ≤ id < 2 ^ 64) as Hid by (apply wrap_range; lia).
  assert (Utf8.valid (hex_padded SessionManager.SESSION_ID_HEX_WIDTH id) = true) as Hv.
  { apply Utf8.valid_ascii, hex_text_ascii, hex_padded_hex. lia. }
  split; [done|]. apply Logger.text_ok_short; [done|].
  rewrite hex_padded_length.
  - vm_compute. lia.
  - vm_compute. lia.
  - exact Hid.
Qed.

(** The greeting. *)
Definition welcome (sm : SessionManager.state) (now : Z) : list byte :=
  MessageSerializer.buildFrame MessageSerializer.ACK
    (SessionManager.nextMessageId (SessionManager.nextSessionId sm).2).1
    (Payloads.text_of (Payloads.welcome_json
       (Payloads.mkWelcome "0.1.0" (Time.iso8601 now) (SessionManager.nextSessionId sm).1))).

Definition welcome_message (sm : SessionManager.state) (now : Z) : MessageSerializer.message :=
  (MessageSerializer.ACK, (SessionManager.nextMessageId (SessionManager.nextSessionId sm).2).1,
   Payloads.text_of (Payloads.welcome_json
     (Payloads.mkWelcome "0.1.0" (Time.iso8601 now) (SessionManager.nextSessionId sm).1))).

Definition sessions_after (sm : SessionManager.state) : SessionManager.state :=
  (SessionManager.nextMessageId (SessionManager.nextSessionId sm).2).2.

Lemma welcome_json_utf8 sm now :
  0 ≤ now →
  j_utf8 (Payloads.welcome_json
    (Payloads.mkWelcome "0.1.0" (Time.iso8601 now) (SessionManager.nextSessionId sm).1)).
Proof.
  intros Hn. apply Payloads.welcome_utf8; [done| |apply session_id_text].
  by apply Utf8.valid_ascii, Time.iso8601_ascii.
Qed.

(** One socket: the greeting is sent, then the connection is handled. *)
Lemma serve_socket_unfold idle ml s sm w :
  let now := sys_clock (w_reads w) in
  ∃ ok w1, 0 ≤ now ∧
    sendAll (WorkQueue.fd s) (welcome sm now) (set_reads (S (w_reads w)) w) = (Ret ok, w1) ∧
    serve_socket idle ml s sm w =
      if ok then
        match ConnectionWorker.handleConnection idle ml (WorkQueue.fd s)
                (ConnectionWorker.mkContext "" (SessionManager.nextSessionId sm).1
                   (WorkQueue.ip s)) w1 with
        | (Ret _, w2) => (Ret (sessions_after sm), w2)
        | (Throw e, w2) => (Throw e, w2)
        end
      else
        (Ret (sessions_after sm),
         set_active (u32 (w_active w1 - 1)) (close_fd (WorkQueue.fd s) w1)).
Proof.
  intros now. pose proof (sys_clock_nonneg (w_reads w)) as Hn. fold now in Hn.
  destruct (send_returns (sender := sendAll (WorkQueue.fd s)) (welcome sm now)
    (set_reads (S (w_reads w)) w)) as [ok Hok].
  destruct (sendAll (WorkQueue.fd s) (welcome sm now) _) as [r w1] eqn:E.
  simpl in Hok. subst r. exists ok, w1. split_and!; [done|done|].
  unfold serve_socket. pose proof (welcome_json_utf8 sm now Hn) as Hu.
  unfold welcome, sessions_after in *.
  destruct (SessionManager.nextSessionId sm) as [sid sm1]. cbn [fst snd] in *.
  destruct (SessionManager.nextMessageId sm1) as [mid sm2]. cbn [fst snd] in *.
  erewrite (bind_run getIso8601Timestamp) by reflexivity. fold now.
  unfold Payloads.buildWelcomePayload, dump. rewrite (Payloads.dump_text _ Hu).
  erewrite (bind_run (mret _)) by reflexivity. rewrite (bind_run _ _ _ _ _ E).
  destruct ok; [|reflexivity]. cbn [negb]. unfold mbind, M_bind.
  by destruct (ConnectionWorker.handleConnection _ _ _ _ w1) as [[] w2].
Qed.

(** A socket that takes the greeting. *)
Lemma greeted idle ml a sm w s :
  w_socks w !! WorkQueue.fd a = Some s → sk_opt_ok s = true → send_ok (sk_snd s) →
  ∃ w1 s1,
    serve_socket idle ml a sm w =
      match ConnectionWorker.handleConnection idle ml (WorkQueue.fd a)
              (ConnectionWorker.mkContext "" (SessionManager.nextSessionId sm).1
                 (WorkQueue.ip a)) w1 with
      | (Ret _, w2) => (Ret (sessions_after sm), w2)
      | (Throw e, w2) => (Throw e, w2)
      end ∧
    w_socks w1 !! WorkQueue.fd a = Some s1 ∧ sk_in s1 = sk_in s ∧ send_ok (sk_snd s1) ∧
    sk_out s1 = sk_out s ++ welcome sm (sys_clock (w_reads w)) ∧ sk_opt_ok s1 = true ∧
    w_reg w1 = w_reg w ∧ w_otel w1 = w_otel w.
Proof.
  intros Hs Hopt Hsnd.
  destruct (serve_socket_unfold idle ml a sm w) as (ok & w1 & Ht & E & Hserve).
  set (t := sys_clock (w_reads w)) in *.
  set (w0 := set_reads (S (w_reads w)) w) in *.
  destruct (ConnectionSpec.answer_sock (WorkQueue.fd a) (w_reg w0) (Some (welcome sm t)) w0 s)
    as (s1 & Hs1 & Hin1 & Hsnd1 & Hout1); [done|done|].
  unfold ConnectionWorker.answer, sent in Hs1. rewrite set_reg_same, E in Hs1. simpl in Hs1.
  assert (ok = true) as ->.
  { revert E. unfold sendAll. change (w_socks w0) with (w_socks w). rewrite Hs.
    destruct (MessageSerializer.sendAll _ _) as [[b out] ws] eqn:Es. intros E. simplify_eq.
    by apply (MessageSerializer.sendAll_spec _ _ _ _ _ Es). }
  destruct (sendAll_same (WorkQueue.fd a) (welcome sm t) w0) as (_ & _ & Hr & Ho & _).
  rewrite E in Hr, Ho. simpl in Hr, Ho.
  assert (sk_opt_ok s1 = true) as Hopt1.
  { revert E. unfold sendAll. change (w_socks w0) with (w_socks w). rewrite Hs.
    destruct (MessageSerializer.sendAll _ _) as [[b out] ws]. intros E. simplify_eq.
    simpl in Hs1. rewrite lookup_insert_eq in Hs1. by simplify_eq. }
  exists w1, s1. split_and!; try done. rewrite Hout1. simpl. by rewrite app_nil_r.
Qed.

(** What a worker does with a socket, however it ends. *)
Definition released (fds : list Z) (w w' : world) : Prop :=
  w_closed w' = w_closed w ++ fds ∧
  w_active w' = u32 (w_active w - Z.of_nat (length fds)) ∧
  (∀ fd', fd' ∉ fds → w_socks w' !! fd' = w_socks w !! fd') ∧
  Otel.nested (w_otel w) (w_otel w') ∧ reg_ok (w_reg w').

Lemma released_nil w : reg_ok (w_reg w) → in_width 32 (w_active w) → released [] w w.
Proof.
  intros Hok Ha. split_and!; [by rewrite app_nil_r| |done|reflexivity|done].
  simpl. rewrite Z.sub_0_r. symmetry. by apply wrap_small.
Qed.

Lemma released_trans fds1 fds2 w1 w2 w3 :
  released fds1 w1 w2 → released fds2 w2 w3 → released (fds1 ++ fds2) w1 w3.
Proof.
  intros (C1 & A1 & S1 & O1 & R1) (C2 & A2 & S2 & O2 & R2). split_and!; [| | | |done].
  - by rewrite C2, C1, app_assoc.
  - rewrite A2, A1, length_app. unfold wrap. rewrite Zminus_mod_idemp_l. f_equal. lia.
  - intros fd' Hni. rewrite elem_of_app in Hni. rewrite S2 by tauto. apply S1. tauto.
  - by etrans.
Qed.

Lemma serve_socket_run idle ml s sm w :
  0 ≤ WorkQueue.fd s → Otel.wf (w_otel w) → reg_ok (w_reg w) →
  released [WorkQueue.fd s] w (serve_socket idle ml s sm w).2 ∧
  ((serve_socket idle ml s sm w).1 = Ret (sessions_after sm) ∨
   ∃ e, (serve_socket idle ml s sm w).1 = Throw e).
Proof.
  intros Hfd Hwf Hok.
  destruct (serve_socket_unfold idle ml s sm w) as (ok & w1 & Hn & E & ->).
  set (now := sys_clock (w_reads w)) in *.
  destruct (sendAll_same (WorkQueue.fd s) (welcome sm now) (set_reads (S (w_reads w)) w))
    as (Hc & Ha & Hr & Ho & Hl & Hs). rewrite E in Hc, Ha, Hr, Ho, Hl, Hs. simpl in *.
  destruct ok.
  - set (ctx := ConnectionWorker.mkContext _ _ _).
    destruct (ConnectionSpec.connection_resources idle ml (WorkQueue.fd s) ctx w1)
      as (Hc' & Ha' & Hs' & Ho' & _ & Hr'); [by rewrite Ho|by rewrite Hr|].
    rewrite (proj2 (Z.leb_le 0 (WorkQueue.fd s))) in Hc' by done.
    assert (released [WorkQueue.fd s] w
      (ConnectionWorker.handleConnection idle ml (WorkQueue.fd s) ctx w1).2).
    { split_and!.
      - by rewrite Hc', Hc.
      - by rewrite Ha', Ha.
      - intros fd' Hne. rewrite Hs', Hs; [done|set_solver..].
      - by rewrite <-Ho.
      - done. }
    destruct (ConnectionWorker.handleConnection _ _ _ _ w1) as [[] w2]; simpl in *; eauto.
  - simpl. split; [|by left]. split_and!; simpl.
    + by rewrite Hc.
    + by rewrite Ha.
    + intros fd' Hne. apply Hs. set_solver.
    + by rewrite Ho.
    + by rewrite Hr.
Qed.
End facts.

(** ** Correctness *)

(** A worker that has the queue to itself serves the queued sockets in
    order and, unless a connection throws, all of them: it ends (or waits for
    more when the queue is not stopped) with an empty queue, has closed
    exactly the descriptors of the sockets it served, once each and in order,
    and has taken exactly that many off the count of active connections.  If
    a connection throws, the sockets up to and including it have been
    released in the same way. *)
Theorem worker_drains_queue `{CL : Clock} `{!ClockOk} `{RN : Otel.Rng} `{JL : JsonLib}
    `{!JsonLaws} `{MI : NodeRegistry.MapIter} fuel idle ml q sm w :
  (length (WorkQueue.m_queue q) < fuel)%nat →
  Forall (λ s, 0 ≤ WorkQueue.fd s) (WorkQueue.m_queue q) →
  Otel.wf (w_otel w) → reg_ok (w_reg w) → in_width 32 (w_active w) →
  let '(r, w') := workerLoop fuel idle ml q sm w in
  match r with
  | Ret (e, q', sm') =>
      q' = WorkQueue.mkQueue [] (WorkQueue.m_stopped q) ∧
      e = (if WorkQueue.m_stopped q then Finished else Waiting) ∧
      released (WorkQueue.fd <$> WorkQueue.m_queue q) w w'
  | Throw _ =>
      ∃ n, (0 < n ≤ length (WorkQueue.m_queue q))%nat ∧
        released (WorkQueue.fd <$> take n (WorkQueue.m_queue q)) w w'
  end.
Proof.
  revert q sm w. induction fuel as [|fuel IH];
    intros [queue stopped] sm w Hf Hfds Hwf Hok Hact; [lia|].
  simpl in Hf, Hfds |- *. unfold WorkQueue.dequeue, WorkQueue.ready. simpl.
  destruct Hfds as [|s queue Hs Hfds]; simpl.
  { pose proof (released_nil w Hok Hact). by destruct stopped. }
  unfold mbind at 1, M_bind.
  destruct (serve_socket_run idle ml s sm w Hs Hwf Hok) as [Hrel Hres].
  destruct (serve_socket idle ml s sm w) as [r w1]. simpl in Hrel, Hres.
  destruct Hres as [->|[e ->]].
  2: { exists 1%nat. split; [lia|]. done. }
  pose proof Hrel as (_ & Ha1 & _ & Ho1 & Hok1).
  assert (in_width 32 (w_active w1)) as Hact1 by (rewrite Ha1; apply wrap_range; lia).
  specialize (IH (WorkQueue.mkQueue queue stopped) (sessions_after sm) w1
    ltac:(simpl in *; lia) Hfds (Otel.nested_wf _ _ Ho1 Hwf) Hok1 Hact1).
  destruct (workerLoop fuel idle ml _ _ w1) as [r w']. simpl in IH.
  destruct r as [[[e q'] sm']|e].
  - destruct IH as (-> & -> & Hrel'). split_and!; [done..|].
    apply (released_trans [WorkQueue.fd s] _ _ _ _ Hrel Hrel').
  - destruct IH as (n & Hn & Hrel'). exists (S n). split; [lia|].
    apply (released_trans [WorkQueue.fd s] _ _ _ _ Hrel Hrel').
Qed.

(** A client's whole connection. *)
Lemma client_run `{CL : Clock} `{!ClockOk} `{RN : Otel.Rng} `{JL : JsonLib}
    `{!JsonLaws} `{MI : NodeRegistry.MapIter} idle ml a sm w s msgs st :
  0 ≤ WorkQueue.fd a → Otel.wf (w_otel w) → reg_ok (w_reg w) →
  w_socks w !! WorkQueue.fd a = Some s → sk_opt_ok s = true → send_ok (sk_snd s) →
  sk_out s = [] → Logger.text_ok (WorkQueue.ip a) = true →
  Forall MessageSerializer.message_ok msgs → Forall (λ m, ConnectionSpec.names_ok m.2) msgs →
  view (sk_in s) = (concat (MessageSerializer.message_frame <$> msgs), st) →
  ∃ w' s' outs node reg' now,
    serve_socket idle ml a sm w = (Ret (sessions_after sm), w') ∧
    w_socks w' !! WorkQueue.fd a = Some s' ∧
    sk_out s' = welcome sm (sys_clock (w_reads w)) ++ concat outs ∧
    ConnectionSpec.session "" (w_reg w) (MessageSerializer.message_result <$> msgs)
      outs node reg' ∧
    w_reg w' = NodeRegistry.setOffline node now reg'.
Proof.
  intros Hfd Hwf Hok Hs Hopt Hsnd Hout Hip Hmsgs Hnames Hview.
  destruct (greeted idle ml a sm w s Hs Hopt Hsnd)
    as (w1 & s1 & Hserve & Hs1 & Hin1 & Hsnd1 & Hout1 & Hopt1 & Hr & Ho).
  destruct (ConnectionSpec.connection_session idle ml (WorkQueue.fd a)
    (ConnectionWorker.mkContext "" (SessionManager.nextSessionId sm).1 (WorkQueue.ip a))
    w1 s1 msgs st) as (w' & s' & outs & node & reg' & now & E' & Hses & Hs' & Ho' & _ & Hreg');
    try done.
  - by rewrite Ho.
  - by rewrite Hr.
  - by rewrite Hin1.
  - apply session_id_text.
  - rewrite E' in Hserve. exists w', s', outs, node, reg', now. split_and!; try done.
    + by rewrite Ho', Hout1, Hout.
    + by rewrite <-Hr.
Qed.

(** C22: the whole life of a client.  An accepted socket is greeted by one ACK
    frame that carries the session's id, then the client's messages are
    answered as the abstract session prescribes, in order and with nothing in
    between, whatever the chunking on the wire; when the client goes away its
    node is set OFFLINE, the worker is ready for the next socket and the two
    identifier counters have moved by one. *)
Theorem client_lifetime `{CL : Clock} `{!ClockOk} `{RN : Otel.Rng} `{JL : JsonLib}
    `{!JsonLaws} `{MI : NodeRegistry.MapIter} idle ml a sm w s msgs st :
  0 ≤ WorkQueue.fd a → Otel.wf (w_otel w) → reg_ok (w_reg w) →
  w_socks w !! WorkQueue.fd a = Some s → sk_opt_ok s = true → send_ok (sk_snd s) →
  sk_out s = [] → Logger.text_ok (WorkQueue.ip a) = true →
  Forall MessageSerializer.message_ok msgs → Forall (λ m, ConnectionSpec.names_ok m.2) msgs →
  view (sk_in s) = (concat (MessageSerializer.message_frame <$> msgs), st) →
  ∃ w' s' outs node reg' now,
    serve_socket idle ml a sm w = (Ret (sessions_after sm), w') ∧
    w_socks w' !! WorkQueue.fd a = Some s' ∧
    sk_out s' = welcome sm (sys_clock (w_reads w)) ++ concat outs ∧
    ConnectionSpec.session "" (w_reg w) (MessageSerializer.message_result <$> msgs)
      outs node reg' ∧
    w_reg w' = NodeRegistry.setOffline node now reg'.
Proof. apply client_run. Qed.

(** C31: one client can end the server: a connection whose first message is a
    REGISTER that is accepted, but whose node id the logger cuts inside a
    character, makes the worker's log call throw, and since nothing catches the
    exception the process ends in [std::terminate], with every other
    connection. *)
Theorem long_node_id_ends_process `{CL : Clock} `{!ClockOk} `{RN : Otel.Rng} `{JL : JsonLib}
    `{!JsonLaws} `{MI : NodeRegistry.MapIter} fuel idle a q sm w s mid payload rest st e :
  WorkQueue.m_queue q = a :: rest →
  0 ≤ WorkQueue.fd a → Otel.wf (w_otel w) → reg_ok (w_reg w) →
  w_socks w !! WorkQueue.fd a = Some s → sk_opt_ok s = true → send_ok (sk_snd s) →
  Logger.text_ok (WorkQueue.ip a) = true →
  MessageSerializer.message_ok (MessageSerializer.REGISTER, mid, payload) →
  view (sk_in s) = (MessageSerializer.buildFrame MessageSerializer.REGISTER mid payload, st) →
  RegisterHandler.decide_reg payload (w_reg w) = RegisterHandler.Registered e →
  ¬ ConnectionSpec.names_ok payload →
  worker_thread (S fuel) idle Logger.INFO q sm w = None.
Proof.
  intros Hq Hfd Hwf Hok Hs Hopt Hsnd Hip Hm Hv Hd Hn.
  destruct (greeted idle Logger.INFO a sm w s Hs Hopt Hsnd)
    as (w1 & s1 & Hserve & Hs1 & Hin1 & _ & _ & Hopt1 & Hr & Ho).
  pose proof (ConnectionSpec.long_node_id_throws idle (WorkQueue.fd a)
    (ConnectionWorker.mkContext "" (SessionManager.nextSessionId sm).1 (WorkQueue.ip a))
    w1 s1 mid payload [] st e) as Hthrow.
  rewrite Ho, Hr, Hin1, app_nil_r in Hthrow.
  unfold worker_thread. cbn [workerLoop]. unfold WorkQueue.dequeue, WorkQueue.ready. rewrite Hq. simpl.
  unfold mbind, M_bind. rewrite Hserve.
  destruct (ConnectionWorker.handleConnection _ _ _ _ w1) as [[[]|x] w2]; [|done].
  destruct Hthrow as [Hx _]; try done. apply session_id_text.
Qed.

(** The greeting reads back: it is one ACK frame under the message id just
    issued, whose payload parses to an object with the server's version, the
    time and the session id that [SessionManager] issued for this socket. *)
Theorem welcome_decodes `{JL : JsonLib} `{!JsonLaws} sm t rest st :
  0 ≤ t →
  let d := Payloads.mkWelcome "0.1.0" (Time.iso8601 t) (SessionManager.nextSessionId sm).1 in
  str_size (Payloads.text_of (Payloads.welcome_json d)) ≤ MessageSerializer.MAX_FRAME_PAYLOAD →
  let fr := MessageSerializer.frame_of_stream (welcome sm t ++ rest) st in
  MessageSerializer.fr_status fr = MessageSerializer.OK ∧
  MessageSerializer.fr_messageType fr = MessageSerializer.ACK ∧
  MessageSerializer.fr_messageId fr =
    (SessionManager.nextMessageId (SessionManager.nextSessionId sm).2).1 ∧
  ∃ j, j_parse (MessageSerializer.fr_payload fr) = Some j ∧
    j_get_string (j_at j "server_version") = "0.1.0" ∧
    j_get_string (j_at j "timestamp") = Time.iso8601 t ∧
    j_get_string (j_at j "session_id") = (SessionManager.nextSessionId sm).1.
Proof.
  intros Ht d Hsz. unfold welcome. fold d.
  destruct (MessageSerializer.frame_of_stream_build MessageSerializer.ACK
    (SessionManager.nextMessageId (SessionManager.nextSessionId sm).2).1
    (Payloads.text_of (Payloads.welcome_json d)) rest st) as [-> _]; [done| |done|].
  { apply wrap_range. lia. }
  split_and!; try done. exists (Payloads.welcome_json d). split.
  { apply Payloads.parse_text; [apply Payloads.welcome_plain|by apply welcome_json_utf8]. }
  apply Payloads.welcome_fields.
Qed.

Section witnesses.
Import Demo.

Lemma long_node_id_ends_process_witness :
  let f := MessageSerializer.buildFrame MessageSerializer.REGISTER 1 (register_text Logger.long_node_id) in
  worker_thread 1 30 Logger.INFO (WorkQueue.mkQueue [WorkQueue.mkAccepted 7 "10.0.0.9"] false)
    SessionManager.init (demo_world ∅ [RData f; REof]) = None.
Proof.
  intros f.
  apply (long_node_id_ends_process 0 30 (WorkQueue.mkAccepted 7 "10.0.0.9") _ _ _
    (mkSock [RData f; REof] [] [] None None true) 1 (register_text Logger.long_node_id) [] StopEof
    (NodeRegistry.mkNodeEntry Logger.long_node_id "B" "10.0.0.1" 25 NodeRegistry.ONLINE 0)).
  - reflexivity.
  - simpl. lia.
  - apply init_otel_wf.
  - apply reg_ok_empty.
  - reflexivity.
  - reflexivity.
  - constructor.
  - vm_compute. reflexivity.
  - repeat constructor; vm_compute; congruence.
  - vm_compute. reflexivity.
  - vm_compute. reflexivity.
  - rewrite (ConnectionSpec.registered_names (register_text Logger.long_node_id) ∅
      (NodeRegistry.mkNodeEntry Logger.long_node_id "B" "10.0.0.1" 25 NodeRegistry.ONLINE 0))
      by (vm_compute; reflexivity).
    vm_compute. congruence.
Defined.

Lemma client_lifetime_witness :
  let msgs := [(MessageSerializer.REGISTER, 1, demo_register)] in
  let w := demo_world ∅ [RData (concat (MessageSerializer.message_frame <$> msgs)); REof] in
  ∃ w' outs node reg',
    (serve_socket 30 Logger.INFO (WorkQueue.mkAccepted 7 "10.0.0.9") SessionManager.init w).2 = w' ∧
    (∃ s', w_socks w' !! 7 = Some s' ∧
      sk_out s' = welcome SessionManager.init (sys_clock 0) ++ concat outs) ∧
    ConnectionSpec.session "" ∅ (MessageSerializer.message_result <$> msgs) outs node reg'.
Proof.
  intros msgs w.
  destruct (client_lifetime 30 Logger.INFO (WorkQueue.mkAccepted 7 "10.0.0.9") SessionManager.init
    w (mkSock [RData (concat (MessageSerializer.message_frame <$> msgs)); REof] [] [] None None true)
    msgs StopEof) as (w' & s' & outs & node & reg' & now & E & Hs & Ho & Hses & _).
  - simpl. lia.
  - apply init_otel_wf.
  - apply reg_ok_empty.
  - reflexivity.
  - reflexivity.
  - constructor.
  - reflexivity.
  - vm_compute. reflexivity.
  - repeat constructor; vm_compute; congruence.
  - constructor; [apply ConnectionSpec.demo_names|constructor].
  - vm_compute. reflexivity.
  - exists w', outs, node, reg'. rewrite E.
    exact (conj eq_refl (conj (ex_intro _ s' (conj Hs Ho)) Hses)).
Defined.

Lemma welcome_decodes_witness :
  MessageSerializer.fr_messageType
    (MessageSerializer.frame_of_stream (welcome SessionManager.init 0 ++ []) StopEof)
  = MessageSerializer.ACK.
Proof.
  destruct (welcome_decodes SessionManager.init 0 [] StopEof) as (_ & Ht & _);
    [lia|apply Z.leb_le; vm_compute; reflexivity|exact Ht].
Defined.

Lemma worker_drains_witness :
  let q := WorkQueue.mkQueue [WorkQueue.mkAccepted 7 "10.0.0.9"; WorkQueue.mkAccepted 8 "10.0.0.9"]
             true in
  let w := demo_world ∅ [REof] in
  w_closed (workerLoop 3 30 Logger.INFO q SessionManager.init w).2 = [7; 8].
Proof.
  intros q w.
  pose proof (worker_drains_queue 3 30 Logger.INFO q SessionManager.init w
    ltac:(simpl; lia) ltac:(repeat constructor; simpl; lia) init_otel_wf reg_ok_empty
    ltac:(vm_compute; split; congruence)) as Hw.
  replace (workerLoop 3 30 Logger.INFO q SessionManager.init w) with
    (Ret (Finished, WorkQueue.mkQueue [] true,
          (sessions_after (sessions_after SessionManager.init))),
     (workerLoop 3 30 Logger.INFO q SessionManager.init w).2) in Hw
    by (vm_compute; reflexivity).
  exact (proj1 (proj2 (proj2 Hw))).
Defined.
End witnesses.

End ThreadPool.
