(* ===== verification/SocketAcceptor.v ===== *)
(** * SocketAcceptor: the listening socket

    Models [include/socketAcceptor.hpp], [src/socketAcceptor.cpp] and the
    callback [onAccept] of [src/app/main.cpp].  The results of the system
    calls are given: those of [start] as a record, those of the accept loop as
    a list of events, one per iteration, which also carry the values of
    [m_stopFlag] the iteration sees (another thread may set it at any time).
    [strerror] is [std::system_category().message]. *)

From S2P Require Import Prelude Net Registry Otel Json Serializer JsonRef World Concrete Logger.
From S2P Require Import Effects Payloads Sender WorkQueue.
Local Open Scope Z_scope.

Module SocketAcceptor.

Record listen_calls := mkListen {
  lc_socket : Z + Z;          (* errno, or the descriptor *)
  lc_reuseaddr : option Z;    (* errno *)
  lc_bind : option Z;
  lc_listen : option Z
}.

Record state := mkAcceptor {
  m_listenFd : Z;             (* -1: none *)
  m_stopFlag : bool;
  m_acceptThread : bool
}.

Definition init : state := mkAcceptor (-1) false false.

(** [FdGuard::reset] *)
Definition reset_fd (fd : Z) : M unit :=
  modify (λ w, if 0 <=? fd then close_fd fd w else w).

Record accept_ev := mkAccept {
  ae_stop : bool;             (* the loop's condition *)
  ae_result : Z + (Z * string);
  ae_stop_after : bool        (* the test after a failed accept *)
}.

Section acceptor.
Context `{CL : Clock} `{RN : Otel.Rng} `{JL : JsonLib}.
Context (strerror : Z → string).

Definition start (ml : Logger.Level) (port : Z) (calls : listen_calls) (st : state)
    : M (bool * state) :=
  match lc_socket calls with
  | inl e =>
      Logger.log ml Logger.ERROR ("socket() failed: " +:+ strerror e);; mret (false, st)
  | inr rawFd =>
      reset_fd (m_listenFd st);;
      let st := mkAcceptor rawFd (m_stopFlag st) (m_acceptThread st) in
      match lc_reuseaddr calls with
      | Some e =>
          Logger.log ml Logger.ERROR ("setsockopt(SO_REUSEADDR) failed: " +:+ strerror e);;
          mret (false, st)
      | None =>
          match lc_bind calls with
          | Some e =>
              (if e =? EADDRINUSE
               then Logger.log ml Logger.ERROR
                      ("Port " +:+ to_string port +:+ " is already in use (EADDRINUSE)")
               else Logger.log ml Logger.ERROR ("bind() failed: " +:+ strerror e));;
              mret (false, st)
          | None =>
              match lc_listen calls with
              | Some e =>
                  Logger.log ml Logger.ERROR ("listen() failed: " +:+ strerror e);;
                  mret (false, st)
              | None =>
                  Logger.log ml Logger.INFO ("Listening on port " +:+ to_string port);;
                  mret (true, mkAcceptor rawFd false true)
              end
          end
      end
  end.

(** [::shutdown] makes a pending [accept] fail, which is an event of the loop;
    the call returns once the accept thread has been joined. *)
Definition stop (st : state) : M state :=
  reset_fd (m_listenFd st);; mret (mkAcceptor (-1) true false).

(** [onAccept] of main: count, then hand over. *)
Definition onAccept (fd : Z) (ip : string) (q : WorkQueue.state) : M WorkQueue.state :=
  modify (λ w, set_active (u32 (w_active w + 1)) w);;
  let '(closed, q') := WorkQueue.enqueue (WorkQueue.mkAccepted fd ip) q in
  modify (λ w, set_closed (w_closed w ++ closed) w);;
  mret q'.

Definition REJECT_TIMEOUT_US : Z := 500000.

(** The branch of a full server. *)
Definition reject (ml : Logger.Level) (fd : Z) (ip : string) (currentCount : Z) : M unit :=
  set_sndtimeo fd REJECT_TIMEOUT_US;;
  payload ← Payloads.buildErrorPayload
    (Payloads.mkError 0 MessageSerializer.ERR_CAPACITY "Server at maximum client capacity");
  sendAll fd (MessageSerializer.buildFrame MessageSerializer.ERROR_MSG 0 payload);;
  modify (close_fd fd);;
  Logger.log ml Logger.WARN
    ("Connection rejected (ERR_CAPACITY). IP: " +:+ ip +:+ " | Count: "
       +:+ to_string currentCount).

Inductive next := Continue | Break.

(** One iteration after [accept]. *)
Definition accept_iteration (ml : Logger.Level) (maxClients : Z) (ev : accept_ev)
    (q : WorkQueue.state) : M (next * WorkQueue.state) :=
  match ae_result ev with
  | inl e =>
      if ae_stop_after ev then mret (Break, q)
      else if e =? EINTR then mret (Continue, q)
      else mret (Break, q)
  | inr (fd, ip) =>
      currentCount ← gets w_active;
      if maxClients <=? currentCount then
        reject ml fd ip currentCount;; mret (Continue, q)
      else
        q ← onAccept fd ip q; mret (Continue, q)
  end.

(** The loop, over the events that happen. *)
Fixpoint acceptLoop (ml : Logger.Level) (maxClients : Z) (evs : list accept_ev)
    (q : WorkQueue.state) : M WorkQueue.state :=
  match evs with
  | [] => mret q
  | ev :: evs =>
      if ae_stop ev then mret q
      else
        '(n, q) ← accept_iteration ml maxClients ev q;
        match n with
        | Continue => acceptLoop ml maxClients evs q
        | Break => mret q
        end
  end.
End acceptor.

(** ** Lemmas *)

(** What [inet_ntop] produces for IPv4. *)
Definition ip_ok (ip : string) : Prop :=
  Forall (λ b, byte_val b ≤ 127) (bytes_of_string ip) ∧
  (length (bytes_of_string ip) ≤ 15)%nat.

Lemma to_string_ascii n :
  in_width 32 n →
  Forall (λ b, byte_val b ≤ 127) (bytes_of_string (to_string n)) ∧
  (length (bytes_of_string (to_string n)) ≤ 10)%nat.
Proof.
  unfold in_width. intros Hn. unfold to_string. rewrite bytes_of_string_of_bytes.
  rewrite (proj2 (Z.ltb_ge n 0)) by lia. split.
  - eapply Forall_impl; [apply dec_digits_isdigit; lia|]. intros b Hb.
    apply is_hex_ascii. unfold is_hex. by rewrite Hb.
  - unfold dec_digits. rewrite length_map. apply to_digits_length; [lia| |lia].
    change (Z.of_nat 10) with 10. lia.
Qed.

Lemma reject_text ip n :
  ip_ok ip → in_width 32 n →
  Logger.text_ok ("Connection rejected (ERR_CAPACITY). IP: " +:+ ip +:+ " | Count: "
                    +:+ to_string n) = true.
Proof.
  intros [Ha Hl] Hn. destruct (to_string_ascii n Hn) as [Hna Hnl].
  apply Logger.text_ok_short.
  - repeat apply Payloads.valid_string_app; try done; by apply Utf8.valid_ascii.
  - rewrite !bytes_of_string_app, !length_app. unfold Logger.MAX_LOG_FIELD_LENGTH.
    simpl length at 1. simpl length at 2. lia.
Qed.

Section facts.
Context `{CL : Clock} `{!ClockOk} `{RN : Otel.Rng} `{JL : JsonLib} `{!JsonLaws}.

(** The frame of a rejection. *)
Definition capacity_frame : list byte :=
  MessageSerializer.buildFrame MessageSerializer.ERROR_MSG 0
    (Payloads.text_of (Payloads.error_json (Payloads.mkError 0 MessageSerializer.ERR_CAPACITY
       "Server at maximum client capacity"))).

(** The socket with the time-out of a rejection. *)
Definition limited (fd : Z) (w : world) : world := (set_sndtimeo fd REJECT_TIMEOUT_US w).2.

#[global] Instance limited_visible fd : Visible (limited fd).
Proof.
  unfold limited, set_sndtimeo. split.
  - intros w w' [R A X S E C]. rewrite S. destruct (w_socks w !! fd) as [s|]; [|by split].
    by destruct (sk_opt_ok s).
  - intros w. destruct (w_socks w !! fd) as [s|]; [|done]. by destruct (sk_opt_ok s).
  - intros w. destruct (w_socks w !! fd) as [s|]; [|done]. by destruct (sk_opt_ok s).
  - intros w. destruct (w_socks w !! fd) as [s|]; [|done]. by destruct (sk_opt_ok s).
Qed.

Lemma limited_run fd w : ∃ b, set_sndtimeo fd REJECT_TIMEOUT_US w = (Ret b, limited fd w).
Proof.
  unfold limited, set_sndtimeo. destruct (w_socks w !! fd) as [s|]; [|eauto].
  destruct (sk_opt_ok s); eauto.
Qed.

Lemma limited_same fd w :
  w_closed (limited fd w) = w_closed w ∧ w_active (limited fd w) = w_active w ∧
  w_reg (limited fd w) = w_reg w.
Proof.
  unfold limited, set_sndtimeo. destruct (w_socks w !! fd) as [s|]; [|done]. by destruct (sk_opt_ok s).
Qed.

Lemma reject_run ml fd ip n w :
  Otel.wf (w_otel w) → ip_ok ip → in_width 32 n →
  ∃ w', reject ml fd ip n w = (Ret tt, w') ∧
    quiet (close_fd fd (sent (sendAll fd) capacity_frame (limited fd w))) w'.
Proof.
  intros Hwf Hip Hn. unfold reject. destruct (limited_run fd w) as [b0 E0].
  rewrite (bind_run _ _ _ _ _ E0). unfold Payloads.buildErrorPayload, dump.
  assert (Otel.wf (w_otel (limited fd w))) as Hwf0 by (by rewrite vs_otel).
  clear Hwf E0. revert Hwf0. generalize (limited fd w). clear w. intros w Hwf.
  rewrite (Payloads.dump_text _ (Payloads.error_utf8 (Payloads.mkError 0
    MessageSerializer.ERR_CAPACITY "Server at maximum client capacity") eq_refl)).
  erewrite (bind_run (mret _)) by reflexivity. fold capacity_frame.
  destruct (send_returns (sender := sendAll fd) capacity_frame w) as [b Hb].
  assert (sendAll fd capacity_frame w = (Ret b, sent (sendAll fd) capacity_frame w)) as E.
  { unfold sent. by destruct (sendAll fd capacity_frame w); simpl in *; subst. }
  rewrite (bind_run _ _ _ _ _ E). erewrite (bind_run (modify _)) by reflexivity.
  apply log_run; [|by apply reject_text]. simpl. by rewrite vs_otel.
Qed.

(** One connection: admitted or turned away. *)
Lemma accept_run ml maxClients ev fd ip q w :
  ae_result ev = inr (fd, ip) → Otel.wf (w_otel w) → ip_ok ip → in_width 32 (w_active w) →
  maxClients < 2 ^ 32 →
  ∃ q' w', accept_iteration ml maxClients ev q w = (Ret (Continue, q'), w') ∧
    if maxClients <=? w_active w
    then q' = q ∧ quiet (close_fd fd (sent (sendAll fd) capacity_frame (limited fd w))) w'
    else q' = (WorkQueue.enqueue (WorkQueue.mkAccepted fd ip) q).2 ∧
         w' = set_closed (w_closed w ++ (WorkQueue.enqueue (WorkQueue.mkAccepted fd ip) q).1)
                (set_active (w_active w + 1) w).
Proof.
  intros Hres Hwf Hip Hact Hmax. unfold accept_iteration. rewrite Hres.
  erewrite (bind_run (gets _)) by reflexivity.
  destruct (Z.leb_spec maxClients (w_active w)).
  - destruct (reject_run ml fd ip (w_active w) w Hwf Hip Hact) as (w' & E & Hq).
    rewrite (bind_run _ _ _ _ _ E). by exists q, w'.
  - unfold onAccept, WorkQueue.enqueue.
    assert (u32 (w_active w + 1) = w_active w + 1) as Hinc.
    { apply wrap_small. unfold in_width in *. lia. }
    destruct (WorkQueue.m_stopped q); (do 2 eexists; split; [reflexivity|]); simpl;
      by rewrite Hinc.
Qed.

(** Descriptors [accept] returned. *)
Definition arrived (evs : list accept_ev) : list Z :=
  omap (λ ev, match ae_result ev with inr (fd, _) => Some fd | inl _ => None end) evs.

Definition event_ok (ev : accept_ev) : Prop :=
  match ae_result ev with inr (_, ip) => ip_ok ip | inl _ => True end.

(** [ledger maxClients q w fds q' w']: of the connections [fds], some were
    queued and counted, the others were closed; the limit holds. *)
Definition ledger (maxClients : Z) (q : WorkQueue.state) (w : world) (fds : list Z)
    (q' : WorkQueue.state) (w' : world) : Prop :=
  ∃ admitted refused,
    WorkQueue.m_queue q' = WorkQueue.m_queue q ++ admitted ∧
    WorkQueue.m_stopped q' = WorkQueue.m_stopped q ∧
    w_closed w' = w_closed w ++ refused ∧
    (WorkQueue.fd <$> admitted) ++ refused ≡ₚ fds ∧
    w_active w' = w_active w + Z.of_nat (length admitted) ∧
    (w_active w ≤ maxClients → w_active w' ≤ maxClients) ∧
    w_reg w' = w_reg w ∧ Otel.nested (w_otel w) (w_otel w').

Lemma ledger_nil maxClients q w : ledger maxClients q w [] q w.
Proof.
  exists [], []. rewrite !app_nil_r. split_and!; try done. simpl. lia.
Qed.

Lemma ledger_trans maxClients q1 w1 fds1 q2 w2 fds2 q3 w3 :
  ledger maxClients q1 w1 fds1 q2 w2 → ledger maxClients q2 w2 fds2 q3 w3 →
  ledger maxClients q1 w1 (fds1 ++ fds2) q3 w3.
Proof.
  intros (a1 & r1 & Q1 & S1 & C1 & P1 & A1 & B1 & R1 & O1)
    (a2 & r2 & Q2 & S2 & C2 & P2 & A2 & B2 & R2 & O2).
  exists (a1 ++ a2), (r1 ++ r2). rewrite Q2, Q1, C2, C1, !app_assoc. split_and!.
  - done.
  - congruence.
  - done.
  - rewrite <-P1, <-P2, fmap_app. solve_Permutation.
  - rewrite A2, A1, length_app. lia.
  - auto.
  - congruence.
  - by etrans.
Qed.

Lemma accept_ledger ml maxClients ev fd ip q w :
  ae_result ev = inr (fd, ip) → Otel.wf (w_otel w) → ip_ok ip → in_width 32 (w_active w) →
  maxClients < 2 ^ 32 → WorkQueue.m_stopped q = false →
  ∃ q' w', accept_iteration ml maxClients ev q w = (Ret (Continue, q'), w') ∧
    ledger maxClients q w [fd] q' w'.
Proof.
  intros Hres Hwf Hip Hact Hmax Hst.
  destruct (accept_run ml maxClients ev fd ip q w Hres Hwf Hip Hact Hmax) as (q' & w' & E & Hit).
  exists q', w'. split; [done|]. destruct (Z.leb_spec maxClients (w_active w)).
  - destruct Hit as [-> [Hv Ho _ _]]. exists [], [fd]. rewrite app_nil_r.
    assert (w_closed (sent (sendAll fd) capacity_frame (limited fd w)) = w_closed w ∧
            w_active (sent (sendAll fd) capacity_frame (limited fd w)) = w_active w ∧
            w_reg (sent (sendAll fd) capacity_frame (limited fd w)) = w_reg w) as (Hc & Ha & Hr).
    { destruct (limited_same fd w) as (<- & <- & <-).
      unfold sent, sendAll. destruct (w_socks (limited fd w) !! fd); [|done].
      by destruct (MessageSerializer.sendAll _ _) as [[? ?] ?]. }
    destruct Hv as [Vr Va _ _ _ Vc]. simpl in *. split_and!; try done.
    + by rewrite Vc, Hc.
    + rewrite Va, Ha. lia.
    + by rewrite Va, Ha.
    + by rewrite Vr.
    + rewrite !vs_otel in Ho. by apply Ho.
  - destruct Hit as [-> ->]. unfold WorkQueue.enqueue. rewrite Hst. simpl.
    exists [WorkQueue.mkAccepted fd ip], []. rewrite !app_nil_r. split_and!; try done.
    simpl. lia.
Qed.
End facts.

(** ** Correctness *)

(** C36: admission control.  A connection that arrives while the server is
    full is sent exactly one frame, the ERR_CAPACITY error [capacity_frame],
    under a time-out of half a second, is closed, and changes neither the
    count nor the queue; one
    that arrives below the limit is counted and queued last, and nothing is
    sent or closed.  The registry is not touched. *)
Theorem admission_control `{CL : Clock} `{!ClockOk} `{JL : JsonLib} `{!JsonLaws}
    ml maxClients ev fd ip q w s :
  ae_result ev = inr (fd, ip) → Otel.wf (w_otel w) → ip_ok ip → in_width 32 (w_active w) →
  maxClients < 2 ^ 32 → WorkQueue.m_stopped q = false →
  w_socks w !! fd = Some s → send_ok (sk_snd s) →
  ∃ q' w' s', accept_iteration ml maxClients ev q w = (Ret (Continue, q'), w') ∧
    w_socks w' !! fd = Some s' ∧ w_reg w' = w_reg w ∧
    if maxClients <=? w_active w
    then q' = q ∧ w_active w' = w_active w ∧ w_closed w' = w_closed w ++ [fd] ∧
         sk_out s' = sk_out s ++ capacity_frame ∧
         (sk_opt_ok s = true → sk_sndtimeo s' = Some 500000)
    else WorkQueue.m_queue q' = WorkQueue.m_queue q ++ [WorkQueue.mkAccepted fd ip] ∧
         w_active w' = w_active w + 1 ∧ w_active w' ≤ maxClients ∧
         w_closed w' = w_closed w ∧ sk_out s' = sk_out s.
Proof.
  intros Hres Hwf Hip Hact Hmax Hst Hs Hsnd.
  destruct (accept_run ml maxClients ev fd ip q w Hres Hwf Hip Hact Hmax) as (q' & w' & E & Hit).
  destruct (Z.leb_spec maxClients (w_active w)).
  - destruct Hit as [-> [[Vr Va _ Vs _ Vc] _ _ _]].
    destruct (limited_same fd w) as (Hc & Ha & Hr).
    assert (∃ s1, w_socks (limited fd w) !! fd = Some s1 ∧ sk_snd s1 = sk_snd s ∧ sk_out s1 = sk_out s ∧
      (sk_opt_ok s = true → sk_sndtimeo s1 = Some 500000)) as (s1 & Hs1 & Hsnd1 & Hout1 & Hto).
    { unfold limited, set_sndtimeo. rewrite Hs. destruct (sk_opt_ok s) eqn:Eo; simpl.
      - rewrite lookup_insert_eq. by eexists.
      - by exists s. }
    destruct (MessageSerializer.sendAll capacity_frame
      (MessageSerializer.mkWstate (sk_snd s1) (w_errno (limited fd w)))) as [[ok out] ws] eqn:Es.
    destruct (MessageSerializer.sendAll_spec _ _ _ _ _ Es) as (Hall & _ & Hok).
    unfold sent, sendAll in Vr, Va, Vs, Vc. rewrite Hs1, Es in Vr, Va, Vs, Vc. simpl in *.
    rewrite Hc in Vc. rewrite Ha in Va. rewrite Hr in Vr. rewrite Hsnd1 in Hok.
    eexists q, w', _. rewrite Vs, lookup_insert_eq. split_and!; try done.
    simpl. rewrite Hout1. by rewrite Hall by auto.
  - destruct Hit as [-> ->]. unfold WorkQueue.enqueue in *. rewrite Hst in *. simpl in *.
    eexists _, _, s. split; [exact E|]. simpl. rewrite app_nil_r. split_and!; try done. lia.
Qed.

(** Over any run of the accept loop, until it stops or fails, every
    connection [accept] returned was either queued, in order, and counted, or
    closed, and none was both or lost; the count moved by exactly the number
    queued and never passed [maxClients]. *)
Theorem acceptor_accounts `{CL : Clock} `{!ClockOk} `{JL : JsonLib} `{!JsonLaws}
    ml maxClients evs q w :
  Forall event_ok evs → Otel.wf (w_otel w) → 0 ≤ w_active w ≤ maxClients →
  maxClients < 2 ^ 32 → WorkQueue.m_stopped q = false →
  ∃ n q' w', (n ≤ length evs)%nat ∧ acceptLoop ml maxClients evs q w = (Ret q', w') ∧
    ledger maxClients q w (arrived (take n evs)) q' w'.
Proof.
  intros Hevs. revert q w. induction Hevs as [|ev evs Hev Hevs IH]; intros q w Hwf Ha Hmax Hst.
  { exists 0%nat, q, w. split_and!; [done|done|]. apply ledger_nil. }
  simpl. destruct (ae_stop ev).
  { exists 0%nat, q, w. split_and!; [lia|done|]. apply ledger_nil. }
  destruct (ae_result ev) as [e|[fd ip]] eqn:Er.
  - unfold accept_iteration. rewrite Er.
    assert (∃ n q' w', (n ≤ S (length evs))%nat ∧ (Ret q, w) = (Ret q', w') ∧
      ledger maxClients q w (arrived (take n (ev :: evs))) q' w') as Hbreak.
    { exists 0%nat, q, w. split_and!; [lia|done|]. apply ledger_nil. }
    destruct (ae_stop_after ev); [exact Hbreak|]. destruct (e =? EINTR); [|exact Hbreak].
    destruct (IH q w Hwf Ha Hmax Hst) as (n & q' & w' & Hn & E & Hl).
    exists (S n), q', w'. split_and!; [lia|exact E|].
    change (take (S n) (ev :: evs)) with (ev :: take n evs). unfold arrived. simpl. by rewrite Er.
  - assert (ip_ok ip) as Hip by (unfold event_ok in Hev; by rewrite Er in Hev).
    destruct (accept_ledger ml maxClients ev fd ip q w Er Hwf Hip) as (q1 & w1 & E1 & L1);
      [unfold in_width; lia|done|done|].
    rewrite (bind_run _ _ _ _ _ E1).
    pose proof L1 as (adm & ref & _ & S1 & _ & _ & A1 & B1 & _ & O1).
    destruct (IH q1 w1) as (n & q' & w' & Hn & E & Hl);
      [by eapply Otel.nested_wf|split; [lia|apply B1; lia]|done|by rewrite S1|].
    exists (S n), q', w'. split_and!; [lia|exact E|].
    change (take (S n) (ev :: evs)) with (ev :: take n evs). unfold arrived. simpl. rewrite Er.
    by eapply (ledger_trans _ _ _ [fd]).
Qed.

(** The rejection frame decodes, in front of any other bytes, to an
    ERROR_MSG frame with message id 0 whose payload parses to an object with
    error code 6 (ERR_CAPACITY). *)
Theorem capacity_frame_decodes `{JL : JsonLib} `{!JsonLaws} rest st :
  let j := Payloads.error_json (Payloads.mkError 0 MessageSerializer.ERR_CAPACITY
             "Server at maximum client capacity") in
  str_size (Payloads.text_of j) ≤ MessageSerializer.MAX_FRAME_PAYLOAD →
  let fr := MessageSerializer.frame_of_stream (capacity_frame ++ rest) st in
  MessageSerializer.fr_status fr = MessageSerializer.OK ∧
  MessageSerializer.fr_messageType fr = MessageSerializer.ERROR_MSG ∧
  MessageSerializer.fr_messageId fr = 0 ∧
  j_parse (MessageSerializer.fr_payload fr) = Some j ∧
  j_get_u64 (j_at j "error_code") = 6.
Proof.
  intros j Hsz. unfold capacity_frame. fold j.
  destruct (MessageSerializer.frame_of_stream_build MessageSerializer.ERROR_MSG 0
    (Payloads.text_of j) rest st) as [-> _]; [done|done|done|].
  split_and!; try done.
  - apply Payloads.parse_text; [by apply Payloads.error_plain|by apply Payloads.error_utf8].
  - apply (Payloads.error_code_field (Payloads.mkError 0 MessageSerializer.ERR_CAPACITY _)).
Qed.

Section witnesses.
Import Demo.

Definition demo_accept : accept_ev := mkAccept false (inr (7, "10.0.0.9")) false.

Lemma demo_ip_ok : ip_ok "10.0.0.9".
Proof. split; [repeat constructor; vm_compute; congruence|vm_compute; lia]. Qed.

Lemma admission_witness :
  ∃ q' w' s', accept_iteration Logger.INFO 1 demo_accept WorkQueue.init (demo_world ∅ [])
    = (Ret (Continue, q'), w') ∧ w_socks w' !! 7 = Some s' ∧ sk_out s' = capacity_frame.
Proof.
  destruct (admission_control Logger.INFO 1 demo_accept 7 "10.0.0.9" WorkQueue.init
    (demo_world ∅ []) (mkSock [] [] [] None None true)) as (q' & w' & s' & E & Hs & _ & _ & _ & _ & Ho & _).
  - reflexivity.
  - apply init_otel_wf.
  - apply demo_ip_ok.
  - vm_compute. split; congruence.
  - lia.
  - reflexivity.
  - reflexivity.
  - constructor.
  - exists q', w', s'. exact (conj E (conj Hs Ho)).
Defined.

Lemma acceptor_accounts_witness :
  ∃ n q' w', acceptLoop Logger.INFO 2 [demo_accept; mkAccept false (inl EINTR) false; demo_accept]
    WorkQueue.init (demo_world ∅ []) = (Ret q', w') ∧
    ledger 2 WorkQueue.init (demo_world ∅ [])
      (arrived (take n [demo_accept; mkAccept false (inl EINTR) false; demo_accept])) q' w'.
Proof.
  destruct (acceptor_accounts Logger.INFO 2
    [demo_accept; mkAccept false (inl EINTR) false; demo_accept] WorkQueue.init (demo_world ∅ []))
    as (n & q' & w' & _ & E & Hl).
  - constructor; [apply demo_ip_ok|]. constructor; [exact I|].
    constructor; [apply demo_ip_ok|constructor].
  - apply init_otel_wf.
  - simpl. lia.
  - lia.
  - reflexivity.
  - exists n, q', w'. exact (conj E Hl).
Defined.

Lemma capacity_frame_witness :
  MessageSerializer.fr_messageType
    (MessageSerializer.frame_of_stream (capacity_frame ++ []) StopEof)
  = MessageSerializer.ERROR_MSG.
Proof.
  destruct (capacity_frame_decodes [] StopEof) as (_ & Ht & _);
    [apply Z.leb_le; vm_compute; reflexivity|exact Ht].
Defined.
End witnesses.

End SocketAcceptor.
