(* ===== verification/HeartbeatMonitor.v ===== *)
(** * HeartbeatMonitor

    Models [include/heartbeatMonitor.hpp] and [src/heartbeatMonitor.cpp]:
    [tick] and the loop of [run].  Each wake-up of the condition variable is
    given with the value of [m_stop] seen then; the thread itself is in
    [MonitorThread.v]. *)

From S2P Require Import Prelude Net Registry Otel Json Serializer JsonRef World Concrete Logger.
From S2P Require Import Effects Sender RegisterHandler.
Local Open Scope Z_scope.

Module HeartbeatMonitor.

Section monitor.
Context `{CL : Clock} `{RN : Otel.Rng} `{JL : JsonLib} `{MI : NodeRegistry.MapIter}.

(** [entry.status == ONLINE && entry.last_seen_at < deadline] *)
Definition stale (deadline : Z) (entry : NodeRegistry.NodeEntry) : bool :=
  bool_decide (NodeRegistry.status entry = NodeRegistry.ONLINE)
  && (NodeRegistry.last_seen_at entry <? deadline).

(** Phase 2, for the ids collected. *)
Fixpoint mark_offline (ml : Logger.Level) (ids : list string) : M unit :=
  match ids with
  | [] => mret tt
  | nodeId :: ids =>
      with_span "heartbeat_monitor_offline" (λ span,
        setAttribute span "node.id" nodeId;;
        registry_setOffline nodeId;;
        tid ← span_ids span;
        Logger.logNodeOffline ml (Logger.mkBase tid.1 tid.2) nodeId);;
      mark_offline ml ids
  end.

Definition tick (ml : Logger.Level) (intervalSecs : Z) : M unit :=
  now ← sys_now;
  let deadline := now - u32 (intervalSecs * 2) * 1000000000 in
  snapshot ← gets (λ w, NodeRegistry.listNodes (w_reg w));
  let ids := map NodeRegistry.node_id (filter (λ e, stale deadline e = true) snapshot) in
  if bool_decide (ids = []) then mret tt else mark_offline ml ids.

Fixpoint run (ml : Logger.Level) (intervalSecs : Z) (wakes : list bool) : M unit :=
  match wakes with
  | [] => mret tt
  | m_stop :: wakes =>
      if (m_stop : bool) then mret tt
      else tick ml intervalSecs;; run ml intervalSecs wakes
  end.
End monitor.

(** ** Lemmas *)

Section facts.
Context `{CL : Clock} `{!ClockOk} `{RN : Otel.Rng} `{JL : JsonLib} `{!JsonLaws}.
Context `{MI : NodeRegistry.MapIter}.

(** [expired ids n reg reg']: exactly the nodes of [ids] have been set
    OFFLINE, at times read from the [n]-th reading of the clock on. *)
Definition expired (ids : list string) (n : nat) (reg reg' : gmap string NodeRegistry.NodeEntry)
    : Prop :=
  ∀ id, (id ∉ ids → reg' !! id = reg !! id) ∧
        (id ∈ ids → ∃ e k, reg !! id = Some e ∧ (n ≤ k)%nat ∧
           reg' !! id = Some (NodeRegistry.with_last_seen (sys_clock k)
                                (NodeRegistry.with_status NodeRegistry.OFFLINE e))).

Lemma mark_one_perf ml nodeId reg w :
  ready reg w →
  ∃ k, (w_reads w ≤ k)%nat ∧
  perf (with_span "heartbeat_monitor_offline" (λ span,
          setAttribute span "node.id" nodeId;;
          registry_setOffline nodeId;;
          tid ← span_ids span;
          Logger.logNodeOffline ml (Logger.mkBase tid.1 tid.2) nodeId)) w
    (do_setOffline nodeId (sys_clock k)) (λ r, r = log_outcome ml (Logger.ENodeOffline nodeId)).
Proof.
  intros [Hreg Hwf].
  match goal with |- context [perf (with_span ?n ?body)] =>
    destruct (span_run n body w Hwf) as (i & w1 & Hv & Hwf1 & Hrd & Hb) end.
  exists (S (w_reads w)). split; [lia|]. apply Hb; [apply _|]. clear Hb. rewrite <-Hrd.
  apply perf_setAttribute; [apply _|]. set (w2 := on_otel _ w1).
  change (w_reads w1) with (w_reads w2). set (now := sys_clock (w_reads w2)).
  assert (ready reg w2) as Hrdy.
  { split; [by rewrite <-Hreg; apply Hv|].
    eapply Otel.nested_wf; [apply Otel.setAttribute_nested|done]. }
  clearbody w2. clear w w1 Hreg Hwf Hv Hwf1 Hrd. rename w2 into w.
  apply (perf_ext _ _ (id ∘ do_setOffline nodeId now)); [done|].
  eapply perf_bind; [apply _|by apply perf_setOffline|]. intros w' Hq. fold now in Hq.
  apply ready_step in Hq; [|apply _|apply Hrdy].
  by eapply (perf_log_last _ _ (Logger.ENodeOffline nodeId)
    (λ base, Logger.logNodeOffline ml base nodeId)).
Qed.

Lemma setOffline_present nid now reg e :
  NodeRegistry.wf reg → reg !! nid = Some e →
  NodeRegistry.setOffline nid now reg =
    <[nid := NodeRegistry.with_last_seen now
               (NodeRegistry.with_status NodeRegistry.OFFLINE e)]> reg.
Proof.
  intros Hwf He. destruct (Hwf _ _ He) as [_ Hne]. unfold NodeRegistry.setOffline.
  rewrite He. destruct (str_empty nid) eqn:E; [|done]. by apply str_empty_true in E.
Qed.

Lemma mark_offline_run ml ids w :
  Otel.wf (w_otel w) → NodeRegistry.wf (w_reg w) → NoDup ids →
  Forall (λ id, NodeRegistry.contains id (w_reg w) = true ∧ Logger.text_ok id = true) ids →
  ∃ w', mark_offline ml ids w = (Ret tt, w') ∧ expired ids (w_reads w) (w_reg w) (w_reg w') ∧
    Otel.nested (w_otel w) (w_otel w') ∧ w_socks w' = w_socks w ∧ w_active w' = w_active w.
Proof.
  intros Hwf Hreg Hnd. revert w Hwf Hreg.
  induction Hnd as [|nid ids Hni Hnd IH]; intros w Hwf Hreg Hids; simpl.
  { exists w. split_and!; try done. intros id. split; [done|]. by intros ?%not_elem_of_nil. }
  apply Forall_cons in Hids as [[Hc Ht] Hids].
  destruct (mark_one_perf ml nid (w_reg w) w (conj eq_refl Hwf)) as (k & Hk & HP).
  apply perf_elim in HP as (w1 & E & [Hv Hn _ Hrd]). rewrite vs_otel in Hn. rewrite vs_reads in Hrd.
  assert (log_outcome ml (Logger.ENodeOffline nid) = Ret tt) as Hout.
  { unfold log_outcome. simpl. by rewrite Ht, orb_true_r. }
  rewrite Hout in E. rewrite (bind_run _ _ _ _ _ E).
  assert (w_reg w1 = NodeRegistry.setOffline nid (sys_clock k) (w_reg w)) as Hreg1.
  { by rewrite (v_reg _ _ Hv). }
  unfold NodeRegistry.contains in Hc. apply bool_decide_eq_true in Hc as [e He].
  rewrite (setOffline_present _ _ _ e Hreg He) in Hreg1.
  destruct (IH w1) as (w' & E' & Hexp & Hn' & Hs' & Ha').
  - by eapply Otel.nested_wf; [apply Hn|].
  - rewrite Hreg1. destruct (Hreg _ _ He). by apply NodeRegistry.wf_insert.
  - eapply Forall_impl; [exact Hids|]. intros id [Hid Htx]. split; [|done].
    unfold NodeRegistry.contains in *. rewrite Hreg1. apply bool_decide_eq_true.
    apply bool_decide_eq_true in Hid. rewrite lookup_insert_is_Some'. tauto.
  - exists w'. rewrite Hs', Ha', (v_socks _ _ Hv), (v_active _ _ Hv).
    split_and!; [done| |by etrans; [apply Hn|]|done|done].
    intros id. specialize (Hexp id) as [Hout' Hin']. rewrite Hreg1 in Hout', Hin'.
    rewrite elem_of_cons. split.
    + intros Hnot. rewrite Hout' by tauto. apply lookup_insert_ne. intros ->. tauto.
    + intros [->|Hin].
      * rewrite Hout' by done. exists e, k. by rewrite lookup_insert_eq.
      * destruct (Hin' Hin) as (e' & t & He' & Ht' & Hr').
        rewrite lookup_insert_ne in He' by (intros ->; done). exists e', t. split_and!; [done|lia|done].
Qed.

Lemma stale_iff deadline e :
  stale deadline e = true ↔
  NodeRegistry.status e = NodeRegistry.ONLINE ∧ NodeRegistry.last_seen_at e < deadline.
Proof. unfold stale. by rewrite andb_true_iff, bool_decide_eq_true, Z.ltb_lt. Qed.

(** The ids collected in phase 1. *)
Lemma stale_ids deadline reg id :
  NodeRegistry.wf reg →
  id ∈ map NodeRegistry.node_id (filter (λ e, stale deadline e = true)
         (NodeRegistry.listNodes reg)) ↔
  ∃ e, reg !! id = Some e ∧ stale deadline e = true.
Proof.
  intros Hwf. rewrite list_elem_of_fmap. split.
  - intros (e & -> & He). apply list_elem_of_filter in He as [Hst He].
    apply NodeRegistry.listNodes_elem in He as [k Hk].
    destruct (Hwf _ _ Hk) as [<- _]. by exists e.
  - intros (e & He & Hst). exists e. destruct (Hwf _ _ He) as [Hid _]. split; [done|].
    apply list_elem_of_filter. split; [done|]. apply NodeRegistry.listNodes_elem. by exists id.
Qed.

Lemma tick_run ml intervalSecs w :
  Otel.wf (w_otel w) → NodeRegistry.wf (w_reg w) →
  (∀ id, NodeRegistry.contains id (w_reg w) = true → Logger.text_ok id = true) →
  1 ≤ intervalSecs ≤ 300 →
  ∃ w', tick ml intervalSecs w = (Ret tt, w') ∧
    let deadline := sys_clock (w_reads w) - 2 * intervalSecs * 1000000000 in
    (∀ id, match w_reg w !! id with
           | None => w_reg w' !! id = None
           | Some e =>
               if decide (NodeRegistry.status e = NodeRegistry.ONLINE ∧
                          NodeRegistry.last_seen_at e < deadline)
               then ∃ k, (w_reads w < k)%nat ∧
                      w_reg w' !! id = Some (NodeRegistry.with_last_seen (sys_clock k)
                        (NodeRegistry.with_status NodeRegistry.OFFLINE e))
               else w_reg w' !! id = Some e
           end) ∧
    Otel.nested (w_otel w) (w_otel w') ∧ w_socks w' = w_socks w ∧ w_active w' = w_active w.
Proof.
  intros Hwf Hreg Htext Hint. unfold tick.
  erewrite (bind_run sys_now) by reflexivity. erewrite (bind_run (gets _)) by reflexivity.
  cbn [w_reg set_reads].
  assert (u32 (intervalSecs * 2) = 2 * intervalSecs) as ->.
  { rewrite wrap_small; [lia|]. unfold in_width. lia. }
  set (deadline := sys_clock (w_reads w) - _).
  set (ids := map _ _). set (w0 := set_reads _ w).
  assert (∀ id, id ∈ ids ↔ ∃ e, w_reg w !! id = Some e ∧ stale deadline e = true) as Hids.
  { intros id. by apply stale_ids. }
  assert (NoDup ids) as Hnd.
  { apply (sublist_NoDup _ (NodeRegistry.node_id <$> NodeRegistry.listNodes (w_reg w)));
      [by apply NodeRegistry.listNodes_nodup|].
    apply fmap_sublist, sublist_filter. }
  destruct (mark_offline_run ml ids w0) as (w' & E & Hexp & Hn & Hs & Ha); [done|done|done| |].
  { apply Forall_forall. intros id (e & He & _)%Hids.
    assert (NodeRegistry.contains id (w_reg w) = true) by (by apply bool_decide_eq_true; eauto).
    split; [done|]. by apply Htext. }
  assert ((if bool_decide (ids = []) then mret tt else mark_offline ml ids) w0 = (Ret tt, w')) as E'.
  { case_bool_decide as Hnil; [|done]. rewrite Hnil in E. exact E. }
  exists w'. split; [exact E'|]. split_and!; [|done..].
  intros id. destruct (Hexp id) as [Hout Hin]. cbn [w_reg set_reads w0] in *.
  destruct (w_reg w !! id) as [e|] eqn:He.
  - case_decide as Hst; apply stale_iff in Hst || rewrite <-stale_iff in Hst.
    + destruct Hin as (e' & t & He' & Ht & Hr); [apply Hids; eauto|]. simplify_eq.
      exists t. split; [done|exact Hr].
    + apply Hout. intros (e' & He' & Hst')%Hids. congruence.
  - apply Hout. intros (e' & He' & _)%Hids. congruence.
Qed.
End facts.

(** ** Correctness *)

(** C35: one tick of the monitor, at the time it reads first, sets OFFLINE
    exactly the nodes whose status is ONLINE and whose [last_seen_at] lies more
    than two intervals before, each with a time read after that one; every
    other entry keeps every field, no entry is added or removed, no socket is
    touched, and all spans are closed.  Node ids are texts the logger accepts,
    the interval is one [ServerConfig] accepts, and no other thread changes the
    registry meanwhile. *)
Theorem tick_exact `{CL : Clock} `{!ClockOk} `{RN : Otel.Rng} `{JL : JsonLib} `{!JsonLaws}
    `{MI : NodeRegistry.MapIter} ml intervalSecs w :
  Otel.wf (w_otel w) → NodeRegistry.wf (w_reg w) →
  (∀ id, NodeRegistry.contains id (w_reg w) = true → Logger.text_ok id = true) →
  1 ≤ intervalSecs ≤ 300 →
  ∃ w', tick ml intervalSecs w = (Ret tt, w') ∧
    let deadline := sys_clock (w_reads w) - 2 * intervalSecs * 1000000000 in
    (∀ id, match w_reg w !! id with
           | None => w_reg w' !! id = None
           | Some e =>
               if decide (NodeRegistry.status e = NodeRegistry.ONLINE ∧
                          NodeRegistry.last_seen_at e < deadline)
               then ∃ k, (w_reads w < k)%nat ∧
                      w_reg w' !! id = Some (NodeRegistry.with_last_seen (sys_clock k)
                        (NodeRegistry.with_status NodeRegistry.OFFLINE e))
               else w_reg w' !! id = Some e
           end) ∧
    Otel.nested (w_otel w) (w_otel w') ∧ w_socks w' = w_socks w ∧ w_active w' = w_active w.
Proof. apply tick_run. Qed.

(** A node that has just registered has never been seen, so the first
    tick after its registration sets it OFFLINE, whatever the interval, even
    when the tick follows the registration at once. *)
Theorem fresh_node_expires `{CL : Clock} `{!ClockOk} `{RN : Otel.Rng} `{JL : JsonLib} `{!JsonLaws}
    `{MI : NodeRegistry.MapIter} ml intervalSecs payload reg e w :
  Otel.wf (w_otel w) → reg_ok reg →
  RegisterHandler.decide_reg payload reg = RegisterHandler.Registered e →
  w_reg w = RegisterHandler.effect (RegisterHandler.decide_reg payload reg) reg →
  (∀ id, NodeRegistry.contains id (w_reg w) = true → Logger.text_ok id = true) →
  1 ≤ intervalSecs ≤ 300 →
  2 * intervalSecs * 1000000000 < sys_clock (w_reads w) →
  NodeRegistry.isOffline (NodeRegistry.node_id e) (w_reg w) = false ∧
  NodeRegistry.isOffline (NodeRegistry.node_id e) (w_reg (tick ml intervalSecs w).2) = true.
Proof.
  intros Hwf Hok Hdec Hreg Htext Hint Hclk.
  assert (reg_ok (w_reg w)) as [_ Hwfr] by (rewrite Hreg; by apply RegisterHandler.effect_reg_ok).
  destruct (tick_run ml intervalSecs w Hwf Hwfr Htext Hint) as (w' & -> & Ht & _).
  specialize (Ht (NodeRegistry.node_id e)). rewrite Hdec in Hreg. simpl in Hreg |- *.
  assert (w_reg w !! NodeRegistry.node_id e = Some e) as He.
  { rewrite Hreg. apply lookup_insert_eq. }
  assert (NodeRegistry.status e = NodeRegistry.ONLINE ∧ NodeRegistry.last_seen_at e = 0) as [Hon Hls].
  { unfold RegisterHandler.decide_reg in Hdec. destruct (j_parse payload) as [j|]; [|done].
    destruct (RegisterHandler.valid_fields j); [|done]. destruct (_ || _); [|done].
    by simplify_eq. }
  rewrite He in Ht. unfold NodeRegistry.isOffline. rewrite He, Hon. split; [done|].
  rewrite decide_True in Ht by (rewrite Hls; split; [done|lia]). by destruct Ht as (t & _ & ->).
Qed.

Section witnesses.
Import Demo.

Definition demo_node : NodeRegistry.NodeEntry :=
  NodeRegistry.mkNodeEntry "N1" "B" "10.0.0.1" 25 NodeRegistry.ONLINE 0.

Lemma demo_text id :
  NodeRegistry.contains id {[ "N1" := demo_node ]} = true → Logger.text_ok id = true.
Proof.
  unfold NodeRegistry.contains. intros [e He]%bool_decide_eq_true.
  apply lookup_singleton_Some in He as [<- _]. vm_compute. reflexivity.
Qed.

(** An ONLINE node seen at the deadline, and an OFFLINE one seen before it,
    beside one that is due. *)
Definition at_deadline : NodeRegistry.NodeEntry :=
  NodeRegistry.mkNodeEntry "N2" "B" "10.0.0.2" 25 NodeRegistry.ONLINE (sys_clock 0 - 20000000000).
Definition long_gone : NodeRegistry.NodeEntry :=
  NodeRegistry.mkNodeEntry "N3" "B" "10.0.0.3" 25 NodeRegistry.OFFLINE 0.
Definition three_nodes : gmap string NodeRegistry.NodeEntry :=
  {[ "N1" := demo_node; "N2" := at_deadline; "N3" := long_gone ]}.

Lemma three_nodes_ok : reg_ok three_nodes.
Proof.
  unfold three_nodes. do 2 (apply reg_ok_insert; [|split_and!; by vm_compute|done|done]).
  apply (reg_ok_insert "N3" long_gone ∅); [apply reg_ok_empty|split_and!; by vm_compute|done|done].
Qed.

Lemma three_nodes_text id :
  NodeRegistry.contains id three_nodes = true → Logger.text_ok id = true.
Proof.
  unfold NodeRegistry.contains, three_nodes. intros [e He]%bool_decide_eq_true.
  repeat (apply lookup_insert_Some in He as [[<- _]|[_ He]]; [vm_compute; reflexivity|]).
  apply lookup_singleton_Some in He as [<- _]. vm_compute. reflexivity.
Qed.

Lemma tick_witness :
  ∃ w', tick Logger.INFO 10 (demo_world three_nodes []) = (Ret tt, w') ∧
    (∃ k, w_reg w' !! "N1" = Some (NodeRegistry.with_last_seen (sys_clock k)
            (NodeRegistry.with_status NodeRegistry.OFFLINE demo_node))) ∧
    w_reg w' !! "N2" = Some at_deadline ∧ w_reg w' !! "N3" = Some long_gone.
Proof.
  destruct (tick_exact Logger.INFO 10 (demo_world three_nodes [])) as (w' & E & Ht & _).
  - apply init_otel_wf.
  - apply three_nodes_ok.
  - apply three_nodes_text.
  - lia.
  - exists w'. split; [exact E|]. split; [|split; [exact (Ht "N2")|exact (Ht "N3")]].
    destruct (Ht "N1") as (k & _ & Hk). exists k. exact Hk.
Defined.

Lemma fresh_node_witness :
  NodeRegistry.isOffline "N1"
    (w_reg (tick Logger.INFO 10 (demo_world {[ "N1" := demo_node ]} [])).2) = true.
Proof.
  destruct (fresh_node_expires Logger.INFO 10 demo_register ∅ demo_node
    (demo_world {[ "N1" := demo_node ]} [])) as [_ Hoff].
  - apply init_otel_wf.
  - apply reg_ok_empty.
  - vm_compute. reflexivity.
  - vm_compute. reflexivity.
  - apply demo_text.
  - lia.
  - vm_compute. reflexivity.
  - exact Hoff.
Defined.
End witnesses.

End HeartbeatMonitor.
