(* ===== verification/Threads.v ===== *)
(** * Threads as labelled transition systems

    What the models of the program's threads share.  A system is a function
    that says which state a label leads to, if the step is possible; a label
    names the thread that moves and what the scheduler or the environment
    decides.  An invariant is proved by induction on how a state is reached;
    that something comes true under every schedule, by a rank that every step
    decreases. *)

From S2P Require Import Prelude.

Module Threads.

Section system.
Context {S L : Type} (exec : L → S → option S).

(** States reached from the initial ones. *)
Inductive reachable (init : S → Prop) : S → Prop :=
| reach_init s : init s → reachable init s
| reach_step l s s' : reachable init s → exec l s = Some s' → reachable init s'.

(** A schedule. *)
Fixpoint exec_all (ls : list L) (s : S) : option S :=
  match ls with
  | [] => Some s
  | l :: ls => exec l s ≫= exec_all ls
  end.

(** Whatever is scheduled, [P] comes true, and until then some thread can
    always make one of the moves [moves]: nobody waits for something that
    need not happen. *)
Inductive inevitable (moves : L → Prop) (P : S → Prop) (s : S) : Prop :=
| now : P s → inevitable moves P s
| later :
    (∃ l s', moves l ∧ exec l s = Some s') →
    (∀ l s', exec l s = Some s' → inevitable moves P s') → inevitable moves P s.

Lemma reachable_invariant (init I : S → Prop) :
  (∀ s, init s → I s) → (∀ l s s', I s → exec l s = Some s' → I s') →
  ∀ s, reachable init s → I s.
Proof. intros H0 Hs s. induction 1; eauto. Qed.

Lemma exec_all_inv (I : S → Prop) ls s s' :
  (∀ l s s', I s → exec l s = Some s' → I s') → I s → exec_all ls s = Some s' → I s'.
Proof.
  intros Hs. revert s. induction ls as [|l ls IH]; intros s Hi He; simplify_eq/=; [done|].
  destruct (exec l s) as [s1|] eqn:E; [|done]. by eapply IH, He; eapply Hs.
Qed.

(** Running a schedule step by step. *)
Lemma exec_all_cons l ls s s1 r : exec l s = Some s1 → exec_all ls s1 = r → exec_all (l :: ls) s = r.
Proof. intros He Hr. simpl. by rewrite He. Qed.

Lemma exec_all_app ls ls' s : exec_all (ls ++ ls') s = exec_all ls s ≫= exec_all ls'.
Proof.
  revert s. induction ls as [|l ls IH]; intros s; [done|]. simpl. destruct (exec l s); simpl; auto.
Qed.

Lemma exec_all_reachable init ls s s' :
  reachable init s → exec_all ls s = Some s' → reachable init s'.
Proof. apply exec_all_inv. intros l s1 s2. apply reach_step. Qed.

(** A property of the form: what [f] says never changes while [I] holds. *)
Lemma exec_all_frozen {A} (I : S → Prop) (f : S → A) ls s s' :
  (∀ l s s', I s → exec l s = Some s' → I s' ∧ f s' = f s) →
  I s → exec_all ls s = Some s' → f s' = f s.
Proof.
  intros Hs Hi He.
  assert (I s' ∧ f s' = f s) as [_ Hf]; [|done].
  apply (exec_all_inv (λ x, I x ∧ f x = f s) ls s); [|done|done].
  intros l s1 s2 [H1 H2] E. destruct (Hs _ _ _ H1 E) as [? ->]. done.
Qed.

(** The rule for [inevitable]: a rank. *)
Lemma inevitable_by_rank (moves : L → Prop) (P I : S → Prop) (rank : S → nat) :
  (∀ s, I s → ¬ P s → ∃ l s', moves l ∧ exec l s = Some s') →
  (∀ l s s', I s → exec l s = Some s' → P s' ∨ (I s' ∧ (rank s' < rank s)%nat)) →
  (∀ s, I s → P s ∨ ¬ P s) → ∀ s, I s → inevitable moves P s.
Proof.
  intros Hmove Hstep Hdec s. remember (rank s) as k eqn:Hk. revert s Hk.
  induction (lt_wf k) as [k _ IH]. intros s -> Hi.
  destruct (Hdec s Hi) as [Hp|Hn]; [by apply now|]. apply later; [by apply Hmove|].
  intros l s' He. destruct (Hstep _ _ _ Hi He) as [Hp|[Hi' Hlt]]; [by apply now|].
  by eapply IH.
Qed.

Lemma inevitable_mono (moves : L → Prop) (P Q : S → Prop) s :
  (∀ s, P s → Q s) → inevitable moves P s → inevitable moves Q s.
Proof.
  intros HPQ. induction 1 as [s Hp|s Hm _ IH]; [by apply now, HPQ|]. by apply later.
Qed.

End system.

(** ** A mutex *)

(** A state that has a mutex, and which threads are between a lock of it and
    the release. *)
Section mutex.
Context {S H : Type} `{EqDecision H} (mutex : S → option H) (inside : H → S → bool).

(** The mutex is held by whoever is inside, so there is at most one. *)
Definition locks (s : S) : Prop := ∀ h, mutex s = Some h ↔ inside h s = true.

Lemma locks_excl s h h' : locks s → inside h s = true → inside h' s = true → h = h'.
Proof. intros Hl H1%Hl H2%Hl. congruence. Qed.

(** A step of [h]: it enters when the mutex is free, or stays, or leaves. *)
Lemma locks_move h s s' :
  locks s → (∀ h', h' ≠ h → inside h' s' = inside h' s) →
  mutex s' = (if inside h s' then Some h else if inside h s then None else mutex s) →
  (inside h s' = true → inside h s = true ∨ mutex s = None) → locks s'.
Proof.
  unfold locks. intros Hl Ho Hm Hin h'. rewrite Hm. destruct (decide (h' = h)) as [->|Hne].
  - destruct (inside h s') eqn:E1; [done|]. destruct (inside h s) eqn:E2; [done|].
    by rewrite (Hl h), E2.
  - rewrite (Ho h') by done. destruct (inside h s') eqn:E1; [|destruct (inside h s) eqn:E2].
    + split; [naive_solver|]. intros Hi. apply Hl in Hi.
      destruct (Hin eq_refl) as [Hh|Hn]; [apply Hl in Hh|]; congruence.
    + split; [done|]. intros Hi. apply Hl in Hi. apply Hl in E2. congruence.
    + apply Hl.
Qed.

(** Nothing changes for the mutex. *)
Lemma locks_same s s' :
  locks s → mutex s' = mutex s → (∀ h, inside h s' = inside h s) → locks s'.
Proof. intros Hl Hm Hi h. by rewrite Hm, Hi. Qed.
End mutex.

(** ** Lists of threads *)

Section pool.
Context {T : Type}.

(** A quantity summed over the threads. *)
Fixpoint total (f : T → nat) (ts : list T) : nat :=
  match ts with
  | [] => 0
  | t :: ts => f t + total f ts
  end.

Lemma total_insert f ts i t t' :
  ts !! i = Some t → (total f (<[i := t']> ts) + f t = total f ts + f t')%nat.
Proof.
  revert i. induction ts as [|x ts IH]; intros [|i] Hi; simplify_eq/=; [lia|].
  specialize (IH i Hi). lia.
Qed.

Lemma total_map_le f (g : T → T) ts :
  (∀ t, f (g t) ≤ f t)%nat → (total f (g <$> ts) ≤ total f ts)%nat.
Proof. intros Hg. induction ts as [|t ts IH]; csimpl; [lia|]. specialize (Hg t). lia. Qed.

Lemma total_le_length f ts : (∀ t, f t ≤ 1)%nat → (total f ts ≤ length ts)%nat.
Proof. intros Hf. induction ts as [|t ts IH]; simpl; [lia|]. specialize (Hf t). lia. Qed.

(** A positive total has a positive summand. *)
Lemma total_pos f ts : (0 < total f ts)%nat → ∃ i t, ts !! i = Some t ∧ (0 < f t)%nat.
Proof.
  induction ts as [|t ts IH]; simpl; [lia|]. intros Hp.
  destruct (decide (0 < f t)%nat); [by exists 0%nat, t|].
  destruct IH as (i & t' & ? & ?); [lia|]. by exists (S i), t'.
Qed.

Lemma insert_lookup_cases (ts : list T) i t t' j x :
  ts !! i = Some t → <[i := t']> ts !! j = Some x →
  (j = i ∧ x = t') ∨ (j ≠ i ∧ ts !! j = Some x).
Proof.
  intros Hi Hj. apply list_lookup_insert_Some in Hj. naive_solver.
Qed.

(** What a predicate says of the threads, after one has moved. *)
Lemma holds_insert (f : T → bool) (ts : list T) (i : nat) t t' (j : nat) :
  ts !! i = Some t →
  from_option f false (<[i := t']> ts !! j) =
    if decide (j = i) then f t' else from_option f false (ts !! j).
Proof.
  intros Hi%lookup_lt_Some. case_decide as Hd; [subst|].
  - by rewrite list_lookup_insert_eq.
  - by rewrite list_lookup_insert_ne.
Qed.

Lemma elem_insert (x : T) (i : nat) t (ts : list T) : x ∈ <[i := t]> ts → x = t ∨ x ∈ ts.
Proof.
  intros [j Hj]%list_elem_of_lookup. apply list_lookup_insert_Some in Hj.
  destruct Hj as [(_ & -> & _)|[_ Hj]]; [by left|right]. by eapply list_elem_of_lookup_2.
Qed.

End pool.
End Threads.
