(* ===== verification/Clients.v ===== *)
(** * Many clients at once

    [ConnectionWorker::handleConnection] run by several worker threads at the
    same time.  The threads share the registry, the counter, the metrics, the
    log and the sockets; spans ([t_scopeStack]) and [errno] are each thread's
    own.  A step is one turn of the message loop, or what comes before or
    after it: of what the threads share a turn reads or writes the registry
    once, in one call that holds its mutex (a handler makes exactly one), and
    besides that only the connection's own socket and counters that no handler
    reads.

    The theorems say that the turns of one connection, taken together, are
    [handleConnection]; that under every schedule the clients get what the
    abstract sessions of [ConnectionSpec.v], interleaved in the same order,
    prescribe; and what a client can rely on while others are connected. *)

From S2P Require Import Prelude Net Registry Otel Metrics Json Serializer JsonRef World Concrete.
From S2P Require Import Logger Effects Payloads Sender RegisterHandler HeartbeatHandler.
From S2P Require Import QueryHandler ConnectionWorker ConnectionSpec Threads.
Local Open Scope Z_scope.

Module Clients.
Import ConnectionWorker ConnectionSpec Threads.

(** Where the thread of a connection is: before the call; in the loop; after
    it, with the reason; after an exception; returned. *)
Inductive phase :=
| Waiting
| Reading
| Leaving (reason : DisconnectReason)
| Failing
| Gone.

#[global] Instance phase_eq_dec : EqDecision phase.
Proof. solve_decision. Defined.

(** The locals of a call, and what its thread has of its own. *)
Record connection := mkConnection {
  context : ConnectionContext;
  connectTime : Z;
  vars : locals;
  spans : Otel.state;
  errno : Z;
  place : phase
}.

Record state := mkState {
  shared : world;
  connections : gmap Z connection
}.

(** The world as the thread of [c] sees it. *)
Definition seen_by (c : connection) (w : world) : world := set_errno (errno c) (set_otel (spans c) w).

(** The thread of the connection [fd] has come to [p] with [w]. *)
Definition resume (fd : Z) (c : connection) (t : Z) (l : locals) (p : phase) (w : world) (s : state)
    : state :=
  mkState w (<[fd := mkConnection (context c) t l (w_otel w) (w_errno w) p]> (connections s)).

Section system.
Context `{CL : Clock} `{RN : Otel.Rng} `{JL : JsonLib} `{MI : NodeRegistry.MapIter}.
Context (idle : Z) (ml : Logger.Level).

(** ** Steps *)

(** [handleConnection] up to the loop. *)
Definition begin (fd : Z) (c : connection) (s : state) : state :=
  let l := mkLocals (m_nodeId (context c)) None in
  let t := steady_clock (w_reads (shared s)) in
  let w := set_reads (S (w_reads (shared s))) (seen_by c (shared s)) in
  match applyReceiveTimeout idle fd w with
  | (Ret true, w) => resume fd c t l Reading w s
  | (_, w) =>
      let w := (markOfflineIfKnown (activeNodeId l);;
                emitDisconnection ml (context c) t l SOCKET_CONFIG_ERROR) w in
      resume fd c t l Gone (teardown fd w.2) s
  end.

(** One turn of the loop. *)
Definition turn (fd : Z) (c : connection) (s : state) : state :=
  match iteration ml (context c) fd (vars c) (seen_by c (shared s)) with
  | (Ret (Ret None, l), w) => resume fd c (connectTime c) l Reading w s
  | (Ret (Ret (Some reason), l), w) => resume fd c (connectTime c) l (Leaving reason) w s
  | (Ret (Throw _, l), w) => resume fd c (connectTime c) l Failing w s
  | (Throw _, w) => resume fd c (connectTime c) (vars c) Failing w s
  end.

(** What follows the loop, and the destructors. *)
Definition leave (fd : Z) (c : connection) (reason : DisconnectReason) (s : state) : state :=
  let w := depart ml (context c) (connectTime c) reason (vars c) (seen_by c (shared s)) in
  resume fd c (connectTime c) (vars c) Gone (teardown fd w.2) s.

(** The destructors after an exception. *)
Definition unwind (fd : Z) (c : connection) (s : state) : state :=
  let w := end_connection_span (vars c) (seen_by c (shared s)) in
  resume fd c (connectTime c) (vars c) Gone (teardown fd w) s.

(** The label is the connection whose thread moves. *)
Definition exec (fd : Z) (s : state) : option state :=
  match connections s !! fd with
  | None => None
  | Some c =>
      match place c with
      | Waiting => Some (begin fd c s)
      | Reading => Some (turn fd c s)
      | Leaving reason => Some (leave fd c reason s)
      | Failing => Some (unwind fd c s)
      | Gone => None
      end
  end.

(** ** One connection by itself *)

Lemma seen_by_own x t l p w : seen_by (mkConnection x t l (w_otel w) (w_errno w) p) w = w.
Proof. by destruct w. Qed.

(** The turns of the loop. *)
Lemma turns_loop `{!ClockOk} `{!JsonLaws} fuel fd c o0 s :
  connections s !! fd = Some c → place c = Reading →
  (length (pending fd (shared s)) < fuel)%nat → conn o0 (vars c) (spans c) → reg_ok (w_reg (shared s)) →
  ∃ k r l w s' c',
    loop fuel ml (context c) fd (vars c) (seen_by c (shared s)) = (Ret (r, l), w) ∧
    exec_all exec (replicate k fd) s = Some s' ∧ connections s' !! fd = Some c' ∧
    context c' = context c ∧ connectTime c' = connectTime c ∧ vars c' = l ∧
    seen_by c' (shared s') = w ∧
    place c' = match r with Ret reason => Leaving reason | Throw _ => Failing end.
Proof.
  revert c s. induction fuel as [|fuel IH]; intros c s Hc Hp Hf Ho Hok; [lia|].
  set (w := seen_by c (shared s)) in *.
  assert (exec fd s = Some (turn fd c s)) as Hex by (unfold exec; by rewrite Hc, Hp).
  unfold turn in Hex. fold w in Hex. cbn [loop].
  pose proof (iteration_run ml (context c) fd (vars c) o0 w Ho Hok) as Hit. cbv zeta in Hit.
  case_bool_decide as Hst.
  { rewrite Hit in Hex. rewrite (bind_run _ _ _ _ _ Hit).
    exists 1%nat. do 5 eexists. split; [reflexivity|]. simpl exec_all. rewrite Hex. simpl.
    split; [done|]. split; [apply lookup_insert_eq|]. split_and!; try done. apply seen_by_own. }
  assert (MessageSerializer.fr_status (frame_at fd w) = MessageSerializer.OK) as Hfr
    by (destruct (decide (MessageSerializer.fr_status (frame_at fd w) = MessageSerializer.OK)); naive_solver).
  destruct Hit as (r & l & w' & E & Hc' & _ & _ & Hok' & Hr). rewrite E in Hex.
  rewrite (bind_run _ _ _ _ _ E). destruct r as [[reason|]|e]; [done| |].
  - destruct Hr as (_ & _ & now & el & _ & Hv).
    set (s1 := resume fd c (connectTime c) l Reading w' s) in *.
    destruct (IH (mkConnection (context c) (connectTime c) l (w_otel w') (w_errno w') Reading) s1)
      as (k & r & l' & w2 & s2 & c2 & El & He & Hrest).
    + apply lookup_insert_eq.
    + done.
    + simpl. rewrite (pending_proper _ _ _ Hv). unfold msg_world.
      change (pending fd (set_metrics ?m ?v)) with (pending fd v). rewrite answer_pending.
      destruct (frame_at_ok fd w Hfr) as [_ Hlt]. change (pending fd w) with (pending fd (shared s)) in Hlt.
      lia.
    + done.
    + done.
    + simpl in El. rewrite seen_by_own in El. exists (S k). do 5 eexists. split; [exact El|].
      simpl exec_all. rewrite Hex. simpl. split; [exact He|]. exact Hrest.
  - exists 1%nat. do 5 eexists. split; [reflexivity|]. simpl exec_all. rewrite Hex. simpl.
    split; [done|]. split; [apply lookup_insert_eq|]. split_and!; try done. apply seen_by_own.
Qed.

(** The last step of a connection. *)
Lemma last_step fd c s :
  connections s !! fd = Some c → place c ≠ Reading → place c ≠ Waiting → place c ≠ Gone →
  ∃ s' c', exec fd s = Some s' ∧ connections s' !! fd = Some c' ∧ place c' = Gone ∧
    seen_by c' (shared s') = teardown fd
      (match place c with
       | Leaving reason =>
           (depart ml (context c) (connectTime c) reason (vars c) (seen_by c (shared s))).2
       | _ => end_connection_span (vars c) (seen_by c (shared s))
       end).
Proof.
  intros Hc H1 H2 H3. unfold exec. rewrite Hc. destruct (place c); try done.
  all: do 2 eexists; split; [reflexivity|]; split; [apply lookup_insert_eq|];
    split; [done|apply seen_by_own].
Qed.

Lemma serve_split ctx fd t l w r l' w' :
  loop (S (length (pending fd w))) ml ctx fd l w = (Ret (r, l'), w') →
  (serve ml ctx fd t l w).2 =
  match r with
  | Ret reason => (depart ml ctx t reason l' w').2
  | Throw _ => end_connection_span l' w'
  end.
Proof.
  intros E. unfold serve. erewrite (bind_run (gets _)) by reflexivity. cbv beta.
  rewrite (bind_run _ _ _ _ _ E). by destruct r.
Qed.

(** The turns of a connection that has the process to itself are
    [ConnectionWorker::handleConnection]: they end, and leave the registry, the
    sockets, the log, the metrics, the spans and the counter as the call does,
    whatever the client sends. *)
Theorem turns_are_handleConnection `{!ClockOk} `{!JsonLaws} fd c s :
  connections s !! fd = Some c → place c = Waiting → 0 ≤ fd → Otel.wf (spans c) →
  reg_ok (w_reg (shared s)) →
  ∃ k s' c', exec_all exec (replicate k fd) s = Some s' ∧ connections s' !! fd = Some c' ∧
    place c' = Gone ∧
    seen_by c' (shared s') = (handleConnection idle ml fd (context c) (seen_by c (shared s))).2.
Proof.
  intros Hc Hp Hfd Hwf Hok. unfold handleConnection, finally.
  rewrite (proj2 (Z.ltb_ge fd 0)) by done. erewrite (bind_run steady_now) by reflexivity.
  assert (exec fd s = Some (begin fd c s)) as Hex by (unfold exec; by rewrite Hc, Hp).
  unfold begin in Hex. set (w0 := set_reads _ (seen_by c (shared s))) in *.
  change (set_reads _ (seen_by c (shared s))) with w0.
  set (t := steady_clock _) in *. change (steady_clock _) with t.
  destruct (configure_run fd idle w0) as (E & _ & Hr & Ho & _ & _).
  unfold applyReceiveTimeout in *. rewrite E in Hex. rewrite (bind_run _ _ _ _ _ E).
  set (w1 := configured fd idle w0) in *.
  destruct (configurable fd w0); cbn [negb].
  2: { exists 1%nat. do 2 eexists. split; [simpl; by rewrite Hex|].
       split; [apply lookup_insert_eq|]. split; [done|].
       simpl activeNodeId. rewrite seen_by_own. simpl shared. by destruct ((markOfflineIfKnown _ ≫= _) w1). }
  set (s1 := resume _ _ _ _ _ _ _) in Hex.
  destruct (turns_loop (S (length (pending fd w1))) fd
    (mkConnection (context c) t (mkLocals (m_nodeId (context c)) None) (w_otel w1) (w_errno w1) Reading)
    (w_otel w1) s1) as (k & r & l & w2 & s2 & c2 & El & He & Hc2 & Hx & Ht & Hl & Hw & Hp2).
  { apply lookup_insert_eq. }
  { done. }
  { simpl. lia. }
  { split; [by rewrite Ho|]. simpl. reflexivity. }
  { simpl. by rewrite Hr. }
  simpl in El, Hx, Ht. rewrite seen_by_own in El.
  destruct (last_step fd c2 s2 Hc2) as (s3 & c3 & He3 & Hc3 & Hp3 & Hw3); [by rewrite Hp2; destruct r..|].
  exists (S (k + 1))%nat, s3, c3. split_and!; [|done|done|].
  - simpl replicate. eapply exec_all_cons; [exact Hex|]. rewrite replicate_add, exec_all_app, He.
    simpl. by rewrite He3.
  - rewrite Hw3, Hp2, Hx, Ht, Hl, Hw.
    pose proof (serve_split (context c) fd t _ _ _ _ _ El) as Hs.
    destruct (serve ml (context c) fd t _ w1) as [rs ws]. simpl in *. rewrite Hs. by destruct r.
Qed.

(** ** The abstract sessions *)

(** A client's session: the node it stands for, the messages still to be
    handled, the bytes it has been sent, and whether it is connected. *)
Record session := mkSession {
  node : string;
  todo : list MessageSerializer.message;
  received : list byte;
  connected : bool
}.

(** The registry and the sessions, with a message handled or a client going
    away at a time [now]. *)
Record sessions := mkSessions {
  registry : gmap string NodeRegistry.NodeEntry;
  clients : gmap Z session
}.

Inductive step (fd : Z) : sessions → sessions → Prop :=
| step_message reg cs n m ms out now :
    cs !! fd = Some (mkSession n (m :: ms) out true) → 0 ≤ now →
    step fd (mkSessions reg cs)
      (let fr := MessageSerializer.message_result m in
       mkSessions (reg_after now fr n reg)
         (<[fd := mkSession (next_node fr n) ms
                    (out ++ concat (option_list (reply_of fr reg))) true]> cs))
| step_leave reg cs n out now :
    cs !! fd = Some (mkSession n [] out true) → 0 ≤ now →
    step fd (mkSessions reg cs)
      (mkSessions (NodeRegistry.setOffline n now reg) (<[fd := mkSession n [] out false]> cs)).

(** ** The simulation *)

(** A message a client may send: the names in it survive the logger. *)
Definition sendable (m : MessageSerializer.message) : Prop :=
  MessageSerializer.message_ok m ∧ names_ok m.2.

Definition context_ok (x : ConnectionContext) : Prop :=
  Logger.text_ok (m_nodeId x) = true ∧ Logger.text_ok (m_sessionId x) = true ∧
  Logger.text_ok (m_clientIp x) = true.

(** What the client at [fd] has been sent, and, while it is read from, the
    messages on their way. *)
Definition outgoing (fd : Z) (w : world) (σ : session) : Prop :=
  ∃ k, w_socks w !! fd = Some k ∧ sk_out k = received σ.
Definition incoming (fd : Z) (w : world) (σ : session) : Prop :=
  ∃ k st, w_socks w !! fd = Some k ∧ send_ok (sk_snd k) ∧ sk_out k = received σ ∧
    view (sk_in k) = (concat (MessageSerializer.message_frame <$> todo σ), st).

Definition connection_sim (fd : Z) (w : world) (c : connection) (σ : session) : Prop :=
  0 ≤ fd ∧ context_ok (context c) ∧ Logger.text_ok (node σ) = true ∧ Forall sendable (todo σ) ∧
  match place c with
  | Waiting =>
      connected σ = true ∧ node σ = m_nodeId (context c) ∧ Otel.wf (spans c) ∧
      configurable fd w = true ∧ incoming fd w σ
  | Reading =>
      connected σ = true ∧ node σ = activeNodeId (vars c) ∧ (∃ o0, conn o0 (vars c) (spans c)) ∧
      incoming fd w σ
  | Leaving _ =>
      connected σ = true ∧ node σ = activeNodeId (vars c) ∧ (∃ o0, conn o0 (vars c) (spans c)) ∧
      todo σ = [] ∧ outgoing fd w σ
  | Failing => False
  | Gone => connected σ = false ∧ todo σ = [] ∧ outgoing fd w σ
  end.

Record sim (s : state) (a : sessions) : Prop := {
  sim_reg : w_reg (shared s) = registry a;
  sim_ok : reg_ok (registry a);
  sim_clients fd c : connections s !! fd = Some c →
    ∃ σ, clients a !! fd = Some σ ∧ connection_sim fd (shared s) c σ
}.

(** Other connections do not notice. *)
Lemma connection_sim_kept fd w w' c σ :
  w_socks w' !! fd = w_socks w !! fd → connection_sim fd w c σ → connection_sim fd w' c σ.
Proof.
  intros E (H1 & H2 & H3 & H4 & H5). split_and!; try done.
  unfold incoming, outgoing, configurable in *. rewrite E. exact H5.
Qed.

Lemma sim_update fd c' σ' s a s' a' :
  sim s a → connections s' = <[fd := c']> (connections s) → clients a' = <[fd := σ']> (clients a) →
  (∀ fd', fd' ≠ fd → w_socks (shared s') !! fd' = w_socks (shared s) !! fd') →
  w_reg (shared s') = registry a' → reg_ok (registry a') →
  connection_sim fd (shared s') c' σ' → sim s' a'.
Proof.
  intros [_ _ Hc] Es Ea Hk Hr Hok Hsim. split; [done..|]. intros fd' c. rewrite Es, Ea.
  destruct (decide (fd' = fd)) as [->|Hne].
  - rewrite !lookup_insert_eq. intros [= <-]. eauto.
  - rewrite !lookup_insert_ne by done. intros (σ & Hσ & Hsσ)%Hc. exists σ. split; [done|].
    by eapply connection_sim_kept; [apply Hk|].
Qed.

Lemma sim_stutter fd c' σ s a s' :
  sim s a → clients a !! fd = Some σ → connections s' = <[fd := c']> (connections s) →
  (∀ fd', fd' ≠ fd → w_socks (shared s') !! fd' = w_socks (shared s) !! fd') →
  w_reg (shared s') = w_reg (shared s) → connection_sim fd (shared s') c' σ → sim s' a.
Proof.
  intros Hs Hσ Es Hk Hr Hsim. apply (sim_update fd c' σ s a); try done.
  - by rewrite insert_id.
  - rewrite Hr. apply Hs.
  - apply Hs.
Qed.

Lemma sim_reg_ok s a : sim s a → reg_ok (w_reg (shared s)).
Proof. intros [Hr Hok _]. by rewrite Hr. Qed.

Lemma session_eta σ : σ = mkSession (node σ) (todo σ) (received σ) (connected σ).
Proof. by destruct σ. Qed.

(** *** The start of a connection *)

Lemma begin_sim fd c s a :
  sim s a → connections s !! fd = Some c → place c = Waiting → sim (begin fd c s) a.
Proof.
  intros Hs Hc Hp. destruct (sim_clients _ _ Hs _ _ Hc) as (σ & Hσ & Hfd & Hx & Ht & Hm & Hsim).
  rewrite Hp in Hsim. destruct Hsim as (Hcn & Hn & Hwf & Hcfg & k & st & Hk & Hsnd & Hout & Hv).
  unfold begin. set (w0 := set_reads _ (seen_by c (shared s))).
  destruct (configure_run fd idle w0) as (E & Hkept & Hr & Ho & _ & _).
  unfold applyReceiveTimeout. rewrite E. change (configurable fd w0) with (configurable fd (shared s)).
  rewrite Hcfg. unfold configurable in Hcfg. rewrite Hk in Hcfg.
  destruct (configured_sock fd idle (S (w_reads (shared s))) (seen_by c (shared s)) k Hk Hcfg)
    as (k' & Hk' & Hin' & Hsnd' & Hout').
  eapply (sim_stutter fd _ σ s); [done|done|reflexivity| | |]; simpl.
  - intros fd' Hne. apply Hkept. done.
  - by rewrite Hr.
  - split_and!; try done. simpl. split_and!; try done.
    + exists (w_otel (configured fd idle w0)). split; [by rewrite Ho|]. simpl. reflexivity.
    + exists k', st. split_and!; [done|by rewrite Hsnd'|by rewrite Hout'|by rewrite Hin'].
Qed.

(** *** A turn *)

Context `{!ClockOk} `{!JsonLaws}.

(** What a handled message means for the socket. *)
Lemma message_socket fd w w' m ms k st now el n :
  w_socks w !! fd = Some k → send_ok (sk_snd k) → Forall sendable (m :: ms) →
  view (sk_in k) = (concat (MessageSerializer.message_frame <$> (m :: ms)), st) →
  let fr := MessageSerializer.message_result m in
  vis_eq (msg_world fd now el fr n (after_read fd w)) w' →
  w_reg w' = reg_after now fr n (w_reg w) ∧
  ∃ k', w_socks w' !! fd = Some k' ∧ send_ok (sk_snd k') ∧
    sk_out k' = sk_out k ++ concat (option_list (reply_of fr (w_reg w))) ∧
    view (sk_in k') = (concat (MessageSerializer.message_frame <$> ms), st).
Proof.
  intros Hk Hsnd Hm Hv fr Hvis.
  assert (Forall MessageSerializer.message_ok (m :: ms)) as Hok.
  { eapply Forall_impl; [exact Hm|]. by intros x []. }
  destruct (frame_at_messages fd w k (m :: ms) st Hk Hok Hv) as (_ & k1 & Hk1 & Ho1 & Hs1 & Hv1).
  destruct (after_read_same fd w) as (Hreg & _).
  set (reg' := reg_after now fr n (w_reg (after_read fd w))) in *.
  set (rep := reply_of fr (w_reg (after_read fd w))) in *.
  destruct (answer_sock fd reg' rep (after_read fd w) k1)
    as (k2 & Hk2 & Hi2 & Hs2 & Ho2); [done|by rewrite Hs1|].
  destruct (answer_same fd reg' rep (after_read fd w)) as (Har & _).
  split.
  - rewrite (v_reg _ _ Hvis). unfold msg_world. simpl. fold fr reg' rep. rewrite Har. subst reg'.
    by rewrite Hreg.
  - exists k2. rewrite (v_socks _ _ Hvis). split_and!; [exact Hk2|done| |by rewrite Hi2].
    rewrite Ho2, Ho1. subst rep. by rewrite Hreg.
Qed.

(** The stream has ended: the session waits for its last step. *)
Lemma turn_last fd c σ s a k st o0 :
  sim s a → clients a !! fd = Some σ → 0 ≤ fd → context_ok (context c) →
  Logger.text_ok (node σ) = true → connected σ = true → node σ = activeNodeId (vars c) →
  conn o0 (vars c) (spans c) → todo σ = [] →
  w_socks (shared s) !! fd = Some k → sk_out k = received σ → view (sk_in k) = ([], st) →
  sim (turn fd c s) a.
Proof.
  intros Hs Hσ Hfd Hx Ht Hcn Hn Ho Htodo Hk Hout Hv. unfold turn. set (w := seen_by c (shared s)).
  pose proof (iteration_run ml (context c) fd (vars c) o0 w Ho) as Hit. cbv zeta in Hit.
  pose proof (frame_at_messages fd w k [] st Hk (Forall_nil_2 _) Hv) as Hf.
  rewrite bool_decide_eq_true_2 in Hit by done. rewrite Hit by by eapply sim_reg_ok.
  destruct (after_read_same fd w) as (Hreg & _ & _ & _ & Hso).
  destruct (frame_at_view fd w k _ _ Hk Hv) as (_ & k' & Hk' & Hout' & _).
  eapply (sim_stutter fd _ σ s); [done|done|reflexivity|exact Hso|exact Hreg|].
  split_and!; try done; [by rewrite Htodo|]. simpl. split_and!; try done.
  - exists o0. by rewrite vs_otel.
  - exists k'. by rewrite Hk', Hout', Hout.
Qed.

Lemma turn_message fd c σ m ms s a k st o0 :
  sim s a → clients a !! fd = Some σ → 0 ≤ fd → context_ok (context c) →
  Logger.text_ok (node σ) = true → connected σ = true → node σ = activeNodeId (vars c) →
  conn o0 (vars c) (spans c) → todo σ = m :: ms → Forall sendable (m :: ms) →
  w_socks (shared s) !! fd = Some k → send_ok (sk_snd k) → sk_out k = received σ →
  view (sk_in k) = (concat (MessageSerializer.message_frame <$> (m :: ms)), st) →
  ∃ a', step fd a a' ∧ sim (turn fd c s) a'.
Proof.
  intros Hs Hσ Hfd Hx Ht Hcn Hn Ho Htodo Hm Hk Hsnd Hout Hv.
  pose proof Hm as [[Hmok Hname] Hm']%Forall_cons. pose proof Hx as (_ & Hsid & Hip).
  unfold turn. set (w := seen_by c (shared s)).
  assert (w_reg w = registry a) as Hreg by apply (sim_reg _ _ Hs).
  pose proof (iteration_run ml (context c) fd (vars c) o0 w Ho) as Hit. cbv zeta in Hit.
  destruct (frame_at_messages fd w k (m :: ms) st Hk) as (Hf & _); [|done|].
  { eapply Forall_impl; [exact Hm|]. by intros x []. }
  destruct m as [[t id] payload]. rewrite Hf in Hit. rewrite bool_decide_eq_false_2 in Hit by naive_solver.
  destruct Hit as (r & l & w' & E & Hc' & _ & (_ & _ & Hso) & Hok' & Hr); [by eapply sim_reg_ok|].
  rewrite E. rewrite <-Hn in Hr.
  pose proof (outcome_calm ml (m_sessionId (context c))
    (MessageSerializer.message_result (t, id, payload)) (node σ) (w_reg w) Hname Ht Hsid) as Hcalm.
  destruct r as [[reason|]|e]; [done| |].
  2: { destruct (Hr Hip Hsid) as [Hbad _]. done. }
  destruct Hr as (Hl & _ & now & el & Hnow & Hvis).
  destruct (message_socket fd w w' (t, id, payload) ms k st now el (node σ) Hk Hsnd Hm Hv Hvis)
    as (Hr' & k' & Hk' & Hsnd' & Hout' & Hv').
  destruct a as [reg cs]. simpl in *. rewrite Hreg in *.
  pose proof (session_eta σ) as Eσ. rewrite Htodo, Hcn in Eσ.
  eexists. split; [eapply step_message; [by rewrite <-Eσ|exact Hnow]|].
  eapply (sim_update fd _ _ s); [done|reflexivity|reflexivity|exact Hso|done| |].
  - simpl. rewrite <-Hr'. exact Hok'.
  - split_and!; try done; [by apply next_node_text|]. simpl. split_and!; try done.
    + by exists o0.
    + exists k', st. split_and!; try done. by rewrite Hout', Hout.
Qed.

Lemma turn_sim fd c s a :
  sim s a → connections s !! fd = Some c → place c = Reading →
  sim (turn fd c s) a ∨ ∃ a', step fd a a' ∧ sim (turn fd c s) a'.
Proof.
  intros Hs Hc Hp. destruct (sim_clients _ _ Hs _ _ Hc) as (σ & Hσ & Hfd & Hx & Ht & Hm & Hsim).
  rewrite Hp in Hsim. destruct Hsim as (Hcn & Hn & (o0 & Ho) & k & st & Hk & Hsnd & Hout & Hv).
  destruct (todo σ) as [|m ms] eqn:Etodo.
  - left. by eapply turn_last.
  - right. by eapply turn_message.
Qed.

(** *** The end *)

Lemma leave_sim fd c reason s a :
  sim s a → connections s !! fd = Some c → place c = Leaving reason →
  ∃ a', step fd a a' ∧ sim (leave fd c reason s) a'.
Proof.
  intros Hs Hc Hp. destruct (sim_clients _ _ Hs _ _ Hc) as (σ & Hσ & Hfd & Hx & Ht & Hm & Hsim).
  rewrite Hp in Hsim. destruct Hsim as (Hcn & Hn & (o0 & Ho) & Htodo & k & Hk & Hout).
  unfold leave. set (w := seen_by c (shared s)).
  destruct (depart_run ml (context c) (connectTime c) reason (vars c) o0 w Ho)
    as (r & w' & now & E & Hnow & Hvis & _). rewrite E. simpl snd.
  destruct a as [reg cs]. simpl in *.
  pose proof (session_eta σ) as Eσ. rewrite Htodo, Hcn in Eσ.
  assert (w_socks (teardown fd w') = w_socks (shared s)) as Hso.
  { unfold teardown. case_match; simpl; by rewrite (v_socks _ _ Hvis). }
  assert (w_reg (teardown fd w') = NodeRegistry.setOffline (node σ) now reg) as Hr.
  { unfold teardown. rewrite Hn. case_match; simpl; rewrite (v_reg _ _ Hvis); simpl;
      by rewrite (sim_reg _ _ Hs). }
  eexists. split; [eapply step_leave; [by rewrite <-Eσ|exact Hnow]|].
  eapply (sim_update fd _ _ s); [done|reflexivity|reflexivity| |exact Hr| |].
  - intros fd' _. cbn [shared resume]. by rewrite Hso.
  - apply reg_ok_setOffline; [done|apply Hs].
  - split_and!; try done. cbn [place resume shared]. split_and!; [done..|]. exists k. by rewrite Hso.
Qed.

(** Every step is one of the sessions', or does not show. *)
Lemma exec_sim fd s a s' :
  sim s a → exec fd s = Some s' → sim s' a ∨ ∃ a', step fd a a' ∧ sim s' a'.
Proof.
  intros Hs He. unfold exec in He. destruct (connections s !! fd) as [c|] eqn:Hc; [|done].
  destruct (place c) eqn:Hp; simplify_eq.
  - left. by apply begin_sim.
  - by apply turn_sim.
  - right. by apply leave_sim.
  - destruct (sim_clients _ _ Hs _ _ Hc) as (σ & _ & _ & _ & _ & _ & Hf). by rewrite Hp in Hf.
Qed.

(** A run of the sessions, in the order in which they move. *)
Inductive run : list Z → sessions → sessions → Prop :=
| run_nil a : run [] a a
| run_cons fd fds a a1 a2 : step fd a a1 → run fds a1 a2 → run (fd :: fds) a a2.


Lemma exec_all_sim ls s a s' :
  sim s a → exec_all exec ls s = Some s' →
  ∃ fds a', fds `sublist_of` ls ∧ run fds a a' ∧ sim s' a'.
Proof.
  revert s a. induction ls as [|fd ls IH]; intros s a Hs He; simplify_eq/=.
  { exists [], a. split_and!; [done|constructor|done]. }
  destruct (exec fd s) as [s1|] eqn:E; [|done].
  destruct (exec_sim fd s a s1 Hs E) as [Hs1|(a1 & Ha & Hs1)];
    destruct (IH s1 _ Hs1 He) as (fds & a' & Hsub & Hrun & Hs').
  - exists fds, a'. split_and!; [by apply sublist_cons|done|done].
  - exists (fd :: fds), a'. split_and!; [by apply sublist_skip|by econstructor|done].
Qed.

(** ** Everyone is served to the end *)





(** A step touches the connection's own socket only. *)
Lemma exec_frame fd s a s' :
  sim s a → exec fd s = Some s' →
  (∃ c', connections s' = <[fd := c']> (connections s)) ∧
  ∀ fd', fd' ≠ fd → w_socks (shared s') !! fd' = w_socks (shared s) !! fd'.
Proof.
  intros Hs He. unfold exec in He. destruct (connections s !! fd) as [c|] eqn:Hc; [|done].
  destruct (sim_clients _ _ Hs _ _ Hc) as (σ & _ & _ & _ & _ & _ & Hsim).
  destruct (place c) eqn:Hp; simplify_eq; [| | |done].
  - destruct Hsim as (_ & _ & _ & Hcfg & _). unfold begin, applyReceiveTimeout.
    set (w0 := set_reads _ (seen_by c (shared s))).
    destruct (configure_run fd idle w0) as (E & (_ & _ & Hk) & _). rewrite E.
    change (configurable fd w0) with (configurable fd (shared s)). rewrite Hcfg.
    split; [by eexists|exact Hk].
  - destruct Hsim as (_ & _ & (o0 & Ho) & _). unfold turn. set (w := seen_by c (shared s)).
    pose proof (iteration_run ml (context c) fd (vars c) o0 w Ho (sim_reg_ok _ _ Hs)) as Hit.
    cbv zeta in Hit. case_bool_decide as Hst.
    + rewrite Hit. split; [by eexists|]. apply (after_read_same fd w).
    + destruct Hit as (r & l & w' & E & _ & _ & (_ & _ & Hk) & _). rewrite E.
      destruct r as [[reason|]|e]; (split; [by eexists|exact Hk]).
  - destruct Hsim as (_ & _ & (o0 & Ho) & _). unfold leave. set (w := seen_by c (shared s)).
    destruct (depart_run ml (context c) (connectTime c) reason (vars c) o0 w Ho)
      as (r & w' & now & E & _ & Hvis & _). rewrite E. split; [by eexists|].
    intros fd' _. simpl. unfold teardown. case_match; simpl; by rewrite (v_socks _ _ Hvis).
Qed.






(** ** What a client can rely on while others are connected *)

(** A message that does not name [n] touches at most when [n] was last
    seen, and only on a connection that stands for it. *)
Lemma reg_after_entry now m n k reg :
  named m ≠ Some n →
  reg_after now (MessageSerializer.message_result m) k reg !! n = reg !! n ∨
  (k = n ∧ ∃ e, reg !! n = Some e ∧ NodeRegistry.status e = NodeRegistry.ONLINE ∧
   reg_after now (MessageSerializer.message_result m) k reg !! n
     = Some (NodeRegistry.with_last_seen now e)).
Proof.
  intros Hn. destruct m as [[t id] payload]. unfold reg_after. simpl.
  destruct t; try (by left).
  - left. unfold RegisterHandler.effect.
    destruct (RegisterHandler.decide_reg payload reg) eqn:Ed; try done.
    apply lookup_insert_ne. apply (registered_named id) in Ed as [Ed _]. congruence.
  - unfold NodeRegistry.updateLastSeen. destruct (str_empty k); [by left|].
    destruct (reg !! k) as [e|] eqn:Ek; [|by left]. case_bool_decide as Hs; [|by left]. simpl.
    destruct (decide (k = n)) as [->|Hne]; [|left; by rewrite lookup_insert_ne].
    right. split; [done|]. exists e. by rewrite lookup_insert_eq.
Qed.

(** The entry of a node whose client is connected, or has gone. *)
Definition entry_while (online : bool) (t : Z) (e : NodeRegistry.NodeEntry) : NodeRegistry.NodeEntry :=
  NodeRegistry.with_last_seen t
    (NodeRegistry.with_status (if online then NodeRegistry.ONLINE else NodeRegistry.OFFLINE) e).

(** The node [n] is the business of the connection [fd] alone, and its entry
    is [e], up to when it was last seen. *)
Record belongs (a : sessions) (fd : Z) (n : string) (e : NodeRegistry.NodeEntry) : Prop := {
  be_name : str_empty n = false;
  be_own σ : clients a !! fd = Some σ → connected σ = true →
    node σ = n ∧ Forall (λ m, named m = None) (todo σ);
  be_others fd' σ : fd' ≠ fd → clients a !! fd' = Some σ →
    node σ ≠ n ∧ Forall (λ m, named m ≠ Some n) (todo σ);
  be_entry : ∃ σ t, clients a !! fd = Some σ ∧ registry a !! n = Some (entry_while (connected σ) t e)
}.

Lemma entry_while_seen online t t' e :
  NodeRegistry.with_last_seen t' (entry_while online t e) = entry_while online t' e.
Proof. done. Qed.

(** A step of another connection. *)
Lemma belongs_other fd fd' n e a a' :
  fd' ≠ fd → step fd' a a' → belongs a fd n e → belongs a' fd n e.
Proof.
  intros Hne Hst [Hnm Hown Hoth (σ & t & Hσ & He)].
  destruct Hst as [reg cs k m ms out now Hc Hnow|reg cs k out now Hc Hnow]; simpl in *.
  - destruct (Hoth fd' _ Hne Hc) as [Hk Hms]. simpl in Hk, Hms. apply Forall_cons in Hms as [Hm Hms].
    split; simpl; [done|by rewrite lookup_insert_ne| |].
    + intros fd2 σ2 H2. destruct (decide (fd2 = fd')) as [->|]; [|rewrite lookup_insert_ne by done; eauto].
      rewrite lookup_insert_eq. intros [= <-]. simpl. split; [|done].
      rewrite next_node_named. destruct (named m); simpl; congruence.
    + exists σ, t. rewrite lookup_insert_ne by done. split; [done|].
      destruct (reg_after_entry now m n k reg Hm) as [->|[? _]]; done.
  - destruct (Hoth fd' _ Hne Hc) as [Hk _]. simpl in Hk.
    split; simpl; [done|by rewrite lookup_insert_ne| |].
    + intros fd2 σ2 H2. destruct (decide (fd2 = fd')) as [->|]; [|rewrite lookup_insert_ne by done; eauto].
      rewrite lookup_insert_eq. by intros [= <-].
    + exists σ, t. rewrite lookup_insert_ne by done. split; [done|]. by rewrite NodeRegistry.setOffline_other.
Qed.

(** A step of its own. *)
Lemma belongs_own fd n e a a' : step fd a a' → belongs a fd n e → belongs a' fd n e.
Proof.
  intros Hst [Hnm Hown Hoth (σ & t & Hσ & He)].
  destruct Hst as [reg cs k m ms out now Hc Hnow|reg cs k out now Hc Hnow]; simpl in *;
    rewrite Hc in Hσ; injection Hσ as <-; destruct (Hown _ Hc eq_refl) as [Hk Hms]; simpl in *.
  - apply Forall_cons in Hms as [Hm Hms]. split; simpl; [done| | |].
    + rewrite lookup_insert_eq. intros ? [= <-] _. simpl. split; [|done].
      by rewrite next_node_named, Hm.
    + intros fd' σ' Hne. rewrite lookup_insert_ne by done. by apply Hoth.
    + destruct (reg_after_entry now m n k reg) as [E|(_ & e' & He' & _ & E)]; [by rewrite Hm|..].
      * eexists _, t. rewrite lookup_insert_eq. split; [done|]. simpl. by rewrite E.
      * eexists _, now. rewrite lookup_insert_eq. split; [done|]. simpl.
        rewrite He in He'. injection He' as <-. by rewrite E, entry_while_seen.
  - split; simpl; [done| | |].
    + rewrite lookup_insert_eq. by intros ? [= <-].
    + intros fd' σ' Hne. rewrite lookup_insert_ne by done. by apply Hoth.
    + eexists _, now. rewrite lookup_insert_eq. split; [done|]. simpl. unfold NodeRegistry.setOffline.
      rewrite Hk, Hnm, He, lookup_insert_eq. done.
Qed.

Lemma belongs_run fd n e fds a a' : run fds a a' → belongs a fd n e → belongs a' fd n e.
Proof.
  induction 1 as [|fd' fds a a1 a2 Hs Hr IH]; [done|]. intros Hb. apply IH.
  destruct (decide (fd' = fd)) as [->|]; [by eapply belongs_own|by eapply belongs_other].
Qed.

(** An accepted REGISTER makes the node the client's. *)
Lemma registration_belongs fd mid payload ms out k now reg cs e :
  let m := (MessageSerializer.REGISTER, mid, payload) in
  cs !! fd = Some (mkSession k (m :: ms) out true) →
  RegisterHandler.decide_reg payload reg = RegisterHandler.Registered e →
  Forall (λ m, named m = None) ms →
  (∀ fd' σ, fd' ≠ fd → cs !! fd' = Some σ →
     node σ ≠ NodeRegistry.node_id e ∧ Forall (λ m, named m ≠ Some (NodeRegistry.node_id e)) (todo σ)) →
  let fr := MessageSerializer.message_result m in
  belongs (mkSessions (reg_after now fr k reg)
    (<[fd := mkSession (next_node fr k) ms (out ++ concat (option_list (reply_of fr reg))) true]> cs))
    fd (NodeRegistry.node_id e) e.
Proof.
  intros m Hc Hd Hms Hoth fr. destruct (registered_named mid payload reg e Hd) as [Hn Hne].
  split; simpl.
  - done.
  - rewrite lookup_insert_eq. intros ? [= <-] _. simpl. split; [|done].
    unfold fr, m. by rewrite next_node_named, Hn.
  - intros fd' σ Hf. rewrite lookup_insert_ne by done. by apply Hoth.
  - eexists _, (NodeRegistry.last_seen_at e). rewrite lookup_insert_eq. split; [done|]. simpl.
    unfold reg_after. simpl. rewrite Hd. simpl. rewrite lookup_insert_eq.
    pose proof (RegisterHandler.decide_reg_online _ _ _ Hd) as Hon. destruct e. simpl in *. by subst.
Qed.

(** The two views of a client's presence agree. *)
Lemma sim_connected s a fd c σ :
  sim s a → connections s !! fd = Some c → clients a !! fd = Some σ →
  connected σ = negb (bool_decide (place c = Gone)).
Proof.
  intros Hs Hc Hσ. destruct (sim_clients _ _ Hs _ _ Hc) as (σ' & Hσ' & _ & _ & _ & _ & Hsim).
  rewrite Hσ in Hσ'. injection Hσ' as <-. destruct (place c); try done; by destruct Hsim as [-> _].
Qed.

(** A connection stays in the table. *)
Lemma exec_all_keeps ls s a s' fd :
  sim s a → exec_all exec ls s = Some s' → is_Some (connections s !! fd) →
  is_Some (connections s' !! fd).
Proof.
  revert s a. induction ls as [|fd' ls IH]; intros s a Hs He Hc; simplify_eq/=; [done|].
  destruct (exec fd' s) as [s1|] eqn:E; [|done].
  destruct (exec_frame fd' s a s1 Hs E) as [[c' Ec] _].
  assert (is_Some (connections s1 !! fd)) as Hc1.
  { rewrite Ec. destruct (decide (fd' = fd)) as [->|]; [rewrite lookup_insert_eq|rewrite lookup_insert_ne by done]; eauto. }
  destruct (exec_sim fd' s a s1 Hs E) as [Hs1|(a1 & _ & Hs1)]; eauto.
Qed.

(** What a client has been sent is on its socket. *)
Lemma sim_received s a fd c σ :
  sim s a → connections s !! fd = Some c → clients a !! fd = Some σ → outgoing fd (shared s) σ.
Proof.
  intros Hs Hc Hσ. destruct (sim_clients _ _ Hs _ _ Hc) as (σ' & Hσ' & _ & _ & _ & _ & Hsim).
  rewrite Hσ in Hσ'. injection Hσ' as <-.
  destruct (place c); try done.
  - destruct Hsim as (_ & _ & _ & _ & k & st & Hk & _ & Hout & _). by exists k.
  - destruct Hsim as (_ & _ & _ & k & st & Hk & _ & Hout & _). by exists k.
  - apply Hsim.
  - apply Hsim.
Qed.

(** The turn that handles a message, at both levels. *)
Lemma message_handled fd c m ms n out s a s1 :
  sim s a → connections s !! fd = Some c → place c = Reading →
  clients a !! fd = Some (mkSession n (m :: ms) out true) → exec fd s = Some s1 →
  let fr := MessageSerializer.message_result m in
  ∃ now, 0 ≤ now ∧
    sim s1 (mkSessions (reg_after now fr n (w_reg (shared s)))
      (<[fd := mkSession (next_node fr n) ms
                 (out ++ concat (option_list (reply_of fr (w_reg (shared s))))) true]> (clients a))).
Proof.
  intros Hs Hc Hp Hσ He. unfold exec in He. rewrite Hc, Hp in He. injection He as <-.
  destruct (sim_clients _ _ Hs _ _ Hc) as (σ & Hσ' & Hfd & Hx & Ht & Hm & Hsim).
  rewrite Hσ in Hσ'. injection Hσ' as <-. rewrite Hp in Hsim.
  destruct Hsim as (Hcn & Hn & (o0 & Ho) & k & st & Hk & Hsnd & Hout & Hv).
  destruct (turn_message fd c _ m ms s a k st o0 Hs Hσ Hfd Hx Ht Hcn Hn Ho eq_refl Hm Hk Hsnd Hout Hv)
    as (a' & Hst & Hs'). rewrite (sim_reg _ _ Hs).
  inversion Hst as [reg cs n' m' ms' out' now Hc' Hnow|reg cs n' out' now Hc' Hnow]; subst;
    simpl in *; rewrite Hσ in Hc'; simplify_eq. by exists now.
Qed.

(** C2: With any number of clients connected at the same time, every schedule
    of the turns of their connections is an interleaving of the abstract
    sessions: the registry, and the bytes each client has been sent, are at
    every moment those of some run in which, one message at a time and in the
    order of the schedule, a session handles its next message against the
    registry as it then is, or, after its last one, takes its node offline
    and ends.  No connection is ever left by an exception. *)
Theorem clients_refine_sessions ls s a s' :
  sim s a → exec_all exec ls s = Some s' →
  ∃ fds a', fds `sublist_of` ls ∧ run fds a a' ∧ w_reg (shared s') = registry a' ∧
    ∀ fd c, connections s' !! fd = Some c → place c ≠ Failing ∧
      ∃ σ k, clients a' !! fd = Some σ ∧ w_socks (shared s') !! fd = Some k ∧ sk_out k = received σ ∧
        connected σ = negb (bool_decide (place c = Gone)).
Proof.
  intros Hs He. destruct (exec_all_sim ls s a s' Hs He) as (fds & a' & Hsub & Hrun & Hs').
  exists fds, a'. split_and!; [done|done|apply Hs'|]. intros fd c Hc.
  destruct (sim_clients _ _ Hs' _ _ Hc) as (σ & Hσ & _ & _ & _ & _ & Hsim).
  split; [by intros Hp; rewrite Hp in Hsim|].
  destruct (sim_received _ _ _ _ _ Hs' Hc Hσ) as (k & Hk & Hout).
  exists σ, k. split_and!; try done. by eapply sim_connected.
Qed.


(** C3: a registration that no one else claims lasts as long as its
    connection, while any number of other clients are served.  Take a client
    whose next message is an accepted REGISTER and which registers nothing
    after it, and suppose that no other client stands for the same id or names
    it in a REGISTER still to come (a refused one would do harm too:
    [duplicate_register_evicts]).  After any further steps of any of the
    connections the node is in the registry with the fields its client sent,
    ONLINE until its connection has ended and OFFLINE from then on, and a
    client that asks for the node at that moment is sent that entry. *)
Theorem registration_lasts fd c mid payload ms n out e ls s a s1 s' :
  sim s a → connections s !! fd = Some c → place c = Reading →
  clients a !! fd
    = Some (mkSession n ((MessageSerializer.REGISTER, mid, payload) :: ms) out true) →
  RegisterHandler.decide_reg payload (w_reg (shared s)) = RegisterHandler.Registered e →
  Forall (λ m, named m = None) ms →
  (∀ fd' σ, fd' ≠ fd → clients a !! fd' = Some σ →
     node σ ≠ NodeRegistry.node_id e ∧ Forall (λ m, named m ≠ Some (NodeRegistry.node_id e)) (todo σ)) →
  exec fd s = Some s1 → exec_all exec ls s1 = Some s' →
  ∃ c' t, connections s' !! fd = Some c' ∧
    let e' := entry_while (negb (bool_decide (place c' = Gone))) t e in
    w_reg (shared s') !! NodeRegistry.node_id e = Some e' ∧
    ∃ a', sim s' a' ∧ ∀ fd2 c2 mid2 pq jq ms2 n2 out2 s2,
      connections s' !! fd2 = Some c2 → place c2 = Reading →
      clients a' !! fd2
        = Some (mkSession n2 ((MessageSerializer.QUERY_NODE, mid2, pq) :: ms2) out2 true) →
      j_parse pq = Some jq → j_contains jq "node_id" = true →
      j_is_string (j_at jq "node_id") = true →
      j_get_string (j_at jq "node_id") = NodeRegistry.node_id e →
      exec fd2 s' = Some s2 →
      ∃ k, w_socks (shared s2) !! fd2 = Some k ∧
        sk_out k = out2 ++ QueryHandler.reply_frame mid2 (QueryHandler.Found (NodeRegistry.node_id e) e').
Proof.
  intros Hs Hc Hp Hσ Hd Hms Hoth He1 He.
  destruct (message_handled _ _ _ _ _ _ _ _ _ Hs Hc Hp Hσ He1) as (now & _ & Hs1).
  destruct (exec_all_sim _ _ _ _ Hs1 He) as (fds & a' & _ & Hrun & Hs').
  destruct (belongs_run _ _ _ _ _ _ Hrun (registration_belongs fd mid payload ms out n now
    _ _ e Hσ Hd Hms Hoth)) as [_ _ _ (σ & t & Hσ' & Hent)].
  destruct (exec_all_keeps ls s1 _ s' fd Hs1 He) as [c' Hc'].
  { destruct (exec_frame _ _ _ _ Hs He1) as [[c1 Ec] _]. rewrite Ec, lookup_insert_eq. by eexists. }
  rewrite <-(sim_reg _ _ Hs'), (sim_connected _ _ _ _ _ Hs' Hc' Hσ') in Hent.
  exists c', t. split; [done|]. split; [exact Hent|]. exists a'. split; [done|].
  intros fd2 c2 mid2 pq jq ms2 n2 out2 s2 Hc2 Hp2 Hσ2 Hj Hcont Hstr Hid He2.
  destruct (message_handled _ _ _ _ _ _ _ _ _ Hs' Hc2 Hp2 Hσ2 He2) as (now2 & _ & Hs2).
  destruct (exec_frame _ _ _ _ Hs' He2) as [[c3 Ec3] _].
  assert (connections s2 !! fd2 = Some c3) as Hc3 by (by rewrite Ec3, lookup_insert_eq).
  destruct (sim_received _ _ _ _ _ Hs2 Hc3 (lookup_insert_eq _ _ _)) as (k & Hk & Hout).
  exists k. split; [done|]. rewrite Hout. simpl. unfold QueryHandler.decide_query.
  rewrite bool_decide_true, Hj, Hcont, Hstr, Hid, Hent by done. simpl. by rewrite app_nil_r.
Qed.

End system.

Section witnesses.
Import Demo.

(** Two clients, on the descriptors 7 and 8: one registers the node N1 and
    sends a heartbeat, the other asks for N1. *)
Definition first_messages : list MessageSerializer.message :=
  [(MessageSerializer.REGISTER, 1, demo_register); (MessageSerializer.HEARTBEAT, 2, "")].
Definition second_messages : list MessageSerializer.message :=
  [(MessageSerializer.QUERY_NODE, 1, demo_query)].
Definition sends (ms : list MessageSerializer.message) : sock :=
  mkSock [RData (concat (MessageSerializer.message_frame <$> ms)); REof] [] [] None None true.
Definition two_world : world :=
  mkWorld ∅ 2 Otel.init [] PrometheusMetrics.init
    {[ 7 := sends first_messages; 8 := sends second_messages ]} 0 [] 0.
Definition demo_connection (p : phase) : connection :=
  mkConnection demo_ctx 0 (mkLocals "" None) Otel.init 0 p.
Definition two_clients (p : phase) : state :=
  mkState two_world {[ 7 := demo_connection p; 8 := demo_connection p ]}.
Definition two_sessions : sessions :=
  mkSessions ∅ {[ 7 := mkSession "" first_messages [] true; 8 := mkSession "" second_messages [] true ]}.

Lemma two_sendable : Forall sendable first_messages ∧ Forall sendable second_messages.
Proof.
  assert (Forall MessageSerializer.message_ok (first_messages ++ second_messages)) as Hok
    by (repeat constructor; vm_compute; congruence).
  repeat (apply Forall_cons in Hok as [? Hok]).
  split; repeat (apply Forall_cons_2); try apply Forall_nil_2; split; try done.
  - apply demo_names.
  - intros j Hj _ _. assert (j = demo_query_json) as ->.
    { apply (inj Some). rewrite <-Hj. vm_compute. reflexivity. }
    vm_compute. reflexivity.
Qed.

Lemma two_sim p : p = Waiting ∨ p = Reading → sim (two_clients p) two_sessions.
Proof.
  intros Hp. split; [done|apply reg_ok_empty|]. intros fd c Hc. simpl in Hc.
  destruct two_sendable as [H7 H8].
  apply lookup_insert_Some in Hc as [[<- <-]|[_ Hc]]; [|apply lookup_singleton_Some in Hc as [<- <-]].
  all: eexists; split; [reflexivity|].
  all: split; [done|]; split; [by repeat split|]; split; [done|]; split; [done|].
  all: assert (conn Otel.init (mkLocals "" None) Otel.init) as Hcn
    by (split; [apply init_otel_wf|simpl; reflexivity]).
  all: destruct Hp as [-> | ->]; simpl.
  all: split; [done|]; split; [done|].
  all: match goal with
       | |- Otel.wf _ ∧ _ => split; [apply init_otel_wf|]; split; [done|]
       | _ => split; [by exists Otel.init|]
       end.
  all: do 2 eexists; split; [reflexivity|]; split; [by apply Forall_nil|]; split; [done|].
  all: vm_compute; reflexivity.
Qed.

Lemma runs ls s :
  bool_decide (is_Some (exec_all (exec 30 Logger.INFO) ls s)) = true →
  ∃ s', exec_all (exec 30 Logger.INFO) ls s = Some s'.
Proof. by intros Hr%bool_decide_eq_true. Qed.

Lemma clients_refine_witness :
  ∃ s', exec_all (exec 30 Logger.INFO) [8; 7; 8; 7; 7; 8; 8; 7; 7] (two_clients Waiting) = Some s' ∧
  ∃ fds a', run fds two_sessions a' ∧ w_reg (shared s') = registry a'.
Proof.
  destruct (runs [8; 7; 8; 7; 7; 8; 8; 7; 7] (two_clients Waiting)) as [s' Hs'];
    [vm_compute; reflexivity|].
  destruct (clients_refine_sessions 30 Logger.INFO _ (two_clients Waiting) two_sessions s'
    (two_sim Waiting (or_introl eq_refl)) Hs') as (fds & a' & _ & Hrun & Hreg & _).
  exists s'. exact (conj Hs' (ex_intro _ fds (ex_intro _ a' (conj Hrun Hreg)))).
Defined.


Lemma registration_lasts_witness :
  ∃ s', exec_all (exec 30 Logger.INFO) [7; 7; 8; 8; 7] (two_clients Reading) = Some s' ∧
  ∃ c' t, connections s' !! 7 = Some c' ∧
    w_reg (shared s') !! "N1" = Some (entry_while (negb (bool_decide (place c' = Gone))) t
      (NodeRegistry.mkNodeEntry "N1" "B" "10.0.0.1" 25 NodeRegistry.ONLINE 0)).
Proof.
  destruct (runs [7; 7; 8; 8; 7] (two_clients Reading)) as [s' Hs']; [vm_compute; reflexivity|].
  exists s'. split; [exact Hs'|]. simpl in Hs'.
  destruct (exec 30 Logger.INFO 7 (two_clients Reading)) as [s1|] eqn:H1; [|discriminate Hs'].
  destruct (registration_lasts 30 Logger.INFO 7 (demo_connection Reading) 1 demo_register
    [(MessageSerializer.HEARTBEAT, 2, "")] "" []
    (NodeRegistry.mkNodeEntry "N1" "B" "10.0.0.1" 25 NodeRegistry.ONLINE 0) [7; 8; 8; 7]
    (two_clients Reading) two_sessions s1 s') as (c' & t & Hc & He & _).
  - apply two_sim. by right.
  - reflexivity.
  - reflexivity.
  - reflexivity.
  - vm_compute. reflexivity.
  - repeat constructor.
  - intros fd' σ Hne Hσ. simpl in Hσ. rewrite lookup_insert_ne in Hσ by done.
    apply lookup_singleton_Some in Hσ as [_ <-]. split; [done|]. constructor; [done|constructor].
  - exact H1.
  - exact Hs'.
  - exists c', t. exact (conj Hc He).
Defined.

Lemma turns_witness :
  let s := two_clients Waiting in
  ∃ k s' c', exec_all (exec 30 Logger.INFO) (replicate k 7) s = Some s' ∧ connections s' !! 7 = Some c' ∧
    place c' = Gone ∧ seen_by c' (shared s')
      = (handleConnection 30 Logger.INFO 7 demo_ctx (seen_by (demo_connection Waiting) two_world)).2.
Proof.
  intros s. apply (turns_are_handleConnection 30 Logger.INFO 7 (demo_connection Waiting) s).
  - reflexivity.
  - reflexivity.
  - done.
  - apply init_otel_wf.
  - apply reg_ok_empty.
Defined.
End witnesses.

End Clients.
