(* ===== verification/MonitorThread.v ===== *)
(** * The thread of HeartbeatMonitor

    Models [start], [stop] and the control flow of [run] in
    [src/heartbeatMonitor.cpp], as a transition system over the mutex, the
    condition variable, the flag and the two threads: the one that owns the
    monitor and the one it starts.  [tick] is one step here; what it does is
    in [HeartbeatMonitor.v]. *)

From S2P Require Import Prelude Threads.
Local Open Scope Z_scope.

Module MonitorThread.
Import Threads.

(** Where the owner is: outside, or in [stop] before taking the lock, before
    [m_stop = true], before releasing the lock, before [notify_one], before
    [join]; or the process was terminated by assigning to a joinable
    [std::thread]. *)
Inductive owner_pc :=
| Outside | AtLock | AtSet | AtUnlock | AtNotify | AtJoin | Terminated.

(** Where [run] is: before its first lock; at the test of the loop; at the
    test of [wait_for]'s predicate; asleep; awake and before taking the lock
    again (after a time-out or not); at the test after [wait_for]; in [tick];
    before the lock after it; returned. *)
Inductive run_pc :=
| Acquire | Loop | Predicate | Sleep | Wake (timed_out : bool) | Retest | Tick | Relock | Returned.

Inductive holder := Owner | Monitor.

#[global] Instance owner_pc_eq_dec : EqDecision owner_pc.
Proof. solve_decision. Defined.
#[global] Instance run_pc_eq_dec : EqDecision run_pc.
Proof. solve_decision. Defined.
#[global] Instance holder_eq_dec : EqDecision holder.
Proof. solve_decision. Defined.

(** [m_mutex], [m_stop], [m_thread] ([None]: not joinable), the owner, and
    how many times [tick] has been entered. *)
Record state := mkState {
  m_mutex : option holder;
  m_stop : bool;
  m_thread : option run_pc;
  owner : owner_pc;
  ticks : nat
}.

Definition init : state := mkState None false None Outside 0.

(** ** Steps *)

(** [start()]. *)
Definition start (s : state) : option state :=
  match owner s, m_thread s with
  | Outside, None => Some (mkState (m_mutex s) (m_stop s) (Some Acquire) Outside (ticks s))
  | Outside, Some _ => Some (mkState (m_mutex s) (m_stop s) (m_thread s) Terminated (ticks s))
  | _, _ => None
  end.

(** [stop()], from its call to its return. *)
Definition stop (s : state) : option state :=
  let goto mu st th pc := Some (mkState mu st th pc (ticks s)) in
  match owner s with
  | Outside => goto (m_mutex s) (m_stop s) (m_thread s) AtLock
  | AtLock =>
      match m_mutex s with
      | None => goto (Some Owner) (m_stop s) (m_thread s) AtSet
      | Some _ => None
      end
  | AtSet => goto (m_mutex s) true (m_thread s) AtUnlock
  | AtUnlock => goto None (m_stop s) (m_thread s) AtNotify
  | AtNotify =>
      goto (m_mutex s) (m_stop s)
        (match m_thread s with Some Sleep => Some (Wake false) | th => th end) AtJoin
  | AtJoin =>
      match m_thread s with
      | None => goto (m_mutex s) (m_stop s) None Outside
      | Some Returned => goto (m_mutex s) (m_stop s) None Outside
      | Some _ => None
      end
  | Terminated => None
  end.

(** The next step of [run]; a sleeping thread has none. *)
Definition run (s : state) : option state :=
  let goto mu pc := Some (mkState mu (m_stop s) (Some pc) (owner s) (ticks s)) in
  let lock pc := match m_mutex s with None => goto (Some Monitor) pc | Some _ => None end in
  match m_thread s with
  | Some Acquire => lock Loop
  | Some Loop => if m_stop s then goto None Returned else goto (m_mutex s) Predicate
  | Some Predicate => if m_stop s then goto (m_mutex s) Retest else goto None Sleep
  | Some (Wake true) => lock Retest
  | Some (Wake false) => lock Predicate
  | Some Retest =>
      if m_stop s then goto (m_mutex s) Loop
      else Some (mkState None (m_stop s) (Some Tick) (owner s) (S (ticks s)))
  | Some Tick => goto (m_mutex s) Relock
  | Some Relock => lock Loop
  | Some Sleep | Some Returned | None => None
  end.

(** The interval has passed, or the system woke the thread for no reason. *)
Definition wake (timed_out : bool) (s : state) : option state :=
  match m_thread s with
  | Some Sleep =>
      Some (mkState (m_mutex s) (m_stop s) (Some (Wake timed_out)) (owner s) (ticks s))
  | _ => None
  end.

Inductive label := Start | Stop | Run | TimeOut | Spurious.

Definition exec (l : label) (s : state) : option state :=
  if bool_decide (owner s = Terminated) then None
  else match l with
       | Start => start s
       | Stop => stop s
       | Run => run s
       | TimeOut => wake true s
       | Spurious => wake false s
       end.

Abbreviation reachable := (Threads.reachable exec (λ s, s = init)).

(** ** The invariant *)

Definition run_holds (pc : option run_pc) : bool :=
  bool_decide (pc = Some Loop ∨ pc = Some Predicate ∨ pc = Some Retest).
Definition owner_holds (pc : owner_pc) : bool := bool_decide (pc = AtSet ∨ pc = AtUnlock).

(** The mutex is held by the thread that is in a critical section; the flag
    is up from the moment the owner has set it; a thread sleeps with the flag
    up only while the owner is on its way to [notify_one]. *)
Record wf (s : state) : Prop := {
  wf_mutex : m_mutex s =
    if run_holds (m_thread s) then Some Monitor
    else if owner_holds (owner s) then Some Owner else None;
  wf_excl : run_holds (m_thread s) && owner_holds (owner s) = false;
  wf_flag : owner s = AtUnlock ∨ owner s = AtNotify ∨ owner s = AtJoin → m_stop s = true;
  wf_sleep : m_thread s = Some Sleep → m_stop s = true →
    owner s = AtUnlock ∨ owner s = AtNotify
}.

(** Case analysis on the state and the step. *)
Ltac step_cases s :=
  let mu := fresh "mu" in let st := fresh "st" in let th := fresh "th" in
  let ow := fresh "ow" in let tk := fresh "tk" in
  destruct s as [mu st th ow tk];
  destruct th as [[| | | |[]| | | |]|], ow, st; simpl in *; simplify_eq/=; try done.

Lemma wf_init : wf init.
Proof. split; naive_solver. Qed.

Lemma exec_wf l s s' : wf s → exec l s = Some s' → wf s'.
Proof.
  intros [H1 H2 H3 H4] He. destruct l; unfold exec, start, stop, run, wake in He; step_cases s;
    repeat case_match; simplify_eq/=; split; simpl; naive_solver.
Qed.

Lemma reachable_wf s : reachable s → wf s.
Proof. apply reachable_invariant; [intros ? ->; apply wf_init|apply exec_wf]. Qed.

(** ** Stopping *)

(** [stop] has raised the flag and not returned. *)
Definition stopping (s : state) : Prop :=
  owner s = AtUnlock ∨ owner s = AtNotify ∨ owner s = AtJoin.

(** [stop] has returned: there is no thread any more. *)
Definition stopped (s : state) : Prop := owner s = Outside ∧ m_thread s = None.

(** Moves of one of the two threads, as opposed to time passing. *)
Definition thread_move (l : label) : Prop := l = Stop ∨ l = Run.

(** Steps left with the flag up. *)
Definition run_rank (pc : option run_pc) : nat :=
  match pc with
  | None | Some Returned => 0
  | Some Loop => 1
  | Some Acquire | Some Relock | Some Retest => 2
  | Some Tick | Some Predicate | Some (Wake true) => 3
  | Some (Wake false) => 4
  | Some Sleep => 5
  end.
Definition owner_rank (pc : owner_pc) : nat :=
  match pc with AtUnlock => 3 | AtNotify => 2 | AtJoin => 1 | _ => 0 end.
Definition rank (s : state) : nat := run_rank (m_thread s) + owner_rank (owner s).

Lemma flag_final l s s' :
  exec l s = Some s' → m_stop s = true → m_stop s' = true ∧ ticks s' = ticks s.
Proof.
  intros He Hs. destruct l; unfold exec, start, stop, run, wake in He; step_cases s;
    repeat case_match; by simplify_eq/=.
Qed.

Lemma stopping_step l s s' :
  wf s → stopping s → exec l s = Some s' → stopped s' ∨ (stopping s' ∧ (rank s' < rank s)%nat).
Proof.
  intros [_ _ H3 _] Hst He. pose proof (H3 Hst) as Hf. unfold stopping, stopped, rank in *.
  destruct l; unfold exec, start, stop, run, wake in He; step_cases s;
    try (destruct Hst as [|[|]]; congruence); repeat case_match; simplify_eq/=;
    (by left) || (right; split; [by auto|simpl; lia]).
Qed.

Lemma stopping_moves s :
  wf s → stopping s → ∃ l s', thread_move l ∧ exec l s = Some s'.
Proof.
  intros [H1 H2 H3 H4] Hst. pose proof (H3 Hst) as Hf. unfold stopping in Hst.
  assert (is_Some (exec Stop s) ∨ is_Some (exec Run s)) as [[s' E]|[s' E]].
  { unfold exec, stop, run. step_cases s; try (destruct Hst as [|[|]]; congruence);
      try (by left; eexists); try (by right; eexists). naive_solver. }
  - exists Stop, s'. split; [by left|done].
  - exists Run, s'. split; [by right|done].
Qed.

(** C34: [stop] returns.  Once it has raised the flag, whatever the two threads,
    the timer and spurious wake-ups do, and without waiting for the interval to
    pass, [stop] comes to its end with the thread joined, and no further scan
    is started in between. *)
Theorem stop_returns s :
  reachable s → stopping s →
  inevitable exec thread_move (λ s', stopped s' ∧ ticks s' = ticks s) s.
Proof.
  intros Hr%reachable_wf Hst.
  apply (inevitable_by_rank _ _ _ (λ x, wf x ∧ stopping x ∧ ticks x = ticks s) rank).
  - intros x (Hwf & Hx & _) _. by apply stopping_moves.
  - intros l x x' (Hwf & Hx & Ht) He.
    destruct (flag_final _ _ _ He (wf_flag _ Hwf Hx)) as [_ Ht'].
    pose proof (exec_wf _ _ _ Hwf He).
    destruct (stopping_step _ _ _ Hwf Hx He) as [?|[? ?]]; [left|right]; split_and!; congruence || done.
  - intros x _. unfold stopped. destruct (decide (owner x = Outside)), (decide (m_thread x = None)),
      (decide (ticks x = ticks s)); tauto.
  - done.
Qed.

(** The monitor is safe to stop at any time.  In every reachable state at
    most one of the two threads is in a critical section; the thread never
    sleeps through a [stop] (a sleeper with the flag up is about to be
    notified); and once the flag is up no scan is ever started again, not even
    by a later [start]. *)
Theorem monitor_safe s :
  reachable s →
  ¬ (run_holds (m_thread s) = true ∧ owner_holds (owner s) = true) ∧
  (m_thread s = Some Sleep → m_stop s = true → owner s = AtUnlock ∨ owner s = AtNotify) ∧
  (m_stop s = true → ∀ ls s', exec_all exec ls s = Some s' → ticks s' = ticks s).
Proof.
  intros Hr%reachable_wf. split_and!.
  - intros [H1 H2]. pose proof (wf_excl _ Hr) as H3. by rewrite H1, H2 in H3.
  - apply Hr.
  - intros Hf ls s' He. apply (exec_all_frozen exec (λ x, m_stop x = true) ticks ls); [|done|done].
    intros l x x' Hx Hxx. by eapply flag_final.
Qed.

(** The owner stops a thread that has scanned once and sleeps again. *)
Definition stopping_sleeper : state := mkState None true (Some Sleep) AtNotify 1.

Lemma stopping_sleeper_reachable : reachable stopping_sleeper.
Proof.
  apply (exec_all_reachable exec _ [Start; Run; Run; Run; TimeOut; Run; Run; Run; Run; Run; Run;
                             Stop; Stop; Stop; Stop] init); [by apply reach_init|]. reflexivity.
Qed.

Lemma stop_returns_witness :
  inevitable exec thread_move (λ s', stopped s' ∧ ticks s' = 1%nat) stopping_sleeper.
Proof.
  apply (stop_returns stopping_sleeper stopping_sleeper_reachable). right. left. reflexivity.
Defined.

(** The rest of the [stop], and a [start] after it whose thread returns at
    once. *)
Lemma monitor_safe_witness :
  ∃ s', exec_all exec [Stop; Run; Run; Run; Run; Stop; Start; Run; Run] stopping_sleeper = Some s' ∧
    m_thread s' = Some Returned ∧ ticks s' = 1%nat.
Proof.
  eexists. split; [reflexivity|]. split; [reflexivity|].
  apply (proj2 (proj2 (monitor_safe stopping_sleeper stopping_sleeper_reachable)) eq_refl
    [Stop; Run; Run; Run; Run; Stop; Start; Run; Run]). reflexivity.
Defined.

End MonitorThread.
