(* ===== verification/PoolThreads.v ===== *)
(** * The pool's threads, instruction by instruction

    Models the methods of [src/workQueue.cpp] as the sequences of actions they
    are (taking and releasing [m_mutex], the wait on [m_cv], the single reads
    and writes of [m_queue] and [m_stopped], the notifications) run by the
    threads that call them: the workers in the loop of
    [ThreadPool::workerLoop], the accept thread, and the main thread in
    [ThreadPool::shutdown].  Serving a socket is one step here; what it does is
    in [ThreadPool.v].

    The theorems say that the mutex makes each method atomic, as
    [WorkQueue.v] has it, that no queued socket is slept on, and that
    [shutdown] returns. *)

From S2P Require Import Prelude WorkQueue Threads.
Local Open Scope Z_scope.

Module PoolThreads.
Import WorkQueue Threads.

(** A worker: before the lock of [dequeue]; at the predicate of the wait;
    asleep; awake, before taking the lock again; after the wait; before the
    release of the lock, with the result; serving; returned. *)
Inductive worker_pc :=
| WLock | WPred | WSleep | WWake | WTake
| WUnlock (r : option AcceptedSocket)
| WServe (a : AcceptedSocket)
| WDone.

(** The accept thread in [enqueue]. *)
Inductive accept_pc :=
| PIdle
| PLock (a : AcceptedSocket)
| PTest (a : AcceptedSocket)
| PPush (a : AcceptedSocket)
| PUnlock (notify : bool)
| PNotify.

(** The main thread in [shutdown]: [WorkQueue::stop], the watchdog, the
    joins. *)
Inductive owner_pc :=
| OIdle | OLock | OTest | ODrain
| OUnlock (notify : bool)
| ONotify | OWatch
| OJoin (k : nat)
| OReturned.

Inductive holder := Worker (i : nat) | Accepting | Owning.

#[global] Instance worker_pc_eq_dec : EqDecision worker_pc.
Proof. solve_decision. Defined.
#[global] Instance accept_pc_eq_dec : EqDecision accept_pc.
Proof. solve_decision. Defined.
#[global] Instance owner_pc_eq_dec : EqDecision owner_pc.
Proof. solve_decision. Defined.
#[global] Instance holder_eq_dec : EqDecision holder.
Proof. solve_decision. Defined.

(** The members of the queue, where the threads are, whether the watchdog
    runs and whether it has ended the process, and what has happened so far:
    sockets offered, sockets taken, descriptors closed by the queue. *)
Record state := mkState {
  mutex : option holder;
  sockets : list AcceptedSocket;
  stopped : bool;
  workers : list worker_pc;
  accept : accept_pc;
  owner : owner_pc;
  watchdog : bool;
  exited : bool;
  past : history
}.

Definition init (n : nat) : state :=
  mkState None [] false (replicate n WLock) PIdle OIdle false false (mkHistory [] [] []).

(** ** Updates *)

Definition set_mutex m s := mkState m (sockets s) (stopped s) (workers s) (accept s) (owner s)
  (watchdog s) (exited s) (past s).
Definition set_sockets q s := mkState (mutex s) q (stopped s) (workers s) (accept s) (owner s)
  (watchdog s) (exited s) (past s).
Definition set_stopped b s := mkState (mutex s) (sockets s) b (workers s) (accept s) (owner s)
  (watchdog s) (exited s) (past s).
Definition set_workers w s := mkState (mutex s) (sockets s) (stopped s) w (accept s) (owner s)
  (watchdog s) (exited s) (past s).
Definition set_accept p s := mkState (mutex s) (sockets s) (stopped s) (workers s) p (owner s)
  (watchdog s) (exited s) (past s).
Definition set_owner o s := mkState (mutex s) (sockets s) (stopped s) (workers s) (accept s) o
  (watchdog s) (exited s) (past s).
Definition set_watchdog s := mkState (mutex s) (sockets s) (stopped s) (workers s) (accept s)
  (owner s) true (exited s) (past s).
Definition set_exited s := mkState (mutex s) (sockets s) (stopped s) (workers s) (accept s)
  (owner s) (watchdog s) true (past s).
Definition set_past h s := mkState (mutex s) (sockets s) (stopped s) (workers s) (accept s)
  (owner s) (watchdog s) (exited s) h.

Definition goto (i : nat) (pc : worker_pc) (s : state) : state :=
  set_workers (<[i := pc]> (workers s)) s.

(** [lock] of a free mutex; a thread that finds it taken cannot move. *)
Definition lock (h : holder) (s : state) : option state :=
  match mutex s with
  | None => Some (set_mutex (Some h) s)
  | Some _ => None
  end.
Definition unlock (s : state) : state := set_mutex None s.

Definition note_offered a s :=
  set_past (mkHistory (offered (past s) ++ [a]) (taken (past s)) (closed (past s))) s.
Definition note_taken a s :=
  set_past (mkHistory (offered (past s)) (taken (past s) ++ [a]) (closed (past s))) s.
(** [::close]. *)
Definition close_fd f s :=
  set_past (mkHistory (offered (past s)) (taken (past s)) (closed (past s) ++ [f])) s.

(** ** The threads *)

(** [workerLoop] and [dequeue]. *)
Definition worker_step (i : nat) (s : state) : option state :=
  match workers s !! i with
  | Some WLock | Some WWake => goto i WPred <$> lock (Worker i) s
  | Some WPred =>
      if negb (bool_decide (sockets s = [])) || stopped s then Some (goto i WTake s)
      else Some (goto i WSleep (unlock s))
  | Some WTake =>
      match sockets s with
      | a :: rest => Some (goto i (WUnlock (Some a)) (note_taken a (set_sockets rest s)))
      | [] => Some (goto i (WUnlock None) s)
      end
  | Some (WUnlock (Some a)) => Some (goto i (WServe a) (unlock s))
  | Some (WUnlock None) => Some (goto i WDone (unlock s))
  | Some (WServe a) => Some (goto i WLock s)
  | Some WSleep | Some WDone | None => None
  end.

(** A wake-up that no notification caused. *)
Definition spurious (i : nat) (s : state) : option state :=
  match workers s !! i with
  | Some WSleep => Some (goto i WWake s)
  | _ => None
  end.

(** [enqueue], up to its notification. *)
Definition accept_step (s : state) : option state :=
  match accept s with
  | PLock a => set_accept (PTest a) <$> lock Accepting s
  | PTest a =>
      if stopped s
      then Some (set_accept (PUnlock false) (close_fd (fd a) (note_offered a s)))
      else Some (set_accept (PPush a) s)
  | PPush a =>
      Some (set_accept (PUnlock true) (note_offered a (set_sockets (sockets s ++ [a]) s)))
  | PUnlock notify => Some (set_accept (if notify then PNotify else PIdle) (unlock s))
  | PIdle | PNotify => None
  end.

(** [m_cv.notify_one()]: a sleeping worker, if there is one, is woken. *)
Definition notify_one (target : option nat) (s : state) : option state :=
  match accept s, target with
  | PNotify, Some i => set_accept PIdle <$> spurious i s
  | PNotify, None =>
      if bool_decide (WSleep ∈ workers s) then None else Some (set_accept PIdle s)
  | _, _ => None
  end.

Definition woken (pc : worker_pc) : worker_pc :=
  match pc with WSleep => WWake | _ => pc end.

(** [shutdown], from the lock of [stop] on.  [m_shutdown] is set by the first
    call and read by none but the calling thread, so that its test is whether
    the owner is still at [OIdle]; a second call would return at once
    ([ThreadPool.shutdown]), and [main] makes none. *)
Definition owner_step (s : state) : option state :=
  match owner s with
  | OLock => set_owner OTest <$> lock Owning s
  | OTest =>
      if stopped s then Some (set_owner (OUnlock false) s)
      else Some (set_owner ODrain (set_stopped true s))
  | ODrain =>
      match sockets s with
      | a :: rest => Some (close_fd (fd a) (set_sockets rest s))
      | [] => Some (set_owner (OUnlock true) s)
      end
  | OUnlock notify => Some (set_owner (if notify then ONotify else OWatch) (unlock s))
  | ONotify => Some (set_owner OWatch (set_workers (woken <$> workers s) s))
  | OWatch => Some (set_owner (OJoin 0) (set_watchdog s))
  | OJoin k =>
      if (k <? length (workers s))%nat then
        if bool_decide (workers s !! k = Some WDone) then Some (set_owner (OJoin (S k)) s) else None
      else Some (set_owner OReturned s)
  | OIdle | OReturned => None
  end.

Inductive label :=
| Work (i : nat)
| Spurious (i : nat)
| Offer (a : AcceptedSocket)
| Accept
| Notify (target : option nat)
| Shutdown
| Own
| Fire.

(** [main] stops the acceptor before the pool is shut down, so no socket is
    offered from then on.  [Fire] is the watchdog's [_Exit(0)]. *)
Definition exec (l : label) (s : state) : option state :=
  if exited s then None
  else match l with
       | Work i => worker_step i s
       | Spurious i => spurious i s
       | Offer a =>
           if bool_decide (accept s = PIdle ∧ owner s = OIdle)
           then Some (set_accept (PLock a) s) else None
       | Accept => accept_step s
       | Notify t => notify_one t s
       | Shutdown =>
           if bool_decide (accept s = PIdle ∧ owner s = OIdle)
           then Some (set_owner OLock s) else None
       | Own => owner_step s
       | Fire => if watchdog s then Some (set_exited s) else None
       end.

Abbreviation reachable n := (Threads.reachable exec (λ s, s = init n)).

(** ** Mutual exclusion *)

Definition worker_holds (pc : worker_pc) : bool :=
  match pc with WPred | WTake | WUnlock _ => true | _ => false end.
Definition accept_holds (pc : accept_pc) : bool :=
  match pc with PTest _ | PPush _ | PUnlock _ => true | _ => false end.
Definition owner_holds (pc : owner_pc) : bool :=
  match pc with OTest | ODrain | OUnlock _ => true | _ => false end.

(** Which threads are between a lock and its release. *)
Definition inside (h : holder) (s : state) : bool :=
  match h with
  | Worker i => from_option worker_holds false (workers s !! i)
  | Accepting => accept_holds (accept s)
  | Owning => owner_holds (owner s)
  end.

Abbreviation locks := (Threads.locks mutex inside).
Abbreviation locks_move := (Threads.locks_move mutex inside).
Abbreviation locks_same := (Threads.locks_same mutex inside).
Abbreviation locks_excl := (Threads.locks_excl mutex inside).

Lemma inside_woken s h : inside h (set_workers (woken <$> workers s) s) = inside h s.
Proof.
  destruct h as [j| |]; simpl; [|done..]. rewrite list_lookup_fmap.
  destruct (workers s !! j) as [[]|]; done.
Qed.

(** A step of the worker [i] from [pc] to [pc'], with what it does to the
    mutex. *)
Lemma pool_locks_goto i pc pc' s s' :
  locks s → workers s !! i = Some pc →
  workers s' = <[i := pc']> (workers s) → accept s' = accept s → owner s' = owner s →
  mutex s' = (if worker_holds pc' then Some (Worker i)
              else if worker_holds pc then None else mutex s) →
  (worker_holds pc' = true → worker_holds pc = true ∨ mutex s = None) → locks s'.
Proof.
  intros Hl Hi Hw Ha Ho Hm Hin.
  assert (inside (Worker i) s = worker_holds pc) as E by (simpl; by rewrite Hi).
  assert (inside (Worker i) s' = worker_holds pc') as E'.
  { simpl. by rewrite Hw, (holds_insert worker_holds _ _ pc), decide_True. }
  apply (locks_move (Worker i) s); rewrite ?E, ?E'; [done| |done|done].
  intros [j| |] Hh; simpl; [|congruence..].
  by rewrite Hw, (holds_insert worker_holds _ _ pc), decide_False by naive_solver.
Qed.

Lemma pool_lock_some h s s' : lock h s = Some s' → mutex s = None ∧ s' = set_mutex (Some h) s.
Proof. unfold lock. destruct (mutex s); naive_solver. Qed.

Lemma spurious_some i s s' :
  spurious i s = Some s' → workers s !! i = Some WSleep ∧ s' = goto i WWake s.
Proof. unfold spurious. intros H. repeat case_match; naive_solver. Qed.

Lemma spurious_locks i s s' : locks s → spurious i s = Some s' → locks s'.
Proof.
  intros Hl [Hi ->]%spurious_some. by eapply (pool_locks_goto i WSleep WWake s).
Qed.

Lemma worker_locks i s s' : locks s → worker_step i s = Some s' → locks s'.
Proof.
  intros Hl He. unfold worker_step in He.
  destruct (workers s !! i) as [pc|] eqn:Hi; [|done].
  assert (worker_holds pc = true → mutex s = Some (Worker i)) as Hh.
  { intros Hp. apply Hl. simpl. by rewrite Hi. }
  destruct pc as [| | | | |[a|]|a|]; simpl in *; try done.
  - apply fmap_Some in He as (s1 & [Hm ->]%pool_lock_some & ->). eapply (pool_locks_goto i WLock WPred s); auto.
  - case_match; simplify_eq.
    + eapply (pool_locks_goto i WPred WTake s); auto.
    + eapply (pool_locks_goto i WPred WSleep s); auto.
  - apply fmap_Some in He as (s1 & [Hm ->]%pool_lock_some & ->). eapply (pool_locks_goto i WWake WPred s); auto.
  - case_match; simplify_eq; eapply (pool_locks_goto i WTake (WUnlock _) s); auto.
  - simplify_eq. eapply (pool_locks_goto i (WUnlock (Some a)) (WServe a) s); auto.
  - simplify_eq. eapply (pool_locks_goto i (WUnlock None) WDone s); auto.
  - simplify_eq. eapply (pool_locks_goto i (WServe a) WLock s); auto.
Qed.

(** The steps of a system that is still running, one goal for each. *)
Ltac exec_cases He :=
  unfold exec, worker_step, accept_step, notify_one, owner_step in He;
  destruct (exited _) eqn:Hexit; [done|];
  repeat (first
    [ progress (simplify_eq/=)
    | match type of He with
      | fmap _ _ = Some _ => apply fmap_Some in He as (? & He & ->)
      | lock _ _ = Some _ => apply pool_lock_some in He as [? ->]
      | spurious _ _ = Some _ => apply spurious_some in He as [? ->]
      | context [match ?x with _ => _ end] => destruct x eqn:?
      end ]).

Lemma pool_exec_locks l s s' : locks s → exec l s = Some s' → locks s'.
Proof.
  intros Hl He. destruct l.
  - unfold exec in He. destruct (exited s); [done|]. by eapply worker_locks.
  - unfold exec in He. destruct (exited s); [done|]. by eapply spurious_locks.
  - exec_cases He. apply bool_decide_eq_true in Heqb as [Ha _].
    apply (locks_move Accepting s); simpl; rewrite ?Ha; try done. by intros [].
  - pose proof (proj2 (Hl Accepting)) as Hh. simpl in Hh.
    exec_cases He; (apply (locks_move Accepting s); simpl; [done|by intros []|..]);
      try match goal with H : accept s = _ |- _ => rewrite H in * end; simpl in *; auto.
    all: by destruct notify.
  - exec_cases He; [apply (locks_same (goto n WWake s))|apply (locks_same s)]; try done.
    + by eapply (pool_locks_goto n WSleep WWake s).
    + intros []; simpl; try done. by rewrite Heqa.
    + intros []; simpl; try done. by rewrite Heqa.
  - exec_cases He. apply bool_decide_eq_true in Heqb as [_ Ho].
    apply (locks_move Owning s); simpl; rewrite ?Ho; try done. by intros [].
  - pose proof (proj2 (Hl Owning)) as Hh. simpl in Hh.
    exec_cases He; (apply (locks_move Owning s); simpl; [done| |..]);
      try match goal with H : owner s = _ |- _ => rewrite H in * end; simpl in *; auto;
      try (by intros []); try (by destruct notify).
    intros h' Hne. rewrite <-(inside_woken s h'). by destruct h'.
  - exec_cases He. by apply (locks_same s).
Qed.

(** ** The invariant *)

(** Whether [m_stopped] has been set, and whether the queue has been emptied,
    as seen from where the main thread is. *)
Definition stop_set (pc : owner_pc) : bool :=
  match pc with OIdle | OLock | OTest => false | _ => true end.
Definition drained (pc : owner_pc) : bool :=
  match pc with OIdle | OLock | OTest | ODrain => false | _ => true end.
(** Whether [notify_all] is still to come, if it ever comes. *)
Definition may_sleep (pc : owner_pc) : bool :=
  match pc with OWatch | OJoin _ | OReturned => false | _ => true end.

(** A worker that will look at the queue before it waits or serves. *)
Definition coming (pc : worker_pc) : nat :=
  match pc with WLock | WPred | WWake | WTake => 1 | _ => 0 end.
(** A notification still to be sent for a pushed socket. *)
Definition pending (pc : accept_pc) : nat :=
  match pc with PUnlock true | PNotify => 1 | _ => 0 end.

Definition leaving (pc : worker_pc) : bool :=
  match pc with WUnlock None | WDone => true | _ => false end.

(** How many joins have returned. *)
Definition joined (n : nat) (pc : owner_pc) : nat :=
  match pc with OJoin k => k | OReturned => n | _ => 0 end.

Record wf (n : nat) (s : state) : Prop := {
  wf_locks : locks s;
  wf_size : length (workers s) = n;
  wf_stopped : stopped s = stop_set (owner s);
  wf_drained : drained (owner s) = true → sockets s = [];
  wf_quiet : owner s ≠ OIdle → accept s = PIdle;
  wf_asleep : WSleep ∈ workers s → may_sleep (owner s) = true;
  wf_coming : WSleep ∈ workers s →
    (length (sockets s) ≤ total coming (workers s) + pending (accept s))%nat;
  wf_push : (∃ a, accept s = PPush a) → stopped s = false;
  wf_unlock : owner s ≠ OUnlock false;
  wf_take : WTake ∈ workers s → sockets s ≠ [] ∨ stopped s = true;
  wf_leaving pc : pc ∈ workers s → leaving pc = true → stopped s = true;
  wf_joined i : (i < joined n (owner s))%nat → workers s !! i = Some WDone
}.

Lemma pool_init_wf n : wf n (init n).
Proof.
  split; simpl; try done.
  - intros [i| |]; simpl; [|done..]. split; [done|].
    destruct (replicate n WLock !! i) as [pc|] eqn:E; [|done].
    apply lookup_replicate in E as [-> _]. done.
  - apply length_replicate.
  - lia.
  - by intros ?%elem_of_replicate_inv.
  - by intros pc ->%elem_of_replicate_inv.
  - lia.
Qed.

(** A worker moves from [pc] to [pc']; only the mutex and the history may
    change besides. *)
Lemma wf_goto n i pc pc' s s' :
  wf n s → locks s' → workers s !! i = Some pc → pc ≠ WDone →
  workers s' = <[i := pc']> (workers s) → accept s' = accept s → owner s' = owner s →
  sockets s' = sockets s → stopped s' = stopped s →
  (pc' = WSleep → sockets s = [] ∧ stopped s = false) →
  (coming pc ≤ coming pc' ∨ sockets s = [])%nat →
  (pc' = WTake → sockets s ≠ [] ∨ stopped s = true) →
  (leaving pc' = true → stopped s = true) →
  wf n s'.
Proof.
  intros [Hl Hz Hst Hdr Hq Has Hco Hpu Hun Hta Hle Hj] Hl' Hi Hne Ew Ea Eo Es Et Hsl Hc Ht Hv.
  split; rewrite ?Ea, ?Eo, ?Es, ?Et, ?Ew; try done.
  - by rewrite length_insert.
  - intros [<-|Hin]%elem_insert; [|auto]. destruct (Hsl eq_refl) as [_ Hf].
    rewrite Hst in Hf. by destruct (owner s).
  - pose proof (total_insert coming _ _ _ pc' Hi).
    intros [<-|Hin]%elem_insert; [by destruct (Hsl eq_refl) as [-> _]; simpl; lia|].
    specialize (Hco Hin). destruct Hc as [Hc| ->]; simpl; lia.
  - intros [<-|Hin]%elem_insert; auto.
  - intros pc1 [->|Hin]%elem_insert; [auto|]. by apply Hle.
  - intros j Hlt. specialize (Hj j Hlt). destruct (decide (j = i)) as [->|]; [congruence|].
    by rewrite list_lookup_insert_ne.
Qed.

(** A step of the accept or of the main thread that leaves the workers, the
    queue and [m_stopped] alone. *)
Lemma wf_others n s s' :
  wf n s → locks s' → workers s' = workers s → sockets s' = sockets s →
  stopped s' = stopped s → stop_set (owner s') = stop_set (owner s) →
  (drained (owner s') = true → drained (owner s) = true ∨ sockets s = []) →
  (owner s' ≠ OIdle → accept s' = PIdle) →
  (WSleep ∈ workers s → may_sleep (owner s') = true) →
  (WSleep ∈ workers s → pending (accept s) ≤ pending (accept s'))%nat →
  ((∃ a, accept s' = PPush a) → stopped s = false) →
  owner s' ≠ OUnlock false →
  (∀ i, (i < joined n (owner s'))%nat → workers s !! i = Some WDone) →
  wf n s'.
Proof.
  intros [Hl Hz Hst Hdr Hq Has Hco Hpu Hun Hta Hle Hj] Hl' Ew Es Et Eo Hd Hq' Hm Hp Hpu' Hu Hj'.
  split; rewrite ?Es, ?Et, ?Ew, ?Eo; try done.
  - intros [?|?]%Hd; auto.
  - intros Hin. specialize (Hco Hin). specialize (Hp Hin). lia.
Qed.

(** A thread that is inside is alone there. *)
Lemma wf_alone n s h i pc :
  wf n s → inside h s = true → h ≠ Worker i → workers s !! i = Some pc → worker_holds pc = false.
Proof.
  intros Hwf Hin Hne Hi. destruct (worker_holds pc) eqn:E; [|done]. destruct Hne.
  apply (locks_excl s); [apply Hwf|done|]. simpl. by rewrite Hi.
Qed.

(** Taking the front of the queue. *)
Lemma wf_pop n i s a rest :
  wf n s → workers s !! i = Some WTake → sockets s = a :: rest →
  locks (goto i (WUnlock (Some a)) (note_taken a (set_sockets rest s))) →
  wf n (goto i (WUnlock (Some a)) (note_taken a (set_sockets rest s))).
Proof.
  intros Hwf Hi Hs Hl'. pose proof Hwf as [Hl Hz Hst Hdr Hq Has Hco Hpu Hun Hta Hle Hj].
  split; simpl; try done.
  - by rewrite length_insert.
  - intros Hd. by rewrite (Hdr Hd) in Hs.
  - intros [?|Hin]%elem_insert; [done|auto].
  - pose proof (total_insert coming _ _ _ (WUnlock (Some a)) Hi) as Ht. simpl in Ht.
    intros [?|Hin]%elem_insert; [done|]. specialize (Hco Hin). rewrite Hs in Hco. simpl in Hco. lia.
  - intros [j Hj']%list_elem_of_lookup. exfalso.
    destruct (insert_lookup_cases _ _ _ _ _ _ Hi Hj') as [[_ ?]|[Hne Hj0]]; [done|].
    assert (worker_holds WTake = false); [|done].
    apply (wf_alone n s (Worker i) j); [done|simpl; by rewrite Hi|naive_solver|done].
  - intros pc [->|Hin]%elem_insert; [done|]. by apply Hle.
  - intros j Hlt. specialize (Hj j Hlt). destruct (decide (j = i)) as [->|]; [congruence|].
    by rewrite list_lookup_insert_ne.
Qed.

Ltac worker_moves n i pc pc' s :=
  eapply (wf_goto n i pc pc' s); auto; try done; try (left; simpl; lia).

Lemma worker_wf n i s s' : wf n s → exec (Work i) s = Some s' → wf n s'.
Proof.
  intros Hwf He. assert (locks s') as Hl by (eapply pool_exec_locks, He; apply Hwf).
  pose proof (wf_take _ _ Hwf) as Ht. exec_cases He.
  - worker_moves n i WLock WPred s.
  - worker_moves n i WPred WTake s.
    intros _. apply orb_true_iff in Heqb as [Hb|Hb]; [left|by right].
    by apply negb_true_iff, bool_decide_eq_false in Hb.
  - apply orb_false_iff in Heqb as [Hb ?]. apply negb_false_iff, bool_decide_eq_true in Hb.
    worker_moves n i WPred WSleep s.
  - worker_moves n i WWake WPred s.
  - worker_moves n i WTake (WUnlock None) s.
    intros _. destruct Ht as [?|?]; [by eapply list_elem_of_lookup_2|done|done].
  - by eapply wf_pop.
  - worker_moves n i (WUnlock (Some a)) (WServe a) s.
  - worker_moves n i (WUnlock None) WDone s.
    intros _. eapply (wf_leaving _ _ Hwf); [by eapply list_elem_of_lookup_2|done].
  - worker_moves n i (WServe a) WLock s.
Qed.

Lemma spurious_wf n i s s' : wf n s → spurious i s = Some s' → wf n s'.
Proof.
  intros Hwf He. assert (locks s') as Hl by (eapply spurious_locks, He; apply Hwf).
  apply spurious_some in He as [Hi ->]. worker_moves n i WSleep WWake s.
Qed.

(** The accept or the main thread, inside, changes the queue or [m_stopped]:
    no worker is at the point that relies on them. *)
Lemma wf_queue n h s s' :
  wf n s → locks s' → inside h s = true → (∀ i, h ≠ Worker i) → workers s' = workers s →
  stopped s' = stop_set (owner s') → drained (owner s') = false → owner s' ≠ OUnlock false →
  joined n (owner s') = 0%nat → may_sleep (owner s') = true →
  (owner s' ≠ OIdle → accept s' = PIdle) → (∀ a, accept s' ≠ PPush a) →
  (length (sockets s') + pending (accept s) ≤ length (sockets s) + pending (accept s'))%nat →
  (stopped s = true → stopped s' = true) →
  wf n s'.
Proof.
  intros Hwf Hl' Hin Hh Ew Est Hdr Hu Hjo Hm Hq Hp Hc Hs.
  split; rewrite ?Ew; try done.
  - apply Hwf.
  - by rewrite Hdr.
  - intros Hsl. pose proof (wf_coming _ _ Hwf Hsl). lia.
  - intros [a Ha]. by destruct (Hp a).
  - intros [i Hi]%list_elem_of_lookup. exfalso.
    by pose proof (wf_alone n s h i WTake Hwf Hin (Hh i) Hi).
  - intros pc Hpc Hle. by apply Hs, (wf_leaving _ _ Hwf pc).
  - rewrite Hjo. lia.
Qed.

Lemma accepting_owner n s : wf n s → accept s ≠ PIdle → owner s = OIdle.
Proof. intros Hwf Ha. destruct (decide (owner s = OIdle)); [done|]. by destruct Ha; apply Hwf. Qed.

Ltac others n s :=
  apply (wf_others n s); simpl;
  repeat match goal with
  | H : accept s = _ |- _ => rewrite H
  | H : owner s = _ |- _ => rewrite H
  end; simpl; auto; try done; try (naive_solver lia).

Lemma accept_wf n s s' : wf n s → exec Accept s = Some s' → wf n s'.
Proof.
  intros Hwf He. assert (locks s') as Hl by (eapply pool_exec_locks, He; apply Hwf).
  assert (accept s ≠ PIdle) as Ha.
  { intros E. unfold exec, accept_step in He. rewrite E in He. by case_match. }
  pose proof (accepting_owner n s Hwf Ha) as Ho. clear Ha.
  exec_cases He; try (by others n s).
  - apply (wf_queue n Accepting s); simpl; rewrite ?Ho, ?Heqa, ?length_app; try done; simpl; try lia.
    rewrite (wf_stopped _ _ Hwf). by rewrite Ho.
  - destruct notify; others n s.
Qed.

Lemma notify_wf n t s s' : wf n s → exec (Notify t) s = Some s' → wf n s'.
Proof.
  intros Hwf He. assert (locks s') as Hl by (eapply pool_exec_locks, He; apply Hwf).
  assert (accept s = PNotify) as Ha.
  { unfold exec, notify_one in He. case_match; [done|]. by case_match. }
  assert (owner s = OIdle) as Ho by (apply (accepting_owner n); [done|by rewrite Ha]).
  exec_cases He.
  - rename n0 into i. pose proof Hwf as [_ Hz Hst Hdr Hq Has Hco Hpu Hun Hta Hle Hj].
    split; simpl; rewrite ?Ho in *; try done.
    + by rewrite length_insert.
    + pose proof (total_insert coming _ _ _ WWake H) as Ht. simpl in Ht.
      intros [?|Hin]%elem_insert; [done|]. specialize (Hco Hin). rewrite Heqa in Hco. simpl in Hco. lia.
    + intros [?|Hin]%elem_insert; [done|]. by apply Hta.
    + intros pc [->|Hin]%elem_insert; [done|]. by apply Hle.
    + simpl. lia.
  - apply bool_decide_eq_false in Heqb. others n s.
Qed.

(** [notify_all]. *)
Lemma wf_notify_all n s :
  wf n s → owner s = ONotify → locks (set_owner OWatch (set_workers (woken <$> workers s) s)) →
  wf n (set_owner OWatch (set_workers (woken <$> workers s) s)).
Proof.
  intros Hwf Ho Hl'. pose proof Hwf as [_ Hz Hst Hdr Hq Has Hco Hpu Hun Hta Hle Hj].
  rewrite Ho in *.
  assert (WSleep ∉ woken <$> workers s) as Hns.
  { intros (pc & E & _)%list_elem_of_fmap. by destruct pc. }
  split; simpl; auto; try done.
  - by rewrite length_fmap.
  - lia.
Qed.

Lemma owner_wf n s s' : wf n s → exec Own s = Some s' → wf n s'.
Proof.
  intros Hwf He. assert (locks s') as Hl by (eapply pool_exec_locks, He; apply Hwf).
  assert (accept s = PIdle) as Ha.
  { apply Hwf. intros E. unfold exec, owner_step in He. rewrite E in He. by case_match. }
  pose proof (wf_stopped _ _ Hwf) as Hs. pose proof (wf_asleep _ _ Hwf) as Has.
  pose proof (wf_unlock _ _ Hwf) as Hu. pose proof (wf_joined _ _ Hwf) as Hj.
  exec_cases He; try done; try (by others n s).
  - apply (wf_queue n Owning s); simpl; rewrite ?Heqo, ?Ha; try done; simpl; lia.
  - apply (wf_queue n Owning s); simpl; rewrite ?Heqo, ?Ha, ?Heql; try done; simpl; lia.
  - destruct notify; [|done]. others n s.
  - by apply wf_notify_all.
  - apply bool_decide_eq_true in Heqb0. others n s.
    intros i Hi. destruct (decide (i = k)) as [->|]; [done|]. apply Hj. lia.
  - others n s. apply Nat.ltb_ge in Heqb. intros i Hi. apply Hj. rewrite (wf_size _ _ Hwf) in Heqb. lia.
Qed.

Lemma pool_exec_wf n l s s' : wf n s → exec l s = Some s' → wf n s'.
Proof.
  intros Hwf He. assert (locks s') as Hl by (eapply pool_exec_locks, He; apply Hwf).
  destruct l; [by eapply worker_wf| | |by eapply accept_wf|by eapply notify_wf| |by eapply owner_wf|];
    exec_cases He.
  - eapply spurious_wf; [done|]. unfold spurious. by rewrite H.
  - apply bool_decide_eq_true in Heqb as [Ha Ho]. others n s.
  - apply bool_decide_eq_true in Heqb as [Ha Ho]. others n s.
  - apply (wf_others n s); auto; apply Hwf.
Qed.

Lemma pool_reachable_wf n s : reachable n s → wf n s.
Proof.
  apply reachable_invariant; [intros ? ->; apply pool_init_wf|]. intros l s1 s2. apply pool_exec_wf.
Qed.

(** ** The methods are atomic *)

(** The queue and the history as the callers can tell: [stop] has its whole
    effect when it sets [m_stopped]; nobody else sees the queue until it has
    closed what was in it. *)
Definition seen (s : state) : WorkQueue.state * history :=
  if decide (owner s = ODrain) then
    (mkQueue [] (stopped s),
     mkHistory (offered (past s)) (taken (past s)) (closed (past s) ++ (fd <$> sockets s)))
  else (mkQueue (sockets s) (stopped s), past s).

(** The call, if any, that takes effect with a step. *)
Definition effect (l : label) (s : state) : list op :=
  match l with
  | Work i => if decide (workers s !! i = Some WTake) then [Dequeue] else []
  | Accept =>
      match accept s with
      | PTest a => if stopped s then [Enqueue a] else []
      | PPush a => [Enqueue a]
      | _ => []
      end
  | Own => if decide (owner s = OTest) then [Stop] else []
  | _ => []
  end.

(** The calls in the order they take effect. *)
Fixpoint effects (ls : list label) (s : state) : list op :=
  match ls with
  | [] => []
  | l :: ls => effect l s ++ from_option (effects ls) [] (exec l s)
  end.

Lemma pool_seen_same s s' :
  owner s' = owner s → sockets s' = sockets s → stopped s' = stopped s → past s' = past s →
  seen s' = seen s.
Proof. unfold seen. by intros -> -> -> ->. Qed.

Lemma seen_open s : owner s ≠ ODrain → seen s = (mkQueue (sockets s) (stopped s), past s).
Proof. intros Ho. unfold seen. by rewrite decide_False. Qed.

(** A worker that takes, takes what [dequeue] gives. *)
Lemma take_seen n i s s' :
  wf n s → workers s !! i = Some WTake → exec (Work i) s = Some s' →
  seen s' = step Dequeue (seen s) ∧
  ∃ r, dequeue (seen s).1 = Some (r, (seen s').1) ∧ workers s' !! i = Some (WUnlock r).
Proof.
  intros Hwf Hi He.
  assert (owner s ≠ ODrain) as Ho.
  { intros Ho. assert (Owning = Worker i); [|done]. apply (locks_excl s); [apply Hwf|..]; simpl.
    - by rewrite Ho.
    - by rewrite Hi. }
  pose proof (wf_take _ _ Hwf (list_elem_of_lookup_2 _ _ _ Hi)) as Ht.
  pose proof (lookup_lt_Some _ _ _ Hi) as Hlt.
  exec_cases He; rewrite !seen_open by done; simpl; unfold dequeue, ready; simpl.
  - destruct Ht as [?|Ht]; [done|]. rewrite Heql, Ht. simpl. split; [done|]. exists None.
    by rewrite list_lookup_insert_eq.
  - rewrite Heql. simpl. split; [done|]. exists (Some a). by rewrite list_lookup_insert_eq.
Qed.

Lemma pool_exec_seen n l s s' :
  wf n s → exec l s = Some s' →
  seen s' = fold_left (λ qh o, step o qh) (effect l s) (seen s).
Proof.
  intros Hwf He. destruct l as [i|i|a| |t| | |]; simpl.
  - case_decide as Hi; [by eapply take_seen|]. exec_cases He; by apply pool_seen_same.
  - exec_cases He; by apply pool_seen_same.
  - exec_cases He; by apply pool_seen_same.
  - destruct (decide (accept s = PIdle)) as [E|E]; [exec_cases He|].
    assert (owner s ≠ ODrain) as Ho by (by rewrite (accepting_owner n s)).
    pose proof (wf_push _ _ Hwf) as Hp.
    exec_cases He; rewrite !seen_open by done; simpl; unfold enqueue; simpl.
    all: rewrite ?Heqb, ?Hp, ?app_nil_r by eauto; done.
  - exec_cases He; by apply pool_seen_same.
  - exec_cases He. apply bool_decide_eq_true in Heqb as [_ Ho]. unfold seen. simpl. by rewrite Ho.
  - pose proof (wf_stopped _ _ Hwf) as Hs.
    exec_cases He; unfold seen; simpl; rewrite ?Heqo; simpl; try done.
    + unfold stop. simpl. by rewrite Heqb, drain_spec.
    + rewrite Heql. simpl. rewrite app_nil_r. by destruct (past s).
    + by rewrite Heql, <-app_assoc.
    + by destruct notify.
  - exec_cases He; by apply pool_seen_same.
Qed.

Lemma pool_exec_all_seen n ls s s' :
  wf n s → exec_all exec ls s = Some s' →
  seen s' = fold_left (λ qh o, step o qh) (effects ls s) (seen s).
Proof.
  revert s. induction ls as [|l ls IH]; intros s Hwf He; simplify_eq/=; [done|].
  destruct (exec l s) as [s1|] eqn:E; [|done]. simpl in *.
  rewrite fold_left_app, <-(pool_exec_seen n l s s1) by done. by apply IH; [eapply pool_exec_wf|].
Qed.

(** ** Shutting down *)

(** What is left to do: every step from the lock of [stop] on takes some of
    it away. *)
Definition worker_rank (pc : worker_pc) : nat :=
  match pc with
  | WDone => 0
  | WUnlock None => 1
  | WTake => 2
  | WPred => 3
  | WLock | WWake => 4
  | WSleep | WServe _ => 5
  | WUnlock (Some _) => 6
  end.

Definition owner_rank (n : nat) (pc : owner_pc) : nat :=
  match pc with
  | OReturned => 0
  | OJoin k => S (n - k)
  | OWatch => n + 2
  | ONotify => n + 3
  | OUnlock _ => n + 4
  | ODrain => n + 5
  | _ => n + 6
  end.

Definition rank (n : nat) (s : state) : nat :=
  total worker_rank (workers s) + owner_rank n (owner s) + length (sockets s).

(** The main thread has the lock of [stop], or is past it. *)
Definition stopping (s : state) : Prop := owner s ≠ OIdle ∧ owner s ≠ OLock.

Lemma worker_step_rank n i s s' :
  wf n s → stopping s → exec (Work i) s = Some s' → stopping s' ∧ (rank n s' < rank n s)%nat.
Proof.
  intros Hwf Hst He.
  assert (∀ pc, workers s !! i = Some pc → worker_holds pc = true →
    stopped s = true ∧ sockets s = []) as Hin.
  { intros pc Hi Hh.
    assert (drained (owner s) = true) as Hd.
    { destruct (owner_holds (owner s)) eqn:E.
      - assert (Owning = Worker i); [|done]. apply (locks_excl s); [apply Hwf|done|].
        simpl. by rewrite Hi.
      - destruct Hst. by destruct (owner s). }
    split; [|by apply Hwf]. rewrite (wf_stopped _ _ Hwf). by destruct (owner s). }
  exec_cases He; (split; [done|]); unfold rank; simpl;
    match goal with H : workers s !! i = Some ?pc |- context [<[i := ?pc']> _] =>
      pose proof (total_insert worker_rank _ _ _ pc' H) as Ht; specialize (Hin _ eq_refl) end;
    simpl in *; try lia.
  - destruct (Hin eq_refl) as [Hs _]. by rewrite Hs, orb_true_r in Heqb.
  - by destruct (Hin eq_refl).
Qed.

Lemma owner_step_rank n s s' :
  wf n s → stopping s → exec Own s = Some s' → stopping s' ∧ (rank n s' < rank n s)%nat.
Proof.
  intros Hwf [Hi Ho] He. pose proof (wf_size _ _ Hwf) as Hz.
  unfold stopping, rank. exec_cases He; rewrite ?Heqo; simpl; try (split; [done|]; lia).
  - split; [done|]. rewrite Heql. simpl. lia.
  - destruct notify; (split; [done|]); simpl; lia.
  - split; [done|]. pose proof (total_map_le worker_rank woken (workers s)) as Hm.
    assert (∀ pc, worker_rank (woken pc) ≤ worker_rank pc)%nat as Hw.
    { intros []; simpl; lia. }
    specialize (Hm Hw). lia.
  - split; [done|]. apply Nat.ltb_lt in Heqb. lia.
Qed.

(** Whoever holds the mutex can move. *)
Definition mover (h : holder) : label :=
  match h with Worker i => Work i | Accepting => Accept | Owning => Own end.

Lemma holder_moves n s h :
  wf n s → exited s = false → mutex s = Some h → ∃ s', exec (mover h) s = Some s'.
Proof.
  intros Hwf He Hm. apply (wf_locks _ _ Hwf) in Hm. unfold exec. rewrite He.
  destruct h as [i| |]; simpl in *.
  - destruct (workers s !! i) as [pc|] eqn:Hi; [|done]. unfold worker_step. rewrite Hi.
    destruct pc as [| | | | |[]| |]; try done; eauto; case_match; eauto.
  - unfold accept_step. destruct (accept s); try done; eauto; case_match; eauto.
  - unfold owner_step. destruct (owner s); try done; eauto; case_match; eauto.
Qed.

(** A worker that is neither asleep nor done moves, or waits for one that
    can. *)
Lemma worker_moves_on n s i pc :
  wf n s → exited s = false → workers s !! i = Some pc → pc ≠ WDone → pc ≠ WSleep →
  ∃ l s', (l = Work i ∨ ∃ h, mutex s = Some h ∧ l = mover h) ∧ exec l s = Some s'.
Proof.
  intros Hwf He Hi Hd Hs. destruct (mutex s) as [h|] eqn:Hm.
  - destruct (holder_moves n s h Hwf He Hm) as [s' ?]. eauto 7.
  - assert (∃ s', exec (Work i) s = Some s') as [s' ?]; [|eauto].
    unfold exec, worker_step, lock. rewrite He, Hi, Hm.
    destruct pc as [| | | | |[]| |]; try done; simpl; eauto; case_match; eauto.
Qed.

Lemma pool_stopping_progress n s :
  wf n s → stopping s → exited s = false → owner s ≠ OReturned →
  ∃ l s', (l = Own ∨ ∃ i, l = Work i) ∧ exec l s = Some s'.
Proof.
  intros Hwf [Hi Hl] He Hr.
  destruct (owner_step s) as [s'|] eqn:E.
  { exists Own, s'. split; [by left|]. unfold exec. by rewrite He. }
  unfold owner_step in E. destruct (owner s) eqn:Ho; try done; repeat case_match; try done.
  rename k into k'. apply Nat.ltb_lt in H as Hlt. apply bool_decide_eq_false in H0.
  destruct (lookup_lt_is_Some_2 _ _ Hlt) as [pc Hk].
  destruct (worker_moves_on n s k' pc) as (l & s' & Hm & Hex); [done..|congruence| |].
  { intros ->. assert (may_sleep (owner s) = true) as Hs; [|by rewrite Ho in Hs].
    apply (wf_asleep _ _ Hwf). by eapply list_elem_of_lookup_2. }
  exists l, s'. split; [|done]. destruct Hm as [->|(h & Hm & ->)]; [by eauto|].
  apply (wf_locks _ _ Hwf) in Hm. destruct h; simpl; [by eauto| |by auto].
  simpl in Hm. by rewrite (wf_quiet _ _ Hwf) in Hm by by rewrite Ho.
Qed.

Lemma pool_stopping_step n l s s' :
  wf n s → stopping s → exec l s = Some s' →
  exited s' = true ∨ (stopping s' ∧ (rank n s' < rank n s)%nat).
Proof.
  intros Hwf Hst He. pose proof Hst as [Hi Ho]. pose proof (wf_quiet _ _ Hwf Hi) as Ha.
  destruct l as [i|i|a| |t| | |].
  - right. by eapply worker_step_rank.
  - right. exec_cases He. pose proof (total_insert worker_rank _ _ _ WWake H) as Ht.
    split; [done|]. unfold rank. simpl in *. lia.
  - exec_cases He. by apply bool_decide_eq_true in Heqb as [_ ?].
  - exec_cases He.
  - unfold exec, notify_one in He. rewrite Ha in He. by case_match.
  - exec_cases He. by apply bool_decide_eq_true in Heqb as [_ ?].
  - right. by eapply owner_step_rank.
  - left. exec_cases He. done.
Qed.

Lemma watchdog_armed n s :
  reachable n s → owner s = OReturned ∨ (∃ k, owner s = OJoin k) → watchdog s = true.
Proof.
  revert s. apply (reachable_invariant exec (λ s, s = init n)
    (λ s, owner s = OReturned ∨ (∃ k, owner s = OJoin k) → watchdog s = true)).
  - intros ? ->. by intros [?|[??]].
  - intros l s1 s2 Hw He. destruct l; exec_cases He; try exact Hw; try done;
      try (by intros [?|[??]]); try (by destruct notify; intros [?|[??]]).
    + simpl. rewrite Heqo. by intros [?|[??]].
    + intros _. apply Hw. eauto.
    + intros _. apply Hw. eauto.
Qed.

(** What [shutdown] leaves behind. *)
Definition shut (n : nat) (s : state) : Prop :=
  owner s = OReturned ∧ workers s = replicate n WDone ∧ sockets s = [] ∧ mutex s = None ∧
  fd <$> offered (past s) = (fd <$> taken (past s)) ++ closed (past s).

Lemma returned_shut n s : reachable n s → owner s = OReturned → shut n s.
Proof.
  intros Hr Ho. pose proof (pool_reachable_wf n s Hr) as Hwf.
  assert (workers s = replicate n WDone) as Hw.
  { apply list_eq_same_length with n; [by rewrite length_replicate|apply Hwf|].
    intros i x y Hlt Hx Hy. apply lookup_replicate in Hy as [-> _].
    rewrite (wf_joined _ _ Hwf) in Hx by (by rewrite Ho). congruence. }
  assert (sockets s = []) as Hs by (apply Hwf; by rewrite Ho).
  split_and!; try done.
  - destruct (mutex s) as [h|] eqn:Em; [|done]. apply (wf_locks _ _ Hwf) in Em.
    destruct h as [i| |]; simpl in Em.
    + rewrite Hw in Em. destruct (replicate n WDone !! i) eqn:E; [|done].
      by apply lookup_replicate in E as [-> _].
    + by rewrite (wf_quiet _ _ Hwf) in Em by by rewrite Ho.
    + by rewrite Ho in Em.
  - assert (inv (seen s)) as Hi.
    { apply (reachable_invariant exec (λ s, s = init n) (λ s, wf n s ∧ inv (seen s))) in Hr; [apply Hr|..].
      - intros ? ->. split; [apply pool_init_wf|]. by apply (run_inv []).
      - intros l s1 s2 [Hw1 Hi1] He. split; [by eapply pool_exec_wf|].
        rewrite (pool_exec_seen n l s1 s2) by done. by apply fold_inv. }
    rewrite seen_open in Hi by by rewrite Ho. destruct Hi as [Hi _]. simpl in Hi.
    by rewrite Hs in Hi.
Qed.

(** The watchdog is never called off: once [shutdown] has returned, with every
    worker joined, it still ends the process when its time comes. *)
Lemma watchdog_after_shutdown n s :
  reachable n s → owner s = OReturned → exited s = false →
  shut n s ∧ exec Fire s = Some (set_exited s).
Proof.
  intros Hr Ho He. split; [by apply returned_shut|].
  unfold exec. by rewrite He, (watchdog_armed n s Hr) by by left.
Qed.

(** A run of one worker: it waits, is woken for a socket and serves it; a
    second socket is queued when [shutdown] begins, and closed by it. *)
Definition sample (a b : AcceptedSocket) : list label :=
  [Work 0; Work 0; Offer a; Accept; Accept; Accept; Accept; Notify (Some 0%nat);
   Work 0; Work 0; Work 0; Work 0; Offer b; Accept; Accept; Accept; Accept; Notify None;
   Shutdown; Own; Own].
Definition sample_rest : list label :=
  [Own; Work 0; Own; Own; Own; Own; Work 0; Work 0; Work 0; Work 0; Own; Own].
Definition after (ls : list label) (n : nat) : state :=
  default (init n) (exec_all exec ls (init n)).

Lemma pool_after_reachable ls n : reachable n (after ls n).
Proof.
  unfold after. destruct (exec_all exec ls (init n)) as [s|] eqn:E; simpl; [|by apply reach_init].
  eapply exec_all_reachable, E. by apply reach_init.
Qed.

Example sample_runs :
  let s := after (sample (mkAccepted 7 "a") (mkAccepted 8 "b") ++ sample_rest) 1 in
  owner s = OReturned ∧ workers s = [WDone] ∧ fd <$> taken (past s) = [7] ∧ closed (past s) = [8] ∧
  exited (default s (exec Fire s)) = true.
Proof. vm_compute. done. Qed.

(** ** Correctness *)

(** C9: the methods of [WorkQueue] are atomic: whatever the interleaving of
    the instructions of any number of workers, the accept thread and the main
    thread, with spurious wake-ups, what the threads can tell of the queue and
    of its history is what some sequence of whole calls gives, each taking
    effect at one instruction between its lock and its release; and a worker
    gets from [dequeue] what the atomic [dequeue] returns there. *)
Theorem queue_linearizable n ls s :
  exec_all exec ls (init n) = Some s →
  seen s = run (effects ls (init n)) ∧
  ∀ i s', workers s !! i = Some WTake → exec (Work i) s = Some s' →
    ∃ r, dequeue (seen s).1 = Some (r, (seen s').1) ∧ workers s' !! i = Some (WUnlock r).
Proof.
  intros He. split.
  - rewrite (pool_exec_all_seen n ls (init n) s); [done|apply pool_init_wf|done].
  - intros i s' Hi Hs. eapply take_seen; [|done..].
    apply pool_reachable_wf. eapply exec_all_reachable, He. by apply reach_init.
Qed.

Lemma queue_linearizable_witness :
  let ls := sample (mkAccepted 7 "a") (mkAccepted 8 "b") in
  seen (after ls 1) = run (effects ls (init 1)) ∧
  effects ls (init 1) =
    [Enqueue (mkAccepted 7 "a"); Dequeue; Enqueue (mkAccepted 8 "b"); Stop].
Proof.
  intros ls. split; [|by vm_compute].
  apply (queue_linearizable 1 ls). by vm_compute.
Defined.

(** C14: no wake-up is lost: while a worker sleeps, for every queued socket
    there is a worker on its way to the queue, or the notification of the push
    just made is still to be sent, so no socket waits for a busy worker while
    another sleeps; a worker sleeps through [stop] only until [notify_all];
    and a worker ends only once the queue is stopped. *)
Theorem no_lost_wakeup n s :
  reachable n s →
  (WSleep ∈ workers s →
     (length (sockets s) ≤ total coming (workers s) + pending (accept s))%nat) ∧
  (stopped s = true → WSleep ∈ workers s →
     owner s = ODrain ∨ owner s = OUnlock true ∨ owner s = ONotify) ∧
  (WDone ∈ workers s → stopped s = true).
Proof.
  intros Hwf%pool_reachable_wf. split_and!.
  - apply Hwf.
  - intros Hs Hin. pose proof (wf_asleep _ _ Hwf Hin) as Hm. rewrite (wf_stopped _ _ Hwf) in Hs.
    pose proof (wf_unlock _ _ Hwf). destruct (owner s) as [| | | |[]| | | |]; naive_solver.
  - intros Hin. by apply (wf_leaving _ _ Hwf WDone).
Qed.

Lemma no_lost_wakeup_witness :
  let s := after (take 7 (sample (mkAccepted 7 "a") (mkAccepted 8 "b"))) 1 in
  workers s = [WSleep] ∧ length (sockets s) = 1%nat ∧ accept s = PNotify ∧
  (length (sockets s) ≤ total coming (workers s) + pending (accept s))%nat.
Proof.
  intros s. split_and!; [by vm_compute..|].
  apply (no_lost_wakeup 1 s); [apply pool_after_reachable|]. vm_compute. left.
Defined.

(** C15: [ThreadPool::shutdown] returns: from when it holds the lock of [stop],
    under every schedule of the threads, unless the watchdog ends the process
    first, it comes to its return, with every worker finished and joined, the
    mutex free, the queue empty, and every descriptor ever offered either
    handed to a worker or closed, once; and until then a worker or the main
    thread can always move. *)
Theorem shutdown_joins n s :
  reachable n s → stopping s →
  inevitable exec (λ l, l = Own ∨ ∃ i, l = Work i) (λ s, exited s = true ∨ shut n s) s.
Proof.
  intros Hr Hst.
  apply (inevitable_by_rank _ _ _ (λ s, reachable n s ∧ stopping s) (rank n)); [| | |done].
  - intros s1 [Hr1 Hs1] Hn. apply (pool_stopping_progress n); [by apply pool_reachable_wf|done|..].
    + destruct (exited s1); naive_solver.
    + intros Ho. apply Hn. right. by apply returned_shut.
  - intros l s1 s2 [Hr1 Hs1] He.
    destruct (pool_stopping_step n l s1 s2) as [?|[??]]; [by apply pool_reachable_wf|done|done|by left; left|].
    right. split; [|done]. split; [|done]. by eapply reach_step.
  - intros s1 _. destruct (decide (exited s1 = true ∨ shut n s1)); [by left|by right].
Qed.

Lemma shutdown_joins_witness :
  let s := after (sample (mkAccepted 7 "a") (mkAccepted 8 "b")) 1 in
  owner s = ODrain ∧ length (sockets s) = 1%nat ∧
  inevitable exec (λ l, l = Own ∨ ∃ i, l = Work i) (λ s, exited s = true ∨ shut 1 s) s.
Proof.
  intros s. split_and!; [by vm_compute..|].
  apply (shutdown_joins 1); [apply pool_after_reachable|]. by vm_compute.
Defined.

End PoolThreads.
