(* ===== verification/ExporterThread.v ===== *)
(** * The exporter's threads

    Models the constructor, [enqueue], [flush], [run] and the destructor of
    [BatchExporter] in [src/otelScope.cpp] as the sequences of actions they
    are, run by the threads that call them: any number of callers of
    [enqueue], the flusher thread, and the thread that destroys the exporter
    when the process exits.  A flush holds its batch in a local variable and
    posts it without the mutex; the post itself, with its payload and its
    HTTP request, is [Exporter.flush_post]. *)

From S2P Require Import Prelude Net Json JsonRef Otel Exporter Threads.
Local Open Scope Z_scope.

Module ExporterThread.
Import Threads.

Definition MAX_BATCH_SIZE : Z := 512.

Notation span := Otel.FinishedSpan.

(** A caller of [enqueue]: outside; before the lock; before the push; at the
    test of the size; before the release. *)
Inductive caller_pc :=
| CIdle | CLock (sp : span) | CPush (sp : span) | CTest | CUnlock.

(** The flusher: before the lock of [run]; at the test of its loop; in
    [wait_for]; awake, before taking the lock again; at the start of [flush];
    posting; before the lock at the end of [flush]; returned. *)
Inductive flusher_pc :=
| FAcquire | FLoop | FSleep | FWake | FFlush | FPost (batch : list span) | FRelock | FReturned.

(** The destructor: not called; before the lock; before [m_running = false];
    before the release; before [notify_one]; before [join]; before the second
    lock; at the start of [flush]; posting; before the lock at its end; before
    the last release; returned. *)
Inductive owner_pc :=
| DAlive | DLock | DSet | DUnlock | DNotify | DJoin
| DLockAgain | DFlush | DPost (batch : list span) | DRelock | DRelease | DDestroyed.

Inductive holder := Caller (i : nat) | Flusher | Destroyer.
#[global] Instance holder_eq_dec : EqDecision holder.
Proof. solve_decision. Defined.

(** The members, where the threads are, the batches posted with the verdicts,
    whether a post has taken the process down, and the spans pushed so far. *)
Record state := mkState {
  mutex : option holder;
  m_running : bool;
  m_pending : list span;
  callers : list caller_pc;
  flusher : flusher_pc;
  owner : owner_pc;
  posted : list (list span * bool);
  terminated : bool;
  handed : list span
}.

(** The constructor, with [n] threads that may call [enqueue]. *)
Definition init (n : nat) : state :=
  mkState None true [] (replicate n CIdle) FAcquire DAlive [] false [].

(** ** Updates *)

Definition set_mutex m s := mkState m (m_running s) (m_pending s) (callers s) (flusher s) (owner s)
  (posted s) (terminated s) (handed s).
Definition set_running b s := mkState (mutex s) b (m_pending s) (callers s) (flusher s) (owner s)
  (posted s) (terminated s) (handed s).
Definition set_pending p s := mkState (mutex s) (m_running s) p (callers s) (flusher s) (owner s)
  (posted s) (terminated s) (handed s).
Definition set_callers c s := mkState (mutex s) (m_running s) (m_pending s) c (flusher s) (owner s)
  (posted s) (terminated s) (handed s).
Definition set_flusher f s := mkState (mutex s) (m_running s) (m_pending s) (callers s) f (owner s)
  (posted s) (terminated s) (handed s).
Definition set_owner o s := mkState (mutex s) (m_running s) (m_pending s) (callers s) (flusher s) o
  (posted s) (terminated s) (handed s).
Definition set_posted p t s := mkState (mutex s) (m_running s) (m_pending s) (callers s) (flusher s)
  (owner s) p t (handed s).
Definition set_handed h s := mkState (mutex s) (m_running s) (m_pending s) (callers s) (flusher s)
  (owner s) (posted s) (terminated s) h.

Definition lock (h : holder) (s : state) : option state :=
  match mutex s with
  | None => Some (set_mutex (Some h) s)
  | Some _ => None
  end.
Definition unlock (s : state) : state := set_mutex None s.

(** [m_cv.notify_one()]: only the flusher ever waits. *)
Definition woken (pc : flusher_pc) : flusher_pc :=
  match pc with FSleep => FWake | _ => pc end.
Definition notify_one (s : state) : state := set_flusher (woken (flusher s)) s.

Definition full (pending : list span) : bool := MAX_BATCH_SIZE <=? Z.of_nat (length pending).
Arguments full : simpl never.

Definition goto (i : nat) (pc : caller_pc) (s : state) : state :=
  set_callers (<[i := pc]> (callers s)) s.

(** ** The threads *)

Section exec.
Context `{JL : JsonLib}.
Context (endpoint : Otel.OtlpEndpoint).

(** [enqueue]. *)
Definition caller_step (i : nat) (s : state) : option state :=
  match callers s !! i with
  | Some (CLock sp) => goto i (CPush sp) <$> lock (Caller i) s
  | Some (CPush sp) =>
      Some (goto i CTest (set_handed (handed s ++ [sp]) (set_pending (m_pending s ++ [sp]) s)))
  | Some CTest =>
      Some (goto i CUnlock (if full (m_pending s) then notify_one s else s))
  | Some CUnlock => Some (goto i CIdle (unlock s))
  | Some CIdle | None => None
  end.

(** The middle of [flush]: serialize and post the batch.  A thread whose post
    takes the process down goes no further. *)
Definition post (calls : Exporter.http_calls) (batch : list span) (s : state) : state :=
  let e := Exporter.flush_post endpoint calls
             (Exporter.mkExporter (m_pending s) (Some batch) (posted s) (terminated s)) in
  set_posted (Exporter.posted e) (Exporter.terminated e) s.

(** [run]. *)
Definition run (calls : Exporter.http_calls) (s : state) : option state :=
  match flusher s with
  | FAcquire => set_flusher FLoop <$> lock Flusher s
  | FLoop =>
      Some (set_flusher (if m_running s then FSleep else FReturned) (unlock s))
  | FWake => set_flusher FFlush <$> lock Flusher s
  | FFlush =>
      match m_pending s with
      | [] => Some (set_flusher FLoop s)
      | batch => Some (set_flusher (FPost batch) (unlock (set_pending [] s)))
      end
  | FPost batch =>
      let s := post calls batch s in
      if terminated s then Some s else Some (set_flusher FRelock s)
  | FRelock => set_flusher FLoop <$> lock Flusher s
  | FSleep | FReturned => None
  end.

(** The interval has passed, or a wake-up that no notification caused:
    [wait_for] has no predicate, so both go on to [flush]. *)
Definition wait_returns (s : state) : option state :=
  match flusher s with FSleep => Some (set_flusher FWake s) | _ => None end.

(** [~BatchExporter]. *)
Definition destroy (calls : Exporter.http_calls) (s : state) : option state :=
  match owner s with
  | DLock => set_owner DSet <$> lock Destroyer s
  | DSet => Some (set_owner DUnlock (set_running false s))
  | DUnlock => Some (set_owner DNotify (unlock s))
  | DNotify => Some (set_owner DJoin (notify_one s))
  | DJoin => match flusher s with FReturned => Some (set_owner DLockAgain s) | _ => None end
  | DLockAgain => set_owner DFlush <$> lock Destroyer s
  | DFlush =>
      match m_pending s with
      | [] => Some (set_owner DRelease s)
      | batch => Some (set_owner (DPost batch) (unlock (set_pending [] s)))
      end
  | DPost batch =>
      let s := post calls batch s in
      if terminated s then Some s else Some (set_owner DRelock s)
  | DRelock => set_owner DRelease <$> lock Destroyer s
  | DRelease => Some (set_owner DDestroyed (unlock s))
  | DAlive | DDestroyed => None
  end.

Inductive label :=
| Enqueue (i : nat) (sp : span)
| Call (i : nat)
| Run (calls : Exporter.http_calls)
| Wake
| Destroy
| Own (calls : Exporter.http_calls).

Definition idle (pc : caller_pc) : bool := match pc with CIdle => true | _ => false end.

(** The exporter is destroyed when the process exits, after [main] has joined
    the threads that use it. *)
Definition exec (l : label) (s : state) : option state :=
  if terminated s then None
  else match l with
       | Enqueue i sp =>
           match callers s !! i, owner s with
           | Some CIdle, DAlive => Some (goto i (CLock sp) s)
           | _, _ => None
           end
       | Call i => caller_step i s
       | Run calls => run calls s
       | Wake => wait_returns s
       | Destroy =>
           match owner s with
           | DAlive => if forallb idle (callers s) then Some (set_owner DLock s) else None
           | _ => None
           end
       | Own calls => destroy calls s
       end.
End exec.

(** ** Mutual exclusion *)

Definition caller_holds (pc : caller_pc) : bool :=
  match pc with CPush _ | CTest | CUnlock => true | _ => false end.
Definition flusher_holds (pc : flusher_pc) : bool :=
  match pc with FLoop | FFlush => true | _ => false end.
Definition owner_holds (pc : owner_pc) : bool :=
  match pc with DSet | DUnlock | DFlush | DRelease => true | _ => false end.

Definition inside (h : holder) (s : state) : bool :=
  match h with
  | Caller i => from_option caller_holds false (callers s !! i)
  | Flusher => flusher_holds (flusher s)
  | Destroyer => owner_holds (owner s)
  end.

Abbreviation locks := (Threads.locks mutex inside).
Abbreviation locks_move := (Threads.locks_move mutex inside).
Abbreviation locks_same := (Threads.locks_same mutex inside).
Abbreviation locks_excl := (Threads.locks_excl mutex inside).

Lemma exporter_lock_some h s s' : lock h s = Some s' → mutex s = None ∧ s' = set_mutex (Some h) s.
Proof. unfold lock. destruct (mutex s); naive_solver. Qed.

Ltac exec_cases He :=
  unfold exec, caller_step, run, wait_returns, destroy in He;
  destruct (terminated _) eqn:Hterm; [done|];
  repeat (first
    [ progress (simplify_eq/=)
    | match type of He with
      | fmap _ _ = Some _ => apply fmap_Some in He as (? & He & ->)
      | lock _ _ = Some _ => apply exporter_lock_some in He as [? ->]
      | context [match ?x with _ => _ end] => destruct x eqn:?
      end ]).

(** A step of a caller. *)
Lemma exporter_locks_goto i pc pc' s s' :
  locks s → callers s !! i = Some pc →
  callers s' = <[i := pc']> (callers s) → owner s' = owner s →
  flusher_holds (flusher s') = flusher_holds (flusher s) →
  mutex s' = (if caller_holds pc' then Some (Caller i)
              else if caller_holds pc then None else mutex s) →
  (caller_holds pc' = true → caller_holds pc = true ∨ mutex s = None) → locks s'.
Proof.
  intros Hl Hi Hc Ho Hf Hm Hin.
  assert (inside (Caller i) s = caller_holds pc) as E by (simpl; by rewrite Hi).
  assert (inside (Caller i) s' = caller_holds pc') as E'.
  { simpl. by rewrite Hc, (holds_insert caller_holds _ _ pc), decide_True. }
  apply (locks_move (Caller i) s); rewrite ?E, ?E'; [done| |done|done].
  intros [j| |] Hh; simpl; [|congruence..].
  by rewrite Hc, (holds_insert caller_holds _ _ pc), decide_False by naive_solver.
Qed.

Lemma woken_holds pc : flusher_holds (woken pc) = flusher_holds pc.
Proof. by destruct pc. Qed.

Section facts.
Context `{JL : JsonLib} `{!JsonLaws}.
Context (ep : Otel.OtlpEndpoint).
Implicit Types s : state.

Lemma caller_locks i s s' : locks s → exec ep (Call i) s = Some s' → locks s'.
Proof.
  intros Hl He. pose proof (proj2 (Hl (Caller i))) as Hh. simpl in Hh. exec_cases He.
  - eapply (exporter_locks_goto i (CLock sp) (CPush sp) s); auto.
  - eapply (exporter_locks_goto i (CPush sp) CTest s); auto.
  - eapply (exporter_locks_goto i CTest CUnlock s); auto; simpl.
    + by destruct (full _).
    + by destruct (full _).
    + destruct (full _); simpl; [apply woken_holds|done].
    + rewrite <-Hh by done. by destruct (full _).
  - eapply (exporter_locks_goto i CUnlock CIdle s); auto.
Qed.

Lemma exporter_exec_locks l s s' : locks s → exec ep l s = Some s' → locks s'.
Proof.
  intros Hl He. destruct l as [i sp|i|calls| | |calls].
  - exec_cases He. by eapply (exporter_locks_goto i CIdle (CLock sp) s).
  - by eapply caller_locks.
  - pose proof (proj2 (Hl Flusher)) as Hh. simpl in Hh.
    exec_cases He; (apply (locks_move Flusher s); simpl; [done|by intros []|..]);
      rewrite ?Heqf; simpl; auto; by destruct (m_running s).
  - exec_cases He. apply (locks_move Flusher s); simpl; rewrite ?Heqf; try done. by intros [].
  - exec_cases He. apply (locks_move Destroyer s); simpl; rewrite ?Heqo; try done. by intros [].
  - pose proof (proj2 (Hl Destroyer)) as Hh. simpl in Hh.
    exec_cases He; (apply (locks_move Destroyer s); simpl; [done| |..]);
      rewrite ?Heqo; simpl; auto; try (by intros []).
    intros [] Hne; simpl; try done. apply woken_holds.
Qed.

(** ** The invariant *)

Definition live (pc : owner_pc) : bool :=
  match pc with DAlive | DLock | DSet => true | _ => false end.
Definition joined (pc : owner_pc) : bool :=
  match pc with DLockAgain | DFlush | DPost _ | DRelock | DRelease | DDestroyed => true | _ => false end.
Definition flushed (pc : owner_pc) : bool :=
  match pc with DPost _ | DRelock | DRelease | DDestroyed => true | _ => false end.

(** The batch being posted. *)
Definition in_flight s : option (list span) :=
  match flusher s, owner s with
  | FPost batch, _ => Some batch
  | _, DPost batch => Some batch
  | _, _ => None
  end.

Record wf (s : state) : Prop := {
  wf_locks : locks s;
  wf_running : m_running s = live (owner s);
  wf_quiet : owner s ≠ DAlive → forallb idle (callers s) = true;
  wf_joined : joined (owner s) = true → flusher s = FReturned;
  wf_returned : flusher s = FReturned → m_running s = false;
  wf_sleep : flusher s = FSleep → m_running s = false → owner s = DUnlock ∨ owner s = DNotify;
  wf_flushed : flushed (owner s) = true → m_pending s = []
}.

Lemma exporter_init_wf n : wf (init n).
Proof.
  split; try done. intros [i| |]; simpl; [|done..]. split; [done|].
  destruct (replicate n CIdle !! i) as [pc|] eqn:E; [|done]. by apply lookup_replicate in E as [-> _].
Qed.

(** A post takes the process down, or is recorded with its verdict. *)
Lemma post_cases calls batch s :
  terminated (post ep calls batch s) = true ∨
  ∃ ok, post ep calls batch s = set_posted (posted s ++ [(batch, ok)]) (terminated s) s.
Proof.
  unfold post. erewrite Exporter.flush_post_run by reflexivity.
  destruct (forallb _ _); [|by left]. destruct (Exporter.httpPost _ _ _).1.1; [|by left].
  right. by eexists.
Qed.

(** A caller that is not idle keeps the exporter alive. *)
Lemma caller_alive s i pc :
  wf s → callers s !! i = Some pc → pc ≠ CIdle → owner s = DAlive.
Proof.
  intros Hwf Hi Hne. destruct (owner s) eqn:Ho; [done|exfalso..];
    (pose proof (wf_quiet _ Hwf) as Hq; rewrite Ho in Hq; specialize (Hq ltac:(done));
     rewrite forallb_forall in Hq; apply list_elem_of_lookup_2, list_elem_of_In, Hq in Hi;
     by destruct pc).
Qed.

(** While the exporter lives, a step of a caller keeps the invariant. *)
Lemma wf_caller s s' :
  wf s → locks s' → owner s = DAlive → owner s' = DAlive → m_running s' = m_running s →
  flusher s' = flusher s ∨ flusher s' = woken (flusher s) → wf s'.
Proof.
  intros [Hl Hr Hq Hj Hre Hsl Hf] Hl' Ho Ho' Er Ef.
  split; rewrite ?Ho', ?Er; rewrite ?Ho in *; try done; rewrite ?Hr; try done.
  intros Hret. rewrite <-Hr. apply Hre. destruct Ef as [<-|Ef]; [done|].
  rewrite Ef in Hret. by destruct (flusher s).
Qed.

Lemma caller_wf i s s' : wf s → exec ep (Call i) s = Some s' → wf s'.
Proof.
  intros Hwf He. assert (locks s') as Hl by (eapply exporter_exec_locks, He; apply Hwf).
  assert (owner s = DAlive) as Ho.
  { unfold exec, caller_step in He. destruct (terminated s); [done|].
    destruct (callers s !! i) as [pc|] eqn:Hi; [|done].
    apply (caller_alive s i pc Hwf Hi). by intros ->. }
  exec_cases He; apply (wf_caller s); auto; simpl; destruct (full (m_pending s)); simpl; auto.
Qed.

Lemma run_wf calls s s' : wf s → exec ep (Run calls) s = Some s' → wf s'.
Proof.
  intros Hwf He. assert (locks s') as Hl by (eapply exporter_exec_locks, He; apply Hwf).
  pose proof Hwf as [_ Hr Hq Hj Hre Hsl Hf].
  assert (joined (owner s) = false) as Hnj.
  { destruct (joined (owner s)); [|done]. unfold exec, run in He. rewrite Hj in He by done.
    by destruct (terminated s). }
  exec_cases He; (split; simpl; auto; try done; try congruence); by destruct (m_running s).
Qed.

Lemma own_wf calls s s' : wf s → exec ep (Own calls) s = Some s' → wf s'.
Proof.
  intros Hwf He. assert (locks s') as Hl by (eapply exporter_exec_locks, He; apply Hwf).
  pose proof Hwf as [_ Hr Hq Hj Hre Hsl Hf].
  exec_cases He; (split; simpl; rewrite ?Heqo; auto; try done; try congruence);
    try (intros Hs; by rewrite Hj in Hs).
  by destruct (flusher s).
Qed.

Lemma exporter_exec_wf l s s' : wf s → exec ep l s = Some s' → wf s'.
Proof.
  intros Hwf He. assert (locks s') as Hl by (eapply exporter_exec_locks, He; apply Hwf).
  pose proof Hwf as [_ Hr Hq Hj Hre Hsl Hf].
  destruct l; [|by eapply caller_wf|by eapply run_wf| | |by eapply own_wf]; exec_cases He.
  - apply (wf_caller s); auto.
  - split; simpl; auto; try done. intros Hjo%Hj. congruence.
  - split; simpl; auto; try done. by rewrite Hr.
Qed.

Abbreviation reachable n := (Threads.reachable (exec ep) (λ s, s = init n)).

Lemma exporter_reachable_wf n s : reachable n s → wf s.
Proof. apply reachable_invariant; [intros ? ->; apply exporter_init_wf|]. intros l s1 s2. apply exporter_exec_wf. Qed.

(** ** What the threads do together *)

(** The exporter as [Exporter.v] has it. *)
Definition seen s : Exporter.state :=
  Exporter.mkExporter (m_pending s) (in_flight s) (posted s) (terminated s).

(** The operation, if any, that a step carries out. *)
Definition effect (l : label) s : list Exporter.op :=
  match l with
  | Call i => match callers s !! i with Some (CPush sp) => [Exporter.Enqueue sp] | _ => [] end
  | Run calls =>
      match flusher s with FFlush => [Exporter.Swap] | FPost _ => [Exporter.Post calls] | _ => [] end
  | Own calls =>
      match owner s with DFlush => [Exporter.Swap] | DPost _ => [Exporter.Post calls] | _ => [] end
  | _ => []
  end.

Fixpoint effects (ls : list label) s : list Exporter.op :=
  match ls with
  | [] => []
  | l :: ls => effect l s ++ from_option (effects ls) [] (exec ep l s)
  end.

Lemma exporter_seen_same s s' :
  in_flight s' = in_flight s → m_pending s' = m_pending s → posted s' = posted s →
  terminated s' = terminated s → seen s' = seen s.
Proof. unfold seen. by intros -> -> -> ->. Qed.

Lemma post_seen calls batch s :
  terminated s = false → in_flight s = Some batch →
  let s' := post ep calls batch s in
  Exporter.step ep (Exporter.Post calls) (seen s) =
    Exporter.mkExporter (m_pending s) (if terminated s' then Some batch else None)
      (posted s') (terminated s').
Proof.
  intros Ht Hf. unfold seen, Exporter.step, post. rewrite Hf, Ht. simpl.
  erewrite Exporter.flush_post_run by reflexivity. destruct (forallb _ _); [|done].
  by destruct (Exporter.httpPost _ _ _).1.1.
Qed.

Lemma swap_seen s :
  terminated s = false → in_flight s = None →
  Exporter.step ep Exporter.Swap (seen s) =
    match m_pending s with
    | [] => seen s
    | batch => Exporter.mkExporter [] (Some batch) (posted s) (terminated s)
    end.
Proof.
  intros Ht Hf. unfold Exporter.step, Exporter.flush_swap, seen. simpl. rewrite Ht, Hf.
  by destruct (m_pending s).
Qed.

(** Only one flush is under way. *)
Lemma in_flight_flusher s :
  joined (owner s) = false →
  in_flight s = match flusher s with FPost batch => Some batch | _ => None end.
Proof. unfold in_flight. by destruct (flusher s), (owner s). Qed.

Lemma in_flight_owner s :
  flusher s = FReturned →
  in_flight s = match owner s with DPost batch => Some batch | _ => None end.
Proof. unfold in_flight. by intros ->. Qed.

Lemma run_seen calls s s' :
  wf s → exec ep (Run calls) s = Some s' →
  seen s' = fold_left (λ e o, Exporter.step ep o e) (effect (Run calls) s) (seen s).
Proof.
  intros Hwf He.
  assert (joined (owner s) = false) as Hnj.
  { destruct (joined (owner s)) eqn:E; [|done]. apply (wf_joined _ Hwf) in E.
    unfold exec, run in He. rewrite E in He. by destruct (terminated s). }
  pose proof (in_flight_flusher s Hnj) as Hf. simpl.
  exec_cases He; rewrite ?swap_seen, ?(post_seen _ batch), ?Heql, ?Heqb by done; unfold seen;
    rewrite ?Hf; unfold in_flight; simpl; rewrite ?Heqf, ?Heql, ?Heqb; try done;
    try destruct (m_running s); by destruct (owner s).
Qed.

Lemma own_seen calls s s' :
  wf s → exec ep (Own calls) s = Some s' →
  seen s' = fold_left (λ e o, Exporter.step ep o e) (effect (Own calls) s) (seen s).
Proof.
  intros Hwf He. pose proof (wf_joined _ Hwf) as Hj. simpl.
  destruct (joined (owner s)) eqn:Ej.
  - pose proof (in_flight_owner s (Hj eq_refl)) as Hf.
    exec_cases He; rewrite ?swap_seen, ?(post_seen _ batch), ?Heql, ?Heqb by done; unfold seen;
      rewrite ?Hf; unfold in_flight; simpl; rewrite ?Heqo, ?Heql, ?Heqb, ?(Hj eq_refl); done.
  - pose proof (in_flight_flusher s Ej) as Hf.
    exec_cases He; apply exporter_seen_same; try done; rewrite Hf; unfold in_flight; simpl; by destruct (flusher s).
Qed.

Lemma exporter_exec_seen l s s' :
  wf s → exec ep l s = Some s' →
  seen s' = fold_left (λ e o, Exporter.step ep o e) (effect l s) (seen s).
Proof.
  intros Hwf He. pose proof (wf_joined _ Hwf) as Hj. destruct l as [i sp|i|calls| | |calls]; simpl.
  - exec_cases He. by apply exporter_seen_same.
  - exec_cases He; try (by apply exporter_seen_same).
    + unfold seen, Exporter.step. simpl. by rewrite Hterm.
    + destruct (full _); apply exporter_seen_same; try done. unfold in_flight. simpl. by destruct (flusher s).
  - by apply run_seen.
  - exec_cases He. apply exporter_seen_same; try done. unfold in_flight. simpl. by rewrite Heqf.
  - exec_cases He. apply exporter_seen_same; try done. unfold in_flight. simpl. by rewrite Heqo.
  - by apply own_seen.
Qed.

Lemma exporter_exec_all_seen ls s s' :
  wf s → exec_all (exec ep) ls s = Some s' →
  seen s' = fold_left (λ e o, Exporter.step ep o e) (effects ls s) (seen s).
Proof.
  revert s. induction ls as [|l ls IH]; intros s Hwf He; simplify_eq/=; [done|].
  destruct (exec ep l s) as [s1|] eqn:E; [|done]. simpl in *.
  rewrite fold_left_app, <-(exporter_exec_seen l s s1) by done. by apply IH; [eapply exporter_exec_wf|].
Qed.

(** Every span pushed is posted, in flight or pending, in order. *)
Definition accounted s : Prop := terminated s = false → Exporter.ledger (seen s) = handed s.

Lemma exec_handed l s s' :
  exec ep l s = Some s' → handed s' = handed s ++ Exporter.offered (effect l s).
Proof.
  intros He. destruct l; exec_cases He; rewrite ?app_nil_r; try done. by destruct (full _).
Qed.

Lemma exec_accounted l s s' : wf s → accounted s → exec ep l s = Some s' → accounted s'.
Proof.
  intros Hwf Ha He _. assert (terminated s = false) as Ht.
  { unfold exec in He. by destruct (terminated s). }
  rewrite (exporter_exec_seen l s s'), (exec_handed l s s'), <-Ha by done.
  assert (effect l s = [] ∨ ∃ o, effect l s = [o]) as [->|[o ->]].
  { destruct l; simpl; repeat case_match; eauto. }
  - simpl. by rewrite app_nil_r.
  - simpl. rewrite Exporter.step_ledger by done. by destruct o.
Qed.

Lemma reachable_accounted n s : reachable n s → accounted s.
Proof.
  intros Hr. apply (reachable_invariant (exec ep) (λ s, s = init n) (λ s, wf s ∧ accounted s)) in Hr;
    [apply Hr|..].
  - intros ? ->. split; [apply exporter_init_wf|done].
  - intros l s1 s2 [Hw Ha] He. split; [by eapply exporter_exec_wf|by eapply exec_accounted].
Qed.

(** ** Destruction *)

Definition flusher_rank (pc : flusher_pc) : nat :=
  match pc with
  | FReturned => 0 | FLoop => 1 | FAcquire | FRelock => 2 | FPost _ => 3 | FFlush => 4
  | FWake => 5 | FSleep => 6
  end.
Definition owner_rank (pc : owner_pc) : nat :=
  match pc with
  | DDestroyed => 0 | DRelease => 1 | DRelock => 2 | DPost _ => 3 | DFlush => 4 | DLockAgain => 5
  | DJoin => 6 | DNotify => 7 | DUnlock => 8 | DSet => 9 | DLock | DAlive => 10
  end.
Definition rank s : nat := flusher_rank (flusher s) + owner_rank (owner s).

(** The destructor has its first lock, or is past it. *)
Definition destroying s : Prop := owner s ≠ DAlive ∧ owner s ≠ DLock.

(** What the destructor leaves. *)
Definition destroyed s : Prop :=
  owner s = DDestroyed ∧ flusher s = FReturned ∧ mutex s = None ∧ m_pending s = [] ∧
  concat (posted s).*1 = handed s.

Lemma destroying_step l s s' :
  wf s → destroying s → exec ep l s = Some s' →
  terminated s' = true ∨ (destroying s' ∧ (rank s' < rank s)%nat).
Proof.
  intros Hwf [Ha Hl] He. unfold destroying, rank.
  destruct l as [i sp|i|calls| | |calls].
  - exec_cases He.
  - unfold exec, caller_step in He. destruct (terminated s); [done|].
    destruct (callers s !! i) as [pc|] eqn:Hi; [|done].
    destruct Ha. apply (caller_alive s i pc Hwf Hi). by intros ->.
  - assert (flusher s = FLoop → m_running s = false) as Hrun.
    { intros Hf. rewrite (wf_running _ Hwf). destruct (owner s) eqn:Ho; try done.
      assert (Flusher = Destroyer); [|done]. apply (locks_excl s); [apply Hwf|..]; simpl.
      - by rewrite Hf.
      - by rewrite Ho. }
    exec_cases He; try (by left); right; (split; [done|]); rewrite ?Heqf, ?Hrun by done; simpl; lia.
  - right. exec_cases He. split; [done|]. simpl. lia.
  - exec_cases He.
  - exec_cases He; try (by left); right; (split; [done|]); rewrite ?Heqo; simpl; try lia;
      destruct (flusher s); simplify_eq/=; lia.
Qed.

(** Until the destructor returns, it or the flusher can move. *)
Lemma destroying_progress s :
  wf s → destroying s → terminated s = false → owner s ≠ DDestroyed →
  ∃ l s', (∃ calls, l = Own calls ∨ l = Run calls) ∧ exec ep l s = Some s'.
Proof.
  intros Hwf [Ha Hl] Ht Hd.
  set (calls := Exporter.mkHttp false None false [] []).
  assert (is_Some (destroy ep calls s) ∨ is_Some (run ep calls s)) as [[s' E]|[s' E]].
  2: { exists (Own calls), s'. split; [by eauto|]. unfold exec. by rewrite Ht. }
  2: { exists (Run calls), s'. split; [by eauto|]. unfold exec. by rewrite Ht. }
  assert (∀ h, mutex s = Some h → flusher_holds (flusher s) = true ∨ owner_holds (owner s) = true) as Hm.
  { intros h Hh. apply (wf_locks _ Hwf) in Hh. destruct h as [i| |]; simpl in Hh; auto.
    destruct (callers s !! i) as [pc|] eqn:Hi; [|done]. simpl in Hh.
    destruct Ha. apply (caller_alive s i pc Hwf Hi). by intros ->. }
  pose proof (wf_joined _ Hwf) as Hj. pose proof (wf_sleep _ Hwf) as Hs.
  pose proof (wf_running _ Hwf) as Hr.
  unfold destroy, run, lock.
  destruct (owner s) eqn:Ho; simpl in *; try (by left; repeat case_match; eauto); try done.
  - destruct (flusher s) eqn:Ef; simpl in *; eauto;
      try (right; repeat case_match; naive_solver).
  - left. destruct (mutex s) as [h|]; [|by eexists]. rewrite Hj in Hm by done. naive_solver.
  - left. destruct (mutex s) as [h|]; [|by eexists]. rewrite Hj in Hm by done. naive_solver.
Qed.

Lemma destroyed_at_end n s :
  reachable n s → terminated s = false → owner s = DDestroyed → destroyed s.
Proof.
  intros Hr Ht Ho. pose proof (exporter_reachable_wf n s Hr) as Hwf.
  assert (flusher s = FReturned) as Hf by (apply Hwf; by rewrite Ho).
  assert (m_pending s = []) as Hp by (apply Hwf; by rewrite Ho).
  split_and!; try done.
  - destruct (mutex s) as [h|] eqn:Em; [|done]. apply (wf_locks _ Hwf) in Em.
    destruct h as [i| |]; simpl in Em; [|by rewrite Hf in Em|by rewrite Ho in Em].
    destruct (callers s !! i) as [pc|] eqn:Hi; [|done].
    assert (owner s = DAlive); [|congruence]. apply (caller_alive s i pc Hwf Hi). by intros ->.
  - pose proof (reachable_accounted n s Hr Ht) as Ha. unfold Exporter.ledger, seen in Ha. simpl in Ha.
    rewrite (in_flight_owner s Hf), Ho, Hp in Ha. simpl in Ha. by rewrite app_nil_r in Ha.
Qed.
End facts.

(** ** Correctness *)

(** C32: the exporter's threads carry out [enqueue] and [flush] as
    [Exporter.v] describes them.  Whatever the interleaving of any number of
    callers, the flusher and the destructor, with time-outs and spurious
    wake-ups, at most one thread is between a lock of the mutex and its
    release, at most one flush is under way, and the pending spans, the batch
    being posted and the verdicts are what the sequence of pushes, swaps and
    posts, each in the order it happened, gives there. *)
Theorem exporter_threads_refine `{JL : JsonLib} `{!JsonLaws} ep n ls s :
  exec_all (exec ep) ls (init n) = Some s →
  seen s = Exporter.run_ops ep (effects ep ls (init n)) ∧
  (∀ h h', inside h s = true → inside h' s = true → h = h') ∧
  (∀ batch batch', flusher s = FPost batch → owner s ≠ DPost batch').
Proof.
  intros He.
  assert (wf s) as Hwf.
  { eapply exporter_reachable_wf, exec_all_reachable, He. by apply reach_init. }
  split_and!.
  - rewrite (exporter_exec_all_seen ep ls (init n) s); [done|apply exporter_init_wf|done].
  - intros h h'. apply locks_excl, Hwf.
  - intros batch batch' Hf Ho. pose proof (wf_joined _ Hwf) as Hj. rewrite Ho in Hj.
    by rewrite Hj in Hf.
Qed.

(** C33: the destructor of the exporter returns: from when it holds its first
    lock, under every schedule of the two threads and without waiting for the
    flush interval, unless a post takes the process down, it comes to its
    return with the flusher joined, the mutex free, nothing pending, and every
    span ever handed to [enqueue] in exactly one posted batch, in order; and
    until then one of the two threads can always move. *)
Theorem exporter_destroyed `{JL : JsonLib} `{!JsonLaws} ep n s :
  Threads.reachable (exec ep) (λ s, s = init n) s → destroying s →
  inevitable (exec ep) (λ l, ∃ calls, l = Own calls ∨ l = Run calls)
    (λ s, terminated s = true ∨ destroyed s) s.
Proof.
  intros Hr Hd.
  apply (inevitable_by_rank _ _ _
    (λ s, Threads.reachable (exec ep) (λ s, s = init n) s ∧ destroying s) rank); [| | |done].
  - intros s1 [Hr1 Hd1] Hn. apply destroying_progress; [by eapply exporter_reachable_wf|done|..].
    + destruct (terminated s1); naive_solver.
    + intros Ho. apply Hn. destruct (terminated s1) eqn:Et; [by left|right].
      by eapply destroyed_at_end.
  - intros l s1 s2 [Hr1 Hd1] He.
    destruct (destroying_step ep l s1 s2) as [?|[??]]; [by eapply exporter_reachable_wf|done|done|by left; left|].
    right. split; [|done]. split; [|done]. by eapply reach_step.
  - intros s1 [Hr1 _]. destruct (terminated s1) eqn:Et; [by left; left|].
    destruct (owner s1) eqn:Ho; try (right; unfold destroyed; rewrite Ho; naive_solver).
    left. right. by eapply destroyed_at_end.
Qed.

(** ** Examples *)

Section witnesses.
Existing Instances JsonRef.lib JsonRef.laws.

Let ep := Exporter.demo_endpoint.
Let calls := Exporter.demo_calls.
Let run_of ls n := default (init n) (exec_all (exec ep) ls (init n)).

Definition enqueue_calls (i : nat) (sp : span) : list label :=
  [Enqueue i sp; Call i; Call i; Call i; Call i].

(** A span is posted by the flusher while another is enqueued; the destructor
    posts the second. *)
Definition sample : list label :=
  [Run calls; Run calls] ++ enqueue_calls 0 (Exporter.demo_span "a") ++
  [Wake; Run calls; Run calls] ++ enqueue_calls 1 (Exporter.demo_span "b") ++
  [Destroy; Own calls].

Lemma exporter_threads_refine_witness :
  seen (run_of sample 2) = Exporter.run_ops ep
    [Exporter.Enqueue (Exporter.demo_span "a"); Exporter.Swap;
     Exporter.Enqueue (Exporter.demo_span "b")].
Proof.
  apply (exporter_threads_refine ep 2 sample (run_of sample 2)). vm_compute. reflexivity.
Defined.

Lemma sample_reachable :
  Threads.reachable (exec ep) (λ s, s = init 2) (run_of sample 2).
Proof.
  apply (exec_all_reachable _ _ sample (init 2)); [by apply reach_init|]. vm_compute. reflexivity.
Qed.

Lemma exporter_destroyed_witness :
  owner (run_of sample 2) = DSet ∧
  inevitable (exec ep) (λ l, ∃ calls, l = Own calls ∨ l = Run calls)
    (λ s, terminated s = true ∨ destroyed s) (run_of sample 2).
Proof.
  split; [vm_compute; reflexivity|].
  apply (exporter_destroyed ep 2); [exact sample_reachable|]. split; by vm_compute.
Defined.

(** One way the destructor runs to its end. *)
Example sample_ends :
  let s := run_of (sample ++ [Own calls; Own calls; Own calls; Run calls; Run calls; Run calls;
                              Own calls; Own calls; Own calls; Own calls; Own calls; Own calls]) 2 in
  owner s = DDestroyed ∧ (posted s).*1 = [[Exporter.demo_span "a"]; [Exporter.demo_span "b"]].
Proof. vm_compute. done. Qed.

(** The push that fills the queue notifies a flusher that does not wait: the
    queue is full, the flusher sleeps for its whole interval, and nobody is on
    the way to wake it. *)
Definition missed : list label :=
  [Run calls; Run calls] ++ enqueue_calls 0 (Exporter.demo_span "a") ++
  [Wake; Run calls; Run calls] ++
  concat (replicate 512 (enqueue_calls 0 (Exporter.demo_span "b"))) ++
  [Run calls; Run calls; Run calls].

Theorem forced_flush_missed :
  ∃ s, Threads.reachable (exec ep) (λ s, s = init 1) s ∧
    full (m_pending s) = true ∧ flusher s = FSleep ∧ mutex s = None ∧ callers s = [CIdle].
Proof.
  exists (run_of missed 1). split.
  - apply (exec_all_reachable _ _ missed (init 1)); [by apply reach_init|]. vm_compute. reflexivity.
  - vm_compute. done.
Qed.
End witnesses.

End ExporterThread.
