(* ===== verification/AcceptorThread.v ===== *)
(** * The accept thread

    Models [start], [stop], [FdGuard] and the control flow of [acceptLoop] in
    [include/socketAcceptor.hpp] and [src/socketAcceptor.cpp] as a transition
    system over the flag, the listening descriptor and the two threads: the
    one that owns the acceptor and the one it starts.  What is done with an
    accepted socket is one step here; it is [SocketAcceptor.accept_iteration].

    Of the kernel the model has that [accept] blocks until a connection or an
    error comes, and that [::shutdown] of a listening socket makes a blocked
    or later [accept] on it fail. *)

From S2P Require Import Prelude Net WorkQueue Threads.
Local Open Scope Z_scope.

Module AcceptorThread.
Import Threads.

Definition EINVAL : Z := 22.
Definition ECONNABORTED : Z := 103.

(** [acceptLoop]: at the test of the loop; in [accept]; after a failure, with
    [errno]; with an accepted socket; returned. *)
Inductive loop_pc :=
| LTest | LAccept | LFailed (e : Z) | LServe (a : WorkQueue.AcceptedSocket) | LReturned.

(** The owner: outside; in [start] before [socket], before [setsockopt],
    [bind] and [listen], before the store of the flag, before the creation of
    the thread; in [stop] before the store of the flag, before [::shutdown],
    before [join], before [reset]. *)
Inductive owner_pc :=
| Outside | SSocket | SSetup | SFlag | SSpawn | PFlag | PShutdown | PJoin | PReset.

#[global] Instance loop_pc_eq_dec : EqDecision loop_pc.
Proof. solve_decision. Defined.
#[global] Instance owner_pc_eq_dec : EqDecision owner_pc.
Proof. solve_decision. Defined.

(** The members, whether the listening socket has been shut down, the
    listening descriptors that are open, the owner, and the sockets accepted
    so far. *)
Record state := mkState {
  m_listenFd : Z;
  m_stopFlag : bool;
  m_acceptThread : option loop_pc;
  shut : bool;
  listening : list Z;
  owner : owner_pc;
  accepted : list WorkQueue.AcceptedSocket
}.

Definition init : state := mkState (-1) false None false [] Outside [].

(** ** Steps *)

(** [FdGuard::reset]: the descriptors still open. *)
Definition reset (fd : Z) (opened : list Z) : list Z :=
  if 0 <=? fd then filter (λ x, x ≠ fd) opened else opened.

(** [m_listenFd = FdGuard(rawFd)]: move assignment closes the old one. *)
Definition assign_fd (rawFd : Z) (s : state) : state :=
  mkState rawFd (m_stopFlag s) (m_acceptThread s) false
    (rawFd :: reset (m_listenFd s) (listening s)) (owner s) (accepted s).

Definition set_owner o s := mkState (m_listenFd s) (m_stopFlag s) (m_acceptThread s) (shut s)
  (listening s) o (accepted s).
Definition set_thread t s := mkState (m_listenFd s) (m_stopFlag s) t (shut s)
  (listening s) (owner s) (accepted s).
Definition set_flag b s := mkState (m_listenFd s) b (m_acceptThread s) (shut s)
  (listening s) (owner s) (accepted s).

(** [start] up to the results of its system calls. *)
Definition socket_returns (r : option Z) (s : state) : option state :=
  match owner s, r with
  | SSocket, None => Some (set_owner Outside s)
  | SSocket, Some rawFd =>
      if decide (0 ≤ rawFd ∧ rawFd ∉ listening s)
      then Some (set_owner SSetup (assign_fd rawFd s)) else None
  | _, _ => None
  end.
Definition setup_returns (ok : bool) (s : state) : option state :=
  match owner s with
  | SSetup => Some (set_owner (if ok then SFlag else Outside) s)
  | _ => None
  end.

(** The rest of [start], and [stop]. *)
Definition own (s : state) : option state :=
  match owner s with
  | SFlag => Some (set_owner SSpawn (set_flag false s))
  | SSpawn => Some (set_owner Outside (set_thread (Some LTest) s))
  | PFlag => Some (set_owner PShutdown (set_flag true s))
  | PShutdown =>
      Some (mkState (m_listenFd s) (m_stopFlag s) (m_acceptThread s)
              (shut s || (0 <=? m_listenFd s)) (listening s) PJoin (accepted s))
  | PJoin =>
      match m_acceptThread s with
      | None => Some (set_owner PReset s)
      | Some LReturned => Some (set_owner PReset (set_thread None s))
      | Some _ => None
      end
  | PReset =>
      Some (mkState (-1) (m_stopFlag s) (m_acceptThread s) (shut s)
              (reset (m_listenFd s) (listening s)) Outside (accepted s))
  | Outside | SSocket | SSetup => None
  end.

(** [acceptLoop]; [accept] on a socket that is not shut down blocks. *)
Definition loop_step (s : state) : option state :=
  match m_acceptThread s with
  | Some LTest => Some (set_thread (Some (if m_stopFlag s then LReturned else LAccept)) s)
  | Some LAccept => if shut s then Some (set_thread (Some (LFailed EINVAL)) s) else None
  | Some (LFailed e) =>
      Some (set_thread (Some (if m_stopFlag s then LReturned
                              else if e =? EINTR then LTest else LReturned)) s)
  | Some (LServe a) => Some (set_thread (Some LTest) s)
  | Some LReturned | None => None
  end.

(** [accept] returns. *)
Definition accept_returns (r : Z + WorkQueue.AcceptedSocket) (s : state) : option state :=
  match m_acceptThread s, r with
  | Some LAccept, inl e => Some (set_thread (Some (LFailed e)) s)
  | Some LAccept, inr a =>
      Some (mkState (m_listenFd s) (m_stopFlag s) (Some (LServe a)) (shut s) (listening s) (owner s)
              (accepted s ++ [a]))
  | _, _ => None
  end.

Inductive label :=
| Start | Socket (r : option Z) | Setup (ok : bool) | Stop | Own | Loop
| Return (r : Z + WorkQueue.AcceptedSocket).

(** [start] is called when there is no thread, as [main] does. *)
Definition exec (l : label) (s : state) : option state :=
  match l with
  | Start =>
      match owner s, m_acceptThread s with
      | Outside, None => Some (set_owner SSocket s)
      | _, _ => None
      end
  | Socket r => socket_returns r s
  | Setup ok => setup_returns ok s
  | Stop => match owner s with Outside => Some (set_owner PFlag s) | _ => None end
  | Own => own s
  | Loop => loop_step s
  | Return r => accept_returns r s
  end.

Abbreviation reachable := (Threads.reachable exec (λ s, s = init)).

(** ** The invariant *)

(** No thread: in [start], or between [join] and the end of [stop]. *)
Definition alone (pc : owner_pc) : bool :=
  match pc with SSocket | SSetup | SFlag | SSpawn | PReset => true | _ => false end.
(** [start] has a socket. *)
Definition equipped (pc : owner_pc) : bool :=
  match pc with SSetup | SFlag | SSpawn => true | _ => false end.
(** [stop] has raised the flag. *)
Definition flagged (pc : owner_pc) : bool :=
  match pc with PShutdown | PJoin | PReset => true | _ => false end.

Record wf (s : state) : Prop := {
  wf_fd : m_listenFd s = -1 ∨ 0 ≤ m_listenFd s;
  wf_open : listening s = if 0 <=? m_listenFd s then [m_listenFd s] else [];
  wf_alone : alone (owner s) = true → m_acceptThread s = None;
  wf_equipped : equipped (owner s) = true → 0 ≤ m_listenFd s ∧ shut s = false;
  wf_cleared : owner s = SSpawn → m_stopFlag s = false;
  wf_thread : is_Some (m_acceptThread s) → 0 ≤ m_listenFd s;
  wf_serving : is_Some (m_acceptThread s) → flagged (owner s) = false →
    m_stopFlag s = false ∧ shut s = false;
  wf_flag : flagged (owner s) = true → m_stopFlag s = true;
  wf_shut : owner s = PJoin → is_Some (m_acceptThread s) → shut s = true
}.

Ltac step_cases He s :=
  unfold exec, socket_returns, setup_returns, own, loop_step, accept_returns in He;
  destruct s as [fd flag th sh opened ow acc]; simpl in He;
  repeat (first [progress simplify_eq/= | match type of He with
    | context [match ?x with _ => _ end] => destruct x eqn:? end]).

Lemma reset_open fd : reset fd (if 0 <=? fd then [fd] else []) = [].
Proof.
  unfold reset. destruct (0 <=? fd); [|done]. rewrite filter_cons_False by naive_solver. done.
Qed.

Lemma acceptor_wf_init : wf init.
Proof. split; simpl; try done; try (by intros [??]). by left. Qed.

Ltac close_wf :=
  intros; repeat match goal with
  | H : ?P → _, H' : ?P |- _ => specialize (H H')
  | H : true = true → _ |- _ => specialize (H eq_refl)
  | H : is_Some (Some ?x) → _ |- _ => specialize (H (mk_is_Some _ x eq_refl))
  | H : false = false → _ |- _ => specialize (H eq_refl)
  | H : _ ∧ _ |- _ => destruct H
  | H : is_Some None |- _ => by destruct H
  end; simplify_eq/=; auto; try done; try lia.

Lemma acceptor_exec_wf l s s' : wf s → exec l s = Some s' → wf s'.
Proof.
  intros [H1 H2 H3 H4 H5 H6 H7 H8 H9] He. destruct l as [|r|[]| | | |r]; step_cases He s;
    split; simpl in *; close_wf.
  - by rewrite reset_open, (proj2 (Z.leb_le 0 z)).
  - apply reset_open.
Qed.

Lemma acceptor_reachable_wf s : reachable s → wf s.
Proof. apply reachable_invariant; [intros ? ->; apply acceptor_wf_init|apply acceptor_exec_wf]. Qed.

Lemma thread_socket s : wf s → is_Some (m_acceptThread s) → m_listenFd s ∈ listening s.
Proof.
  intros Hwf Ht. rewrite (wf_open _ Hwf), (proj2 (Z.leb_le 0 _) (wf_thread _ Hwf Ht)).
  apply list_elem_of_here.
Qed.

(** ** Stopping *)

Definition loop_rank (pc : option loop_pc) : nat :=
  match pc with
  | None | Some LReturned => 0
  | Some LTest | Some (LFailed _) => 1
  | Some (LServe _) => 2
  | Some LAccept => 3
  end.
Definition owner_rank (pc : owner_pc) : nat :=
  match pc with PShutdown => 3 | PJoin => 2 | PReset => 1 | _ => 0 end.
Definition rank (s : state) : nat := loop_rank (m_acceptThread s) + owner_rank (owner s).

(** [stop] has returned. *)
Definition stopped (s : state) : Prop :=
  owner s = Outside ∧ m_acceptThread s = None ∧ m_listenFd s = -1 ∧ listening s = [].

Lemma acceptor_stopping_step l s s' :
  wf s → flagged (owner s) = true → exec l s = Some s' →
  stopped s' ∨ (flagged (owner s') = true ∧ (rank s' < rank s)%nat).
Proof.
  intros Hwf Hf He. pose proof (wf_flag _ Hwf Hf) as Hfl. pose proof (wf_open _ Hwf) as Ho.
  pose proof (wf_alone _ Hwf) as Ha. unfold stopped, rank.
  destruct l as [|r|ok| | | |r]; step_cases He s; try done;
    try (right; split; [done|simpl; lia]).
  left. split_and!; [done|by apply Ha|done|apply reset_open].
Qed.

Lemma acceptor_stopping_progress s :
  wf s → flagged (owner s) = true → ∃ l s', (l = Own ∨ l = Loop) ∧ exec l s = Some s'.
Proof.
  intros Hwf Hf. pose proof (wf_shut _ Hwf) as Hs.
  assert (is_Some (own s) ∨ is_Some (loop_step s)) as [[s' E]|[s' E]];
    [|exists Own, s'; auto|exists Loop, s'; auto].
  unfold own, loop_step. destruct (owner s), (m_acceptThread s) as [[]|] eqn:Et; try done; eauto.
  rewrite Hs by eauto. eauto.
Qed.

(** Without a [start], an acceptor without a thread gets none. *)
Definition quiet (s : state) : Prop :=
  m_acceptThread s = None ∧ (owner s = Outside ∨ owner s = PFlag ∨ flagged (owner s) = true).

Lemma quiet_step l s s' :
  quiet s → l ≠ Start → exec l s = Some s' → quiet s' ∧ accepted s' = accepted s.
Proof.
  intros [Ht Ho] Hl He. unfold quiet. destruct l as [|r|ok| | | |r]; step_cases He s;
    try done; try (split; [split; [done|]|done]; simpl; tauto); destruct Ho as [?|[?|?]]; done.
Qed.

Lemma acceptor_quiet_run ls s s' :
  quiet s → Start ∉ ls → exec_all exec ls s = Some s' → accepted s' = accepted s.
Proof.
  revert s. induction ls as [|l ls IH]; intros s Hq Hn He; simplify_eq/=; [done|].
  apply not_elem_of_cons in Hn as [Hl Hn]. destruct (exec l s) as [s1|] eqn:E; [|done].
  destruct (quiet_step l s s1) as [Hq1 <-]; [done|congruence|done|]. by apply IH.
Qed.

(** A thread that has returned while the acceptor is in use. *)
Definition dead (s : state) : Prop :=
  m_acceptThread s = Some LReturned ∧ owner s = Outside ∧ m_stopFlag s = false ∧
  m_listenFd s ∈ listening s.

Lemma dead_run ls s s' :
  dead s → Stop ∉ ls → exec_all exec ls s = Some s' → ls = [] ∧ s' = s.
Proof.
  intros (Ht & Ho & _) Hn He. destruct ls as [|l ls]; simplify_eq/=; [done|].
  apply not_elem_of_cons in Hn as [Hl Hn]. exfalso.
  destruct (exec l s) as [s1|] eqn:E; [|done].
  destruct l as [|r|ok| | | |r]; step_cases E s; done.
Qed.

(** C30: any error of [accept] but EINTR ends the accept thread while the server
    goes on with its listening socket open: no connection is accepted from
    then on. *)
Theorem accept_error_ends_service s e :
  reachable s → m_acceptThread s = Some LAccept → owner s = Outside → e ≠ EINTR →
  ∃ s', exec_all exec [Return (inl e); Loop] s = Some s' ∧ dead s' ∧
    ∀ ls s'', Stop ∉ ls → exec_all exec ls s' = Some s'' → s'' = s'.
Proof.
  intros Hr%acceptor_reachable_wf Ht Ho He.
  assert (m_stopFlag s = false) as Hf by (apply (wf_serving _ Hr); [by rewrite Ht|by rewrite Ho]).
  set (s' := set_thread (Some LReturned) (set_thread (Some (LFailed e)) s)).
  assert (dead s') as Hd.
  { split_and!; try done. apply (thread_socket s Hr). by rewrite Ht. }
  exists s'. split; [|split; [done|]].
  - simpl. unfold accept_returns. rewrite Ht. simpl. unfold loop_step. simpl.
    by rewrite Hf, (proj2 (Z.eqb_neq e EINTR)).
  - intros ls s'' Hn Hex. by eapply dead_run.
Qed.

(** ** Correctness *)

(** [SocketAcceptor::stop] returns: once it has raised the flag, wherever
    the accept thread is, at the test of its loop, blocked in [accept] or
    busy with a connection, and whatever connections and errors still come,
    [stop] ends with the thread joined and the listening socket closed; until
    then one of the two threads can always move, without waiting for a
    client. *)
Theorem acceptor_stop_returns s :
  reachable s → flagged (owner s) = true →
  inevitable exec (λ l, l = Own ∨ l = Loop) stopped s.
Proof.
  intros Hr%acceptor_reachable_wf Hf.
  apply (inevitable_by_rank _ _ _ (λ s, wf s ∧ flagged (owner s) = true) rank); [| | |done].
  - intros s1 [??] _. by apply acceptor_stopping_progress.
  - intros l s1 s2 [Hw1 Hf1] He. pose proof (acceptor_exec_wf _ _ _ Hw1 He).
    destruct (acceptor_stopping_step _ _ _ Hw1 Hf1 He) as [?|[??]]; auto.
  - intros s1 [_ Hf1]. right. intros [Ho _]. by rewrite Ho in Hf1.
Qed.

(** The accept thread and the listening socket.  In every reachable state
    the only listening descriptor that is open is the one the acceptor has,
    so each is closed once and none leaks, also by a [start] that fails or is
    repeated; as long as the thread exists its socket is open; while [stop]
    has not been called the thread serves with the flag down; and once [stop]
    has returned nothing is accepted until the next [start]. *)
Theorem acceptor_safe s :
  reachable s →
  listening s = (if 0 <=? m_listenFd s then [m_listenFd s] else []) ∧
  (is_Some (m_acceptThread s) → m_listenFd s ∈ listening s) ∧
  (is_Some (m_acceptThread s) → owner s = Outside → m_stopFlag s = false ∧ shut s = false) ∧
  (stopped s → ∀ ls s', Start ∉ ls → exec_all exec ls s = Some s' → accepted s' = accepted s).
Proof.
  intros Hr%acceptor_reachable_wf. split_and!.
  - apply Hr.
  - by apply thread_socket.
  - intros Ht Ho. apply (wf_serving _ Hr Ht). by rewrite Ho.
  - intros (Ho & Ht & _) ls s' Hn. apply acceptor_quiet_run; [|done]. split; auto.
Qed.

(** ** Examples *)

(** A server that has accepted a connection, is blocked in [accept] again, and
    is stopped. *)
Definition serving : list label :=
  [Start; Socket (Some 3); Setup true; Own; Own; Loop; Return (inr (WorkQueue.mkAccepted 7 "a"));
   Loop; Loop].
Definition after (ls : list label) : state := default init (exec_all exec ls init).

Lemma acceptor_after_reachable ls : reachable (after ls).
Proof.
  unfold after. destruct (exec_all exec ls init) as [s|] eqn:E; simpl; [|by apply reach_init].
  eapply exec_all_reachable, E. by apply reach_init.
Qed.

Lemma acceptor_stop_returns_witness :
  let s := after (serving ++ [Stop; Own]) in
  owner s = PShutdown ∧ m_acceptThread s = Some LAccept ∧
  inevitable exec (λ l, l = Own ∨ l = Loop) stopped s.
Proof.
  intros s. split_and!; [by vm_compute..|].
  apply acceptor_stop_returns; [apply acceptor_after_reachable|by vm_compute].
Defined.

Lemma acceptor_safe_witness :
  let s := after serving in
  listening s = [3] ∧ m_acceptThread s = Some LAccept ∧ m_listenFd s ∈ listening s.
Proof.
  intros s. split_and!; [by vm_compute..|].
  apply (acceptor_safe s (acceptor_after_reachable serving)). vm_compute. by eexists.
Defined.

Lemma accept_error_ends_service_witness :
  ∃ s', exec_all exec [Return (inl ECONNABORTED); Loop] (after serving) = Some s' ∧ dead s'.
Proof.
  destruct (accept_error_ends_service (after serving) ECONNABORTED) as (s' & H1 & H2 & _);
    [apply acceptor_after_reachable|by vm_compute|by vm_compute|done|].
  by exists s'.
Defined.
End AcceptorThread.
