(* ===== verification/ProcessThreads.v ===== *)
(** * The threads of the process together

    The accept thread of [AcceptorThread.v] and the pool of [PoolThreads.v]
    under the main thread of [src/app/main.cpp]: an admitted socket is handed
    to [WorkQueue::enqueue] by the accept thread itself ([onAccept]); a signal
    makes [main] stop the acceptor, and its destructors stop the acceptor again
    and shut the pool down.  What the two systems assume of each other (nobody
    is in [enqueue] when the queue is stopped, a socket is offered only while
    the pool is in use) is proved here. *)

From S2P Require Import Prelude Net WorkQueue Threads PoolThreads AcceptorThread.
Local Open Scope Z_scope.

Module ProcessThreads.
Import Threads.

(** [main]: in the polling loop; in [acceptor.stop()]; before it returns; in
    [~SocketAcceptor]; before and in [~ThreadPool]; returned. *)
Inductive main_pc :=
| Running | StoppingAcceptor | Closing | DestroyingAcceptor | DestroyingPool | InPool | Left.

#[global] Instance main_pc_eq_dec : EqDecision main_pc.
Proof. solve_decision. Defined.

(** [dealt]: the accept thread has rejected or offered the socket it has in
    hand.  [dealings] records the sockets dealt with so far, [true] for those
    offered to the pool. *)
Record state := mkState {
  acc : AcceptorThread.state;
  dealt : bool;
  dealings : list (WorkQueue.AcceptedSocket * bool);
  pool : PoolThreads.state;
  main : main_pc
}.

(** The server after [acceptor.start()], with [n] workers. *)
Definition started (fd : Z) : AcceptorThread.state :=
  AcceptorThread.mkState fd false (Some AcceptorThread.LTest) false [fd] AcceptorThread.Outside [].
Definition init (n : nat) (fd : Z) : state :=
  mkState (started fd) false [] (PoolThreads.init n) Running.

Definition set_acc a s := mkState a (dealt s) (dealings s) (pool s) (main s).
Definition set_dealt b s := mkState (acc s) b (dealings s) (pool s) (main s).
Definition set_pool p s := mkState (acc s) (dealt s) (dealings s) p (main s).
Definition set_main m s := mkState (acc s) (dealt s) (dealings s) (pool s) m.
Definition note_dealt a admitted s :=
  mkState (acc s) true (dealings s ++ [(a, admitted)]) (pool s) (main s).

(** ** The threads *)

(** The accept thread goes on once it has dealt with its socket. *)
Definition accept_loop (s : state) : option state :=
  match AcceptorThread.m_acceptThread (acc s) with
  | Some (AcceptorThread.LServe _) =>
      if dealt s && bool_decide (PoolThreads.accept (pool s) = PoolThreads.PIdle)
      then (λ a, set_dealt false (set_acc a s)) <$> AcceptorThread.exec AcceptorThread.Loop (acc s)
      else None
  | _ => (λ a, set_acc a s) <$> AcceptorThread.exec AcceptorThread.Loop (acc s)
  end.

(** The test of the capacity: [onAccept], or a rejection. *)
Definition deal (admitted : bool) (s : state) : option state :=
  match AcceptorThread.m_acceptThread (acc s) with
  | Some (AcceptorThread.LServe a) =>
      if dealt s then None
      else if admitted
           then (λ p, note_dealt a true (set_pool p s)) <$>
                  PoolThreads.exec (PoolThreads.Offer a) (pool s)
           else Some (note_dealt a false s)
  | _ => None
  end.

(** [acceptor.stop()], until it returns. *)
Definition in_stop (next : main_pc) (s : state) : option state :=
  if decide (AcceptorThread.owner (acc s) = AcceptorThread.Outside) then Some (set_main next s)
  else (λ a, set_acc a s) <$> AcceptorThread.exec AcceptorThread.Own (acc s).

Definition main_step (s : state) : option state :=
  match main s with
  | StoppingAcceptor => in_stop Closing s
  | Closing =>
      (λ a, set_main DestroyingAcceptor (set_acc a s)) <$>
        AcceptorThread.exec AcceptorThread.Stop (acc s)
  | DestroyingAcceptor => in_stop DestroyingPool s
  | DestroyingPool =>
      (λ p, set_main InPool (set_pool p s)) <$> PoolThreads.exec PoolThreads.Shutdown (pool s)
  | InPool =>
      if decide (PoolThreads.owner (pool s) = PoolThreads.OReturned) then Some (set_main Left s)
      else (λ p, set_pool p s) <$> PoolThreads.exec PoolThreads.Own (pool s)
  | Running | Left => None
  end.

Inductive label :=
| Signal
| Main
| AcceptLoop
| AcceptReturns (r : Z + WorkQueue.AcceptedSocket)
| Deal (admitted : bool)
| Pool (l : PoolThreads.label).

(** The steps of the pool's own threads, and of the accept thread inside
    [enqueue]. *)
Definition own_label (l : PoolThreads.label) : bool :=
  match l with
  | PoolThreads.Offer _ | PoolThreads.Shutdown | PoolThreads.Own => false
  | _ => true
  end.

Definition exec (l : label) (s : state) : option state :=
  if PoolThreads.exited (pool s) then None
  else match l with
       | Signal =>
           match main s with
           | Running =>
               (λ a, set_main StoppingAcceptor (set_acc a s)) <$>
                 AcceptorThread.exec AcceptorThread.Stop (acc s)
           | _ => None
           end
       | Main => main_step s
       | AcceptLoop => accept_loop s
       | AcceptReturns r =>
           (λ a, set_acc a s) <$> AcceptorThread.exec (AcceptorThread.Return r) (acc s)
       | Deal admitted => deal admitted s
       | Pool l =>
           if own_label l then (λ p, set_pool p s) <$> PoolThreads.exec l (pool s) else None
       end.

Abbreviation reachable n fd := (Threads.reachable exec (λ s, s = init n fd)).

(** ** The invariant *)

(** [main] has not yet joined the accept thread. *)
Definition accepting (pc : main_pc) : bool :=
  match pc with Running | StoppingAcceptor => true | _ => false end.
(** [main] is not in the pool's destructor. *)
Definition pool_idle (pc : main_pc) : bool :=
  match pc with InPool | Left => false | _ => true end.
(** [main] is in a call of [stop]. *)
Definition stopping_call (pc : main_pc) : bool :=
  match pc with StoppingAcceptor | DestroyingAcceptor => true | _ => false end.

(** The acceptor is stopped. *)
Definition closed_down (a : AcceptorThread.state) : Prop :=
  AcceptorThread.m_acceptThread a = None ∧ AcceptorThread.m_listenFd a = -1.

(** The accept thread has a socket in hand. *)
Definition serving (a : AcceptorThread.state) : bool :=
  match AcceptorThread.m_acceptThread a with Some (AcceptorThread.LServe _) => true | _ => false end.

Record wf (n : nat) (s : state) : Prop := {
  wf_acc : AcceptorThread.reachable (acc s);
  wf_pool : PoolThreads.reachable n (pool s);
  wf_call : stopping_call (main s) = false → AcceptorThread.owner (acc s) = AcceptorThread.Outside;
  wf_stop : AcceptorThread.owner (acc s) = AcceptorThread.Outside ∨
    AcceptorThread.owner (acc s) = AcceptorThread.PFlag ∨
    AcceptorThread.flagged (AcceptorThread.owner (acc s)) = true;
  wf_closed : accepting (main s) = false ∨
    (main s = StoppingAcceptor ∧ AcceptorThread.owner (acc s) = AcceptorThread.Outside) →
    closed_down (acc s);
  wf_idle : pool_idle (main s) = true → PoolThreads.owner (pool s) = PoolThreads.OIdle;
  wf_busy : pool_idle (main s) = false → PoolThreads.owner (pool s) ≠ PoolThreads.OIdle;
  wf_left : main s = Left → PoolThreads.owner (pool s) = PoolThreads.OReturned;
  wf_dealt : dealt s = true → serving (acc s) = true;
  wf_enqueue : PoolThreads.accept (pool s) ≠ PoolThreads.PIdle → dealt s = true
}.

(** ** The parts *)

Module A := AcceptorThread.
Module P := PoolThreads.

Lemma acceptor_started fd : 0 ≤ fd → A.reachable (started fd).
Proof.
  intros Hfd. eapply (exec_all_reachable _ _ [A.Start; A.Socket (Some fd); A.Setup true; A.Own; A.Own]).
  { by apply reach_init. }
  simpl. unfold A.socket_returns. simpl. rewrite decide_True; [done|]. set_solver.
Qed.

(** A step of the accept thread. *)
Lemma loop_moves l a a' :
  l = A.Loop ∨ (∃ r, l = A.Return r) → A.exec l a = Some a' →
  A.owner a' = A.owner a ∧ A.m_acceptThread a ≠ None.
Proof. intros [->|[r ->]] He; A.step_cases He a; done. Qed.

(** A step of [stop]: the thread's own position is not touched, and at the
    end the acceptor is closed. *)
Lemma own_moves a a' :
  A.wf a → A.owner a = A.PFlag ∨ A.flagged (A.owner a) = true → A.exec A.Own a = Some a' →
  (A.owner a' = A.Outside ∨ A.flagged (A.owner a') = true) ∧
  (A.owner a' = A.Outside → closed_down a') ∧ (closed_down a → closed_down a') ∧
  (serving a = true → serving a' = true).
Proof.
  intros Hwf Ho He. pose proof (A.wf_alone _ Hwf) as Ha. unfold closed_down, serving.
  A.step_cases He a; try done; try (split_and!; auto; naive_solver).
Qed.

(** A step of the pool's own threads. *)
Lemma pool_moves l p p' :
  own_label l = true → P.exec l p = Some p' →
  P.owner p' = P.owner p ∧ (P.accept p = P.PIdle → P.accept p' = P.PIdle).
Proof.
  intros Hl He. destruct l; try done; P.exec_cases He; try done; split; try done; congruence.
Qed.

Lemma owner_moves p p' :
  P.exec P.Own p = Some p' → P.owner p' ≠ P.OIdle ∧ P.accept p' = P.accept p.
Proof. intros He. P.exec_cases He; split; try done; try congruence. by destruct notify. Qed.

Lemma exited_stuck l p : P.exited p = true → P.exec l p = None.
Proof. intros He. unfold P.exec. by rewrite He. Qed.

Lemma process_init_wf n fd : 0 ≤ fd → wf n (init n fd).
Proof.
  intros Hfd. split; simpl; try done; [by apply acceptor_started|by apply reach_init|by left|].
  by intros [?|[??]].
Qed.

Lemma loop_wf n s l a b :
  wf n s → l = A.Loop ∨ (∃ r, l = A.Return r) → A.exec l (acc s) = Some a →
  (b = true → serving a = true) → (P.accept (pool s) ≠ P.PIdle → b = true) →
  wf n (set_dealt b (set_acc a s)).
Proof.
  intros [] Hl He Hb Hp. destruct (loop_moves _ _ _ Hl He) as [Ho Ht].
  split; simpl; rewrite ?Ho; try done; [by eapply reach_step|].
  intros Hc. exfalso. by apply Ht, wf_closed0.
Qed.

Lemma not_dealt n s : wf n s → serving (acc s) = false → dealt s = false ∧ P.accept (pool s) = P.PIdle.
Proof.
  intros Hwf Hs. assert (dealt s = false) as Hd.
  { destruct (dealt s) eqn:E; [|done]. apply (wf_dealt _ _ Hwf) in E. congruence. }
  split; [done|]. destruct (decide (P.accept (pool s) = P.PIdle)) as [|Hp]; [done|].
  apply (wf_enqueue _ _ Hwf) in Hp. congruence.
Qed.

Lemma set_acc_dealt a s : dealt s = false → set_acc a s = set_dealt false (set_acc a s).
Proof. intros Hd. unfold set_dealt. simpl. by rewrite <-Hd. Qed.

(** The accept thread moves on with nothing in hand, and out of [enqueue]. *)
Lemma accept_loop_inv n s s' :
  wf n s → accept_loop s = Some s' →
  ∃ a, A.exec A.Loop (acc s) = Some a ∧ s' = set_dealt false (set_acc a s) ∧
    P.accept (pool s) = P.PIdle ∧ (serving (acc s) = true → dealt s = true).
Proof.
  intros Hwf He. pose proof (not_dealt n s Hwf) as Hn. unfold accept_loop, serving in *.
  destruct (A.m_acceptThread (acc s)) as [[]|]; try (destruct (Hn eq_refl) as [Hd Hp]).
  4: { case_match eqn:Hb; [|done]. apply andb_true_iff in Hb as [Hd Hb%bool_decide_eq_true].
       apply fmap_Some in He as (a' & He & ->). eauto. }
  all: apply fmap_Some in He as (a' & He & ->); exists a'; rewrite <-set_acc_dealt by done; done.
Qed.

Lemma accept_returns_inv n s r a :
  wf n s → A.exec (A.Return r) (acc s) = Some a →
  serving (acc s) = false ∧ dealt s = false ∧ P.accept (pool s) = P.PIdle ∧
  set_acc a s = set_dealt false (set_acc a s).
Proof.
  intros Hwf He.
  assert (serving (acc s) = false) as Hs.
  { simpl in He. unfold A.accept_returns in He. unfold serving. by repeat case_match. }
  destruct (not_dealt n s Hwf Hs). split_and!; try done. by apply set_acc_dealt.
Qed.

Lemma accept_loop_wf n s s' : wf n s → accept_loop s = Some s' → wf n s'.
Proof.
  intros Hwf (a & Ha & -> & Hp & _)%(accept_loop_inv n); [|done].
  apply (loop_wf n s A.Loop); auto; rewrite ?Hp; done.
Qed.

Lemma accept_returns_wf n s r a :
  wf n s → A.exec (A.Return r) (acc s) = Some a → wf n (set_acc a s).
Proof.
  intros Hwf He. destruct (accept_returns_inv n s r a Hwf He) as (_ & _ & Hp & ->).
  apply (loop_wf n s (A.Return r)); eauto; rewrite ?Hp; done.
Qed.

Lemma deal_wf n s b s' : wf n s → deal b s = Some s' → wf n s'.
Proof.
  intros [] He. unfold deal in He.
  assert (∀ a, A.m_acceptThread (acc s) = Some (A.LServe a) → serving (acc s) = true) as Hs.
  { unfold serving. by intros a ->. }
  repeat case_match; try done; simplify_eq; [|by split; simpl; eauto].
  apply fmap_Some in He as (p & He & ->).
  assert (P.owner p = P.owner (pool s)) as Ho by (by P.exec_cases He).
  split; simpl; rewrite ?Ho; eauto. by eapply reach_step.
Qed.

Lemma pool_wf n s l p :
  wf n s → own_label l = true → P.exec l (pool s) = Some p → wf n (set_pool p s).
Proof.
  intros [] Hl He. destruct (pool_moves _ _ _ Hl He) as [Ho Ha].
  split; simpl; rewrite ?Ho; eauto. by eapply reach_step.
Qed.

(** [stop] begins. *)
Lemma begin_stop_wf n s a pc :
  wf n s → (main s = Running ∧ pc = StoppingAcceptor) ∨ (main s = Closing ∧ pc = DestroyingAcceptor) →
  A.exec A.Stop (acc s) = Some a → wf n (set_main pc (set_acc a s)).
Proof.
  intros [] Hpc He. assert (A.owner a = A.PFlag ∧ A.m_acceptThread a = A.m_acceptThread (acc s) ∧
    A.m_listenFd a = A.m_listenFd (acc s)) as (Ho & Ht & Hf) by (by A.step_cases He (acc s)).
  unfold closed_down, serving in *.
  destruct Hpc as [[Hm ->]|[Hm ->]]; rewrite Hm in *;
    split; simpl; unfold closed_down, serving; rewrite ?Ho, ?Ht, ?Hf; eauto; try done;
    try (by eapply reach_step).
  by intros [?|[??]].
Qed.

Lemma in_stop_wf n s next s' :
  wf n s → (main s = StoppingAcceptor ∧ next = Closing) ∨
           (main s = DestroyingAcceptor ∧ next = DestroyingPool) →
  in_stop next s = Some s' → wf n s'.
Proof.
  intros Hwf Hpc He. unfold in_stop in He. case_decide as Hout; simplify_eq.
  - destruct Hwf. destruct Hpc as [[Hm ->]|[Hm ->]]; rewrite Hm in *; split; simpl; auto; done.
  - apply fmap_Some in He as (a & He & ->). destruct Hwf.
    destruct (own_moves (acc s) a) as (Ho & Hc & Hk & Hs);
      [by apply A.acceptor_reachable_wf|tauto|done|].
    assert (stopping_call (main s) = true) as Hm by (by destruct Hpc as [[-> _]|[-> _]]).
    split; simpl; auto; try congruence; [by eapply reach_step|tauto|].
    intros [?|[??]]; [apply Hk|apply Hc]; auto.
Qed.

Lemma main_step_wf n s s' : wf n s → main_step s = Some s' → wf n s'.
Proof.
  intros Hwf He. unfold main_step in He. destruct (main s) eqn:Hm; try done.
  - eapply in_stop_wf; eauto.
  - apply fmap_Some in He as (a & He & ->). eapply begin_stop_wf; eauto.
  - eapply in_stop_wf; eauto.
  - apply fmap_Some in He as (p & He & ->). destruct Hwf. rewrite Hm in *.
    assert (P.owner p = P.OLock ∧ P.accept p = P.accept (pool s)) as [Ho Ha]
      by (by P.exec_cases He).
    split; simpl; rewrite ?Ho, ?Ha; auto; try done. by eapply reach_step.
  - destruct Hwf. rewrite Hm in *. case_decide as Ho; simplify_eq.
    + split; simpl; rewrite ?Hm, ?Ho; auto; done.
    + apply fmap_Some in He as (p & He & ->). destruct (owner_moves _ _ He) as [Hi Ha].
      split; simpl; rewrite ?Hm, ?Ha; auto; try done. by eapply reach_step.
Qed.

Lemma process_exec_wf n l s s' : wf n s → exec l s = Some s' → wf n s'.
Proof.
  intros Hwf He. unfold exec in He. destruct (P.exited (pool s)); [done|].
  destruct l as [| | |r|b|l].
  - destruct (main s) eqn:Hm; try done. apply fmap_Some in He as (a & He & ->).
    eapply begin_stop_wf; eauto.
  - by eapply main_step_wf.
  - by eapply accept_loop_wf.
  - apply fmap_Some in He as (a & He & ->). by eapply accept_returns_wf.
  - by eapply deal_wf.
  - destruct (own_label l) eqn:Hl; [|done]. apply fmap_Some in He as (p & He & ->).
    by eapply pool_wf.
Qed.

Lemma process_reachable_wf n fd s : 0 ≤ fd → reachable n fd s → wf n s.
Proof.
  intros Hfd. apply reachable_invariant; [intros ? ->; by apply process_init_wf|apply process_exec_wf].
Qed.

(** ** The sockets *)

(** The socket the accept thread has not dealt with. *)
Definition in_hand (s : state) : list WorkQueue.AcceptedSocket :=
  match AcceptorThread.m_acceptThread (acc s) with
  | Some (AcceptorThread.LServe a) => if dealt s then [] else [a]
  | _ => []
  end.

(** The socket [enqueue] has not pushed or closed. *)
Definition in_enqueue (pc : PoolThreads.accept_pc) : list WorkQueue.AcceptedSocket :=
  match pc with
  | PoolThreads.PLock a | PoolThreads.PTest a | PoolThreads.PPush a => [a]
  | _ => []
  end.

(** What the pool has been given. *)
Definition flowing (p : PoolThreads.state) : list WorkQueue.AcceptedSocket :=
  WorkQueue.offered (P.past p) ++ in_enqueue (P.accept p).

Definition admitted (s : state) : list WorkQueue.AcceptedSocket :=
  (filter (λ d, d.2 = true) (dealings s)).*1.

(** Each accepted socket is dealt with once, in order, and the pool is given
    those that are admitted. *)
Record flow (s : state) : Prop := {
  flow_accepted : A.accepted (acc s) = (dealings s).*1 ++ in_hand s;
  flow_offered : flowing (pool s) = admitted s
}.

Lemma pool_flowing l p p' :
  P.exec l p = Some p' →
  flowing p' = flowing p ++ match l with P.Offer a => [a] | _ => [] end.
Proof.
  intros He. destruct l; P.exec_cases He; unfold flowing; simpl;
    rewrite ?app_nil_r, ?Heqa; simpl; rewrite ?app_nil_r; try done.
  - apply bool_decide_eq_true in Heqb as [-> _]. simpl. by rewrite app_nil_r.
  - by destruct notify; simpl; rewrite app_nil_r.
Qed.

Lemma flow_pool n l p s :
  wf n s → flow s → P.exec l (pool s) = Some p → (∀ a, l ≠ P.Offer a) → flow (set_pool p s).
Proof.
  intros Hwf [Ha Ho] He Hl. split; [done|]. simpl.
  rewrite (pool_flowing l (pool s) p He), Ho. destruct l; rewrite ?app_nil_r; try done.
  by destruct (Hl a).
Qed.

(** A step that neither accepts nor deals. *)
Lemma flow_acc s s' :
  flow s → A.accepted (acc s') = A.accepted (acc s) → in_hand s' = in_hand s →
  dealings s' = dealings s → pool s' = pool s → flow s'.
Proof.
  intros [Ha Ho] E1 E2 E3 E4. split; unfold admitted in *; rewrite ?E1, ?E2, ?E3, ?E4; done.
Qed.

Lemma stop_hand l a s :
  l = A.Own ∨ l = A.Stop → A.exec l (acc s) = Some a →
  (A.alone (A.owner (acc s)) = true → A.m_acceptThread (acc s) = None) →
  A.accepted a = A.accepted (acc s) ∧ in_hand (set_acc a s) = in_hand s.
Proof.
  intros Hl He Hal. unfold in_hand. simpl.
  destruct Hl as [->| ->]; A.step_cases He (acc s); try done.
  by rewrite Hal.
Qed.

Lemma flow_stop n s l a pc :
  wf n s → flow s → l = A.Own ∨ l = A.Stop → A.exec l (acc s) = Some a →
  flow (set_main pc (set_acc a s)).
Proof.
  intros Hwf Hf Hl He. destruct (stop_hand l a s) as [H1 H2]; [done..| |].
  { apply A.acceptor_reachable_wf, Hwf. }
  by apply (flow_acc s).
Qed.

Lemma flow_main n s s' : wf n s → flow s → main_step s = Some s' → flow s'.
Proof.
  intros Hwf Hf He.
  assert (∀ pc, in_stop pc s = Some s' → flow s') as Hstop.
  { unfold in_stop. intros pc Hs. case_decide; simplify_eq; [by apply (flow_acc s)|].
    apply fmap_Some in Hs as (a & Ha & ->). apply (flow_stop n s A.Own a (main s)); auto. }
  assert (∀ l p pc, P.exec l (pool s) = Some p → (∀ a, l ≠ P.Offer a) →
    flow (set_main pc (set_pool p s))) as Hpool.
  { intros l p pc Hp Hl. by apply (flow_acc (set_pool p s)); [eapply flow_pool|..]. }
  unfold main_step in He. destruct (main s); try done; [by eapply Hstop| |by eapply Hstop|..].
  - apply fmap_Some in He as (a & Ha & ->). eapply flow_stop; eauto.
  - apply fmap_Some in He as (p & Hp & ->). by eapply Hpool.
  - case_decide; simplify_eq; [by apply (flow_acc s)|].
    apply fmap_Some in He as (p & Hp & ->). by apply (Hpool P.Own p (main s)).
Qed.

Lemma flow_loop n s s' : wf n s → flow s → accept_loop s = Some s' → flow s'.
Proof.
  intros Hwf Hf (a & Ha & -> & _ & Hd)%(accept_loop_inv n); [|done].
  apply (flow_acc s); try done; [by A.step_cases Ha (acc s)|].
  unfold in_hand, serving in *. simpl. A.step_cases Ha (acc s); rewrite ?Hd by done; by repeat case_match.
Qed.

Lemma flow_deal s b s' : flow s → deal b s = Some s' → flow s'.
Proof.
  intros [Ha Ho] He. unfold deal in He.
  destruct (A.m_acceptThread (acc s)) as [[]|] eqn:Ht; try done.
  destruct (dealt s) eqn:Hd; [done|]. unfold in_hand in Ha. rewrite Ht, Hd in Ha.
  destruct b; [apply fmap_Some in He as (p & He & ->)|simplify_eq]; split; unfold in_hand, admitted; simpl.
  - by rewrite Ht, app_nil_r, fmap_app, Ha.
  - by rewrite (pool_flowing _ _ _ He), filter_app, fmap_app, Ho.
  - by rewrite Ht, app_nil_r, fmap_app, Ha.
  - rewrite filter_app, fmap_app, app_nil_r. done.
Qed.

Lemma flow_returns n r s a :
  wf n s → flow s → A.exec (A.Return r) (acc s) = Some a → flow (set_acc a s).
Proof.
  intros Hwf [Ha Ho] He. destruct (accept_returns_inv n s r a Hwf He) as (_ & Hd & _).
  split; [|done]. unfold in_hand in *. simpl in *. unfold A.accept_returns in He.
  destruct (A.m_acceptThread (acc s)) as [[]|]; try done. rewrite app_nil_r in Ha.
  destruct r; simplify_eq; simpl; rewrite ?Hd, ?app_nil_r, ?Ha; done.
Qed.

Lemma process_exec_flow n l s s' : wf n s → flow s → exec l s = Some s' → flow s'.
Proof.
  intros Hwf Hf He. unfold exec in He. destruct (P.exited (pool s)); [done|].
  destruct l as [| | |r|b|l].
  - destruct (main s) eqn:Hm; try done. apply fmap_Some in He as (a & He & ->).
    eapply flow_stop; eauto.
  - by eapply flow_main.
  - by eapply flow_loop.
  - apply fmap_Some in He as (a & He & ->). by eapply flow_returns.
  - by eapply flow_deal.
  - destruct (own_label l) eqn:Hl; [|done]. apply fmap_Some in He as (p & He & ->).
    eapply flow_pool; eauto. by intros a ->.
Qed.

Lemma process_flow n fd s : 0 ≤ fd → reachable n fd s → wf n s ∧ flow s.
Proof.
  intros Hfd. apply (reachable_invariant _ _ (λ s, wf n s ∧ flow s)).
  - intros ? ->. split; [by apply process_init_wf|]. split; done.
  - intros l s1 s2 [H1 H2] He. split; [by eapply process_exec_wf|by eapply process_exec_flow].
Qed.

(** ** Shutting down *)

(** A process whose [main] has raised the acceptor's flag. *)
Definition closing (s : state) : Prop :=
  main s ≠ Running ∧ ¬ (main s = StoppingAcceptor ∧ A.owner (acc s) = A.PFlag).

Lemma closing_flagged n s :
  wf n s → closing s → A.m_acceptThread (acc s) ≠ None →
  main s = StoppingAcceptor ∧ A.flagged (A.owner (acc s)) = true ∧ A.m_stopFlag (acc s) = true.
Proof.
  intros Hwf [Hr Hc] Ht. pose proof (wf_closed _ _ Hwf) as Hcl. pose proof (wf_stop _ _ Hwf) as Hs.
  assert (main s = StoppingAcceptor) as Hm.
  { destruct (main s); try done; exfalso; by apply Ht, Hcl; left. }
  assert (A.flagged (A.owner (acc s)) = true) as Hf.
  { destruct Hs as [Ho|[Ho|?]]; [|naive_solver|done]. exfalso. apply Ht, Hcl. by right. }
  split_and!; [done..|]. apply A.wf_flag; [|done]. by apply A.acceptor_reachable_wf, Hwf.
Qed.

Lemma exec_closing n l s s' : wf n s → closing s → exec l s = Some s' → closing s'.
Proof.
  intros Hwf [Hr Hc] He. unfold exec in He. destruct (P.exited (pool s)); [done|].
  pose proof (wf_stop _ _ Hwf) as Hs. unfold closing.
  assert (∀ l a, l = A.Loop ∨ (∃ r, l = A.Return r) → A.exec l (acc s) = Some a →
    A.owner a = A.owner (acc s)) as Hl by (intros l' a ??; by eapply loop_moves).
  destruct l as [| | |r|b|l].
  - by destruct (main s).
  - unfold main_step, in_stop in He.
    destruct (main s) eqn:Hm; try done; try case_decide; simplify_eq; try (by split; naive_solver);
      apply fmap_Some in He as (a & He & ->); simpl; rewrite ?Hm; try (by split; naive_solver).
    split; [done|]. intros [_ Ho]. destruct (own_moves (acc s) a) as [Ho' _]; [| |done|].
    + apply A.acceptor_reachable_wf, Hwf.
    + tauto.
    + rewrite Ho in Ho'. by destruct Ho'.
  - unfold accept_loop in He. repeat case_match; try done;
      apply fmap_Some in He as (a' & He & ->); simpl; rewrite (Hl _ _ (or_introl eq_refl) He); done.
  - apply fmap_Some in He as (a & He & ->). simpl. rewrite (Hl (A.Return r) a); eauto.
  - unfold deal in He. repeat case_match; simplify_eq; try done.
    by apply fmap_Some in He as (? & _ & ->).
  - case_match; [|done]. by apply fmap_Some in He as (? & _ & ->).
Qed.

(** The moves that need neither a client nor a signal. *)
Definition own_move (l : label) : Prop :=
  match l with
  | Main | AcceptLoop | Deal _ => True
  | Pool (PoolThreads.Work _) | Pool PoolThreads.Accept | Pool (PoolThreads.Notify _) => True
  | _ => False
  end.

(** The steps that can be taken without spurious wake-ups. *)
Definition calm_exec (l : label) (s : state) : option state :=
  match l with Pool (PoolThreads.Spurious _) => None | _ => exec l s end.

Definition can_move (s : state) : Prop := ∃ l s', own_move l ∧ calm_exec l s = Some s'.

Lemma move_pool l p s :
  P.exited (pool s) = false → own_move (Pool l) → P.exec l (pool s) = Some p → can_move s.
Proof.
  intros He Hl Hp. exists (Pool l), (set_pool p s). split; [done|].
  destruct l; try done; unfold calm_exec, exec; by rewrite He; simpl own_label; cbv iota; rewrite Hp.
Qed.

Lemma move_main s s' : P.exited (pool s) = false → main_step s = Some s' → can_move s.
Proof. intros He Hs. exists Main, s'. split; [done|]. unfold calm_exec, exec. by rewrite He. Qed.

(** Someone can move when the mutex of the pool is taken. *)
Lemma move_holder n h s :
  wf n s → P.exited (pool s) = false → P.mutex (pool s) = Some h →
  (h = P.Owning → main s = InPool) → can_move s.
Proof.
  intros Hwf He Hm Hh. pose proof (P.pool_reachable_wf _ _ (wf_pool _ _ Hwf)) as Hp.
  destruct (P.holder_moves n _ h Hp He Hm) as [p Hex]. destruct h as [i| |].
  - by eapply (move_pool (P.Work i)).
  - by eapply (move_pool P.Accept).
  - apply (P.wf_locks _ _ Hp) in Hm. simpl in Hm.
    apply (move_main s (set_pool p s)); [done|]. unfold main_step. rewrite Hh by done.
    case_decide as Ho; [by rewrite Ho in Hm|]. simpl in Hex. by rewrite Hex.
Qed.

(** The accept thread in [enqueue] moves, or waits for a thread that can. *)
Lemma move_enqueue n s :
  wf n s → P.exited (pool s) = false → P.accept (pool s) ≠ P.PIdle → can_move s.
Proof.
  intros Hwf He Ha. pose proof (P.pool_reachable_wf _ _ (wf_pool _ _ Hwf)) as Hp.
  assert (P.owner (pool s) = P.OIdle) as Ho.
  { destruct (decide (P.owner (pool s) = P.OIdle)) as [|Hn]; [done|]. by apply (P.wf_quiet _ _ Hp) in Hn. }
  destruct (P.mutex (pool s)) as [h|] eqn:Hm.
  { eapply move_holder; eauto. intros ->. apply (P.wf_locks _ _ Hp) in Hm. simpl in Hm.
    by rewrite Ho in Hm. }
  destruct (decide (P.accept (pool s) = P.PNotify)) as [Hn|Hn].
  - destruct (decide (P.WSleep ∈ P.workers (pool s))) as [[i Hi]%list_elem_of_lookup|Hi].
    + eapply (move_pool (P.Notify (Some i))); [done..|].
      unfold P.exec, P.notify_one, P.spurious. by rewrite He, Hn, Hi.
    + eapply (move_pool (P.Notify None)); [done..|].
      unfold P.exec, P.notify_one. by rewrite He, Hn, bool_decide_eq_false_2.
  - assert (∃ p, P.exec P.Accept (pool s) = Some p) as [p Hex].
    { unfold P.exec, P.accept_step, P.lock. rewrite He, Hm.
      destruct (P.accept (pool s)); try done; simpl; eauto. case_match; eauto. }
    by eapply (move_pool P.Accept).
Qed.

(** [stop] comes to its end. *)
Lemma move_stop n s :
  wf n s → P.exited (pool s) = false → closing s → stopping_call (main s) = true → can_move s.
Proof.
  intros Hwf He Hc Hm. pose proof (A.acceptor_reachable_wf _ (wf_acc _ _ Hwf)) as Ha.
  assert (∀ a, A.exec A.Own (acc s) = Some a → can_move s) as Hown.
  { intros a Hex. apply (move_main s (set_acc a s)); [done|]. unfold main_step, in_stop. simpl in Hex.
    destruct (main s); try done; (case_decide as Ho; [unfold A.own in Hex; by rewrite Ho in Hex|]);
      simpl; by rewrite Hex. }
  destruct (wf_stop _ _ Hwf) as [Ho|[Ho|Hf]].
  - assert (∃ s', main_step s = Some s') as [s' ?]; [|by eapply move_main].
    unfold main_step, in_stop. destruct (main s); try done; rewrite decide_True by done; eauto.
  - eapply Hown. simpl. unfold A.own. by rewrite Ho.
  - destruct (A.acceptor_stopping_progress _ Ha Hf) as (l & a & [->| ->] & Hex); [by eapply Hown|].
    destruct (decide (P.accept (pool s) = P.PIdle)) as [Hp|Hp]; [|by eapply move_enqueue].
    destruct (serving (acc s)) eqn:Hs, (dealt s) eqn:Hd; unfold serving in Hs.
    1,3,4: assert (∃ s', accept_loop s = Some s') as [s' ?] by
        (unfold accept_loop; rewrite Hex, Hd, (bool_decide_eq_true_2 _ Hp);
         destruct (A.m_acceptThread (acc s)) as [[]|]; try done; simpl; eauto);
      exists AcceptLoop, s'; split; [done|]; unfold calm_exec, exec; by rewrite He.
    assert (∃ s', deal false s = Some s') as [s' ?] by
      (unfold deal; rewrite Hd; repeat case_match; try done; eauto).
    exists (Deal false), s'. split; [done|]. unfold calm_exec, exec. by rewrite He.
Qed.

(** [~ThreadPool] comes to its end. *)
Lemma move_in_pool n s :
  wf n s → P.exited (pool s) = false → main s = InPool → can_move s.
Proof.
  intros Hwf He Hm. pose proof (P.pool_reachable_wf _ _ (wf_pool _ _ Hwf)) as Hp.
  assert (∀ p, P.exec P.Own (pool s) = Some p → can_move s) as Hown.
  { intros p Hex. apply (move_main s (set_pool p s)); [done|]. unfold main_step. rewrite Hm.
    case_decide as Ho; [|by rewrite Hex].
    unfold P.exec, P.owner_step in Hex. by rewrite He, Ho in Hex. }
  destruct (decide (P.owner (pool s) = P.OReturned)) as [Hr|Hr].
  { eapply move_main; [done|]. unfold main_step. by rewrite Hm, decide_True. }
  destruct (decide (P.owner (pool s) = P.OLock)) as [Ho|Ho].
  - destruct (P.mutex (pool s)) as [h|] eqn:Hmu; [by eapply move_holder|].
    eapply Hown. unfold P.exec, P.owner_step, P.lock. by rewrite He, Ho, Hmu.
  - destruct (P.pool_stopping_progress n (pool s)) as (l & p & [->|[i ->]] & Hex); [done| |done..| |].
    + split; [|done]. apply (wf_busy _ _ Hwf). by rewrite Hm.
    + by eapply Hown.
    + by eapply (move_pool (P.Work i)).
Qed.

Lemma process_progress n s :
  wf n s → P.exited (pool s) = false → closing s → main s ≠ Left → can_move s.
Proof.
  intros Hwf He Hc Hl. pose proof (wf_closed _ _ Hwf) as Hcl. pose proof Hc as [Hr _].
  destruct (main s) eqn:Hm; try done.
  - eapply move_stop; eauto. by rewrite Hm.
  - eapply move_main; [done|]. unfold main_step. rewrite Hm. simpl.
    by rewrite (wf_call _ _ Hwf) by by rewrite Hm.
  - eapply move_stop; eauto. by rewrite Hm.
  - destruct (not_dealt n s Hwf) as [_ Ha].
    { unfold serving. by destruct Hcl as [-> _]; [left|]. }
    eapply move_main; [done|]. unfold main_step, P.exec. rewrite Hm, He.
    rewrite bool_decide_eq_true_2; [done|]. split; [done|]. apply (wf_idle _ _ Hwf). by rewrite Hm.
  - by eapply move_in_pool.
Qed.

(** What is left to do, for each thread. *)
Definition thread_rank (s : state) : nat :=
  match A.m_acceptThread (acc s) with
  | None | Some A.LReturned => 0
  | Some A.LTest | Some (A.LFailed _) => 1
  | Some (A.LServe _) => if dealt s then 2 else 21
  | Some A.LAccept => 22
  end.

Definition stop_rank (pc : AcceptorThread.owner_pc) : nat :=
  match pc with A.PFlag => 4 | A.PShutdown => 3 | A.PJoin => 2 | A.PReset => 1 | _ => 0 end.

Definition main_rank (s : state) : nat :=
  match main s with
  | Running => 20
  | StoppingAcceptor => 12 + stop_rank (A.owner (acc s))
  | Closing => 11
  | DestroyingAcceptor => 5 + stop_rank (A.owner (acc s))
  | DestroyingPool => 4
  | InPool => 2
  | Left => 0
  end.

(** A worker while the pool is not stopped: back to sleep, unless it finds a
    socket. *)
Definition early_rank (pc : PoolThreads.worker_pc) : nat :=
  match pc with
  | P.WTake => 1
  | P.WPred => 2
  | P.WLock | P.WWake => 3
  | P.WServe _ => 4
  | P.WUnlock (Some _) => 5
  | _ => 0
  end.

Definition accept_rank (pc : PoolThreads.accept_pc) : nat :=
  match pc with
  | P.PIdle => 0
  | P.PNotify => 4
  | P.PUnlock _ => 5
  | P.PPush _ => 16
  | P.PTest _ => 17
  | P.PLock _ => 18
  end.

Definition pool_rank (n : nat) (p : PoolThreads.state) : nat :=
  if P.stopped p then P.rank n p
  else 7 * n + 20 + 10 * length (P.sockets p) + total early_rank (P.workers p) +
       accept_rank (P.accept p) +
       match P.owner p with P.OIdle => 2 | P.OLock => 1 | _ => 0 end.

Definition rank (n : nat) (s : state) : nat :=
  thread_rank s + main_rank s + pool_rank n (pool s).

(** *** The pool *)

Lemma early_step n i p p' :
  P.wf n p → P.stopped p = false → P.exec (P.Work i) p = Some p' →
  (pool_rank n p' < pool_rank n p)%nat.
Proof.
  intros Hwf Hst He. pose proof (P.wf_take _ _ Hwf) as Ht. pose proof (P.wf_leaving _ _ Hwf) as Hv.
  unfold pool_rank. P.exec_cases He; rewrite Hst; simpl;
    match goal with H : P.workers p !! i = Some ?pc |- context [<[i := ?pc']> _] =>
      pose proof (total_insert early_rank _ _ _ pc' H);
      pose proof (list_elem_of_lookup_2 _ _ _ H) end; simpl in *; try lia.
  - destruct Ht; congruence.
  - by rewrite (Hv (P.WUnlock None)) in Hst.
Qed.

Lemma total_worker_rank ws : (total P.worker_rank ws ≤ 6 * length ws)%nat.
Proof.
  induction ws as [|w ws IH]; [done|].
  assert (P.worker_rank w ≤ 6)%nat by (destruct w as [| | | | |[]| |]; simpl; lia). simpl in *. lia.
Qed.

(** The stop of the queue pays for what the workers still have to do. *)
Lemma early_owner n p p' :
  P.wf n p → P.stopped p = false → P.exec P.Own p = Some p' → (pool_rank n p' < pool_rank n p)%nat.
Proof.
  intros Hwf Hst He. pose proof (P.wf_stopped _ _ Hwf) as Hs. rewrite Hst in Hs.
  pose proof (total_worker_rank (P.workers p)) as Ht. rewrite (P.wf_size _ _ Hwf) in Ht.
  unfold pool_rank, P.rank. P.exec_cases He; rewrite ?Hst, ?Heqo; cbn [P.owner_rank]; simpl; try lia.
Qed.

Lemma early_accept n l p p' :
  P.stopped p = false → l = P.Accept ∨ (∃ t, l = P.Notify t) → P.exec l p = Some p' →
  (pool_rank n p' < pool_rank n p)%nat.
Proof.
  intros Hst Hl He. unfold pool_rank.
  destruct Hl as [->|[t ->]]; P.exec_cases He; simpl; rewrite ?Heqa; simpl;
    repeat match goal with H : P.stopped p = false |- _ => rewrite H end;
    rewrite ?length_app; simpl; try lia.
  - destruct notify; simpl; lia.
  - match goal with H : _ !! _ = Some P.WSleep |- _ =>
      pose proof (total_insert early_rank _ _ _ P.WWake H) end. simpl in *. lia.
Qed.

Lemma stopped_stays l p p' : P.stopped p = true → P.exec l p = Some p' → P.stopped p' = true.
Proof. intros Hs He. destruct l; P.exec_cases He; done. Qed.

(** The labels of the pool's threads, without spurious wake-ups. *)
Definition calm (l : PoolThreads.label) : bool :=
  match l with P.Spurious _ | P.Offer _ | P.Shutdown => false | _ => true end.

Lemma pool_step_rank n l p p' :
  P.wf n p → calm l = true → P.exec l p = Some p' →
  P.exited p' = true ∨ (pool_rank n p' < pool_rank n p)%nat.
Proof.
  intros Hwf Hl He. destruct (P.stopped p) eqn:Hst.
  - destruct (P.pool_stopping_step n l p p') as [?|[_ Hr]]; [done| |done|by left|right].
    + pose proof (P.wf_stopped _ _ Hwf) as Hs. rewrite Hst in Hs. unfold P.stopping.
      by destruct (P.owner p).
    + unfold pool_rank. by rewrite Hst, (stopped_stays l p p').
  - destruct l; try done.
    + right. by eapply early_step.
    + right. apply (early_accept n P.Accept); auto.
    + right. apply (early_accept n (P.Notify target)); eauto.
    + right. by eapply early_owner.
    + left. by P.exec_cases He.
Qed.

(** *** The process *)

(** Where the process ends: the watchdog's exit, or [main]'s return with the
    acceptor closed, the pool shut down, and no socket left over. *)
Definition ended (n : nat) (s : state) : Prop :=
  P.exited (pool s) = true ∨
  (main s = Left ∧ closed_down (acc s) ∧ P.shut n (pool s) ∧
   A.accepted (acc s) = (dealings s).*1 ∧
   WorkQueue.fd <$> admitted s =
     (WorkQueue.fd <$> WorkQueue.taken (P.past (pool s))) ++ WorkQueue.closed (P.past (pool s))).

Lemma acc_step_rank n l s a :
  wf n s → closing s → l = A.Loop ∨ (∃ r, l = A.Return r) → A.exec l (acc s) = Some a →
  (serving (acc s) = true → dealt s = true) →
  (thread_rank (set_dealt false (set_acc a s)) + main_rank (set_acc a s) <
   thread_rank s + main_rank s)%nat.
Proof.
  intros Hwf Hc Hl He Hd. destruct (loop_moves l (acc s) a Hl He) as [Ho Ht].
  destruct (closing_flagged n s Hwf Hc Ht) as (Hm & _ & Hf).
  unfold main_rank, thread_rank. simpl. rewrite Hm, Ho. clear Ho. unfold serving in Hd.
  destruct Hl as [->|[r ->]]; A.step_cases He (acc s); simpl; try lia; rewrite ?Hd by done; lia.
Qed.

Lemma deal_rank n b s s' : deal b s = Some s' → wf n s → (rank n s' < rank n s)%nat.
Proof.
  intros He Hwf. unfold deal in He.
  destruct (A.m_acceptThread (acc s)) as [[]|] eqn:Ht; try done.
  destruct (dealt s) eqn:Hd; [done|]. unfold rank, thread_rank.
  destruct b; simplify_eq; [|simpl; rewrite Ht, Hd; unfold main_rank; simpl; lia].
  apply fmap_Some in He as (p & He & ->). simpl. rewrite Ht, Hd.
  pose proof (P.wf_stopped _ _ (P.pool_reachable_wf _ _ (wf_pool _ _ Hwf))) as Hst.
  P.exec_cases He. apply bool_decide_eq_true in Heqb as [Hp Ho]. rewrite Ho in Hst.
  unfold main_rank, pool_rank. simpl in *. rewrite Hst, Hp. simpl. lia.
Qed.

Lemma own_rank a a' : A.wf a → A.owner a = A.PFlag ∨ A.flagged (A.owner a) = true →
  A.exec A.Own a = Some a' → (stop_rank (A.owner a') < stop_rank (A.owner a))%nat.
Proof. intros Hwf Ho He. A.step_cases He a; naive_solver lia. Qed.

Lemma in_stop_rank n next s s' :
  wf n s → closing s → in_stop next s = Some s' →
  (main s = StoppingAcceptor ∧ next = Closing) ∨ (main s = DestroyingAcceptor ∧ next = DestroyingPool) →
  (rank n s' < rank n s)%nat.
Proof.
  intros Hwf Hc He Hpc. unfold in_stop in He. unfold rank. case_decide as Ho; simplify_eq.
  - unfold main_rank, thread_rank. simpl. destruct Hpc as [[-> ->]|[-> ->]]; lia.
  - apply fmap_Some in He as (a & He & ->). pose proof (wf_stop _ _ Hwf) as Hs.
    pose proof (A.acceptor_reachable_wf _ (wf_acc _ _ Hwf)) as Ha.
    assert (stop_rank (A.owner a) < stop_rank (A.owner (acc s)))%nat as Hr
      by (apply own_rank; tauto).
    assert (thread_rank (set_acc a s) = thread_rank s) as ->.
    { clear Hr Ha. unfold thread_rank. simpl. A.step_cases He (acc s); try done.
      by destruct Hs as [?|[?|?]]. }
    unfold main_rank. simpl. destruct Hpc as [[-> _]|[-> _]]; lia.
Qed.

Lemma main_step_rank n s s' :
  wf n s → closing s → main_step s = Some s' →
  P.exited (pool s') = true ∨ (rank n s' < rank n s)%nat.
Proof.
  intros Hwf Hc He. pose proof (P.pool_reachable_wf _ _ (wf_pool _ _ Hwf)) as Hp.
  unfold main_step in He. destruct (main s) eqn:Hm; try done.
  - right. eapply in_stop_rank; eauto.
  - right. apply fmap_Some in He as (a & He & ->). unfold rank, thread_rank, main_rank. simpl.
    rewrite Hm. A.step_cases He (acc s). lia.
  - right. eapply in_stop_rank; eauto.
  - right. apply fmap_Some in He as (p & He & ->). unfold rank, thread_rank, main_rank. simpl.
    rewrite Hm. pose proof (P.wf_stopped _ _ Hp) as Hst.
    P.exec_cases He. apply bool_decide_eq_true in Heqb as [_ Ho]. rewrite Ho in Hst.
    unfold pool_rank. simpl in *. rewrite Hst, Ho. lia.
  - unfold rank, thread_rank, main_rank. case_decide; simplify_eq; simpl; rewrite ?Hm; [right; lia|].
    apply fmap_Some in He as (p & He & ->). simpl. rewrite Hm.
    destruct (pool_step_rank n P.Own (pool s) p) as [?|?]; auto. right. lia.
Qed.

Lemma calm_step_rank n l s s' :
  wf n s → closing s → calm_exec l s = Some s' →
  P.exited (pool s') = true ∨ (rank n s' < rank n s)%nat.
Proof.
  intros Hwf Hc He. pose proof (P.pool_reachable_wf _ _ (wf_pool _ _ Hwf)) as Hp.
  assert (exec l s = Some s') as He' by (by destruct l as [| | | | |[]]).
  unfold exec in He'. destruct (P.exited (pool s)); [done|].
  destruct l as [| | |r|b|l].
  - destruct Hc as [Hc _]. by destruct (main s).
  - by apply main_step_rank.
  - right. apply (accept_loop_inv n) in He' as (a & Ha & -> & _ & Hd); [|done].
    pose proof (acc_step_rank n A.Loop s a Hwf Hc (or_introl eq_refl) Ha Hd).
    unfold rank. unfold main_rank in *. simpl in *. lia.
  - right. apply fmap_Some in He' as (a & Ha & ->).
    destruct (accept_returns_inv n s r a Hwf Ha) as (Hs & _ & _ & ->).
    pose proof (acc_step_rank n (A.Return r) s a Hwf Hc) as Hr. rewrite Hs in Hr.
    unfold rank. unfold main_rank in *. simpl in *.
    assert (∀ x y z : nat, x < y → x + z < y + z)%nat as Hadd by lia. apply Hadd. apply Hr; eauto. done.
  - right. by eapply deal_rank.
  - destruct (own_label l) eqn:Hl; [|done]. apply fmap_Some in He' as (p & Ha & ->).
    destruct (pool_step_rank n l (pool s) p) as [?|?]; auto; [by destruct l|].
    right. unfold rank, thread_rank, main_rank. simpl. lia.
Qed.

(** A socket that has not been dealt with can be offered. *)
Lemma idle_for_offer n s a :
  wf n s → A.m_acceptThread (acc s) = Some (A.LServe a) → dealt s = false →
  P.accept (pool s) = P.PIdle ∧ P.owner (pool s) = P.OIdle.
Proof.
  intros Hwf Ht Hd. split.
  - destruct (decide (P.accept (pool s) = P.PIdle)) as [|Hn]; [done|].
    apply (wf_enqueue _ _ Hwf) in Hn. congruence.
  - apply (wf_idle _ _ Hwf). destruct (main s) eqn:Hm; try done;
      (destruct (wf_closed _ _ Hwf) as [Hn _]; [left; by rewrite Hm|congruence]).
Qed.

Lemma left_ended n s : wf n s → flow s → main s = Left → ended n s.
Proof.
  intros Hwf [Ha Ho] Hm. right. pose proof (wf_left _ _ Hwf Hm) as Hr.
  assert (closed_down (acc s)) as Hc by (apply (wf_closed _ _ Hwf); left; by rewrite Hm).
  assert (P.shut n (pool s)) as Hs by (apply P.returned_shut; [apply Hwf|done]).
  split_and!; try done.
  - unfold in_hand in Ha. destruct Hc as [Hc _]. by rewrite Hc, app_nil_r in Ha.
  - rewrite <-Ho. unfold flowing.
    rewrite (P.wf_quiet _ _ (P.pool_reachable_wf _ _ (wf_pool _ _ Hwf))) by by rewrite Hr.
    rewrite app_nil_r. apply Hs.
Qed.

(** ** Correctness *)

(** C13: the accept thread, the workers and [main] together: what each part
    assumes of the others holds.  In every reachable state the acceptor and
    the pool are in states their own theorems speak of; every accepted socket
    is dealt with once, in order, and the pool is given exactly the admitted
    ones; a socket in hand can be offered, so the pool is in use and no other
    [enqueue] is under way; the shutdown of the pool begins with the accept
    thread joined and the listening socket closed, so that nothing is offered
    from then on. *)
Theorem process_composes n fd s :
  0 ≤ fd → reachable n fd s →
  A.reachable (acc s) ∧ P.reachable n (pool s) ∧
  A.accepted (acc s) = (dealings s).*1 ++ in_hand s ∧ flowing (pool s) = admitted s ∧
  (P.exited (pool s) = false → in_hand s ≠ [] → is_Some (exec (Deal true) s)) ∧
  (P.owner (pool s) ≠ P.OIdle → closed_down (acc s) ∧ P.accept (pool s) = P.PIdle).
Proof.
  intros Hfd Hr. destruct (process_flow n fd s Hfd Hr) as [Hwf [Ha Ho]].
  split_and!; [apply Hwf|apply Hwf|done|done| |].
  - intros He Hh. unfold exec, deal, in_hand in *. rewrite He.
    destruct (A.m_acceptThread (acc s)) as [[]|] eqn:Ht; try done.
    destruct (dealt s) eqn:Hd; [done|]. unfold P.exec. rewrite He.
    rewrite bool_decide_eq_true_2; [by eexists|]. by eapply idle_for_offer.
  - intros Hi. assert (accepting (main s) = false) as Hm.
    { destruct (main s) eqn:Hm; try done; destruct Hi; apply (wf_idle _ _ Hwf); by rewrite Hm. }
    split; [by apply (wf_closed _ _ Hwf); left|].
    by apply (P.wf_quiet _ _ (P.pool_reachable_wf _ _ (wf_pool _ _ Hwf))).
Qed.

(** C12: a signal ends the server: from when [main] has raised the acceptor's
    flag, wherever the accept thread and the workers are and whatever still
    comes from the network, under every schedule (without spurious wake-ups)
    the process comes to its end: [main] returns with the accept thread
    joined, the listening socket closed, the workers joined and every admitted
    descriptor handed to a worker or closed, unless the watchdog ends it
    first; until then one of the threads can always move, without waiting for
    a client. *)
Theorem process_stops n fd s :
  0 ≤ fd → reachable n fd s → closing s → inevitable calm_exec own_move (ended n) s.
Proof.
  intros Hfd Hr Hc. destruct (process_flow n fd s Hfd Hr) as [Hwf Hf].
  apply (inevitable_by_rank _ _ _ (λ s, (wf n s ∧ flow s) ∧ closing s) (rank n)); [| | |done].
  - intros s1 [[Hw1 Hf1] Hc1] Hn. apply (process_progress n); try done.
    + destruct (P.exited (pool s1)) eqn:E; [|done]. destruct Hn. by left.
    + intros Hm. by apply Hn, left_ended.
  - intros l s1 s2 [[Hw1 Hf1] Hc1] He.
    assert (exec l s1 = Some s2) as He' by (by destruct l as [| | | | |[]]).
    destruct (calm_step_rank n l s1 s2) as [?|?]; [done..|by left; left|]. right.
    split; [|done]. split_and!; eauto using process_exec_wf, process_exec_flow, exec_closing.
  - intros s1 [[Hw1 Hf1] _]. destruct (P.exited (pool s1)) eqn:E; [by left; left|].
    destruct (decide (main s1 = Left)); [left; by apply left_ended|right].
    intros [?|[? _]]; congruence.
Qed.

(** ** Examples *)

(** A server with one worker that sleeps; a connection is admitted, a second
    one rejected, and a third comes after the signal, while [main] is in
    [acceptor.stop()]. *)
Definition two_clients (a b : WorkQueue.AcceptedSocket) : list label :=
  [Pool (P.Work 0); Pool (P.Work 0); AcceptLoop; AcceptReturns (inr a); Deal true;
   Pool P.Accept; Pool P.Accept; Pool P.Accept; Pool P.Accept; Pool (P.Notify (Some 0%nat));
   AcceptLoop; AcceptLoop; AcceptReturns (inr b); Deal false; AcceptLoop; AcceptLoop].
Definition late_client (c : WorkQueue.AcceptedSocket) : list label :=
  [Signal; Main; AcceptReturns (inr c)].
Definition shutdown_run : list label :=
  [Main; Deal true; Pool P.Accept; Pool P.Accept; Pool P.Accept; Pool P.Accept;
   Pool (P.Notify None); AcceptLoop; AcceptLoop; Main; Main; Main; Main; Main; Main; Main; Main; Main;
   Main; Main; Main; Main; Main; Main; Main; Main; Main;
   Pool (P.Work 0); Pool (P.Work 0); Pool (P.Work 0); Pool (P.Work 0); Main; Main; Main].

Definition after (ls : list label) (n : nat) (fd : Z) : state :=
  default (init n fd) (exec_all exec ls (init n fd)).

Lemma process_after_reachable ls n fd : reachable n fd (after ls n fd).
Proof.
  unfold after. destruct (exec_all exec ls (init n fd)) as [s|] eqn:E; simpl; [|by apply reach_init].
  eapply exec_all_reachable, E. by apply reach_init.
Qed.

Definition sock (f : Z) : WorkQueue.AcceptedSocket := WorkQueue.mkAccepted f "a".

Definition interrupted : list label := two_clients (sock 7) (sock 8) ++ late_client (sock 9).

Example process_run :
  let s := after (interrupted ++ shutdown_run) 1 3 in
  main s = Left ∧ WorkQueue.fd <$> A.accepted (acc s) = [7; 8; 9] ∧
  WorkQueue.fd <$> admitted s = [7; 9] ∧ WorkQueue.closed (P.past (pool s)) = [7; 9].
Proof. vm_compute. done. Qed.

Lemma process_composes_witness :
  let s := after interrupted 1 3 in
  in_hand s = [sock 9] ∧ admitted s = [sock 7] ∧
  A.accepted (acc s) = (dealings s).*1 ++ in_hand s ∧ is_Some (exec (Deal true) s).
Proof.
  intros s. assert (reachable 1 3 s) as Hr by apply process_after_reachable.
  destruct (process_composes 1 3 s ltac:(lia) Hr) as (_ & _ & Ha & _ & Hd & _).
  split_and!; [by vm_compute..|done|]. apply Hd; [by vm_compute|]. intros Hn. by vm_compute in Hn.
Defined.

Lemma process_stops_witness :
  let s := after interrupted 1 3 in
  main s = StoppingAcceptor ∧ in_hand s = [sock 9] ∧ P.workers (pool s) = [P.WWake] ∧
  inevitable calm_exec own_move (ended 1) s.
Proof.
  intros s. split_and!; [by vm_compute..|].
  apply (process_stops 1 3); [lia|apply process_after_reachable|].
  split; [by vm_compute|]. intros [_ Ho]. by vm_compute in Ho.
Defined.

End ProcessThreads.
