(* ===== verification/Server.v ===== *)
(** * The server's threads together

    The accept thread, the pool's workers and the main thread as a transition
    system.  A step is one atomic action of one thread on the state they
    share: the counter [activeConnections], the [WorkQueue] (a method call is
    one critical section) and the process's open descriptors.  Where the code
    makes several atomic actions in a row, other threads may act in between:
    the accept thread accepts, loads the counter, increments it and queues the
    socket ([SocketAcceptor::acceptLoop] and [onAccept] of
    [src/app/main.cpp]), or rejects it; a worker takes a socket, serves it,
    closes it and only then decrements the counter ([~TeardownGuard],
    [ThreadPool::workerLoop]). *)

From S2P Require Import Prelude WorkQueue.
Local Open Scope Z_scope.

Module Server.

(** Where the accept thread is. *)
Inductive phase :=
| Idle
| Judging (a : WorkQueue.AcceptedSocket)     (* accepted, counter not yet read *)
| Rejecting (a : WorkQueue.AcceptedSocket)   (* the counter was at the limit *)
| Admitting (a : WorkQueue.AcceptedSocket)   (* below the limit, not yet counted *)
| Holding (a : WorkQueue.AcceptedSocket).    (* counted, not yet queued *)

Definition in_hand (p : phase) : list WorkQueue.AcceptedSocket :=
  match p with
  | Idle => []
  | Judging a | Rejecting a | Admitting a | Holding a => [a]
  end.

Definition in_count (p : phase) : nat := match p with Holding _ => 1 | _ => 0 end.

Record server := mkServer {
  sv_active : Z;
  sv_queue : WorkQueue.state;
  sv_accept : phase;
  sv_busy : list WorkQueue.AcceptedSocket;      (* one per worker serving *)
  sv_releasing : nat;                           (* workers between close and decrement *)
  sv_open : gset Z;
  sv_dropped : nat                              (* closed by the queue itself *)
}.

Definition boot : server := mkServer 0 WorkQueue.init Idle [] 0 ∅ 0.

Definition fds (l : list WorkQueue.AcceptedSocket) : list Z := WorkQueue.fd <$> l.

Section steps.
Context (maxClients : Z) (poolSize : nat).

(** [step s l s']: the descriptors [l] are closed on the way.  [accept] gives
    a descriptor that is not open. *)
Inductive step : server → list Z → server → Prop :=
| Accept s fd ip :
    sv_accept s = Idle → fd ∉ sv_open s →
    step s []
      (mkServer (sv_active s) (sv_queue s) (Judging (WorkQueue.mkAccepted fd ip)) (sv_busy s)
         (sv_releasing s) ({[fd]} ∪ sv_open s) (sv_dropped s))
| JudgeFull s a :
    sv_accept s = Judging a → maxClients ≤ sv_active s →
    step s []
      (mkServer (sv_active s) (sv_queue s) (Rejecting a) (sv_busy s) (sv_releasing s)
         (sv_open s) (sv_dropped s))
| JudgeRoom s a :
    sv_accept s = Judging a → sv_active s < maxClients →
    step s []
      (mkServer (sv_active s) (sv_queue s) (Admitting a) (sv_busy s) (sv_releasing s)
         (sv_open s) (sv_dropped s))
| Reject s a :
    sv_accept s = Rejecting a →
    step s [WorkQueue.fd a]
      (mkServer (sv_active s) (sv_queue s) Idle (sv_busy s) (sv_releasing s)
         (sv_open s ∖ list_to_set [WorkQueue.fd a]) (sv_dropped s))
| Count s a :
    sv_accept s = Admitting a →
    step s []
      (mkServer (u32 (sv_active s + 1)) (sv_queue s) (Holding a) (sv_busy s) (sv_releasing s)
         (sv_open s) (sv_dropped s))
| HandOver s a closed q' :
    sv_accept s = Holding a → WorkQueue.enqueue a (sv_queue s) = (closed, q') →
    step s closed
      (mkServer (sv_active s) q' Idle (sv_busy s) (sv_releasing s)
         (sv_open s ∖ list_to_set closed) (sv_dropped s + length closed))
| TakeSocket s a q' :
    (length (sv_busy s) + sv_releasing s < poolSize)%nat →
    WorkQueue.dequeue (sv_queue s) = Some (Some a, q') →
    step s []
      (mkServer (sv_active s) q' (sv_accept s) (sv_busy s ++ [a]) (sv_releasing s) (sv_open s)
         (sv_dropped s))
| CloseSocket s a b1 b2 :
    sv_busy s = b1 ++ a :: b2 →
    step s [WorkQueue.fd a]
      (mkServer (sv_active s) (sv_queue s) (sv_accept s) (b1 ++ b2) (S (sv_releasing s))
         (sv_open s ∖ list_to_set [WorkQueue.fd a]) (sv_dropped s))
| Decrement s n :
    sv_releasing s = S n →
    step s []
      (mkServer (u32 (sv_active s - 1)) (sv_queue s) (sv_accept s) (sv_busy s) n (sv_open s)
         (sv_dropped s))
| Shutdown s closed q' :
    WorkQueue.stop (sv_queue s) = (closed, q') →
    step s closed
      (mkServer (sv_active s) q' (sv_accept s) (sv_busy s) (sv_releasing s)
         (sv_open s ∖ list_to_set closed) (sv_dropped s + length closed)).

Definition reachable (s : server) : Prop := rtc (λ s s', ∃ l, step s l s') boot s.

(** Several steps, with the descriptors closed on the way. *)
Inductive runs : server → list Z → server → Prop :=
| runs_nil s : runs s [] s
| runs_cons s l s1 l' s' : step s l s1 → runs s1 l' s' → runs s (l ++ l') s'.

(** Sockets the server is responsible for, in one list. *)
Definition owned (s : server) : list WorkQueue.AcceptedSocket :=
  in_hand (sv_accept s) ++ WorkQueue.m_queue (sv_queue s) ++ sv_busy s.

(** What the counter stands for. *)
Definition counted (s : server) : nat :=
  in_count (sv_accept s) + length (WorkQueue.m_queue (sv_queue s)) + length (sv_busy s)
  + sv_releasing s + sv_dropped s.

(** The counter and the queue. *)
Record books (s : server) : Prop := {
  bk_active : sv_active s = Z.of_nat (counted s);
  bk_limit : sv_active s ≤ maxClients;
  bk_admitting a : sv_accept s = Admitting a → sv_active s < maxClients;
  bk_dropped : WorkQueue.m_stopped (sv_queue s) = false → sv_dropped s = 0%nat;
  bk_stopped : WorkQueue.m_stopped (sv_queue s) = true → WorkQueue.m_queue (sv_queue s) = [];
  bk_busy : (length (sv_busy s) + sv_releasing s ≤ poolSize)%nat
}.

(** The descriptors. *)
Definition descriptors (s : server) : Prop :=
  NoDup (fds (owned s)) ∧ sv_open s = list_to_set (fds (owned s)).

Definition inv (s : server) : Prop := books s ∧ descriptors s.

(** ** Lemmas: the queue's methods as seen from here *)

Lemma enqueue_cases a q closed q' :
  WorkQueue.enqueue a q = (closed, q') →
  (WorkQueue.m_stopped q = true ∧ closed = [WorkQueue.fd a] ∧ q' = q) ∨
  (WorkQueue.m_stopped q = false ∧ closed = [] ∧
   q' = WorkQueue.mkQueue (WorkQueue.m_queue q ++ [a]) false).
Proof.
  unfold WorkQueue.enqueue. destruct (WorkQueue.m_stopped q); intros; simplify_eq; auto.
Qed.

Lemma dequeue_some q a q' :
  WorkQueue.dequeue q = Some (Some a, q') →
  WorkQueue.m_queue q = a :: WorkQueue.m_queue q' ∧ WorkQueue.m_stopped q' = WorkQueue.m_stopped q.
Proof.
  unfold WorkQueue.dequeue. intros H. repeat case_hyp H; by simplify_eq.
Qed.

Lemma stop_cases q closed q' :
  WorkQueue.stop q = (closed, q') →
  (WorkQueue.m_stopped q = true ∧ closed = [] ∧ q' = q) ∨
  (WorkQueue.m_stopped q = false ∧ closed = fds (WorkQueue.m_queue q) ∧
   q' = WorkQueue.mkQueue [] true).
Proof.
  unfold WorkQueue.stop. destruct (WorkQueue.m_stopped q); intros; simplify_eq; [by left|right].
  by rewrite WorkQueue.drain_spec.
Qed.

(** ** Lemmas: the invariant *)

Lemma boot_inv : 0 ≤ maxClients → inv boot.
Proof. intros Hm. split; [split; simpl; try done; lia|]. split; [constructor|done]. Qed.

(** Arithmetic on the books after a step. *)
Local Ltac close_books :=
  split; unfold counted; simpl; rewrite ?length_app, ?length_fmap in *; simpl in *; intros;
  first [done|lia|congruence|naive_solver lia].

Lemma step_books s l s' :
  0 ≤ maxClients < 2 ^ 32 → books s → step s l s' → books s'.
Proof.
  intros Hm [BA BL BH BD BS BB] Hs. unfold counted in BA.
  destruct Hs as [s fd ip Ha Hfd|s a Ha Hfull|s a Ha Hroom|s a Ha|s a Ha|s a closed q' Ha Hq
    |s a q' Hb Hq|s a b1 b2 Hb|s n Hn|s closed q' Hq].
  1-4: rewrite Ha in BA; close_books.
  - rewrite Ha in BA. specialize (BH a Ha).
    rewrite wrap_small by (unfold in_width; lia). close_books.
  - rewrite Ha in BA.
    destruct (enqueue_cases _ _ _ _ Hq) as [(Hst & -> & ->)|(Hst & -> & ->)].
    + close_books.
    + rewrite BD in * by done. close_books.
  - destruct (dequeue_some _ _ _ Hq) as [Hl Hst]. rewrite Hl in BA. rewrite Hl, <-Hst in BS.
    rewrite <-Hst in BD. close_books.
  - rewrite Hb in BA, BB. close_books.
  - rewrite Hn in BA, BB. rewrite wrap_small by (unfold in_width; lia).
    close_books.
  - destruct (stop_cases _ _ _ Hq) as [(Hst & -> & ->)|(Hst & -> & ->)].
    + close_books.
    + rewrite BD in * by done. unfold fds. close_books.
Qed.

(** The set of open descriptors after some of the owned ones are closed. *)
Lemma open_after (closed rest all : list Z) :
  NoDup all → all ≡ₚ closed ++ rest →
  (list_to_set all : gset Z) ∖ list_to_set closed = list_to_set rest ∧
  NoDup rest ∧ NoDup closed ∧ ∀ fd, fd ∈ closed → fd ∈ (list_to_set all : gset Z).
Proof.
  intros Hnd Hp. rewrite Hp in Hnd. apply NoDup_app in Hnd as (Hc & Hdisj & Hr).
  assert ((list_to_set all : gset Z) = list_to_set (closed ++ rest)) as -> by (by rewrite Hp).
  split_and!; try done.
  - rewrite list_to_set_app_L. set_solver.
  - intros fd Hfd. rewrite list_to_set_app_L. set_solver.
Qed.

(** A step that closes the sockets [cl] and keeps the others. *)
Lemma descriptors_closing s s' cl :
  descriptors s → owned s ≡ₚ cl ++ owned s' →
  sv_open s' = sv_open s ∖ list_to_set (fds cl) →
  descriptors s' ∧ NoDup (fds cl) ∧ ∀ fd, fd ∈ fds cl → fd ∈ sv_open s ∧ fd ∉ sv_open s'.
Proof.
  intros [IN IO] Hp Ho'.
  assert (fds (owned s) ≡ₚ fds cl ++ fds (owned s')) as Hp'.
  { unfold fds. by rewrite Hp, fmap_app. }
  destruct (open_after (fds cl) (fds (owned s')) (fds (owned s)) IN Hp') as (Ho & Hn & Hc & Hin).
  split_and!; [|done|].
  - split; [done|]. by rewrite Ho', IO.
  - intros fd Hfd. rewrite Ho', IO. split; [by apply Hin|set_solver].
Qed.

(** A step that closes nothing and keeps what is owned. *)
Lemma descriptors_keeping s s' :
  descriptors s → owned s ≡ₚ owned s' → sv_open s' = sv_open s →
  descriptors s' ∧ NoDup (@nil Z) ∧ ∀ fd : Z, fd ∈ [] → fd ∈ sv_open s ∧ fd ∉ sv_open s'.
Proof.
  intros Hd Hp Ho. apply (descriptors_closing s s' []); [done..|].
  rewrite Ho. simpl. by rewrite difference_empty_L.
Qed.

Lemma step_descriptors s l s' :
  descriptors s → step s l s' →
  descriptors s' ∧ NoDup l ∧ ∀ fd, fd ∈ l → fd ∈ sv_open s ∧ fd ∉ sv_open s'.
Proof.
  intros Hd Hs.
  destruct Hs as [s fd ip Ha Hfd|s a Ha Hfull|s a Ha Hroom|s a Ha|s a Ha|s a closed q' Ha Hq
    |s a q' Hb Hq|s a b1 b2 Hb|s n Hn|s closed q' Hq].
  - destruct Hd as [IN IO]. unfold owned in *. rewrite Ha in *. simpl in *.
    split_and!; [|constructor|by intros ? ?%not_elem_of_nil].
    split; simpl; [|by rewrite IO]. constructor; [|done]. rewrite IO in Hfd. set_solver.
  - apply descriptors_keeping; [done| |done]. unfold owned. by rewrite Ha.
  - apply descriptors_keeping; [done| |done]. unfold owned. by rewrite Ha.
  - apply (descriptors_closing s _ [a]); [done| |done]. unfold owned. by rewrite Ha.
  - apply descriptors_keeping; [done| |done]. unfold owned. by rewrite Ha.
  - destruct (enqueue_cases _ _ _ _ Hq) as [(Hst & -> & ->)|(Hst & -> & ->)].
    + apply (descriptors_closing s _ [a]); [done| |done]. unfold owned. by rewrite Ha.
    + apply (descriptors_closing s _ []); [done| |done]. unfold owned. rewrite Ha. simpl.
      rewrite <-app_assoc. apply Permutation_middle.
  - destruct (dequeue_some _ _ _ Hq) as [Hl _].
    apply descriptors_keeping; [done| |done]. unfold owned. rewrite Hl. simpl.
    apply Permutation_app_head. rewrite app_assoc. apply Permutation_cons_append.
  - apply (descriptors_closing s _ [a]); [done| |done]. unfold owned. rewrite Hb. simpl.
    rewrite !app_assoc. symmetry. apply Permutation_middle.
  - by apply descriptors_keeping.
  - destruct (stop_cases _ _ _ Hq) as [(Hst & -> & ->)|(Hst & -> & ->)].
    + by apply (descriptors_closing s _ []).
    + apply (descriptors_closing s _ (WorkQueue.m_queue (sv_queue s))); [done| |done].
      unfold owned. simpl. rewrite !app_assoc. apply Permutation_app_tail, Permutation_app_comm.
Qed.

(** ** Lemmas: what the threads do in a row *)

Lemma runs_last s l s' : step s l s' → runs s l s'.
Proof. intros Hs. rewrite <-(app_nil_r l). by eapply runs_cons; [|apply runs_nil]. Qed.

Lemma runs_quiet s s1 l s' : step s [] s1 → runs s1 l s' → runs s l s'.
Proof. apply (runs_cons s [] s1 l s'). Qed.

Lemma runs_reachable s l s' : reachable s → runs s l s' → reachable s'.
Proof.
  intros Hr Hs. revert Hr. induction Hs as [|s l s1 l' s' Hs _ IH]; [done|].
  intros Hr. apply IH. eapply rtc_r; [exact Hr|]. by exists l.
Qed.

(** A socket is accepted, counted and queued. *)
Lemma admit_runs s fd ip :
  sv_accept s = Idle → fd ∉ sv_open s → 0 ≤ sv_active s < maxClients → maxClients < 2 ^ 32 →
  let e := WorkQueue.enqueue (WorkQueue.mkAccepted fd ip) (sv_queue s) in
  runs s e.1
    (mkServer (sv_active s + 1) e.2 Idle (sv_busy s) (sv_releasing s)
       (({[fd]} ∪ sv_open s) ∖ list_to_set e.1) (sv_dropped s + length e.1)).
Proof.
  intros Ha Hfd [H0 H1] Hm e. destruct e as [closed q'] eqn:Eq. cbn [fst snd].
  eapply runs_quiet; [by apply (Accept s fd ip)|]. eapply runs_quiet; [by eapply JudgeRoom|].
  eapply runs_quiet; [by eapply Count|]. simpl.
  rewrite wrap_small by (unfold in_width; lia). apply runs_last.
  by apply (HandOver (mkServer _ _ (Holding (WorkQueue.mkAccepted fd ip)) _ _ _ _)
              (WorkQueue.mkAccepted fd ip)).
Qed.

(** A socket is accepted and, the server being full, closed. *)
Lemma reject_runs s fd (ip : string) :
  sv_accept s = Idle → fd ∉ sv_open s → maxClients ≤ sv_active s →
  runs s [fd]
    (mkServer (sv_active s) (sv_queue s) Idle (sv_busy s) (sv_releasing s)
       (({[fd]} ∪ sv_open s) ∖ list_to_set [fd]) (sv_dropped s)).
Proof.
  intros Ha Hfd Hfull. eapply runs_quiet; [by apply (Accept s fd ip)|].
  eapply runs_quiet; [by eapply JudgeFull|]. apply runs_last.
  by apply (Reject (mkServer _ _ (Rejecting (WorkQueue.mkAccepted fd ip)) _ _ _ _)
              (WorkQueue.mkAccepted fd ip)).
Qed.

(** A worker closes its socket and takes it off the counter. *)
Lemma release_runs s a b1 b2 :
  sv_busy s = b1 ++ a :: b2 →
  runs s [WorkQueue.fd a]
    (mkServer (u32 (sv_active s - 1)) (sv_queue s) (sv_accept s) (b1 ++ b2) (sv_releasing s)
       (sv_open s ∖ list_to_set [WorkQueue.fd a]) (sv_dropped s)).
Proof.
  intros Hb. eapply (runs_cons _ [WorkQueue.fd a] _ []); [by apply CloseSocket|].
  apply runs_last. by apply (Decrement (mkServer _ _ _ _ (S (sv_releasing s)) _ _)).
Qed.

Lemma reachable_inv s : 0 ≤ maxClients < 2 ^ 32 → reachable s → inv s.
Proof.
  intros Hm Hr. assert (inv boot) as Hb by (apply boot_inv; lia). revert Hb.
  unfold reachable in Hr. induction Hr as [|s1 s2 s3 [l Hs] _ IH]; [done|].
  intros [Hbk Hds]. apply IH. split; [by eapply step_books|by eapply step_descriptors].
Qed.
End steps.

(** ** Correctness *)

(** C20: in every reachable state of the server, whatever the interleaving of
    the accept thread, the workers and shutdown: the counter never exceeds
    [maxClients], and is the number of sockets counted and not yet released
    plus those the stopped queue closed itself; no descriptor is in two hands
    at once, and the open descriptors are exactly those in some thread's hand
    or in the queue, at most one more than [maxClients]; at most [poolSize]
    sockets are being served; and whenever no thread is halfway through
    admitting or releasing a socket and the queue is not stopped, the counter
    is the number of open client sockets. *)
Theorem server_accounting maxClients poolSize s :
  0 ≤ maxClients < 2 ^ 32 → reachable maxClients poolSize s →
  sv_active s ≤ maxClients ∧ sv_active s = Z.of_nat (counted s) ∧
  NoDup (fds (owned s)) ∧ sv_open s = list_to_set (fds (owned s)) ∧
  Z.of_nat (size (sv_open s)) ≤ maxClients + 1 ∧
  (length (sv_busy s) ≤ poolSize)%nat ∧
  (sv_accept s = Idle → sv_releasing s = 0%nat → WorkQueue.m_stopped (sv_queue s) = false →
   sv_active s = Z.of_nat (size (sv_open s))).
Proof.
  intros Hm Hr.
  destruct (reachable_inv maxClients poolSize s Hm Hr) as [[BA BL _ BD _ BB] [IN IO]].
  assert (size (sv_open s) = length (owned s)) as Hsz.
  { rewrite IO, size_list_to_set by done. unfold fds. by rewrite length_fmap. }
  unfold counted, owned in *. rewrite !length_app in Hsz.
  split_and!; try done; [|lia|].
  - destruct (sv_accept s); simpl in *; lia.
  - intros Hi Hn Hst. rewrite (BD Hst), Hn, Hi in *. simpl in *. lia.
Qed.

(** No descriptor is ever closed twice or closed by a thread that does not
    own it: in every reachable state, every descriptor a step closes is open
    before the step, closed after it, and closed once by it. *)
Theorem server_no_double_close maxClients poolSize s l s' :
  0 ≤ maxClients < 2 ^ 32 → reachable maxClients poolSize s → step maxClients poolSize s l s' →
  NoDup l ∧ ∀ fd, fd ∈ l → fd ∈ sv_open s ∧ fd ∉ sv_open s'.
Proof.
  intros Hm Hr Hs.
  exact (proj2 (step_descriptors _ _ s l s' (proj2 (reachable_inv _ _ s Hm Hr)) Hs)).
Qed.

(** ** Examples *)

(** One socket is queued. *)
Definition demo_queued : server :=
  mkServer 1 (WorkQueue.mkQueue [WorkQueue.mkAccepted 7 ""] false) Idle [] 0
    (({[7]} ∪ ∅) ∖ list_to_set []) 0.

Lemma demo_queued_reachable : reachable 10 4 demo_queued.
Proof.
  apply (runs_reachable 10 4 boot []); [apply rtc_refl|].
  apply (admit_runs 10 4 boot 7 ""); [done|apply not_elem_of_empty|simpl; lia|lia].
Qed.

(** Sockets that are still queued when the queue is stopped are closed
    without being taken off the counter: a server that has shut down with no
    socket left open can still count active connections. *)
Theorem shutdown_leaves_count :
  ∃ s, reachable 10 4 s ∧ sv_open s = ∅ ∧ sv_busy s = [] ∧ sv_active s = 1.
Proof.
  eexists. split.
  - eapply runs_reachable; [apply demo_queued_reachable|].
    apply runs_last. by apply Shutdown.
  - simpl. split_and!; try done.
Qed.

Lemma demo_reachable : ∃ s, reachable 10 4 s ∧ sv_busy s = [WorkQueue.mkAccepted 7 ""] ∧
  WorkQueue.m_stopped (sv_queue s) = false ∧ sv_accept s = Idle ∧ sv_releasing s = 0%nat.
Proof.
  eexists. split.
  - eapply runs_reachable; [apply demo_queued_reachable|].
    apply runs_last. apply TakeSocket; [simpl; lia|reflexivity].
  - done.
Qed.

Lemma server_accounting_witness :
  ∃ s, reachable 10 4 s ∧ sv_active s = Z.of_nat (size (sv_open s)).
Proof.
  destruct demo_reachable as (s & Hr & _ & Hst & Hi & Hn). exists s. split; [exact Hr|].
  destruct (server_accounting 10 4 s) as (_ & _ & _ & _ & _ & _ & Ha);
    [lia|exact Hr|exact (Ha Hi Hn Hst)].
Defined.

Lemma server_no_double_close_witness :
  ∃ s s', reachable 10 4 s ∧ step 10 4 s [7] s' ∧ 7 ∉ sv_open s'.
Proof.
  destruct demo_reachable as (s & Hr & Hb & _).
  pose proof (CloseSocket 10 4 s (WorkQueue.mkAccepted 7 "") [] [] Hb) as Hs.
  eexists s, _. split; [exact Hr|]. split; [exact Hs|].
  destruct (server_no_double_close 10 4 s [7] _ ltac:(lia) Hr Hs) as [_ H].
  exact (proj2 (H 7 (list_elem_of_here 7 []))).
Defined.

End Server.
