(* ===== verification/ServerSim.v ===== *)
(** * The threads' code and the transition system

    The code of the accept thread ([SocketAcceptor.accept_iteration]) and of a
    worker ([ThreadPool.serve_socket]) run as steps of [Server]: the counter,
    the queue and the closed descriptors of the world move as the steps say. *)

From S2P Require Import Prelude Net Registry Session Otel Json Serializer JsonRef World Concrete.
From S2P Require Import Logger Effects Sender WorkQueue ThreadPool SocketAcceptor Server.
Local Open Scope Z_scope.

Module ServerSim.

(** The shared state as the code holds it and as the transition system does. *)
Definition matches (w : world) (q : WorkQueue.state) (s : Server.server) : Prop :=
  w_active w = Server.sv_active s ∧ q = Server.sv_queue s.

(** Handling one accepted connection in the accept thread is, on the
    shared state, a run of steps of the transition system: the socket is
    accepted and judged, and then rejected, or counted and handed to the
    queue; the run closes exactly the descriptors the code closes. *)
Theorem accept_simulated `{CL : Clock} `{!ClockOk} `{JL : JsonLib} `{!JsonLaws}
    ml maxClients poolSize ev fd ip q w s :
  SocketAcceptor.ae_result ev = inr (fd, ip) → SocketAcceptor.ip_ok ip →
  Otel.wf (w_otel w) → in_width 32 (w_active w) → maxClients < 2 ^ 32 →
  matches w q s → Server.sv_accept s = Server.Idle → fd ∉ Server.sv_open s →
  ∃ q' w' l s', SocketAcceptor.accept_iteration ml maxClients ev q w
      = (Ret (SocketAcceptor.Continue, q'), w') ∧
    Server.runs maxClients poolSize s l s' ∧ matches w' q' s' ∧
    w_closed w' = w_closed w ++ l ∧ Server.sv_accept s' = Server.Idle.
Proof.
  intros Hres Hip Hwf Hact Hmax [Ha ->] Hi Hfd.
  destruct (SocketAcceptor.accept_run ml maxClients ev fd ip (Server.sv_queue s) w
    Hres Hwf Hip Hact Hmax) as (q' & w' & E & Hit).
  exists q', w'. destruct (Z.leb_spec maxClients (w_active w)).
  - destruct Hit as [-> [[_ Va _ _ _ Vc] _ _ _]]. simpl in Va, Vc.
    destruct (sendAll_same fd SocketAcceptor.capacity_frame (SocketAcceptor.limited fd w)) as (Hc & Hac & _).
    destruct (SocketAcceptor.limited_same fd w) as (Hlc & Hla & _). rewrite Hlc in Hc. rewrite Hla in Hac.
    do 2 eexists. split_and!; [done|apply (Server.reject_runs _ _ s fd ip); [done..|lia]| | |done].
    + split; [|done]. simpl. rewrite Va, <-Ha. exact Hac.
    + rewrite Vc. unfold sent. by rewrite Hc.
  - destruct Hit as [-> ->]. rewrite Ha in *. unfold in_width in Hact.
    do 2 eexists. split_and!;
      [done|apply (Server.admit_runs _ _ s fd ip); [done|done|lia|lia]|by split|done|done].
Qed.

(** Serving a socket in a worker, from taking it to the end of the
    connection, by return or by exception, releases it as the transition
    system does: exactly its descriptor is closed, and then the counter goes
    down by one. *)
Theorem serve_simulated `{CL : Clock} `{!ClockOk} `{RN : Otel.Rng} `{JL : JsonLib} `{!JsonLaws}
    `{MI : NodeRegistry.MapIter} idle ml maxClients poolSize a b1 b2 sm q w s :
  0 ≤ WorkQueue.fd a → Otel.wf (w_otel w) → reg_ok (w_reg w) →
  matches w q s → Server.sv_busy s = b1 ++ a :: b2 →
  let w' := (ThreadPool.serve_socket idle ml a sm w).2 in
  ∃ l s', Server.runs maxClients poolSize s l s' ∧ matches w' q s' ∧
    w_closed w' = w_closed w ++ l ∧ Server.sv_busy s' = b1 ++ b2 ∧
    Server.sv_releasing s' = Server.sv_releasing s.
Proof.
  intros Hfd Hwf Hok [Ha ->] Hb w'.
  destruct (ThreadPool.serve_socket_run idle ml a sm w Hfd Hwf Hok) as [(Hc & Hact & _) _].
  do 2 eexists. split_and!; [by apply Server.release_runs| |exact Hc|done|done].
  split; [|done]. simpl. by rewrite <-Ha.
Qed.

Section witnesses.
Import Demo.

Lemma accept_simulated_witness :
  ∃ q' w' s', SocketAcceptor.accept_iteration Logger.INFO 10 SocketAcceptor.demo_accept
      WorkQueue.init (set_active 0 (demo_world ∅ [])) = (Ret (SocketAcceptor.Continue, q'), w') ∧
    Server.reachable 10 4 s' ∧ matches w' q' s'.
Proof.
  destruct (accept_simulated Logger.INFO 10 4 SocketAcceptor.demo_accept 7 "10.0.0.9"
    WorkQueue.init (set_active 0 (demo_world ∅ [])) Server.boot)
    as (q' & w' & l & s' & E & Hs & Hm & _).
  - reflexivity.
  - apply SocketAcceptor.demo_ip_ok.
  - apply init_otel_wf.
  - vm_compute. split; congruence.
  - lia.
  - split; reflexivity.
  - reflexivity.
  - apply not_elem_of_empty.
  - exists q', w', s'. split; [exact E|]. split; [|exact Hm].
    exact (Server.runs_reachable 10 4 _ _ _ (rtc_refl _ _) Hs).
Defined.

Lemma serve_simulated_witness :
  let a := WorkQueue.mkAccepted 7 "10.0.0.9" in
  let s := Server.mkServer 1 WorkQueue.init Server.Idle [a] 0 {[7]} 0 in
  let w := demo_world ∅ [REof] in
  ∃ l s', Server.runs 10 4 s l s' ∧
    matches (ThreadPool.serve_socket 30 Logger.INFO a SessionManager.init w).2 WorkQueue.init s'.
Proof.
  intros a s w.
  destruct (serve_simulated 30 Logger.INFO 10 4 a [] [] SessionManager.init WorkQueue.init w s)
    as (l & s' & Hs & Hm & _).
  - simpl. lia.
  - apply init_otel_wf.
  - apply reg_ok_empty.
  - split; reflexivity.
  - reflexivity.
  - exists l, s'. exact (conj Hs Hm).
Defined.
End witnesses.

End ServerSim.
