(* ===== verification/Main.v ===== *)
(** * The process: banner, signals, start and shutdown

    Models [src/exodusBanner.cpp] and [src/app/main.cpp].  [main] is the
    sequence of the actions of the main thread, including the destructors that
    run when it returns, given what its environment decides: whether the
    acceptor starts and the value of [g_signal_received] at each poll of the
    main loop (none: no signal yet). *)

From S2P Require Import Prelude Config Json JsonRef.
Local Open Scope Z_scope.

Module Main.

(** ** exodusBanner.cpp *)

Definition getBanner : string := "Exodus - EOP - V".

(** The bytes written to the stream. *)
Definition printBanner : list byte := bytes_of_string getBanner ++ [x0a].

Definition runApp : list byte * Z := (printBanner, 0).

(** ** Signals *)

Definition SIGINT : Z := 2.
Definition SIGABRT : Z := 6.
Definition SIGBUS : Z := 7.
Definition SIGFPE : Z := 8.
Definition SIGSEGV : Z := 11.
Definition SIGTERM : Z := 15.

(** [k_sigsegv] and the other literals, with the final line break. *)
Definition crash_line (reason : string) : list byte :=
  let field k v := bytes_of_string (quoted k) ++ [x3a] ++ bytes_of_string (quoted v) in
  [x7b] ++ field "level" "ERROR" ++ [x2c] ++ field "service" "eop-server" ++ [x2c]
  ++ field "trace_id" "" ++ [x2c] ++ field "span_id" "" ++ [x2c]
  ++ field "event" "server_crash" ++ [x2c] ++ field "crash_reason" reason ++ [x7d; x0a].

Definition crash_reason (signum : Z) : string :=
  if signum =? SIGSEGV then "SIGSEGV"
  else if signum =? SIGABRT then "SIGABRT"
  else if signum =? SIGFPE then "SIGFPE"
  else if signum =? SIGBUS then "SIGBUS"
  else "UNKNOWN_SIGNAL".

(** What [crashSignalHandler] writes before it re-raises the signal. *)
Definition crashSignalHandler (signum : Z) : list byte := crash_line (crash_reason signum).

Definition sigName (sig : Z) : string :=
  if sig =? SIGTERM then "SIGTERM" else if sig =? SIGINT then "SIGINT" else "unknown".

(** [g_running], [g_signal_received] *)
Record flags := mkFlags { g_running : bool; g_signal_received : Z }.

Definition signalHandler (signum : Z) (f : flags) : flags := mkFlags false signum.

(** ** [main] *)

Inductive action :=
| PrintBanner (text : list byte)
| InstallHandlers
| LoadConfig (config : ServerConfig.config)
| StartPool (workers : Z)
| LogInfo (message : string)
| LogError (message : string)
| StartMetrics (port : Z)
| StartAcceptor (ok : bool)
| StopAcceptor
| ShutdownMetrics
| DestroyPool.

(** The polling loop: the flags after each sleep.  [None]: still running. *)
Fixpoint wait_signal (f : flags) (arrivals : list (option Z)) : option Z :=
  if g_running f then
    match arrivals with
    | [] => None
    | Some signum :: rest => wait_signal (signalHandler signum f) rest
    | None :: rest => wait_signal f rest
    end
  else Some (g_signal_received f).

(** Destructors of [acceptor] and [threadPool], in that order. *)
Definition leave : list action := [StopAcceptor; DestroyPool].

(** Exit code and actions; [None] while the process runs. *)
Definition main (env : ServerConfig.environ) (acceptor_starts : bool)
    (arrivals : list (option Z)) : option Z * list action :=
  let '(banner, bannerExitCode) := runApp in
  if negb (bannerExitCode =? 0)
  then (Some bannerExitCode, [PrintBanner banner; LogError "Banner initialization failed"])
  else
    let config := (ServerConfig.fromEnv env).1 in
    let up :=
      [PrintBanner banner; InstallHandlers; LoadConfig config;
       StartPool (ServerConfig.m_threadPoolSize config);
       LogInfo ("Booting EOP Server on port " +:+ to_string (ServerConfig.m_port config)
                +:+ " | Workers: " +:+ to_string (ServerConfig.m_threadPoolSize config));
       StartMetrics (ServerConfig.m_metricsPort config);
       StartAcceptor acceptor_starts] in
    if negb acceptor_starts
    then (Some 1, up ++ [LogError "Failed to bind SocketAcceptor. Port already in use?";
                         ShutdownMetrics] ++ leave)
    else
      let ready :=
        [LogInfo ("server_ready — accepting connections on port "
                  +:+ to_string (ServerConfig.m_port config))] in
      match wait_signal (mkFlags true 0) arrivals with
      | None => (None, up ++ ready)
      | Some sig =>
          (Some 0, up ++ ready ++
             [LogInfo ("shutdown_initiated — signal " +:+ sigName sig +:+ " ("
                       +:+ to_string sig +:+ ") received");
              StopAcceptor; ShutdownMetrics;
              LogInfo "shutdown_complete — all resources released"] ++ leave)
      end.

(** ** Lemmas *)

Lemma wait_signal_first f arrivals :
  g_running f = true →
  match wait_signal f arrivals with
  | Some sig => ∃ k, arrivals !! k = Some (Some sig) ∧
      ∀ i, (i < k)%nat → arrivals !! i = Some None
  | None => Forall (λ a, a = None) arrivals
  end.
Proof.
  revert f. induction arrivals as [|[sig|] arrivals IH]; intros f Hf; simpl; rewrite Hf; simpl.
  - constructor.
  - destruct arrivals; simpl; (exists 0%nat; split; [done|lia]).
  - specialize (IH f Hf). destruct (wait_signal f arrivals) as [sig|].
    + destruct IH as (k & Hk & Hlt). exists (S k). split; [done|].
      intros [|i] Hi; [done|]. simpl. apply Hlt. lia.
    + by constructor.
Qed.

(** Membership in an explicit list. *)
Local Ltac solve_in :=
  simpl; repeat first [apply list_elem_of_here|apply list_elem_of_further].

(** A closed crash line, split and parsed by computation. *)
Local Ltac solve_crash :=
  match goal with
  | |- ∃ text, crash_line ?r = _ ∧ _ =>
      exists (string_of_bytes (removelast (crash_line r))); split_and!;
      [vm_compute; reflexivity
      |apply (bool_decide_eq_true_1 (_ ∉ _)); vm_compute; reflexivity
      |eexists; split_and!; vm_compute; reflexivity]
  end.

(** ** Correctness *)

(** The process exits 1 exactly when the acceptor cannot start, and
    otherwise runs until the first signal and exits 0; in every run that ends,
    the acceptor has been stopped before the pool is destroyed, so nothing is
    queued after the queue is stopped, and the metrics endpoint has been shut
    down. *)
Theorem main_lifecycle env acceptor_starts arrivals :
  let '(code, acts) := main env acceptor_starts arrivals in
  (code = Some 1 ↔ acceptor_starts = false) ∧
  (code = None ↔ acceptor_starts = true ∧ Forall (λ a, a = None) arrivals) ∧
  (code = Some 0 → ∃ k sig, arrivals !! k = Some (Some sig) ∧
      ∀ i, (i < k)%nat → arrivals !! i = Some None) ∧
  (code ≠ None → ShutdownMetrics ∈ acts ∧ DestroyPool ∈ acts ∧
     ∃ i, acts !! i = Some StopAcceptor ∧
       ∀ j, acts !! j = Some DestroyPool → (i < j)%nat).
Proof.
  unfold main, runApp. cbn [Z.eqb negb].
  destruct acceptor_starts; cbn [negb].
  - pose proof (wait_signal_first (mkFlags true 0) arrivals eq_refl) as Hw.
    destruct (wait_signal (mkFlags true 0) arrivals) as [sig|].
    + destruct Hw as (k & Hk & Hlt). split_and!; [split; congruence| |eauto|].
      * split; [done|]. intros [_ Hall]. rewrite Forall_lookup in Hall.
        by specialize (Hall _ _ Hk).
      * intros _. split_and!; [solve_in|solve_in|]. exists 9%nat. split; [done|].
        intros j Hj. do 10 (destruct j as [|j]; [done|]). lia.
    + split_and!; [split; congruence|done|done|done].
  - split_and!; [done| |done|].
    + split; [done|]. by intros [? _].
    + intros _. split_and!; [solve_in|solve_in|]. exists 9%nat. split; [done|].
      intros j Hj. do 10 (destruct j as [|j]; [done|]). lia.
Qed.

(** The log line that announces that all resources are released is written
    while the pool, its workers and their connections still exist. *)
Theorem complete_logged_before_pool env arrivals sig :
  wait_signal (mkFlags true 0) arrivals = Some sig →
  ∃ i, (main env true arrivals).2 !! i
         = Some (LogInfo "shutdown_complete — all resources released") ∧
    ∀ j, (main env true arrivals).2 !! j = Some DestroyPool → (i < j)%nat.
Proof.
  intros Hw. unfold main, runApp. cbn [Z.eqb negb]. rewrite Hw. exists 11%nat.
  split; [done|]. intros j Hj. do 12 (destruct j as [|j]; [done|]). lia.
Qed.

Lemma complete_logged_witness :
  ∃ i, (main ∅ true [None; Some SIGTERM]).2 !! i
         = Some (LogInfo "shutdown_complete — all resources released").
Proof.
  destruct (complete_logged_before_pool ∅ [None; Some SIGTERM] SIGTERM eq_refl) as (i & Hi & _).
  exists i. exact Hi.
Defined.

(** For every signal number the crash handler writes one line, whose text
    before the line break is JSON with the level ERROR and the signal's name
    as crash reason. *)
Theorem crash_line_is_json signum :
  ∃ text, crashSignalHandler signum = bytes_of_string text ++ [x0a] ∧
    x0a ∉ bytes_of_string text ∧
    ∃ j, JsonRef.parse text = Some j ∧
      j_get_string (JsonLib := JsonRef.lib) (j_at (JsonLib := JsonRef.lib) j "level") = "ERROR" ∧
      j_get_string (JsonLib := JsonRef.lib) (j_at (JsonLib := JsonRef.lib) j "crash_reason")
        = crash_reason signum.
Proof.
  unfold crashSignalHandler, crash_reason.
  repeat (destruct (signum =? _); [by solve_crash|]). by solve_crash.
Qed.

End Main.
