(* ===== verification/Envelope.v ===== *)
(** * The C client's envelope codec

    Models [client/src/eop_envelope.c], [client/src/eop_envelope.h] and the
    enumerations of [client/include/eop_client.h].  A buffer is the list of
    its bytes; an access outside it is undefined behaviour and makes the
    whole call [None].  [size_t] is 64 bits wide, [int] and [uint32_t] are
    32. *)

From S2P Require Import Prelude Net Serializer.
Local Open Scope Z_scope.

Module EopEnvelope.
Import MessageSerializer.

Definition EOP_FRAME_PREFIX_SIZE : Z := 4.
Definition EOP_PROTOCOL_VERSION : Z := 1.
Definition EOP_ENVELOPE_HEADER_SIZE : Z := 10.

(** [eop_message_type_t]: an enumeration without negative values, so an
    unsigned integer that may also hold values without a name. *)
Definition EOP_REGISTER : Z := 1.
Definition EOP_ACK : Z := 2.
Definition EOP_ERROR : Z := 3.
Definition EOP_QUERY_NODE : Z := 4.
Definition EOP_LIST_NODES : Z := 5.
Definition EOP_HEARTBEAT : Z := 6.
Definition EOP_ANALYZE_GRAPH : Z := 7.
Definition EOP_ANALYZE_RESULT : Z := 8.
Definition EOP_EDGE_TELEMETRY : Z := 9.

Inductive eop_error_code :=
| EOP_OK | EOP_ERR_TIMEOUT | EOP_ERR_DISCONNECTED | EOP_ERR_CONNECT_FAILED
| EOP_ERR_INVALID_ARGUMENT | EOP_ERR_ALLOC | EOP_ERR_NOT_ENOUGH_SPACE
| EOP_ERR_INVALID_MESSAGE_TYPE.

#[global] Instance eop_error_code_eq_dec : EqDecision eop_error_code.
Proof. solve_decision. Defined.

(** ** Buffers *)

(** [memcpy] into a buffer at an offset, and out of one. *)
Definition mem_write (off : nat) (bs buf : list byte) : option (list byte) :=
  if (off + length bs <=? length buf)%nat then Some (store off bs buf) else None.

Definition mem_read (off n : nat) (buf : list byte) : option (list byte) :=
  if (off + n <=? length buf)%nat then Some (take n (drop off buf)) else None.

(** ** [eop_envelope_serialize]

    [payload] is [None] for the null pointer.  The result is the return code
    and the buffer afterwards. *)
Definition eop_envelope_serialize (msg_type msg_id : Z) (payload : option (list byte))
    (length : Z) (out_buf : list byte) (out_len : Z)
    : option (eop_error_code * list byte) :=
  if out_len <? u64 (EOP_ENVELOPE_HEADER_SIZE + length) then
    Some (EOP_ERR_NOT_ENOUGH_SPACE, out_buf)
  else if (msg_type <? EOP_REGISTER) || (EOP_EDGE_TELEMETRY <? msg_type) then
    Some (EOP_ERR_INVALID_MESSAGE_TYPE, out_buf)
  else if bool_decide (payload = None) && (0 <? length) then
    Some (EOP_ERR_INVALID_ARGUMENT, out_buf)
  else
    out_buf ← mem_write 0 [byte_of EOP_PROTOCOL_VERSION] out_buf;
    out_buf ← mem_write 1 [byte_of msg_type] out_buf;
    out_buf ← mem_write 2 (u32_be msg_id) out_buf;
    out_buf ← mem_write 6 (u32_be (u32 length)) out_buf;
    match payload with
    | Some p =>
        if 0 <? length then
          data ← mem_read 0 (Z.to_nat length) p;
          out_buf ← mem_write 10 data out_buf;
          Some (EOP_OK, out_buf)
        else Some (EOP_OK, out_buf)
    | None => Some (EOP_OK, out_buf)
    end.

(** ** [eop_envelope_deserialize]

    What is stored through the four output pointers; [out_payload] is the
    offset in the buffer. *)
Record envelope_outs := mkEnvelope {
  out_msg_type : Z;
  out_msg_id : Z;
  out_payload : nat;
  out_payload_len : Z
}.

(** [outs] tells which of the output pointers are not null. *)
Definition eop_envelope_deserialize (buf : list byte) (len : Z)
    (outs : bool * bool * bool * bool)
    : option (eop_error_code * option envelope_outs) :=
  let '(has_type, has_id, has_payload, has_len) := outs in
  if len <? EOP_ENVELOPE_HEADER_SIZE then Some (EOP_ERR_INVALID_ARGUMENT, None)
  else
    version ← buf !! 0%nat;
    if negb (byte_val version =? EOP_PROTOCOL_VERSION) then
      Some (EOP_ERR_INVALID_ARGUMENT, None)
    else if negb has_type || negb has_id || negb has_payload || negb has_len then
      Some (EOP_ERR_INVALID_ARGUMENT, None)
    else
      t ← buf !! 1%nat;
      let msg_type := byte_val t in
      if (msg_type <? EOP_REGISTER) || (EOP_EDGE_TELEMETRY <? msg_type) then
        Some (EOP_ERR_INVALID_MESSAGE_TYPE, None)
      else
        id ← mem_read 2 4 buf;
        let msg_id := be_u32 id in
        pl ← mem_read 6 4 buf;
        let payload_len := be_u32 pl in
        (* int + uint32_t is computed in uint32_t *)
        if len <? u32 (EOP_ENVELOPE_HEADER_SIZE + payload_len) then
          Some (EOP_ERR_INVALID_ARGUMENT, None)
        else
          Some (EOP_OK, Some (mkEnvelope msg_type msg_id 10 payload_len)).

(** ** Layout *)

Definition envelope_bytes (msg_type msg_id : Z) (payload : list byte) : list byte :=
  [byte_of EOP_PROTOCOL_VERSION; byte_of msg_type] ++
  u32_be msg_id ++ u32_be (Z.of_nat (length payload)) ++ payload.

Definition valid_type (t : Z) : Prop := EOP_REGISTER ≤ t ≤ EOP_EDGE_TELEMETRY.

#[global] Instance valid_type_dec t : Decision (valid_type t).
Proof. unfold valid_type. apply _. Defined.

(** The payload pointer and length a caller passes for [bs]: the null pointer
    is allowed for no bytes. *)
Definition points_to (payload : option (list byte)) (bs : list byte) : Prop :=
  payload = Some bs ∨ (payload = None ∧ bs = []).

Lemma length_envelope_bytes t id bs :
  length (envelope_bytes t id bs) = (10 + length bs)%nat.
Proof. unfold envelope_bytes. rewrite !length_app, !length_u32_be. done. Qed.

Lemma mem_write_at off pre bs mid post :
  off = length pre → length mid = length bs →
  mem_write off bs (pre ++ mid ++ post) = Some (pre ++ bs ++ post).
Proof.
  intros -> Hl. unfold mem_write. rewrite !length_app, Hl.
  rewrite (proj2 (Nat.leb_le _ _)) by lia. by rewrite store_app.
Qed.

(** A buffer of ten bytes and room for the payload. *)
Lemma split_header n (buf : list byte) :
  length buf = (10 + n)%nat →
  ∃ a b c1 c2 c3 c4 d1 d2 d3 d4 e,
    buf = [a; b; c1; c2; c3; c4; d1; d2; d3; d4] ++ e ∧ length e = n.
Proof.
  intros H.
  do 10 (destruct buf as [|? buf]; [simpl in H; lia|]).
  simpl in H. do 10 eexists. exists buf. split; [done|lia].
Qed.

Lemma serialize_layout t id payload bs buf :
  valid_type t → points_to payload bs → Z.of_nat (length bs) < 2 ^ 32 - 10 →
  length buf = (10 + length bs)%nat →
  eop_envelope_serialize t id payload (Z.of_nat (length bs)) buf
    (Z.of_nat (length buf)) = Some (EOP_OK, envelope_bytes t id bs).
Proof.
  intros [Ht1 Ht2] Hp Hs Hb. unfold eop_envelope_serialize.
  unfold EOP_ENVELOPE_HEADER_SIZE, valid_type, EOP_REGISTER, EOP_EDGE_TELEMETRY in *.
  rewrite wrap_small by (unfold in_width; lia).
  rewrite (proj2 (Z.ltb_ge _ _)) by lia.
  rewrite !(proj2 (Z.ltb_ge _ _)) by lia. cbn [orb].
  destruct (split_header _ _ Hb) as (a&b&c1&c2&c3&c4&d1&d2&d3&d4&e&->&He).
  rewrite (wrap_small 32) by (unfold in_width; lia).
  unfold envelope_bytes. set (l := u32_be (Z.of_nat (length bs))).
  set (i := u32_be id).
  change ([a; b; c1; c2; c3; c4; d1; d2; d3; d4] ++ e)
    with ([] ++ [a] ++ [b] ++ [c1; c2; c3; c4] ++ [d1; d2; d3; d4] ++ e).
  set (v := byte_of EOP_PROTOCOL_VERSION). set (y := byte_of t).
  assert (bool_decide (payload = None) && (0 <? Z.of_nat (length bs)) = false) as ->.
  { destruct Hp as [->|[-> ->]]; [|done]. by rewrite bool_decide_false. }
  rewrite (mem_write_at 0 [] [v] [a]) by done. cbn [mbind option_bind].
  change ([] ++ [v] ++ [b] ++ [c1; c2; c3; c4] ++ [d1; d2; d3; d4] ++ e)
    with ([v] ++ [b] ++ [c1; c2; c3; c4] ++ [d1; d2; d3; d4] ++ e).
  rewrite (mem_write_at 1 [v] [y] [b]) by done. cbn [mbind option_bind].
  change ([v] ++ [y] ++ [c1; c2; c3; c4] ++ [d1; d2; d3; d4] ++ e)
    with ([v; y] ++ [c1; c2; c3; c4] ++ [d1; d2; d3; d4] ++ e).
  rewrite (mem_write_at 2 [v; y] i [c1; c2; c3; c4]) by done. cbn [mbind option_bind].
  rewrite (app_assoc [v; y]), (mem_write_at 6 ([v; y] ++ i) l [d1; d2; d3; d4]) by done.
  cbn [mbind option_bind].
  destruct Hp as [->|[-> ->]].
  2: { destruct e; [|done]. by rewrite <-!app_assoc. }
  destruct (Z.ltb_spec 0 (Z.of_nat (length bs))) as [Hn|Hn].
  2: { destruct bs; [|simpl in Hn; lia]. destruct e; [|done]. by rewrite <-!app_assoc. }
  unfold mem_read. rewrite Nat2Z.id, (proj2 (Nat.leb_le _ _)) by lia.
  cbn [mbind option_bind]. rewrite drop_0, take_ge by done.
  rewrite <-(app_nil_r e), (app_assoc ([v; y] ++ i)).
  rewrite (mem_write_at 10 (([v; y] ++ i) ++ l) bs e []) by done. cbn [mbind option_bind].
  by rewrite app_nil_r, <-!app_assoc.
Qed.

Lemma byte_val_small n : 0 ≤ n < 256 → byte_val (byte_of n) = n.
Proof. intros. rewrite byte_val_of. by apply Z.mod_small. Qed.

Definition all_outs : bool * bool * bool * bool := (true, true, true, true).

Lemma deserialize_layout t id bs rest :
  valid_type t → in_width 32 id → Z.of_nat (length bs) < 2 ^ 32 - 10 →
  eop_envelope_deserialize (envelope_bytes t id bs ++ rest)
    (Z.of_nat (10 + length bs + length rest)) all_outs =
  Some (EOP_OK, Some (mkEnvelope t id 10 (Z.of_nat (length bs)))).
Proof.
  intros [Ht1 Ht2] Hid Hs. unfold eop_envelope_deserialize, all_outs.
  unfold EOP_ENVELOPE_HEADER_SIZE, EOP_REGISTER, EOP_EDGE_TELEMETRY in *.
  rewrite (proj2 (Z.ltb_ge _ _)) by lia.
  change ((envelope_bytes t id bs ++ rest) !! 0%nat) with (Some (byte_of EOP_PROTOCOL_VERSION)).
  change ((envelope_bytes t id bs ++ rest) !! 1%nat) with (Some (byte_of t)).
  cbn [mbind option_bind negb orb].
  rewrite !byte_val_small by (unfold EOP_PROTOCOL_VERSION; lia). cbn [Z.eqb negb].
  rewrite !(proj2 (Z.ltb_ge _ _)) by lia. cbn [orb Pos.eqb EOP_PROTOCOL_VERSION Z.eqb negb].
  unfold mem_read. rewrite length_app, length_envelope_bytes.
  rewrite !(proj2 (Nat.leb_le _ _)) by lia. cbn [mbind option_bind].
  change (take 4 (drop 2 (envelope_bytes t id bs ++ rest))) with (u32_be id).
  change (take 4 (drop 6 (envelope_bytes t id bs ++ rest)))
    with (u32_be (Z.of_nat (length bs))).
  rewrite !be_u32_be by (done || unfold in_width; lia).
  rewrite wrap_small by (unfold in_width; lia).
  by rewrite (proj2 (Z.ltb_ge _ _)) by lia.
Qed.

(** ** Correctness of the codec *)

(** An envelope serialised into a buffer of the right size is read back,
    also when more bytes follow it: same type, same identifier, and the
    payload at the announced place. *)
Theorem envelope_roundtrip t id payload bs buf rest :
  valid_type t → in_width 32 id → points_to payload bs →
  Z.of_nat (length bs) < 2 ^ 32 - 10 → length buf = (10 + length bs)%nat →
  ∃ env,
    eop_envelope_serialize t id payload (Z.of_nat (length bs)) buf
      (Z.of_nat (length buf)) = Some (EOP_OK, env) ∧
    eop_envelope_deserialize (env ++ rest) (Z.of_nat (length (env ++ rest))) all_outs =
      Some (EOP_OK, Some (mkEnvelope t id 10 (Z.of_nat (length bs)))) ∧
    take (length bs) (drop 10 (env ++ rest)) = bs.
Proof.
  intros Ht Hid Hp Hs Hb. exists (envelope_bytes t id bs). split_and!.
  - by apply serialize_layout.
  - rewrite length_app, length_envelope_bytes. by apply deserialize_layout.
  - change (drop 10 (envelope_bytes t id bs ++ rest)) with (bs ++ rest).
    by rewrite take_app_length.
Qed.

Lemma envelope_roundtrip_witness :
  ∃ env,
    eop_envelope_serialize EOP_QUERY_NODE 258 (Some [x7b; x7d]) 2 (replicate 12 xff) 12 =
      Some (EOP_OK, env) ∧
    eop_envelope_deserialize (env ++ [x00]) 13 all_outs =
      Some (EOP_OK, Some (mkEnvelope EOP_QUERY_NODE 258 10 2)).
Proof.
  destruct (envelope_roundtrip EOP_QUERY_NODE 258 (Some [x7b; x7d]) [x7b; x7d]
              (replicate 12 xff) [x00]) as (env & H1 & H2 & _);
    [done|done|by left|done|done|].
  assert (length (env ++ [x00]) = 13%nat) as Hl.
  { vm_compute in H1. injection H1 as <-. done. }
  rewrite Hl in H2. exists env. split; [exact H1|exact H2].
Defined.

(** The decoder accepts exactly the buffers with a header of the right
    version and a known type that hold the payload they announce, and also
    every buffer that announces one of the ten largest lengths, where the
    bound check wraps around and the payload lies outside the buffer. *)
Theorem deserialize_accepts buf t id off n :
  eop_envelope_deserialize buf (Z.of_nat (length buf)) all_outs =
    Some (EOP_OK, Some (mkEnvelope t id off n)) ↔
  (10 ≤ length buf)%nat ∧ nth 0 buf x00 = x01 ∧ byte_val (nth 1 buf x00) = t ∧
  valid_type t ∧ be_u32 (take 4 (drop 2 buf)) = id ∧ off = 10%nat ∧
  be_u32 (take 4 (drop 6 buf)) = n ∧
  (10 + n ≤ Z.of_nat (length buf) ∨ 2 ^ 32 - 10 ≤ n).
Proof.
  unfold eop_envelope_deserialize, all_outs. cbn [negb orb].
  unfold EOP_ENVELOPE_HEADER_SIZE, mem_read, valid_type.
  destruct (Z.ltb_spec (Z.of_nat (length buf)) 10); [split; [done|lia]|].
  destruct buf as [|v [|y buf]]; [simpl in *; lia..|].
  set (b := v :: y :: buf) in *.
  change (b !! 0%nat) with (Some v). change (b !! 1%nat) with (Some y).
  change (nth 0 b x00) with v. change (nth 1 b x00) with y. cbn [mbind option_bind].
  destruct (Z.eqb_spec (byte_val v) EOP_PROTOCOL_VERSION) as [Hv|Hv]; cbn [negb].
  2: { split; [done|]. intros (_ & -> & _). by destruct Hv. }
  apply (byte_of_val_ext v 1) in Hv. change (byte_of 1) with x01 in Hv. subst v.
  destruct ((byte_val y <? EOP_REGISTER) || (EOP_EDGE_TELEMETRY <? byte_val y)) eqn:Hy.
  { split; [done|]. intros (_ & _ & <- & Ht & _). apply orb_true_iff in Hy.
    destruct Hy; bool_to_prop; lia. }
  bool_to_prop. rewrite !(proj2 (Nat.leb_le _ _)) by lia. cbn [mbind option_bind].
  assert (in_width 32 (be_u32 (take 4 (drop 6 b)))) as [Hn1 Hn2].
  { apply be_u32_range. rewrite length_take, length_drop. lia. }
  set (m := be_u32 (take 4 (drop 6 b))) in *. set (i := be_u32 (take 4 (drop 2 b))).
  assert ((Z.of_nat (length b) <? u32 (10 + m)) = false ↔
          10 + m ≤ Z.of_nat (length b) ∨ 2 ^ 32 - 10 ≤ m) as Hb.
  { rewrite Z.ltb_ge. destruct (decide (m < 2 ^ 32 - 10)).
    - rewrite wrap_small by (unfold in_width; lia). lia.
    - replace (u32 (10 + m)) with (10 + m - 2 ^ 32); [lia|].
      unfold wrap. apply (Z.mod_unique _ _ 1); lia. }
  destruct (_ <? _); split; intros Ha.
  - done.
  - destruct Ha as (_ & _ & _ & _ & _ & _ & <- & Hd). by apply Hb in Hd.
  - simplify_eq. split_and!; (done || lia || by apply Hb).
  - destruct Ha as (_ & _ & <- & _ & <- & -> & <- & _). done.
Qed.

(** A bare header announcing 4 GiB - 1 bytes. *)
Lemma deserialize_accepts_overread :
  eop_envelope_deserialize
    [x01; x02; x00; x00; x00; x05; xff; xff; xff; xff] 10 all_outs =
    Some (EOP_OK, Some (mkEnvelope EOP_ACK 5 10 (2 ^ 32 - 1))).
Proof. reflexivity. Qed.

End EopEnvelope.
