(* ===== verification/Posix.v ===== *)
(** * The process the C client runs in

    The client library is C code on POSIX: it allocates and frees memory,
    opens and closes descriptors and talks to sockets.  This file is its
    environment: a process state with a heap, a descriptor table and the
    thread's error variables, and a monad in which a call either returns or
    stops the process (undefined behaviour, SIGPIPE, a self-deadlock, a read
    that blocks for ever).

    What the operating system decides is data: which allocations succeed,
    what becomes of each connection attempt, what arrives on a socket and
    when, how much a [send] takes.  Uninitialised memory has arbitrary
    contents ([Junk]).  C strings are Rocq strings without the final NUL. *)

From S2P Require Import Prelude Net Envelope.
Local Open Scope Z_scope.

Module Posix.
Import EopEnvelope.

(** ** Sockets *)

(** What happens next on a socket: bytes arrive; nothing does until the
    timeout of a [poll]; a [poll] or a [recv] fails; the peer has closed. *)
Inductive in_ev :=
| Chunk (bs : list byte)
| Quiet
| PollErr (e : Z)
| RecvErr (e : Z)
| Eof.

(** The fate of one connection attempt: whether [socket] gives a descriptor
    and which, the errno of [connect] (0: connected at once), what [poll] and
    [getsockopt] then report, and the traffic of the connection. *)
Record attempt := mkAttempt {
  at_socket : option Z;
  at_connect : Z;
  at_poll : Z;
  at_getsockopt : Z;
  at_so_error : Z;
  at_in : list in_ev;
  at_snd : list send_ev
}.

Record csock := mkCsock {
  cs_net : attempt;
  cs_in : list in_ev;
  cs_snd : list send_ev;
  cs_out : list byte;
  cs_peer : option (list Z * Z);
  cs_nonblock : bool;
  cs_shut : bool
}.

(** ** The client handle and the response, as heap objects *)

Inductive mutex_t := MUninit | MFree | MHeld.

#[global] Instance mutex_eq_dec : EqDecision mutex_t.
Proof. solve_decision. Defined.

(** [struct eop_client_t]. *)
Record eop_client_t := mkClient {
  socket_fd : Z;
  last_error : eop_error_code;
  last_error_msg : string;
  connection_timeout_ms : Z;
  next_msg_id : Z;
  mutex : mutex_t;
  host : string;
  port : Z
}.

(** [eop_response_t]; [payload] is an address. *)
Record eop_response_t := mkResponse {
  msg_type : Z;
  msg_id : Z;
  payload : Z;
  payload_len : Z
}.

Inductive block :=
| BClient (c : eop_client_t)
| BResponse (r : eop_response_t)
| BBytes (bs : list byte).

Class Junk := {
  junk_client : Z → eop_client_t;
  junk_response : Z → eop_response_t;
  junk_byte : Z → nat → byte
}.

(** ** The process *)

Record proc := mkProc {
  p_heap : gmap Z block;
  p_brk : Z;                        (* next address; none is used twice *)
  p_socks : gmap Z csock;
  p_closed : list csock;            (* closed sockets, oldest first *)
  p_net : list attempt;
  p_mem : list bool;                (* outcomes of the next allocations *)
  p_sigpipe_ignored : bool;
  s_last_error : eop_error_code;
  s_last_error_msg : string;
  p_stdin : string;
  p_stdout : list string;
  p_stderr : list string
}.

Definition set_heap h p := mkProc h (p_brk p) (p_socks p) (p_closed p) (p_net p) (p_mem p)
  (p_sigpipe_ignored p) (s_last_error p) (s_last_error_msg p) (p_stdin p) (p_stdout p) (p_stderr p).
Definition set_brk b p := mkProc (p_heap p) b (p_socks p) (p_closed p) (p_net p) (p_mem p)
  (p_sigpipe_ignored p) (s_last_error p) (s_last_error_msg p) (p_stdin p) (p_stdout p) (p_stderr p).
Definition set_socks s p := mkProc (p_heap p) (p_brk p) s (p_closed p) (p_net p) (p_mem p)
  (p_sigpipe_ignored p) (s_last_error p) (s_last_error_msg p) (p_stdin p) (p_stdout p) (p_stderr p).
Definition set_closed l p := mkProc (p_heap p) (p_brk p) (p_socks p) l (p_net p) (p_mem p)
  (p_sigpipe_ignored p) (s_last_error p) (s_last_error_msg p) (p_stdin p) (p_stdout p) (p_stderr p).
Definition set_net n p := mkProc (p_heap p) (p_brk p) (p_socks p) (p_closed p) n (p_mem p)
  (p_sigpipe_ignored p) (s_last_error p) (s_last_error_msg p) (p_stdin p) (p_stdout p) (p_stderr p).
Definition set_mem m p := mkProc (p_heap p) (p_brk p) (p_socks p) (p_closed p) (p_net p) m
  (p_sigpipe_ignored p) (s_last_error p) (s_last_error_msg p) (p_stdin p) (p_stdout p) (p_stderr p).
Definition set_gerr c m p := mkProc (p_heap p) (p_brk p) (p_socks p) (p_closed p) (p_net p) (p_mem p)
  (p_sigpipe_ignored p) c m (p_stdin p) (p_stdout p) (p_stderr p).
Definition set_stdin i p := mkProc (p_heap p) (p_brk p) (p_socks p) (p_closed p) (p_net p) (p_mem p)
  (p_sigpipe_ignored p) (s_last_error p) (s_last_error_msg p) i (p_stdout p) (p_stderr p).
Definition set_stdout o p := mkProc (p_heap p) (p_brk p) (p_socks p) (p_closed p) (p_net p) (p_mem p)
  (p_sigpipe_ignored p) (s_last_error p) (s_last_error_msg p) (p_stdin p) o (p_stderr p).
Definition set_stderr e p := mkProc (p_heap p) (p_brk p) (p_socks p) (p_closed p) (p_net p) (p_mem p)
  (p_sigpipe_ignored p) (s_last_error p) (s_last_error_msg p) (p_stdin p) (p_stdout p) e.

(** ** The monad *)

Inductive fault :=
| UndefinedBehaviour
| Uninitialised   (* a local array is read before anything was written to it *)
| Sigpipe
| Deadlock
| Hang.

Inductive run (A : Type) :=
| Done (a : A) (p : proc)
| Crash (f : fault).
Arguments Done {A} a p.
Arguments Crash {A} f.

Definition C (A : Type) : Type := proc → run A.

#[export] Instance C_ret : MRet C := λ A a p, Done a p.
#[export] Instance C_bind : MBind C := λ A B k m p,
  match m p with
  | Done a p' => k a p'
  | Crash f => Crash f
  end.

Definition crash {A} (f : fault) : C A := λ _, Crash f.
Definition gets {A} (f : proc → A) : C A := λ p, Done (f p) p.
Definition modify (f : proc → proc) : C unit := λ p, Done tt (f p).

(** [None] is an access outside an object. *)
Definition in_bounds {A} (o : option A) : C A :=
  match o with Some a => mret a | None => crash UndefinedBehaviour end.

(** ** Memory *)

Definition NULL : Z := 0.

Section memory.
Context `{Junk}.

Definition malloc (fresh : Z → block) : C Z := λ p,
  match p_mem p with
  | false :: m => Done NULL (set_mem m p)
  | m => Done (p_brk p)
           (set_heap (<[p_brk p := fresh (p_brk p)]> (p_heap p))
             (set_brk (p_brk p + 1) (set_mem (tail m) p)))
  end.

Definition malloc_client : C Z := malloc (λ a, BClient (junk_client a)).
Definition malloc_response : C Z := malloc (λ a, BResponse (junk_response a)).
Definition malloc_bytes (n : nat) : C Z := malloc (λ a, BBytes (junk_byte a <$> seq 0 n)).

End memory.

Definition free (a : Z) : C unit := λ p,
  if a =? NULL then Done tt p
  else match p_heap p !! a with
       | Some _ => Done tt (set_heap (delete a (p_heap p)) p)
       | None => Crash UndefinedBehaviour
       end.

Definition load_client (a : Z) : C eop_client_t := λ p,
  match p_heap p !! a with
  | Some (BClient c) => Done c p
  | _ => Crash UndefinedBehaviour
  end.
Definition store_client (a : Z) (c : eop_client_t) : C unit := λ p,
  match p_heap p !! a with
  | Some (BClient _) => Done tt (set_heap (<[a := BClient c]> (p_heap p)) p)
  | _ => Crash UndefinedBehaviour
  end.
Definition load_response (a : Z) : C eop_response_t := λ p,
  match p_heap p !! a with
  | Some (BResponse r) => Done r p
  | _ => Crash UndefinedBehaviour
  end.
Definition store_response (a : Z) (r : eop_response_t) : C unit := λ p,
  match p_heap p !! a with
  | Some (BResponse _) => Done tt (set_heap (<[a := BResponse r]> (p_heap p)) p)
  | _ => Crash UndefinedBehaviour
  end.
Definition load_bytes (a : Z) : C (list byte) := λ p,
  match p_heap p !! a with
  | Some (BBytes bs) => Done bs p
  | _ => Crash UndefinedBehaviour
  end.
Definition store_bytes (a : Z) (bs : list byte) : C unit := λ p,
  match p_heap p !! a with
  | Some (BBytes _) => Done tt (set_heap (<[a := BBytes bs]> (p_heap p)) p)
  | _ => Crash UndefinedBehaviour
  end.

(** ** The mutex of a handle *)

Definition set_mutex m c := mkClient (socket_fd c) (last_error c) (last_error_msg c)
  (connection_timeout_ms c) (next_msg_id c) m (host c) (port c).

Definition pthread_mutex_init (client : Z) : C unit :=
  c ← load_client client; store_client client (set_mutex MFree c).
Definition pthread_mutex_lock (client : Z) : C unit :=
  c ← load_client client;
  match mutex c with
  | MFree => store_client client (set_mutex MHeld c)
  | MHeld => crash Deadlock
  | MUninit => crash UndefinedBehaviour
  end.
Definition pthread_mutex_unlock (client : Z) : C unit :=
  c ← load_client client;
  match mutex c with
  | MHeld => store_client client (set_mutex MFree c)
  | _ => crash UndefinedBehaviour
  end.
Definition pthread_mutex_destroy (client : Z) : C unit :=
  c ← load_client client;
  match mutex c with
  | MFree => store_client client (set_mutex MUninit c)
  | _ => crash UndefinedBehaviour
  end.

(** ** Descriptors *)

(** A descriptor above all those in use. *)
Definition fresh_fd (socks : gmap Z csock) : Z :=
  map_fold (λ fd _ r, Z.max (fd + 1) r) 3 socks.

(** The kernel's choice of a descriptor, never one in use. *)
Definition pick_fd (choice : Z) (socks : gmap Z csock) : Z :=
  if decide (0 ≤ choice ∧ socks !! choice = None) then choice else fresh_fd socks.

Definition new_sock (at_ : attempt) : csock :=
  mkCsock at_ (at_in at_) (at_snd at_) [] None false false.

Definition socket : C Z := λ p,
  match p_net p with
  | [] => Done (-1) p
  | at_ :: net =>
      match at_socket at_ with
      | None => Done (-1) (set_net net p)
      | Some choice =>
          let fd := pick_fd choice (p_socks p) in
          Done fd (set_socks (<[fd := new_sock at_]> (p_socks p)) (set_net net p))
      end
  end.

Definition close (fd : Z) : C unit := λ p,
  match p_socks p !! fd with
  | Some s => Done tt (set_closed (p_closed p ++ [s]) (set_socks (delete fd (p_socks p)) p))
  | None => Done tt p
  end.

Definition on_sock (fd : Z) (f : csock → csock) (p : proc) : proc :=
  match p_socks p !! fd with
  | Some s => set_socks (<[fd := f s]> (p_socks p)) p
  | None => p
  end.

Definition set_in i s := mkCsock (cs_net s) i (cs_snd s) (cs_out s) (cs_peer s) (cs_nonblock s) (cs_shut s).
Definition set_snd o out s := mkCsock (cs_net s) (cs_in s) o out (cs_peer s) (cs_nonblock s) (cs_shut s).
Definition set_peer a s := mkCsock (cs_net s) (cs_in s) (cs_snd s) (cs_out s) a (cs_nonblock s) (cs_shut s).
Definition set_nonblock b s := mkCsock (cs_net s) (cs_in s) (cs_snd s) (cs_out s) (cs_peer s) b (cs_shut s).
Definition set_shut b s := mkCsock (cs_net s) (cs_in s) (cs_snd s) (cs_out s) (cs_peer s) (cs_nonblock s) b.

Definition shutdown (fd : Z) : C unit := modify (on_sock fd (set_shut true)).
(** [fcntl(fd, F_SETFL, ...)], as far as [O_NONBLOCK] goes. *)
Definition fcntl_nonblock (fd : Z) (b : bool) : C unit := modify (on_sock fd (set_nonblock b)).

(** The errno of [connect], 0 when it returned 0. *)
Definition connect (fd : Z) (addr : list Z) (port : Z) : C Z := λ p,
  match p_socks p !! fd with
  | Some s => Done (at_connect (cs_net s)) (on_sock fd (set_peer (Some (addr, port))) p)
  | None => Done EBADF p
  end.
Definition poll_out (fd : Z) : C Z := gets (λ p,
  match p_socks p !! fd with
  | Some s => at_poll (cs_net s)
  | None => 1
  end).
Definition getsockopt_error (fd : Z) : C (Z * Z) := gets (λ p,
  match p_socks p !! fd with
  | Some s => (at_getsockopt (cs_net s), at_so_error (cs_net s))
  | None => (-1, 0)
  end).

(** [poll(fd, POLLIN, timeout)]: 0 when nothing arrives in time.  A negative
    descriptor is ignored, a closed one is reported at once. *)
Fixpoint settle (ins : list in_ev) : list in_ev :=
  match ins with
  | Chunk [] :: ins => settle ins
  | _ => ins
  end.

Definition poll_in (fd : Z) : C Z := λ p,
  match p_socks p !! fd with
  | None => Done (if fd <? 0 then 0 else 1) p
  | Some s =>
      match settle (cs_in s) with
      | [] => Done 0 (on_sock fd (set_in []) p)
      | Quiet :: ins => Done 0 (on_sock fd (set_in ins) p)
      | PollErr _ :: ins => Done (-1) (on_sock fd (set_in ins) p)
      | ins => Done 1 (on_sock fd (set_in ins) p)
      end
  end.

(** [recv(fd, buf, n, 0)] on a blocking socket: waits for something to
    arrive. *)
Fixpoint arrived (ins : list in_ev) : list in_ev :=
  match ins with
  | Chunk [] :: ins | Quiet :: ins | PollErr _ :: ins => arrived ins
  | _ => ins
  end.

Definition recv (fd : Z) (n : nat) : C recv_res := λ p,
  match p_socks p !! fd with
  | None => Done (Failed EBADF) p
  | Some s =>
      match arrived (cs_in s) with
      | Chunk bs :: ins =>
          Done (Got (take n bs)) (on_sock fd (set_in (Chunk (drop n bs) :: ins)) p)
      | RecvErr e :: ins => Done (Failed e) (on_sock fd (set_in ins) p)
      | Eof :: _ => Done (Got []) p
      | _ => if cs_nonblock s then Done (Failed EAGAIN) p else Crash Hang
      end
  end.

(** [send(fd, data, 0)]: without [MSG_NOSIGNAL], writing to a connection the
    peer has closed raises SIGPIPE. *)
Definition send (fd : Z) (data : list byte) : C send_res := λ p,
  match p_socks p !! fd with
  | None => Done (SendFailed EBADF) p
  | Some s =>
      match Net.send (length data) (cs_snd s) with
      | (Sent k, snd) =>
          Done (Sent k) (on_sock fd (set_snd snd (cs_out s ++ take k data)) p)
      | (SendFailed e, snd) =>
          if (e =? EPIPE) && negb (p_sigpipe_ignored p) then Crash Sigpipe
          else Done (SendFailed e) (on_sock fd (set_snd snd (cs_out s)) p)
      end
  end.

(** ** Strings *)

(** [strncpy(dst, src, n - 1); dst[n - 1] = 0]. *)
Definition copy_string (n : nat) (s : string) : string := String.substring 0 (n - 1) s.

(** [inet_pton(AF_INET, s, ...)]: four decimal octets without leading zeros
    separated by dots. *)
Fixpoint inet_pton_loop (s : list byte) (saw_digit : bool) (octets : nat) (cur : Z)
    (acc : list Z) : option (list Z) :=
  match s with
  | [] => if (octets <? 4)%nat then None else Some (acc ++ [cur])
  | ch :: s =>
      let c := byte_val ch in
      if (48 <=? c) && (c <=? 57) then
        let new := cur * 10 + (c - 48) in
        if saw_digit && (cur =? 0) then None
        else if 255 <? new then None
        else if saw_digit then inet_pton_loop s true octets new acc
        else if (4 <? S octets)%nat then None
        else inet_pton_loop s true (S octets) new acc
      else if (c =? 46) && saw_digit then
        if (octets =? 4)%nat then None
        else inet_pton_loop s false octets 0 (acc ++ [cur])
      else None
  end.

Definition inet_pton (s : string) : option (list Z) :=
  inet_pton_loop (bytes_of_string s) false 0 0 [].

(** ** Standard streams *)

Definition printf (s : string) : C unit := modify (λ p, set_stdout (p_stdout p ++ [s]) p).
Definition eprintf (s : string) : C unit := modify (λ p, set_stderr (p_stderr p ++ [s]) p).

(** ** Concrete processes *)

Definition zero_junk : Junk := {|
  junk_client _ := mkClient 0 EOP_OK "" 0 0 MUninit "" 0;
  junk_response _ := mkResponse 0 0 0 0;
  junk_byte _ _ := x00
|}.

(** A process that has just started, with the attempts the network will
    answer. *)
Definition start (net : list attempt) : proc :=
  mkProc ∅ 1 ∅ [] net [] false EOP_OK "" "" [] [].

(** An attempt that succeeds, with the traffic of the connection. *)
Definition success (ins : list in_ev) (snd : list send_ev) : attempt :=
  mkAttempt (Some 5) EINPROGRESS 1 0 0 ins snd.

(** A process with one handle, at address 1, connected on descriptor 5. *)
Definition demo_client : eop_client_t :=
  mkClient 5 EOP_OK "" 5000 0 MFree "127.0.0.1" 9026.
Definition demo_sock (ins : list in_ev) (snd : list send_ev) : csock :=
  mkCsock (success ins snd) ins snd [] (Some ([127; 0; 0; 1], 9026)) false false.
Definition demo_proc (ins : list in_ev) (snd : list send_ev) : proc :=
  mkProc {[1 := BClient demo_client]} 2 {[5 := demo_sock ins snd]} [] [] [] false
    EOP_OK "" "" [] [].

End Posix.
