(* ===== verification/Client.v ===== *)
(** * The C client library

    Models [client/src/eop_client.c] on the process of [Posix.v]: the
    handle and its operations, with every allocation, descriptor and lock
    they take and give back. *)

From S2P Require Import Prelude Net Envelope Posix.
Local Open Scope Z_scope.

Module EopClient.
Import EopEnvelope Posix.

Definition EOP_CONNECT_TIMEOUT : Z := 5000.
Definition EOP_COMMAND_TIMEOUT_MS : Z := 5000.
Definition EOP_ERROR_MSG_SIZE : nat := 256.
Definition EOP_MAX_HOST_LEN : nat := 256.
Definition TCP_PORT_MAX_VALUE : Z := 65535.
Definition TCP_PORT_MIN_VALUE : Z := 1.

(** ** Errors *)

Definition set_global_error (code : eop_error_code) (msg : string) : C unit :=
  modify (set_gerr code (copy_string EOP_ERROR_MSG_SIZE msg)).

(** Field assignments through the handle. *)
Definition set_fd fd c := mkClient fd (last_error c) (last_error_msg c)
  (connection_timeout_ms c) (next_msg_id c) (mutex c) (host c) (port c).
Definition set_error code msg c := mkClient (socket_fd c) code msg
  (connection_timeout_ms c) (next_msg_id c) (mutex c) (host c) (port c).
Definition set_next_id i c := mkClient (socket_fd c) (last_error c) (last_error_msg c)
  (connection_timeout_ms c) i (mutex c) (host c) (port c).

Definition update_client (client : Z) (f : eop_client_t → eop_client_t) : C unit :=
  c ← load_client client; store_client client (f c).

Definition set_client_error (client : Z) (code : eop_error_code) (msg : string) : C unit :=
  update_client client (set_error code (copy_string EOP_ERROR_MSG_SIZE msg)).

Section operations.
Context `{Junk}.

(** ** [eop_connect] *)

Definition eop_connect (host_ : option string) (port_ timeout_ms : Z) : C Z :=
  match host_ with
  | None => set_global_error EOP_ERR_INVALID_ARGUMENT "Invalid host";; mret NULL
  | Some h =>
  if (port_ <? TCP_PORT_MIN_VALUE) || (TCP_PORT_MAX_VALUE <? port_) then
    set_global_error EOP_ERR_INVALID_ARGUMENT "Invalid port number";; mret NULL
  else
  client ← malloc_client;
  if client =? NULL then
    set_global_error EOP_ERR_ALLOC "Failed to allocate client handle";; mret NULL
  else
  update_client client (λ c, mkClient (socket_fd c) EOP_OK ""
    (if 0 <? timeout_ms then timeout_ms else EOP_CONNECT_TIMEOUT) 0 (mutex c)
    (copy_string EOP_MAX_HOST_LEN h) port_);;
  match inet_pton h with
  | None =>
      set_global_error EOP_ERR_INVALID_ARGUMENT "Invalid host address";;
      free client;; mret NULL
  | Some server_ip =>
  fd ← socket;
  update_client client (set_fd fd);;
  if fd <? 0 then
    set_global_error EOP_ERR_CONNECT_FAILED "Failed to create socket";;
    free client;; mret NULL
  else
  fcntl_nonblock fd true;;
  errno ← connect fd server_ip (u16 port_);
  if negb (errno =? 0) && negb (errno =? EINPROGRESS) then
    set_global_error EOP_ERR_CONNECT_FAILED "Connection refused";;
    close fd;; free client;; mret NULL
  else
  poll_result ← poll_out fd;
  if poll_result =? 0 then
    set_global_error EOP_ERR_TIMEOUT "Connection timed out";;
    close fd;; free client;; mret NULL
  else if poll_result <? 0 then
    set_global_error EOP_ERR_CONNECT_FAILED "Poll failed during connection";;
    close fd;; free client;; mret NULL
  else
  '(rc, so_error) ← getsockopt_error fd;
  if (rc <? 0) || negb (so_error =? 0) then
    set_global_error EOP_ERR_CONNECT_FAILED "Connection failed after poll";;
    close fd;; free client;; mret NULL
  else
  fcntl_nonblock fd false;;
  pthread_mutex_init client;;
  set_global_error EOP_OK "";;
  mret client
  end
  end.

(** ** [eop_last_error]

    [buffer] is [None] for a null [msg], else [buffer_size]; the second
    result is the string written to the buffer. *)
Definition eop_last_error (client : Z) (buffer : option Z)
    : C (eop_error_code * option string) :=
  let written (m : string) :=
    match buffer with
    | Some n => if 0 <? n then Some (copy_string (Z.to_nat n) m) else None
    | None => None
    end in
  if client =? NULL then
    gets (λ p, (s_last_error p, written (s_last_error_msg p)))
  else
    pthread_mutex_lock client;;
    c ← load_client client;
    pthread_mutex_unlock client;;
    mret (last_error c, written (last_error_msg c)).

(** ** [eop_disconnect] *)

Definition eop_disconnect (client : Z) : C unit :=
  if client =? NULL then mret tt
  else
    c ← load_client client;
    shutdown (socket_fd c);;
    close (socket_fd c);;
    pthread_mutex_destroy client;;
    free client.

(** ** [eop_reconnect] *)

Definition eop_reconnect (client : Z) (timeout_ms : Z) : C eop_error_code :=
  if client =? NULL then
    set_global_error EOP_ERR_INVALID_ARGUMENT "Invalid client handle";;
    mret EOP_ERR_INVALID_ARGUMENT
  else
  pthread_mutex_lock client;;
  c ← load_client client;
  shutdown (socket_fd c);;
  close (socket_fd c);;
  update_client client (set_fd (-1));;
  match inet_pton (host c) with
  | None =>
      set_client_error client EOP_ERR_INVALID_ARGUMENT "Invalid stored host address";;
      pthread_mutex_unlock client;; mret EOP_ERR_INVALID_ARGUMENT
  | Some server_ip =>
  new_fd ← socket;
  if new_fd <? 0 then
    set_client_error client EOP_ERR_CONNECT_FAILED "Failed to create socket on reconnect";;
    pthread_mutex_unlock client;; mret EOP_ERR_CONNECT_FAILED
  else
  fcntl_nonblock new_fd true;;
  errno ← connect new_fd server_ip (u16 (port c));
  if negb (errno =? 0) && negb (errno =? EINPROGRESS) then
    set_client_error client EOP_ERR_CONNECT_FAILED "Reconnect refused";;
    close new_fd;;
    pthread_mutex_unlock client;; mret EOP_ERR_CONNECT_FAILED
  else
  poll_result ← poll_out new_fd;
  if poll_result =? 0 then
    set_client_error client EOP_ERR_TIMEOUT "Reconnect timed out";;
    close new_fd;;
    pthread_mutex_unlock client;; mret EOP_ERR_TIMEOUT
  else if poll_result <? 0 then
    set_client_error client EOP_ERR_CONNECT_FAILED "Poll failed during reconnect";;
    close new_fd;;
    pthread_mutex_unlock client;; mret EOP_ERR_CONNECT_FAILED
  else
  '(rc, so_error) ← getsockopt_error new_fd;
  if (rc <? 0) || negb (so_error =? 0) then
    set_client_error client EOP_ERR_CONNECT_FAILED "Reconnect failed after poll";;
    close new_fd;;
    pthread_mutex_unlock client;; mret EOP_ERR_CONNECT_FAILED
  else
  fcntl_nonblock new_fd false;;
  update_client client (set_fd new_fd);;
  update_client client (set_error EOP_OK "");;
  pthread_mutex_unlock client;;
  mret EOP_OK
  end.

(** ** Responses *)

Definition eop_response_free (response : Z) : C unit :=
  if response =? NULL then mret tt
  else
    r ← load_response response;
    free (payload r);;
    free response.

Definition eop_response_create (type id payload_ len : Z) : C Z :=
  response ← malloc_response;
  if response =? NULL then mret NULL
  else
    store_response response (mkResponse type id payload_ len);;
    mret response.

(** ** [eop_send_command] *)

(** The send loop; [false] when a [send] fails. *)
Fixpoint send_loop (fuel : nat) (fd : Z) (buf : list byte) (total_sent : nat) : C bool :=
  match fuel with
  | O => crash Hang
  | S fuel =>
      if (total_sent <? length buf)%nat then
        sent ← Posix.send fd (drop total_sent buf);
        match sent with
        | SendFailed _ => mret false
        | Sent k => send_loop fuel fd buf (total_sent + k)
        end
      else mret true
  end.

(** How one of the three receive loops ends early. *)
Inductive recv_failure :=
| RecvTimeout    (* poll returned 0 *)
| RecvPollError  (* poll returned -1 *)
| RecvClosed     (* recv returned 0 *)
| RecvError.     (* recv returned -1 *)

(** The receive loop of the three phases: [n] bytes, each wait bounded by a
    [poll].  Every turn of the loop takes at least one byte. *)
Fixpoint recv_loop (fuel : nat) (fd : Z) (n : nat) (buf : list byte)
    : C (recv_failure + list byte) :=
  match fuel with
  | O => crash Hang
  | S fuel =>
      if (length buf <? n)%nat then
        pr ← poll_in fd;
        if pr =? 0 then mret (inl RecvTimeout)
        else if pr <? 0 then mret (inl RecvPollError)
        else
          r ← Posix.recv fd (n - length buf);
          match r with
          | Got [] => mret (inl RecvClosed)
          | Failed _ => mret (inl RecvError)
          | Got bs => recv_loop fuel fd n (buf ++ bs)
          end
      else mret (inr buf)
  end.

Definition recv_exact (fd : Z) (n : nat) : C (recv_failure + list byte) :=
  recv_loop (S n) fd n [].

(** Phase 0: the frame length prefix. *)
Definition prefix_error (f : recv_failure) : eop_error_code * string :=
  match f with
  | RecvTimeout => (EOP_ERR_TIMEOUT, "Timeout waiting for frame length prefix")
  | RecvPollError => (EOP_ERR_DISCONNECTED, "Poll error waiting for frame length prefix")
  | RecvClosed => (EOP_ERR_DISCONNECTED, "Server closed connection")
  | RecvError => (EOP_ERR_DISCONNECTED, "Recv error reading frame length prefix")
  end.

(** Phase 1: the envelope header. *)
Definition header_error (f : recv_failure) : eop_error_code * string :=
  match f with
  | RecvTimeout => (EOP_ERR_TIMEOUT, "Timeout waiting for response header")
  | RecvPollError => (EOP_ERR_DISCONNECTED, "Poll error waiting for response header")
  | RecvClosed => (EOP_ERR_DISCONNECTED, "Server closed connection")
  | RecvError => (EOP_ERR_DISCONNECTED, "Recv error reading response header")
  end.

(** Phase 2: the payload. *)
Definition payload_error (f : recv_failure) : eop_error_code * string :=
  match f with
  | RecvTimeout => (EOP_ERR_TIMEOUT, "Timeout waiting for response payload")
  | RecvPollError => (EOP_ERR_DISCONNECTED, "Poll error waiting for response payload")
  | RecvClosed => (EOP_ERR_DISCONNECTED, "Server closed connection during payload recv")
  | RecvError => (EOP_ERR_DISCONNECTED, "Recv error reading response payload")
  end.

(** The tail of the call: the response structure and the unlock. *)
Definition finish_command (client : Z) (type id resp_payload len : Z) : C Z :=
  response ← eop_response_create type id resp_payload len;
  if response =? NULL then
    set_client_error client EOP_ERR_ALLOC "Failed to allocate response struct";;
    free resp_payload;;
    pthread_mutex_unlock client;; mret NULL
  else
    update_client client (set_error EOP_OK "");;
    pthread_mutex_unlock client;;
    mret response.

(** From the parsed header on. *)
Definition recv_payload (client fd : Z) (header_buf : list byte) : C Z :=
  if negb (byte_val (nth 0 header_buf x00) =? EOP_PROTOCOL_VERSION) then
    set_client_error client EOP_ERR_DISCONNECTED "Unsupported protocol version in response";;
    pthread_mutex_unlock client;; mret NULL
  else
  let resp_msg_type := byte_val (nth 1 header_buf x00) in
  let resp_msg_id := be_u32 (take 4 (drop 2 header_buf)) in
  let resp_payload_len := be_u32 (take 4 (drop 6 header_buf)) in
  if 0 <? resp_payload_len then
    resp_payload ← malloc_bytes (Z.to_nat resp_payload_len);
    if resp_payload =? NULL then
      set_client_error client EOP_ERR_ALLOC "Failed to allocate response payload buffer";;
      pthread_mutex_unlock client;; mret NULL
    else
      r ← recv_exact fd (Z.to_nat resp_payload_len);
      match r with
      | inl f =>
          set_client_error client (payload_error f).1 (payload_error f).2;;
          free resp_payload;;
          pthread_mutex_unlock client;; mret NULL
      | inr bs =>
          store_bytes resp_payload bs;;
          finish_command client resp_msg_type resp_msg_id resp_payload resp_payload_len
      end
  else finish_command client resp_msg_type resp_msg_id NULL resp_payload_len.

(** Phases 0 and 1. *)
Definition recv_response (client fd : Z) : C Z :=
  r0 ← recv_exact fd (Z.to_nat EOP_FRAME_PREFIX_SIZE);
  match r0 with
  | inl f =>
      set_client_error client (prefix_error f).1 (prefix_error f).2;;
      pthread_mutex_unlock client;; mret NULL
  | inr _ =>
      r1 ← recv_exact fd (Z.to_nat EOP_ENVELOPE_HEADER_SIZE);
      match r1 with
      | inl f =>
          set_client_error client (header_error f).1 (header_error f).2;;
          pthread_mutex_unlock client;; mret NULL
      | inr header_buf => recv_payload client fd header_buf
      end
  end.

(** The buffer that is sent: the length prefix and the envelope. *)
Definition fill_send_buf (type id : Z) (payload_ : option (list byte)) (len : Z)
    (send_buf : Z) : C eop_error_code :=
  let frame_body_size := u64 (EOP_ENVELOPE_HEADER_SIZE + len) in
  buf ← load_bytes send_buf;
  buf ← in_bounds (mem_write 0 (u32_be (u32 frame_body_size)) buf);
  '(rc, env) ← in_bounds (eop_envelope_serialize type id payload_ len
                            (drop (Z.to_nat EOP_FRAME_PREFIX_SIZE) buf) frame_body_size);
  store_bytes send_buf (take (Z.to_nat EOP_FRAME_PREFIX_SIZE) buf ++ env);;
  mret rc.

(** The send loop, the release of the buffer, and the response. *)
Definition transmit (client fd send_buf : Z) : C Z :=
  buf ← load_bytes send_buf;
  steps ← gets (λ p, match p_socks p !! fd with
                     | Some s => length (cs_snd s)
                     | None => O
                     end);
  ok ← send_loop (S (S steps)) fd buf 0;
  if negb ok then
    set_client_error client EOP_ERR_DISCONNECTED "Send failed";;
    free send_buf;;
    pthread_mutex_unlock client;; mret NULL
  else
  free send_buf;;
  recv_response client fd.

Definition eop_send_command (client : Z) (type : Z) (payload_ : option (list byte))
    (len : Z) : C Z :=
  if client =? NULL then
    set_global_error EOP_ERR_INVALID_ARGUMENT "Invalid client handle";; mret NULL
  else if bool_decide (payload_ = None) && (0 <? len) then
    set_global_error EOP_ERR_INVALID_ARGUMENT "Payload is NULL but payload_len > 0";;
    mret NULL
  else
  pthread_mutex_lock client;;
  c ← load_client client;
  let id := next_msg_id c in
  update_client client (set_next_id (u32 (id + 1)));;
  let frame_body_size := u64 (EOP_ENVELOPE_HEADER_SIZE + len) in
  let send_buf_size := u64 (EOP_FRAME_PREFIX_SIZE + frame_body_size) in
  send_buf ← malloc_bytes (Z.to_nat send_buf_size);
  if send_buf =? NULL then
    set_client_error client EOP_ERR_ALLOC "Failed to allocate send buffer";;
    pthread_mutex_unlock client;; mret NULL
  else
  rc ← fill_send_buf type id payload_ len send_buf;
  if bool_decide (rc ≠ EOP_OK) then
    set_client_error client rc "Failed to serialize envelope";;
    free send_buf;;
    pthread_mutex_unlock client;; mret NULL
  else
  transmit client (socket_fd c) send_buf.

End operations.
End EopClient.
