(* ===== verification/ClientLogic.v ===== *)
(** * Reasoning about the client's C code

    A weakest precondition over the runs of [Posix.v], rules for the calls
    the library makes, and the meaning of its two kinds of loops: what a
    receive loop makes of the traffic of a socket, and what a send loop hands
    to the kernel. *)

From S2P Require Import Prelude Net Serializer Envelope Posix Client.
Local Open Scope Z_scope.

Module ClientLogic.
Import EopEnvelope Posix EopClient.

(** [wp E m p Q]: from [p], [m] returns with a result and process that
    satisfy [Q], or stops with one of the faults of [E]. *)
Definition wp (E : fault → Prop) {A} (m : C A) (p : proc) (Q : A → proc → Prop) : Prop :=
  match m p with
  | Done a p' => Q a p'
  | Crash f => E f
  end.

Definition no_fault (_ : fault) : Prop := False.
(** A client that does not ignore SIGPIPE may die of it. *)
Definition only_sigpipe (f : fault) : Prop := f = Sigpipe.

Section rules.
Context (E : fault → Prop).

Lemma wp_ret {A} (a : A) p Q : Q a p → wp E (mret a) p Q.
Proof. done. Qed.

Lemma wp_bind {A B} (m : C A) (k : A → C B) p Q :
  wp E m p (λ a p', wp E (k a) p' Q) → wp E (m ≫= k) p Q.
Proof. unfold wp, mbind, C_bind. by destruct (m p). Qed.

Lemma wp_mono {A} (m : C A) p (Q Q' : A → proc → Prop) :
  wp E m p Q → (∀ a p', Q a p' → Q' a p') → wp E m p Q'.
Proof. unfold wp. destruct (m p); auto. Qed.

Lemma wp_weaken (E' : fault → Prop) {A} (m : C A) p Q :
  (∀ f, E' f → E f) → wp E' m p Q → wp E m p Q.
Proof. unfold wp. destruct (m p); auto. Qed.

Lemma wp_run {A} (m : C A) p Q :
  wp no_fault m p Q → ∃ a p', m p = Done a p' ∧ Q a p'.
Proof. unfold wp, no_fault. destruct (m p); [eauto|done]. Qed.

Lemma wp_modify f p (Q : unit → proc → Prop) : Q tt (f p) → wp E (modify f) p Q.
Proof. done. Qed.

Lemma wp_gets {A} (f : proc → A) p Q : Q (f p) p → wp E (gets f) p Q.
Proof. done. Qed.

Lemma wp_in_bounds {A} (o : option A) a p Q :
  o = Some a → Q a p → wp E (in_bounds o) p Q.
Proof. intros ->. done. Qed.

End rules.

(** ** Pieces of the process *)

(** Everything but the heap, the sockets and the allocator. *)
Definition same_env (p p' : proc) : Prop :=
  p_closed p' = p_closed p ∧ p_net p' = p_net p ∧
  p_sigpipe_ignored p' = p_sigpipe_ignored p ∧ s_last_error p' = s_last_error p ∧
  s_last_error_msg p' = s_last_error_msg p ∧ p_stdin p' = p_stdin p ∧
  p_stdout p' = p_stdout p ∧ p_stderr p' = p_stderr p.

Lemma same_env_refl p : same_env p p.
Proof. done. Qed.

Lemma same_env_trans p1 p2 p3 : same_env p1 p2 → same_env p2 p3 → same_env p1 p3.
Proof. unfold same_env. intros; destruct_and!; split_and!; congruence. Qed.

(** Addresses in use lie below the allocator's next one. *)
Definition heap_ok (p : proc) : Prop :=
  0 < p_brk p ∧ ∀ a b, p_heap p !! a = Some b → 0 < a < p_brk p.

Lemma heap_ok_fresh p : heap_ok p → p_heap p !! p_brk p = None.
Proof.
  intros [_ Hh]. destruct (p_heap p !! p_brk p) eqn:E; [|done].
  apply Hh in E. lia.
Qed.

Lemma demo_heap_ok ins snd : heap_ok (demo_proc ins snd).
Proof.
  split; [done|]. intros a b. simpl. rewrite lookup_singleton_Some. intros [<- _]. lia.
Qed.

Definition alloc_ok (m : list bool) : bool :=
  match m with false :: _ => false | _ => true end.

Section alloc.
Context (E : fault → Prop).

(** An allocation either fails and leaves the heap alone or adds one block at
    an address that was never used. *)
Lemma wp_malloc fresh p Q :
  (alloc_ok (p_mem p) = false → Q NULL (set_mem (tail (p_mem p)) p)) →
  (alloc_ok (p_mem p) = true →
   Q (p_brk p) (set_heap (<[p_brk p := fresh (p_brk p)]> (p_heap p))
                 (set_brk (p_brk p + 1) (set_mem (tail (p_mem p)) p)))) →
  wp E (malloc fresh) p Q.
Proof.
  intros H0 H1. unfold wp, malloc. destruct (p_mem p) as [|[] m]; simpl in *; auto.
Qed.

Lemma wp_free_null p (Q : unit → proc → Prop) : Q tt p → wp E (free NULL) p Q.
Proof. done. Qed.

Lemma wp_free a b p (Q : unit → proc → Prop) :
  a ≠ 0 → p_heap p !! a = Some b →
  Q tt (set_heap (delete a (p_heap p)) p) → wp E (free a) p Q.
Proof.
  intros Ha Hb HQ. unfold wp, free. rewrite (proj2 (Z.eqb_neq a NULL)) by done.
  by rewrite Hb.
Qed.

Lemma wp_load_client a c p Q :
  p_heap p !! a = Some (BClient c) → Q c p → wp E (load_client a) p Q.
Proof. intros Ha HQ. unfold wp, load_client. by rewrite Ha. Qed.

Lemma wp_update_client a f c p (Q : unit → proc → Prop) :
  p_heap p !! a = Some (BClient c) →
  Q tt (set_heap (<[a := BClient (f c)]> (p_heap p)) p) → wp E (update_client a f) p Q.
Proof.
  intros Ha HQ. unfold wp, update_client, load_client, store_client, mbind, C_bind.
  by rewrite !Ha.
Qed.

Lemma wp_lock a c p (Q : unit → proc → Prop) :
  p_heap p !! a = Some (BClient c) → mutex c = MFree →
  Q tt (set_heap (<[a := BClient (set_mutex MHeld c)]> (p_heap p)) p) →
  wp E (pthread_mutex_lock a) p Q.
Proof.
  intros Ha Hm HQ. unfold wp, pthread_mutex_lock, load_client, store_client, mbind, C_bind.
  by rewrite !Ha, Hm, Ha.
Qed.

Lemma wp_unlock a c p (Q : unit → proc → Prop) :
  p_heap p !! a = Some (BClient c) → mutex c = MHeld →
  Q tt (set_heap (<[a := BClient (set_mutex MFree c)]> (p_heap p)) p) →
  wp E (pthread_mutex_unlock a) p Q.
Proof.
  intros Ha Hm HQ. unfold wp, pthread_mutex_unlock, load_client, store_client, mbind, C_bind.
  by rewrite !Ha, Hm, Ha.
Qed.

Lemma wp_destroy a c p (Q : unit → proc → Prop) :
  p_heap p !! a = Some (BClient c) → mutex c = MFree →
  Q tt (set_heap (<[a := BClient (set_mutex MUninit c)]> (p_heap p)) p) →
  wp E (pthread_mutex_destroy a) p Q.
Proof.
  intros Ha Hm HQ.
  unfold wp, pthread_mutex_destroy, load_client, store_client, mbind, C_bind.
  by rewrite !Ha, Hm, Ha.
Qed.

Lemma wp_init a c p (Q : unit → proc → Prop) :
  p_heap p !! a = Some (BClient c) →
  Q tt (set_heap (<[a := BClient (set_mutex MFree c)]> (p_heap p)) p) →
  wp E (pthread_mutex_init a) p Q.
Proof. intros Ha HQ. by apply (wp_update_client a (set_mutex MFree) c). Qed.

Lemma wp_load_response a r p Q :
  p_heap p !! a = Some (BResponse r) → Q r p → wp E (load_response a) p Q.
Proof. intros Ha HQ. unfold wp, load_response. by rewrite Ha. Qed.

Lemma wp_store_response a r r' p (Q : unit → proc → Prop) :
  p_heap p !! a = Some (BResponse r) →
  Q tt (set_heap (<[a := BResponse r']> (p_heap p)) p) → wp E (store_response a r') p Q.
Proof. intros Ha HQ. unfold wp, store_response. by rewrite Ha. Qed.

Lemma wp_load_bytes a bs p Q :
  p_heap p !! a = Some (BBytes bs) → Q bs p → wp E (load_bytes a) p Q.
Proof. intros Ha HQ. unfold wp, load_bytes. by rewrite Ha. Qed.

Lemma wp_store_bytes a bs bs' p (Q : unit → proc → Prop) :
  p_heap p !! a = Some (BBytes bs) →
  Q tt (set_heap (<[a := BBytes bs']> (p_heap p)) p) → wp E (store_bytes a bs') p Q.
Proof. intros Ha HQ. unfold wp, store_bytes. by rewrite Ha. Qed.

End alloc.

(** ** Sockets *)

Lemma set_in_set_in a b s : set_in a (set_in b s) = set_in a s.
Proof. done. Qed.

Lemma set_in_same s : set_in (cs_in s) s = s.
Proof. by destruct s. Qed.

Lemma set_socks_same p : set_socks (p_socks p) p = p.
Proof. by destruct p. Qed.

Lemma on_sock_some fd f s p :
  p_socks p !! fd = Some s → on_sock fd f p = set_socks (<[fd := f s]> (p_socks p)) p.
Proof. intros Hs. unfold on_sock. by rewrite Hs. Qed.

Lemma on_sock_lookup fd f s p :
  p_socks p !! fd = Some s → p_socks (on_sock fd f p) !! fd = Some (f s).
Proof. intros Hs. rewrite (on_sock_some _ _ _ _ Hs). simpl. by rewrite lookup_insert_eq. Qed.

Lemma on_sock_on_sock fd f g s p :
  p_socks p !! fd = Some s → on_sock fd f (on_sock fd g p) = on_sock fd (λ s, f (g s)) p.
Proof.
  intros Hs. rewrite (on_sock_some _ g _ _ Hs), (on_sock_some _ (λ s, f (g s)) _ _ Hs).
  unfold on_sock. simpl. rewrite lookup_insert_eq. unfold set_socks. simpl.
  by rewrite insert_insert_eq.
Qed.

Lemma on_sock_sigpipe fd f p : p_sigpipe_ignored (on_sock fd f p) = p_sigpipe_ignored p.
Proof. unfold on_sock. by destruct (p_socks p !! fd). Qed.

Lemma on_sock_same fd f s p : p_socks p !! fd = Some s → f s = s → on_sock fd f p = p.
Proof.
  intros Hs Hf. rewrite (on_sock_some _ _ _ _ Hs), Hf, insert_id by done.
  apply set_socks_same.
Qed.

(** The traffic of a socket as the receive loops see it: the bytes that can
    be had, how the waiting then ends, and what is still to come after that. *)
Fixpoint stream (ins : list in_ev) : list byte * recv_failure * list in_ev :=
  match ins with
  | [] => ([], RecvTimeout, [])
  | Chunk bs :: ins => let '(av, f, rest) := stream ins in (bs ++ av, f, rest)
  | Quiet :: ins => ([], RecvTimeout, ins)
  | PollErr _ :: ins => ([], RecvPollError, ins)
  | RecvErr _ :: ins => ([], RecvError, ins)
  | Eof :: ins => ([], RecvClosed, Eof :: ins)
  end.

Lemma stream_settle ins : stream (settle ins) = stream ins.
Proof.
  induction ins as [|[[|b bs]| | | |] ins IH]; try done. simpl. rewrite IH.
  by destruct (stream ins) as [[??]?].
Qed.

Lemma settle_idemp ins : settle (settle ins) = settle ins.
Proof. by induction ins as [|[[|b bs]| | | |] ins IH]. Qed.

Lemma settle_not_empty ins ins' : settle ins ≠ Chunk [] :: ins'.
Proof. by induction ins as [|[[|b bs]| | | |] ins IH]. Qed.

(** ** The receive loop *)

(** Taking from a chunk and then from what is left of it and what follows. *)
Lemma take_chunk {A} k (c av : list A) :
  take k (c ++ av) = take k c ++ take (k - length c) (drop k c ++ av).
Proof.
  rewrite !take_app, length_drop. f_equal. destruct (decide (k ≤ length c)%nat).
  - replace (k - length c)%nat with 0%nat by lia. by rewrite !take_0.
  - rewrite (drop_ge c), take_nil by lia. simpl. f_equal. lia.
Qed.

Lemma drop_chunk {A} k (c av : list A) :
  drop k (c ++ av) = drop (k - length c) (drop k c ++ av).
Proof.
  destruct (decide (k ≤ length c)%nat).
  - replace (k - length c)%nat with 0%nat by lia. by rewrite drop_0, drop_app_le by lia.
  - rewrite (drop_ge c), (drop_app_ge c) by lia. done.
Qed.

(** What a receive loop that has [buf] of [n] bytes leaves, of the traffic
    [tr] of its socket. *)
Definition receives (fd : Z) (n : nat) (buf : list byte)
    (tr : list byte * recv_failure * list in_ev) (p : proc)
    (Q : recv_failure + list byte → proc → Prop) : Prop :=
  let '(av, f, rest) := tr in
  if decide (n - length buf ≤ length av)%nat
  then ∀ ins', stream ins' = (drop (n - length buf) av, f, rest) →
       Q (inr (buf ++ take (n - length buf) av)) (on_sock fd (set_in ins') p)
  else Q (inl f) (on_sock fd (set_in rest) p).

(** Nothing more comes. *)
Lemma receives_nothing fd n buf f rest p Q :
  (length buf < n)%nat → receives fd n buf ([], f, rest) p Q →
  Q (inl f) (on_sock fd (set_in rest) p).
Proof. unfold receives. intros Hl. rewrite decide_False; [done|]. simpl. lia. Qed.

(** Taking what fits of a chunk. *)
Lemma receives_chunk fd n buf c ins s p Q :
  p_socks p !! fd = Some s → (length buf ≤ n)%nat →
  receives fd n buf (stream (Chunk c :: ins)) p Q →
  receives fd n (buf ++ take (n - length buf) c) (stream (Chunk (drop (n - length buf) c) :: ins))
    (on_sock fd (λ s, set_in (Chunk (drop (n - length buf) c) :: ins) (set_in (Chunk c :: ins) s)) p) Q.
Proof.
  intros Hs Hb. unfold receives. set (k := (n - length buf)%nat). cbn [stream].
  destruct (stream ins) as [[av f] rest]. intros HQ.
  rewrite length_app, length_take, length_app, length_drop in *.
  replace (n - (length buf + k `min` length c))%nat with (k - length c)%nat by lia.
  case_decide; case_decide; try lia.
  - intros ins' Hi. rewrite (on_sock_on_sock _ _ _ s _ Hs). cbv beta.
    replace (λ s0 : csock, set_in ins' (set_in (Chunk (drop k c) :: ins) (set_in (Chunk c :: ins) s0)))
      with (set_in ins') by done.
    rewrite <-app_assoc, <-take_chunk. apply HQ. rewrite Hi. f_equal. f_equal. symmetry. apply drop_chunk.
  - rewrite (on_sock_on_sock _ _ _ s _ Hs). apply HQ.
Qed.

Lemma recv_loop_spec E fuel fd n buf p s (Q : recv_failure + list byte → proc → Prop) :
  p_socks p !! fd = Some s → (length buf ≤ n)%nat → (n - length buf < fuel)%nat →
  receives fd n buf (stream (cs_in s)) p Q →
  wp E (recv_loop fuel fd n buf) p Q.
Proof.
  revert buf p s. induction fuel as [|fuel IH]; intros buf p s Hs Hb Hf HQ; [lia|].
  cbn [recv_loop]. destruct (Nat.ltb_spec (length buf) n) as [Hlt|Hge].
  2: { unfold receives in HQ. destruct (stream (cs_in s)) as [[av f] rest] eqn:Hst.
       replace (n - length buf)%nat with 0%nat in HQ by lia.
       rewrite decide_True in HQ by lia. rewrite app_nil_r in HQ.
       apply wp_ret. rewrite <-(on_sock_same fd (set_in (cs_in s)) s p Hs (set_in_same s)).
       by apply HQ. }
  apply wp_bind. rewrite <-stream_settle in HQ.
  unfold wp at 1, poll_in. rewrite Hs.
  pose proof (settle_not_empty (cs_in s)) as Hne. pose proof (settle_idemp (cs_in s)) as Hid.
  destruct (settle (cs_in s)) as [|[[|b bs]| |e|e|] ins];
    [|by destruct (Hne ins)|..].
  - apply wp_ret. exact (receives_nothing _ _ _ _ _ _ _ Hlt HQ).
  - (* a chunk *)
    cbn [Z.eqb Z.ltb Z.compare]. apply wp_bind. unfold wp at 1, Posix.recv.
    rewrite (on_sock_lookup _ _ _ _ Hs). cbn [cs_in set_in arrived].
    rewrite (on_sock_on_sock _ _ _ s _ Hs). cbv beta.
    set (c := b :: bs) in *.
    assert (∃ x xs, take (n - length buf) c = x :: xs) as (x & xs & Ht).
    { destruct (take _ c) as [|x xs] eqn:Ht; [|eauto].
      apply (f_equal length) in Ht. rewrite length_take in Ht. simpl in Ht. lia. }
    rewrite Ht, <-Ht.
    apply (IH _ _ (set_in (Chunk (drop (n - length buf) c) :: ins) s)).
    + rewrite (on_sock_lookup _ _ s _ Hs). done.
    + rewrite length_app, length_take. lia.
    + rewrite length_app, length_take. simpl. lia.
    + by eapply receives_chunk.
  - apply wp_ret. exact (receives_nothing _ _ _ _ _ _ _ Hlt HQ).
  - apply wp_ret. exact (receives_nothing _ _ _ _ _ _ _ Hlt HQ).
  - (* recv fails *)
    cbn [Z.eqb Z.ltb Z.compare]. apply wp_bind. unfold wp at 1, Posix.recv.
    rewrite (on_sock_lookup _ _ _ _ Hs). cbn [cs_in set_in arrived].
    rewrite (on_sock_on_sock _ _ _ s _ Hs). apply wp_ret. exact (receives_nothing _ _ _ _ _ _ _ Hlt HQ).
  - (* end of stream *)
    cbn [Z.eqb Z.ltb Z.compare]. apply wp_bind. unfold wp at 1, Posix.recv.
    rewrite (on_sock_lookup _ _ _ _ Hs). cbn [cs_in set_in arrived].
    apply wp_ret. exact (receives_nothing _ _ _ _ _ _ _ Hlt HQ).
Qed.

(** ** The send loop *)

(** Of [n] bytes offered to the kernel: how many it takes, the error that
    stops it, and the rest of its schedule. *)
Fixpoint handed (n : nat) (snd : list send_ev) : nat * option Z * list send_ev :=
  match n, snd with
  | O, _ => (O, None, snd)
  | _, [] => (n, None, [])
  | _, SAccept k :: snd =>
      let '(t, e, rest) := handed (n - Nat.min k n) snd in (Nat.min k n + t, e, rest)%nat
  | _, SErr e :: snd => (O, Some e, snd)
  end.

Lemma handed_bound n snd : ((handed n snd).1.1 ≤ n)%nat.
Proof.
  revert n. induction snd as [|[k|e] snd IH]; intros [|n]; simpl; try lia.
  specialize (IH (S n - Nat.min k (S n))%nat).
  destruct (handed _ snd) as [[t e] rest]. simpl in *. lia.
Qed.

Lemma handed_all n snd t rest : handed n snd = (t, None, rest) → t = n.
Proof.
  revert n t. induction snd as [|[k|e] snd IH]; intros [|n] t H; simpl in H;
    try (simplify_eq; done).
  destruct (handed (S n - _) snd) as [[t' e] rest'] eqn:E. simplify_eq.
  apply IH in E. lia.
Qed.

Lemma take_add_drop {A} i j k (l : list A) :
  take i (drop k l) ++ take j (drop (k + i) l) = take (i + j) (drop k l).
Proof. by rewrite <-drop_drop, take_take_drop. Qed.

Lemma send_loop_spec E fuel fd buf total p s (Q : bool → proc → Prop) :
  p_socks p !! fd = Some s → (total ≤ length buf)%nat → (S (length (cs_snd s)) < fuel)%nat →
  (let '(t, e, rest) := handed (length buf - total) (cs_snd s) in
   let p' := on_sock fd (set_snd rest (cs_out s ++ take t (drop total buf))) p in
   match e with
   | None => Q true p'
   | Some e => if (e =? EPIPE) && negb (p_sigpipe_ignored p) then E Sigpipe else Q false p'
   end) →
  wp E (send_loop fuel fd buf total) p Q.
Proof.
  revert total p s. induction fuel as [|fuel IH]; intros total p s Hs Ht Hf HQ; [lia|].
  cbn [send_loop]. destruct (Nat.ltb_spec total (length buf)) as [Hlt|Hge].
  2: { replace (length buf - total)%nat with 0%nat in HQ by lia.
       assert (handed 0 (cs_snd s) = (0%nat, None, cs_snd s)) as Hh by by destruct (cs_snd s).
       rewrite Hh, take_0, app_nil_r in HQ. apply wp_ret.
       rewrite (on_sock_same _ _ s) in HQ; [done|done|by destruct s]. }
  apply wp_bind. unfold wp at 1, Posix.send. rewrite Hs, length_drop.
  destruct (length buf - total)%nat as [|m] eqn:Hn; [lia|].
  destruct (cs_snd s) as [|[k|e] snd] eqn:Hsnd; simpl Net.send; cbn [handed] in HQ; cbv zeta in HQ.
  - destruct fuel as [|fuel]; [simpl in Hf; lia|]. cbn [send_loop].
    rewrite (proj2 (Nat.ltb_ge _ _)) by lia. apply wp_ret. exact HQ.
  - set (j := Nat.min k (S m)) in *. fold j.
    apply (IH _ _ (set_snd snd (cs_out s ++ take j (drop total buf)) s)).
    + by rewrite (on_sock_lookup _ _ s _ Hs).
    + lia.
    + simpl in *. lia.
    + replace (length buf - (total + j))%nat with (S m - j)%nat by lia. simpl cs_snd.
      destruct (handed (S m - j) snd) as [[t e] rest]. simpl cs_out.
      rewrite (on_sock_on_sock _ _ _ s _ Hs), <-app_assoc, take_add_drop.
      rewrite on_sock_sigpipe. exact HQ.
  - rewrite take_0, app_nil_r in HQ. 
    cbv iota beta. by destruct ((e =? EPIPE) && negb (p_sigpipe_ignored p)).
Qed.

(** Sending the buffer, on an open or a closed descriptor. *)
Lemma send_buffer_spec E fd buf p (Q : bool → proc → Prop) :
  (0 < length buf)%nat →
  (p_socks p !! fd = None → Q false p) →
  (∀ s k e rest, p_socks p !! fd = Some s → handed (length buf) (cs_snd s) = (k, e, rest) →
    let p' := on_sock fd (set_snd rest (cs_out s ++ take k buf)) p in
    match e with
    | None => Q true p'
    | Some e => if (e =? EPIPE) && negb (p_sigpipe_ignored p) then E Sigpipe else Q false p'
    end) →
  wp E (send_loop (S (S (match p_socks p !! fd with
                         | Some s => length (cs_snd s) | None => O end))) fd buf 0) p Q.
Proof.
  intros Hl HN HS. destruct (p_socks p !! fd) as [s|] eqn:Hs.
  - eapply send_loop_spec; [done|lia..|]. rewrite Nat.sub_0_r.
    destruct (handed (length buf) (cs_snd s)) as [[k e] rest] eqn:Hh.
    exact (HS s k e rest eq_refl Hh).
  - cbn [send_loop]. rewrite (proj2 (Nat.ltb_lt _ _)) by done.
    apply wp_bind. unfold wp at 1, Posix.send. rewrite Hs. by apply wp_ret, HN.
Qed.

End ClientLogic.
