(* ===== verification/ClientSpec.v ===== *)
(** * What one command does

    The reply a command must have as a function of the traffic of its socket
    and of the allocations that succeed ([received]), and the proof that
    [eop_send_command] has it on every path: the exact heap, descriptor table
    and handle it leaves, the bytes it has sent and the bytes it has used. *)

From S2P Require Import Prelude Net Serializer Envelope Posix Client ClientLogic.
Local Open Scope Z_scope.

Module ClientSpec.
Import EopEnvelope Posix EopClient ClientLogic.

Inductive reply :=
| Answer (type id : Z) (bs : list byte)
| NoAnswer (code : eop_error_code) (msg : string).

(** The failure of a wait for [what]; [closed] is the text for an orderly end
    of the stream. *)
Definition failure (what closed : string) (f : recv_failure) : eop_error_code * string :=
  match f with
  | RecvTimeout => (EOP_ERR_TIMEOUT, "Timeout waiting for " +:+ what)
  | RecvClosed => (EOP_ERR_DISCONNECTED, closed)
  | RecvPollError => (EOP_ERR_DISCONNECTED, "Poll error waiting for " +:+ what)
  | RecvError => (EOP_ERR_DISCONNECTED, "Recv error reading " +:+ what)
  end.
Definition no_prefix := failure "frame length prefix" "Server closed connection".
Definition no_header := failure "response header" "Server closed connection".
Definition no_payload := failure "response payload" "Server closed connection during payload recv".

Lemma prefix_error_is f : prefix_error f = no_prefix f.
Proof. by destruct f. Qed.
Lemma header_error_is f : header_error f = no_header f.
Proof. by destruct f. Qed.
Lemma payload_error_is f : payload_error f = no_payload f.
Proof. by destruct f. Qed.

(** The reply found in the bytes [av] of a socket whose waiting ends with
    [f], and how many of them it uses ([None]: the socket ran dry). *)
Definition received (av : list byte) (f : recv_failure) (m : list bool)
    : reply * option nat :=
  if (length av <? 4)%nat then (NoAnswer (no_prefix f).1 (no_prefix f).2, None)
  else if (length av <? 14)%nat then (NoAnswer (no_header f).1 (no_header f).2, None)
  else if negb (byte_val (nth 4 av x00) =? EOP_PROTOCOL_VERSION) then
    (NoAnswer EOP_ERR_DISCONNECTED "Unsupported protocol version in response", Some 14%nat)
  else
    let t := byte_val (nth 5 av x00) in
    let id := be_u32 (take 4 (drop 6 av)) in
    let n := Z.to_nat (be_u32 (take 4 (drop 10 av))) in
    if (0 <? n)%nat then
      if negb (alloc_ok m) then
        (NoAnswer EOP_ERR_ALLOC "Failed to allocate response payload buffer", Some 14%nat)
      else if (length av <? 14 + n)%nat then
        (NoAnswer (no_payload f).1 (no_payload f).2, None)
      else if negb (alloc_ok (tail m)) then
        (NoAnswer EOP_ERR_ALLOC "Failed to allocate response struct", Some (14 + n)%nat)
      else (Answer t id (take n (drop 14 av)), Some (14 + n)%nat)
    else if negb (alloc_ok m) then
      (NoAnswer EOP_ERR_ALLOC "Failed to allocate response struct", Some 14%nat)
    else (Answer t id [], Some 14%nat).

(** The handle after a command that released its lock. *)
Definition settled (code : eop_error_code) (msg : string) (c : eop_client_t) : eop_client_t :=
  set_mutex MFree (set_error code (copy_string EOP_ERROR_MSG_SIZE msg) c).

(** The heap after a command: the handle is updated; an answer adds its
    response and, if it has a payload, the payload buffer, at addresses that
    were free. *)
Definition heap_after (client : Z) (c : eop_client_t) (heap heap' : gmap Z block)
    (rep : reply) (r : Z) : Prop :=
  match rep with
  | NoAnswer code msg => r = NULL ∧ heap' = <[client := BClient (settled code msg c)]> heap
  | Answer t id bs =>
      r ≠ NULL ∧ heap !! r = None ∧
      let heap1 := <[client := BClient (settled EOP_OK "" c)]> heap in
      if (0 <? length bs)%nat then
        ∃ a, a ≠ NULL ∧ a ≠ r ∧ heap !! a = None ∧
          heap' = <[r := BResponse (mkResponse t id a (Z.of_nat (length bs)))]>
                    (<[a := BBytes bs]> heap1)
      else heap' = <[r := BResponse (mkResponse t id NULL 0)]> heap1
  end.

(** The events left on the socket. *)
Definition ins_after (tr : list byte * recv_failure * list in_ev) (used : option nat)
    (ins : list in_ev) : Prop :=
  let '(av, f, rest) := tr in
  match used with
  | Some k => stream ins = (drop k av, f, rest)
  | None => ins = rest
  end.

(** ** Error exits *)

Section exits.
Context (E : fault → Prop).

Lemma wp_fail {A} a c code msg (v : A) p Q :
  p_heap p !! a = Some (BClient c) → mutex c = MHeld →
  Q v (set_heap (<[a := BClient (settled code msg c)]> (p_heap p)) p) →
  wp E (set_client_error a code msg;; pthread_mutex_unlock a;; mret v) p Q.
Proof.
  intros Ha Hm HQ. apply wp_bind, (wp_update_client _ _ _ c); [done|].
  apply wp_bind. eapply wp_unlock; [simpl; by rewrite lookup_insert_eq|done|].
  apply wp_ret. simpl. rewrite insert_insert_eq. exact HQ.
Qed.

Lemma wp_fail_free {A} a c x b code msg (v : A) p Q :
  p_heap p !! a = Some (BClient c) → mutex c = MHeld →
  x ≠ 0 → x ≠ a → p_heap p !! x = Some b →
  Q v (set_heap (<[a := BClient (settled code msg c)]> (delete x (p_heap p))) p) →
  wp E (set_client_error a code msg;; free x;; pthread_mutex_unlock a;; mret v) p Q.
Proof.
  intros Ha Hm Hx Hxa Hb HQ. apply wp_bind, (wp_update_client _ _ _ c); [done|].
  apply wp_bind, (wp_free _ _ b); [done|simpl; by rewrite lookup_insert_ne|].
  apply wp_bind. eapply wp_unlock.
  { simpl. rewrite lookup_delete_ne, lookup_insert_eq by done. done. }
  { done. }
  apply wp_ret. simpl. rewrite delete_insert_ne, insert_insert_eq by done. exact HQ.
Qed.

End exits.

(** ** The tail of a command *)

Section command.
Context `{Junk} (E : fault → Prop).

(** A heap in which every block was there before or is new. *)
Lemma heap_ok_grow p p' :
  heap_ok p → p_brk p ≤ p_brk p' →
  (∀ a b, p_heap p' !! a = Some b → is_Some (p_heap p !! a) ∨ p_brk p ≤ a < p_brk p') →
  heap_ok p'.
Proof.
  intros [Hb Hh] Hle Ha. split; [lia|]. intros a b Hab.
  destruct (Ha a b Hab) as [[b' Hb']|]; [|lia]. apply Hh in Hb'. lia.
Qed.

(** The last step, with the payload (if any) already in the heap at [a]. *)
Lemma finish_command_spec client c p t id a n Q :
  heap_ok p → p_heap p !! client = Some (BClient c) → mutex c = MHeld →
  (a = NULL ∨ ∃ bs, a ≠ NULL ∧ p_heap p !! a = Some (BBytes bs)) →
  (alloc_ok (p_mem p) = false →
   ∀ p', same_env p p' → p_brk p' = p_brk p → p_socks p' = p_socks p →
   p_mem p' = tail (p_mem p) →
   p_heap p' = <[client := BClient (settled EOP_ERR_ALLOC "Failed to allocate response struct" c)]>
                 (if a =? NULL then p_heap p else delete a (p_heap p)) →
   Q NULL p') →
  (alloc_ok (p_mem p) = true →
   ∀ p', same_env p p' → p_brk p' = p_brk p + 1 → p_socks p' = p_socks p →
   p_mem p' = tail (p_mem p) →
   p_heap p' = <[p_brk p := BResponse (mkResponse t id a n)]>
                 (<[client := BClient (settled EOP_OK "" c)]> (p_heap p)) →
   Q (p_brk p) p') →
  wp E (finish_command client t id a n) p Q.
Proof.
  intros Ho Hc Hm Ha Hfail Hok. unfold finish_command, eop_response_create.
  pose proof (proj2 Ho _ _ Hc) as Hcb. pose proof (heap_ok_fresh _ Ho) as Hfr.
  apply wp_bind, wp_bind, wp_malloc; intros Hal.
  - simpl. apply wp_ret. simpl. destruct Ha as [->|(bs & Ha & Hb)].
    + apply wp_bind, (wp_update_client _ _ _ c); [done|]. apply wp_bind, wp_free_null.
      apply wp_bind. eapply wp_unlock; [simpl; by rewrite lookup_insert_eq|done|].
      apply wp_ret, Hfail; try done. simpl. by rewrite insert_insert_eq.
    + eapply wp_fail_free; [done..| | |].
      * intros ->. by rewrite Hb in Hc.
      * done.
      * apply Hfail; try done. simpl. by rewrite (proj2 (Z.eqb_neq a NULL)).
  - rewrite (proj2 (Z.eqb_neq (p_brk p) NULL)) by (unfold NULL; lia).
    apply wp_bind. eapply wp_store_response; [simpl; by rewrite lookup_insert_eq|].
    apply wp_ret. cbn beta.
    rewrite (proj2 (Z.eqb_neq (p_brk p) NULL)) by (unfold NULL; lia).
    apply wp_bind, (wp_update_client _ _ _ c).
    { simpl. rewrite !lookup_insert_ne by lia. done. }
    apply wp_bind. eapply wp_unlock; [simpl; by rewrite lookup_insert_eq|done|].
    apply wp_ret, Hok; try done. simpl.
    rewrite insert_insert_eq, insert_insert_eq, insert_insert_ne by lia. done.
Qed.

(** What a command leaves behind, given the traffic [tr] of its socket [s]
    and the reply prescribed by it. *)
Definition leaves (client fd : Z) (c : eop_client_t) (s : csock) (p : proc)
    (tr : list byte * recv_failure * list in_ev) (rep : reply * option nat)
    (r : Z) (p' : proc) : Prop :=
  same_env p p' ∧ heap_ok p' ∧ p_brk p ≤ p_brk p' ∧
  (∃ k, p_mem p' = drop k (p_mem p)) ∧
  heap_after client c (p_heap p) (p_heap p') rep.1 r ∧
  ∃ ins, p_socks p' = <[fd := set_in ins s]> (p_socks p) ∧ ins_after tr rep.2 ins.

Lemma on_sock_socks fd f s p :
  p_socks p !! fd = Some s → p_socks (on_sock fd f p) = <[fd := f s]> (p_socks p).
Proof. intros Hs. by rewrite (on_sock_some _ _ _ _ Hs). Qed.

(** [on_sock] changes the sockets only. *)
Lemma on_sock_rest fd f p :
  same_env p (on_sock fd f p) ∧ p_heap (on_sock fd f p) = p_heap p ∧
  p_brk (on_sock fd f p) = p_brk p ∧ p_mem (on_sock fd f p) = p_mem p.
Proof. unfold on_sock. by destruct (p_socks p !! fd). Qed.

(** An error exit: the heap is as before but for the handle. *)
Lemma fail_leaves client fd c s p p' tr code msg used ins k :
  heap_ok p → p_heap p !! client = Some (BClient c) →
  same_env p p' → p_heap p' = <[client := BClient (settled code msg c)]> (p_heap p) →
  p_brk p ≤ p_brk p' → p_mem p' = drop k (p_mem p) →
  p_socks p' = <[fd := set_in ins s]> (p_socks p) → ins_after tr used ins →
  leaves client fd c s p tr (NoAnswer code msg, used) NULL p'.
Proof.
  intros Ho Hc He Hh Hb Hm Hs Hi. split_and!; [done| |done|by exists k|done|by exists ins].
  apply (heap_ok_grow p); [done..|]. intros a b. rewrite Hh, lookup_insert_Some.
  intros [[<- _]|[_ ?]]; left; eauto.
Qed.

(** A socket nothing was read from. *)
Lemma socks_same fd s (socks : gmap Z csock) :
  socks !! fd = Some s → socks = <[fd := set_in (cs_in s) s]> socks.
Proof. intros Hs. by rewrite set_in_same, insert_id. Qed.

Lemma recv_exact_spec fd n p s (Q : recv_failure + list byte → proc → Prop) :
  p_socks p !! fd = Some s →
  (let '(av, f, rest) := stream (cs_in s) in
   if (n <=? length av)%nat
   then ∀ ins', stream ins' = (drop n av, f, rest) →
        Q (inr (take n av)) (on_sock fd (set_in ins') p)
   else Q (inl f) (on_sock fd (set_in rest) p)) →
  wp E (recv_exact fd n) p Q.
Proof.
  intros Hs HQ. eapply recv_loop_spec; [done|simpl; lia..|].
  unfold receives. destruct (stream (cs_in s)) as [[av f] rest]. rewrite Nat.sub_0_r.
  destruct (Nat.leb_spec n (length av)); [rewrite decide_True|rewrite decide_False]; auto; lia.
Qed.

(** The reply once the header [hb] has been read, from the bytes [av] after
    it. *)
Definition after_header (hb av : list byte) (f : recv_failure) (m : list bool)
    : reply * option nat :=
  if negb (byte_val (nth 0 hb x00) =? EOP_PROTOCOL_VERSION) then
    (NoAnswer EOP_ERR_DISCONNECTED "Unsupported protocol version in response", Some 0%nat)
  else
    let t := byte_val (nth 1 hb x00) in
    let id := be_u32 (take 4 (drop 2 hb)) in
    let n := Z.to_nat (be_u32 (take 4 (drop 6 hb))) in
    if (0 <? n)%nat then
      if negb (alloc_ok m) then
        (NoAnswer EOP_ERR_ALLOC "Failed to allocate response payload buffer", Some 0%nat)
      else if (length av <? n)%nat then
        (NoAnswer (payload_error f).1 (payload_error f).2, None)
      else if negb (alloc_ok (tail m)) then
        (NoAnswer EOP_ERR_ALLOC "Failed to allocate response struct", Some n)
      else (Answer t id (take n av), Some n)
    else if negb (alloc_ok m) then
      (NoAnswer EOP_ERR_ALLOC "Failed to allocate response struct", Some 0%nat)
    else (Answer t id [], Some 0%nat).

(** The response without a payload. *)
Lemma finish_empty_spec client fd c s p t id tr :
  heap_ok p → p_heap p !! client = Some (BClient c) → mutex c = MHeld →
  p_socks p !! fd = Some s → tr = stream (cs_in s) →
  wp E (finish_command client t id NULL 0) p
    (leaves client fd c s p tr
       (if negb (alloc_ok (p_mem p))
        then (NoAnswer EOP_ERR_ALLOC "Failed to allocate response struct", Some 0%nat)
        else (Answer t id [], Some 0%nat))).
Proof.
  intros Ho Hc Hm Hs ->. pose proof (proj2 Ho _ _ Hc) as Hcb.
  assert (∀ p', p_socks p' = p_socks p → ∃ ins,
    p_socks p' = <[fd:=set_in ins s]> (p_socks p) ∧ ins_after (stream (cs_in s)) (Some 0%nat) ins)
    as Hi.
  { intros p' ->. exists (cs_in s). rewrite set_in_same, insert_id by done. split; [done|].
    unfold ins_after. by destruct (stream (cs_in s)) as [[??]?]. }
  eapply finish_command_spec; [done..|by left| |]; intros Hal p' He Hb Hk Hmem Hh;
    rewrite Hal; cbn [negb].
  - split_and!; [done| |lia|by exists 1%nat|done|by apply Hi].
    apply (heap_ok_grow p); [done|lia|]. intros a b. simpl in Hh.
    rewrite Hh, lookup_insert_Some. intros [[<- _]|[_ ?]]; left; eauto.
  - split_and!; [done| |lia|by exists 1%nat| |by apply Hi].
    + apply (heap_ok_grow p); [done|lia|]. intros a b. rewrite Hh, !lookup_insert_Some.
      intros [[<- _]|[_ [[<- _]|[_ ?]]]]; [right; lia|left; eauto..].
    + split_and!; [unfold NULL; destruct Ho; lia|by apply heap_ok_fresh|done].
Qed.

(** The response once its payload has been read into the block at [p_brk p];
    [p2] is [p] after that. *)
Lemma finish_payload_spec client fd c s p p2 t id data tr ins :
  heap_ok p → p_heap p !! client = Some (BClient c) → mutex c = MHeld →
  (0 < length data)%nat → same_env p p2 → p_brk p2 = p_brk p + 1 → p_mem p2 = tail (p_mem p) →
  p_heap p2 = <[p_brk p := BBytes data]> (p_heap p) →
  p_socks p2 = <[fd := set_in ins s]> (p_socks p) → ins_after tr (Some (length data)) ins →
  wp E (finish_command client t id (p_brk p) (Z.of_nat (length data))) p2
    (leaves client fd c s p tr
       (if negb (alloc_ok (tail (p_mem p)))
        then (NoAnswer EOP_ERR_ALLOC "Failed to allocate response struct", Some (length data))
        else (Answer t id data, Some (length data)))).
Proof.
  intros Ho Hc Hm Hn He2 Hb2 Hm2 Hh2 Hk2 Hi. pose proof (proj2 Ho _ _ Hc) as Hcb.
  pose proof (heap_ok_fresh _ Ho) as Hfr.
  assert (heap_ok p2) as Ho2.
  { apply (heap_ok_grow p); [done|lia|]. intros a b.
    rewrite Hh2, lookup_insert_Some. intros [[<- _]|[_ ?]]; [right; lia|left; eauto]. }
  assert (∀ p', p_mem p' = tail (p_mem p2) → p_mem p' = drop 2 (p_mem p)) as Hd.
  { intros p' ->. rewrite Hm2. by destruct (p_mem p) as [|? []]. }
  eapply finish_command_spec; [exact Ho2| |done| | |].
  - rewrite Hh2, lookup_insert_ne by lia. exact Hc.
  - right. exists data. split; [unfold NULL; lia|]. rewrite Hh2. apply lookup_insert_eq.
  - rewrite Hm2. intros Hal p' He Hb Hk Hmem Hh. rewrite Hal. cbn [negb].
    rewrite (proj2 (Z.eqb_neq (p_brk p) NULL)) in Hh by (unfold NULL; lia).
    eapply (fail_leaves _ _ _ _ _ _ _ _ _ _ ins 2); try done; [by eapply same_env_trans| |lia| |congruence].
    + by rewrite Hh, Hh2, delete_insert_id.
    + apply Hd. by rewrite Hm2.
  - rewrite Hm2. intros Hal p' He Hb Hk Hmem Hh. rewrite Hal. cbn [negb]. rewrite Hb2, Hh2 in Hh.
    split_and!; [by eapply same_env_trans| |lia| | |].
    + apply (heap_ok_grow p); [done|lia|]. intros a b. rewrite Hh, !lookup_insert_Some.
      intros [[<- _]|[_ [[<- _]|[_ [[<- _]|[_ ?]]]]]]; [right; lia|left; eauto|right; lia|left; eauto].
    + exists 2%nat. apply Hd. by rewrite Hm2.
    + cbn [fst heap_after]. rewrite Hb2, (proj2 (Nat.ltb_lt _ _)) by done.
      split_and!; [unfold NULL; lia| |].
      * destruct (p_heap p !! (p_brk p + 1)) eqn:E1; [|done]. apply Ho in E1. lia.
      * exists (p_brk p). split_and!; [unfold NULL; lia|lia|done|].
        rewrite Hh. f_equal. by rewrite insert_insert_ne by lia.
    + exists ins. split; [congruence|exact Hi].
Qed.

Lemma recv_payload_spec client fd c s p hb :
  heap_ok p → p_heap p !! client = Some (BClient c) → mutex c = MHeld →
  p_socks p !! fd = Some s → length hb = 10%nat →
  wp E (recv_payload client fd hb) p
    (leaves client fd c s p (stream (cs_in s))
       (after_header hb (stream (cs_in s)).1.1 (stream (cs_in s)).1.2 (p_mem p))).
Proof.
  intros Ho Hc Hm Hs Hl. unfold recv_payload, after_header.
  destruct (stream (cs_in s)) as [[av f] rest] eqn:Hst. cbn [fst snd].
  assert (in_width 32 (be_u32 (take 4 (drop 6 hb)))) as [Hn0 _].
  { apply be_u32_range. rewrite length_take, length_drop. lia. }
  assert (ins_after (av, f, rest) (Some 0%nat) (cs_in s)) as Hi0 by done.
  case_goal.
  { apply wp_fail with c; [done..|].
    eapply (fail_leaves _ _ _ _ _ _ _ _ _ _ (cs_in s) 0); try done. by apply socks_same. }
  set (t := byte_val (nth 1 hb x00)). set (id := be_u32 (take 4 (drop 2 hb))).
  set (nz := be_u32 (take 4 (drop 6 hb))) in *.
  destruct (Z.ltb_spec 0 nz) as [Hn|Hn].
  2: { replace nz with 0 by lia. cbn [Z.to_nat Nat.ltb Nat.leb].
       apply finish_empty_spec; done. }
  rewrite (proj2 (Nat.ltb_lt 0 (Z.to_nat nz))) by lia.
  pose proof (proj2 Ho _ _ Hc) as Hcb. pose proof (heap_ok_fresh _ Ho) as Hfr.
  apply wp_bind, wp_malloc; intros Hal; rewrite Hal; cbn [negb].
  { apply wp_fail with c; [done..|].
    eapply (fail_leaves _ _ _ _ _ _ _ _ _ _ (cs_in s) 1); try done. by apply socks_same. }
  rewrite (proj2 (Z.eqb_neq (p_brk p) NULL)) by (unfold NULL; lia).
  set (p1 := set_heap _ _).
  assert (p_heap p1 !! client = Some (BClient c)) as Hc1.
  { simpl. rewrite lookup_insert_ne by lia. done. }
  apply wp_bind. eapply recv_exact_spec; [done|]. rewrite Hst.
  set (n := Z.to_nat nz) in *.
  destruct (Nat.leb_spec n (length av)) as [Hle|Hgt].
  2: { rewrite (proj2 (Nat.ltb_lt _ _)) by done. cbv iota beta.
       rewrite (on_sock_some _ _ s) by done.
       eapply wp_fail_free; [done|done|lia|lia|simpl; by rewrite lookup_insert_eq|].
       eapply (fail_leaves _ _ _ _ _ _ _ _ _ _ rest 1); try done.
       - simpl. by rewrite delete_insert_id.
       - simpl. lia. }
  rewrite (proj2 (Nat.ltb_ge _ _)) by done. intros ins Hins. cbv iota beta.
  rewrite (on_sock_some _ _ s) by done.
  apply wp_bind. eapply wp_store_bytes; [simpl; by rewrite lookup_insert_eq|].
  assert (length (take n av) = n) as Hlen by (rewrite length_take; lia).
  replace nz with (Z.of_nat (length (take n av))) by lia.
  eapply wp_mono; [apply (finish_payload_spec client fd c s p _ t id (take n av) (av, f, rest) ins)|];
    rewrite ?Hlen; try done; [lia|]. simpl. by rewrite insert_insert_eq.
Qed.

(** [received] is the two first phases followed by [after_header]. *)
Lemma received_header av f m :
  (14 ≤ length av)%nat →
  received av f m =
  (let '(rep, used) := after_header (take 10 (drop 4 av)) (drop 14 av) f m in
   (rep, Nat.add 14 <$> used)).
Proof.
  intros Hl. unfold received, after_header.
  rewrite !(proj2 (Nat.ltb_ge _ _)) by lia.
  rewrite !MessageSerializer.nth_take, !MessageSerializer.nth_drop by lia. cbn [Nat.add].
  rewrite !MessageSerializer.take_drop_commute', !take_take, !drop_drop. cbn [Nat.add Nat.min].
  case_goal; [done|]. rewrite length_drop.
  set (n := Z.to_nat (be_u32 (drop 10 (take 14 av)))).
  assert ((length av - 14 <? n)%nat = (length av <? 14 + n)%nat) as ->.
  { destruct (Nat.ltb_spec (length av) (14 + n)); [apply Nat.ltb_lt|apply Nat.ltb_ge]; lia. }
  change (S (S (S (S (S (S (S (S (S (S (S (S (S (S n)))))))))))))) with (14 + n)%nat.
  destruct (0 <? n)%nat, (alloc_ok m), (length av <? 14 + n)%nat, (alloc_ok (tail m)); done.
Qed.

Lemma leaves_trans client fd c s p ins p1 tr tr' rep used used' r p' :
  leaves client fd c (set_in ins s) p1 tr' (rep, used') r p' →
  same_env p p1 → p_heap p1 = p_heap p → p_brk p1 = p_brk p → p_mem p1 = p_mem p →
  p_socks p1 = <[fd := set_in ins s]> (p_socks p) →
  (∀ ins', ins_after tr' used' ins' → ins_after tr used ins') →
  leaves client fd c s p tr (rep, used) r p'.
Proof.
  intros (He & Ho & Hb & [k Hm] & Hh & ins' & Hs & Hi) He1 Hh1 Hb1 Hm1 Hs1 Hins.
  cbn [fst snd] in *.
  split_and!; [by eapply same_env_trans|done|lia| | |].
  - exists k. by rewrite Hm, Hm1.
  - by rewrite <-Hh1.
  - exists ins'. rewrite Hs, Hs1, insert_insert_eq. split; [done|]. auto.
Qed.

Lemma recv_response_spec client fd c s p :
  heap_ok p → p_heap p !! client = Some (BClient c) → mutex c = MHeld →
  p_socks p !! fd = Some s →
  wp E (recv_response client fd) p
    (leaves client fd c s p (stream (cs_in s))
       (received (stream (cs_in s)).1.1 (stream (cs_in s)).1.2 (p_mem p))).
Proof.
  intros Ho Hc Hm Hs. unfold recv_response.
  destruct (stream (cs_in s)) as [[av f] rest] eqn:Hst. cbn [fst snd].
  apply wp_bind. eapply recv_exact_spec; [done|]. rewrite Hst.
  change (Z.to_nat EOP_FRAME_PREFIX_SIZE) with 4%nat.
  change (Z.to_nat EOP_ENVELOPE_HEADER_SIZE) with 10%nat.
  destruct (Nat.leb_spec 4 (length av)) as [H4|H4].
  2: { unfold received. rewrite (proj2 (Nat.ltb_lt _ _)) by done.
       rewrite (on_sock_some _ _ s) by done. apply wp_fail with c; [done..|].
       by eapply (fail_leaves _ _ _ _ _ _ _ _ _ _ rest 0). }
  intros ins1 Hi1. rewrite (on_sock_some _ _ s) by done. set (p1 := set_socks _ _).
  assert (p_socks p1 !! fd = Some (set_in ins1 s)) as Hs1.
  { simpl. by rewrite lookup_insert_eq. }
  apply wp_bind. eapply recv_exact_spec; [done|]. cbn [cs_in set_in]. rewrite Hi1, length_drop.
  destruct (Nat.leb_spec 10 (length av - 4)) as [H10|H10].
  2: { unfold received. rewrite (proj2 (Nat.ltb_ge _ 4)), (proj2 (Nat.ltb_lt _ 14)) by lia.
       rewrite (on_sock_some _ _ (set_in ins1 s)) by done. apply wp_fail with c; [done..|].
       eapply (fail_leaves _ _ _ _ _ _ _ _ _ _ rest 0); try done.
       simpl. by rewrite insert_insert_eq. }
  intros ins2 Hi2. rewrite drop_drop in Hi2. cbn [Nat.add] in Hi2.
  rewrite (on_sock_some _ _ (set_in ins1 s)) by done.
  set (p2 := set_socks _ _).
  eapply wp_mono.
  { eapply recv_payload_spec; [exact Ho|done|done| |].
    - simpl. by rewrite lookup_insert_eq.
    - rewrite length_take, length_drop. lia. }
  intros r p'. cbn [cs_in set_in]. rewrite Hi2. cbn [fst snd]. intros Hlv.
  rewrite received_header by lia. destruct (after_header _ _ _ _) as [rep used].
  eapply (leaves_trans _ _ _ s p ins2); [exact Hlv|done..| |].
  - simpl. by rewrite insert_insert_eq.
  - intros ins'. unfold ins_after. destruct used as [k|]; [|done]. simpl. by rewrite drop_drop.
Qed.

(** ** The request *)

(** The frame of a command: the length of what follows, then the envelope. *)
Definition request (t id : Z) (bs : list byte) : list byte :=
  u32_be (EOP_ENVELOPE_HEADER_SIZE + Z.of_nat (length bs)) ++ envelope_bytes t id bs.

Lemma length_request t id bs : length (request t id bs) = (14 + length bs)%nat.
Proof. unfold request. rewrite length_app, length_u32_be, length_envelope_bytes. lia. Qed.

Lemma serialize_invalid t id payload_ (bs buf : list byte) :
  ¬ valid_type t → Z.of_nat (length bs) < 2 ^ 32 →
  eop_envelope_serialize t id payload_ (Z.of_nat (length bs)) buf
    (10 + Z.of_nat (length bs)) = Some (EOP_ERR_INVALID_MESSAGE_TYPE, buf).
Proof.
  unfold valid_type. intros Ht Hs. unfold eop_envelope_serialize, EOP_ENVELOPE_HEADER_SIZE.
  rewrite wrap_small by (unfold in_width; lia). rewrite (proj2 (Z.ltb_ge _ _)) by lia.
  destruct (Z.ltb_spec t EOP_REGISTER); [done|].
  destruct (Z.ltb_spec EOP_EDGE_TELEMETRY t); [done|lia].
Qed.

Lemma fill_send_buf_spec t id payload_ bs a buf p (Q : eop_error_code → proc → Prop) :
  points_to payload_ bs → Z.of_nat (length bs) < 2 ^ 32 - 14 →
  p_heap p !! a = Some (BBytes buf) → length buf = (14 + length bs)%nat →
  (¬ valid_type t → ∀ buf', Q EOP_ERR_INVALID_MESSAGE_TYPE
     (set_heap (<[a := BBytes buf']> (p_heap p)) p)) →
  (valid_type t → Q EOP_OK (set_heap (<[a := BBytes (request t id bs)]> (p_heap p)) p)) →
  wp E (fill_send_buf t id payload_ (Z.of_nat (length bs)) a) p Q.
Proof.
  intros Hp Hs Ha Hl Hbad Hok. unfold fill_send_buf, EOP_ENVELOPE_HEADER_SIZE.
  rewrite (wrap_small 64), (wrap_small 32) by (unfold in_width; lia).
  apply wp_bind, (wp_load_bytes _ _ buf); [done|].
  destruct buf as [|b1 [|b2 [|b3 [|b4 buf]]]]; simpl in Hl; try lia.
  set (l := u32_be (10 + Z.of_nat (length bs))).
  apply wp_bind, (wp_in_bounds _ _ (l ++ buf)).
  { change (b1 :: b2 :: b3 :: b4 :: buf) with ([] ++ [b1; b2; b3; b4] ++ buf).
    by rewrite (mem_write_at 0 [] l [b1; b2; b3; b4] buf). }
  change (drop (Z.to_nat EOP_FRAME_PREFIX_SIZE) (l ++ buf)) with buf.
  change (take (Z.to_nat EOP_FRAME_PREFIX_SIZE) (l ++ buf)) with l.
  destruct (decide (valid_type t)) as [Ht|Ht].
  - apply wp_bind, (wp_in_bounds _ _ (EOP_OK, envelope_bytes t id bs)).
    { rewrite <-(serialize_layout t id payload_ bs buf) by (done || lia). f_equal. lia. }
    apply wp_bind. eapply wp_store_bytes; [done|]. apply wp_ret. by apply Hok.
  - apply wp_bind, (wp_in_bounds _ _ (EOP_ERR_INVALID_MESSAGE_TYPE, buf)).
    { apply serialize_invalid; [done|lia]. }
    apply wp_bind. eapply wp_store_bytes; [done|]. apply wp_ret. by apply Hbad.
Qed.

(** ** The whole command *)

(** The handle stays where it is. *)
Lemma heap_after_client client c heap heap' rep r :
  is_Some (heap !! client) → heap_after client c heap heap' rep r →
  ∃ code msg, heap' !! client = Some (BClient (settled code msg c)).
Proof.
  intros [b Hb] Hh. destruct rep as [t id bs|code msg]; simpl in Hh.
  - destruct Hh as (_ & Hr & Hh). exists EOP_OK, EmptyString.
    destruct (0 <? length bs)%nat.
    + destruct Hh as (a & _ & _ & Ha & ->).
      rewrite !lookup_insert_ne, lookup_insert_eq by congruence. done.
    + rewrite Hh, lookup_insert_ne, lookup_insert_eq by congruence. done.
  - exists code, msg. destruct Hh as [_ ->]. apply lookup_insert_eq.
Qed.

Lemma heap_after_handle client c b heap heap' rep r :
  is_Some (heap !! client) →
  heap_after client c (<[client := b]> heap) heap' rep r → heap_after client c heap heap' rep r.
Proof.
  intros [b0 Hb]. destruct rep as [t id bs|code msg]; simpl.
  2: { rewrite insert_insert_eq. done. }
  intros (Hr & Hn & Hh). apply lookup_insert_None in Hn as [Hn Hne].
  split_and!; [done|done|]. case_goal.
  - destruct Hh as (a & Ha & Har & Hfa & ->). apply lookup_insert_None in Hfa as [Hfa Hca].
    exists a. by rewrite insert_insert_eq.
  - by rewrite Hh, insert_insert_eq.
Qed.

(** The reply a command must have. *)
Definition command_reply (t : Z) (bs : list byte) (os : option csock) (m : list bool)
    : reply * option nat :=
  if negb (alloc_ok m) then
    (NoAnswer EOP_ERR_ALLOC "Failed to allocate send buffer", Some 0%nat)
  else if negb (bool_decide (valid_type t)) then
    (NoAnswer EOP_ERR_INVALID_MESSAGE_TYPE "Failed to serialize envelope", Some 0%nat)
  else
    match os with
    | None => (NoAnswer EOP_ERR_DISCONNECTED "Send failed", Some 0%nat)
    | Some s =>
        match (handed (14 + length bs) (cs_snd s)).1.2 with
        | Some _ => (NoAnswer EOP_ERR_DISCONNECTED "Send failed", Some 0%nat)
        | None => received (stream (cs_in s)).1.1 (stream (cs_in s)).1.2 (tail m)
        end
    end.

(** The socket after it: what the kernel took of the request has been sent. *)
Definition sock_sent (t id : Z) (bs : list byte) (m : list bool) (s : csock) : csock :=
  if alloc_ok m && bool_decide (valid_type t) then
    let '(k, _, rest) := handed (14 + length bs) (cs_snd s) in
    set_snd rest (cs_out s ++ take k (request t id bs)) s
  else s.

Definition command_leaves (client : Z) (c : eop_client_t) (t : Z) (bs : list byte)
    (p : proc) (r : Z) (p' : proc) : Prop :=
  let fd := socket_fd c in
  let rep := command_reply t bs (p_socks p !! fd) (p_mem p) in
  same_env p p' ∧ heap_ok p' ∧ p_brk p ≤ p_brk p' ∧
  (∃ k, p_mem p' = drop k (p_mem p)) ∧
  heap_after client (set_next_id (u32 (next_msg_id c + 1)) c) (p_heap p) (p_heap p') rep.1 r ∧
  match p_socks p !! fd with
  | None => p_socks p' = p_socks p
  | Some s =>
      ∃ ins, ins_after (stream (cs_in s)) rep.2 ins ∧
        p_socks p' =
          <[fd := set_in ins (sock_sent t (next_msg_id c) bs (p_mem p) s)]> (p_socks p)
  end.

End command.

(** The only way a command does not return: the request is complete, and the
    kernel reports a broken pipe to a process that has not arranged to ignore
    SIGPIPE. *)
Definition breaks (c : eop_client_t) (t : Z) (bs : list byte) (p : proc) : Prop :=
  alloc_ok (p_mem p) = true ∧ valid_type t ∧ p_sigpipe_ignored p = false ∧
  ∃ s, p_socks p !! socket_fd c = Some s ∧ (handed (14 + length bs) (cs_snd s)).1.2 = Some EPIPE.

Definition broken_pipe (c : eop_client_t) (t : Z) (bs : list byte) (p : proc) (f : fault) : Prop :=
  f = Sigpipe ∧ breaks c t bs p.

Section send_command.
Context `{Junk}.

(** An exit of the command before anything is received: only the handle and
    possibly the sending side of the socket have changed. *)
Lemma early_exit client c t bs p p' code msg k :
  heap_ok p → p_heap p !! client = Some (BClient c) →
  command_reply t bs (p_socks p !! socket_fd c) (p_mem p) = (NoAnswer code msg, Some 0%nat) →
  same_env p p' → p_brk p ≤ p_brk p' → p_mem p' = drop k (p_mem p) →
  p_heap p' =
    <[client := BClient (settled code msg (set_next_id (u32 (next_msg_id c + 1)) c))]> (p_heap p) →
  (p_socks p !! socket_fd c = None → p_socks p' = p_socks p) →
  (∀ s, p_socks p !! socket_fd c = Some s →
    p_socks p' = <[socket_fd c := sock_sent t (next_msg_id c) bs (p_mem p) s]> (p_socks p)) →
  ¬ breaks c t bs p →
  ¬ breaks c t bs p ∧ command_leaves client c t bs p NULL p'.
Proof.
  intros Ho Hc Hrep He Hb Hm Hh Hs0 Hs1 Hnb. split; [done|]. unfold command_leaves. rewrite Hrep.
  split_and!; [done| |done|by exists k|done|].
  - apply (heap_ok_grow p); [done..|]. intros a b. rewrite Hh, lookup_insert_Some.
    intros [[<- _]|[_ ?]]; left; eauto.
  - destruct (p_socks p !! socket_fd c) as [s|]; [|auto].
    exists (cs_in s). split.
    + unfold ins_after. by destruct (stream (cs_in s)) as [[??]?].
    + rewrite (Hs1 s eq_refl). f_equal. unfold sock_sent. case_goal; [|by destruct s].
      destruct (handed _ _) as [[??]?]. by destruct s.
Qed.

(** [breaks] is decided by what the kernel takes of the frame. *)
Lemma breaks_handed c t bs p s k e rest :
  alloc_ok (p_mem p) = true → valid_type t → p_socks p !! socket_fd c = Some s →
  handed (14 + length bs) (cs_snd s) = (k, e, rest) →
  breaks c t bs p ↔ e = Some EPIPE ∧ p_sigpipe_ignored p = false.
Proof.
  intros Hal Hv Hs Hh. unfold breaks. rewrite Hs. split.
  - intros (_ & _ & ? & s0 & ? & He). simplify_eq. by rewrite Hh in He.
  - intros [-> ?]. split_and!; try done. exists s. split; [done|].
    exact (f_equal (λ x, x.1.2) Hh).
Qed.

(** The frame has gone out: [p4] is [p] after the lock, the new identifier and
    the sending, the buffer freed. *)
Lemma answer_spec E client c t bs p p4 s snd' :
  let hc := set_mutex MHeld (set_next_id (u32 (next_msg_id c + 1)) c) in
  heap_ok p → p_heap p !! client = Some (BClient c) → alloc_ok (p_mem p) = true → valid_type t →
  p_socks p !! socket_fd c = Some s →
  handed (14 + length bs) (cs_snd s) = ((14 + length bs)%nat, None, snd') →
  same_env p p4 → p_brk p4 = p_brk p + 1 → p_mem p4 = tail (p_mem p) →
  p_heap p4 = <[client := BClient hc]> (p_heap p) →
  p_socks p4 = <[socket_fd c := sock_sent t (next_msg_id c) bs (p_mem p) s]> (p_socks p) →
  wp E (recv_response client (socket_fd c)) p4 (command_leaves client c t bs p).
Proof.
  intros hc Ho Hc Hal Hv Hs Hhd He4 Hb4 Hm4 Hh4 Hk4. eapply wp_mono.
  { eapply (recv_response_spec _ client (socket_fd c) hc); [| |done|].
    - apply (heap_ok_grow p); [done|lia|]. intros a b.
      rewrite Hh4, lookup_insert_Some. intros [[<- _]|[_ ?]]; left; eauto.
    - rewrite Hh4. apply lookup_insert_eq.
    - rewrite Hk4. apply lookup_insert_eq. }
  assert (cs_in (sock_sent t (next_msg_id c) bs (p_mem p) s) = cs_in s) as ->.
  { unfold sock_sent. case_goal; [|done]. by destruct (handed _ _) as [[??]?]. }
  intros r p'. rewrite Hm4. intros (He & Ho' & Hb & [j Hj] & Hh & ins & Hki & Hi).
  unfold command_leaves. rewrite Hs. unfold command_reply.
  rewrite Hal, bool_decide_true, Hhd by done. cbn [fst snd negb].
  split_and!; [by eapply same_env_trans|done|lia| | |].
  - exists (S j). rewrite Hj, Hm4. destruct (p_mem p); simpl; by rewrite ?drop_nil.
  - rewrite Hh4 in Hh. apply (heap_after_handle _ _ (BClient hc)); [by eexists|]. exact Hh.
  - exists ins. split; [exact Hi|]. by rewrite Hki, Hk4, insert_insert_eq.
Qed.

(** From the filled buffer on: [p2] is the process [p] after the lock, the
    new identifier and the allocation of the buffer. *)
Lemma transmit_spec client c t bs p p2 :
  heap_ok p → p_heap p !! client = Some (BClient c) →
  alloc_ok (p_mem p) = true → valid_type t →
  same_env p p2 → p_socks p2 = p_socks p → p_brk p2 = p_brk p + 1 →
  p_mem p2 = tail (p_mem p) →
  p_heap p2 = <[p_brk p := BBytes (request t (next_msg_id c) bs)]>
    (<[client := BClient (set_mutex MHeld (set_next_id (u32 (next_msg_id c + 1)) c))]> (p_heap p)) →
  wp (broken_pipe c t bs p) (transmit client (socket_fd c) (p_brk p)) p2
    (λ r p', ¬ breaks c t bs p ∧ command_leaves client c t bs p r p').
Proof.
  set (hc := set_mutex MHeld _).
  intros Ho Hc Hal Hv He2 Hk2 Hbr2 Hm2 Hh2. unfold transmit.
  pose proof (proj2 Ho _ _ Hc) as Hcb. pose proof (heap_ok_fresh _ Ho) as Hfr.
  apply wp_bind, (wp_load_bytes _ _ (request t (next_msg_id c) bs));
    [rewrite Hh2; apply lookup_insert_eq|].
  apply wp_bind, wp_gets.
  assert (delete (p_brk p) (p_heap p2) = <[client := BClient hc]> (p_heap p)) as Hd2.
  { rewrite Hh2. apply delete_insert_id. rewrite lookup_insert_ne by lia. done. }
  assert (p_heap p2 !! client = Some (BClient hc)) as Hc2.
  { rewrite Hh2, lookup_insert_ne, lookup_insert_eq by lia. done. }
  assert (is_Some (p_heap p2 !! p_brk p)) as [b2 Hb2].
  { rewrite Hh2, lookup_insert_eq. eauto. }
  apply wp_bind, send_buffer_spec.
  - rewrite length_request. lia.
  - rewrite Hk2. intros Hsk. cbn [negb].
    eapply wp_fail_free; [done|done|lia|lia|done|]. rewrite Hd2, insert_insert_eq.
    eapply (early_exit _ _ _ _ _ _ _ _ 1); try done.
    + unfold command_reply. by rewrite Hal, bool_decide_true, Hsk by done.
    + simpl. lia.
    + intros s Hsk'. congruence.
    + intros (_ & _ & _ & s & Hsk' & _). congruence.
  - rewrite Hk2. intros s k e rest Hsk Hhd p3. rewrite length_request in Hhd.
    assert (p3 = set_socks (<[socket_fd c := set_snd rest
      (cs_out s ++ take k (request t (next_msg_id c) bs)) s]> (p_socks p)) p2) as ->.
    { unfold p3. rewrite (on_sock_some _ _ s) by by rewrite Hk2. by rewrite Hk2. }
    assert (sock_sent t (next_msg_id c) bs (p_mem p) s =
      set_snd rest (cs_out s ++ take k (request t (next_msg_id c) bs)) s) as Hss.
    { unfold sock_sent. by rewrite Hal, bool_decide_true, Hhd by done. }
    assert (p_sigpipe_ignored p2 = p_sigpipe_ignored p) as Hsig by apply He2.
    pose proof (breaks_handed c t bs p s k e rest Hal Hv Hsk Hhd) as Hbr.
    destruct e as [e|]; [destruct ((e =? EPIPE) && _) eqn:Hep|]; cbn [negb].
    + bool_to_prop. subst e. split; [done|]. apply Hbr. by rewrite <-Hsig.
    + eapply wp_fail_free; [done|done|lia|lia|done|]. simpl. rewrite Hd2, insert_insert_eq.
      eapply (early_exit _ _ _ _ _ _ _ _ 1); try done.
      * unfold command_reply. by rewrite Hal, bool_decide_true, Hsk, Hhd by done.
      * simpl. lia.
      * congruence.
      * intros s' Hs'. rewrite Hsk in Hs'. simplify_eq. by rewrite Hss.
      * rewrite Hbr, <-Hsig. intros [? Hig]. simplify_eq. by rewrite Hig in Hep.
    + pose proof (handed_all _ _ _ _ Hhd) as ->.
      apply wp_bind, (wp_free _ _ b2); [lia|done|].
      eapply wp_mono; [eapply (answer_spec _ client c t bs p _ s rest); try done; by rewrite Hss|].
      intros r p' Hl. split; [|done]. rewrite Hbr. by intros [? _].
Qed.

Lemma send_command_spec client c t payload_ bs p :
  client ≠ NULL → heap_ok p → p_heap p !! client = Some (BClient c) → mutex c = MFree →
  points_to payload_ bs → Z.of_nat (length bs) < 2 ^ 32 - 14 →
  wp (broken_pipe c t bs p)
    (eop_send_command client t payload_ (Z.of_nat (length bs))) p
    (λ r p', ¬ breaks c t bs p ∧ command_leaves client c t bs p r p').
Proof.
  intros Hnull Ho Hc Hm Hp Hs. unfold eop_send_command.
  rewrite (proj2 (Z.eqb_neq client NULL)) by done.
  assert (bool_decide (payload_ = None) && (0 <? Z.of_nat (length bs)) = false) as ->.
  { destruct Hp as [->|[-> ->]]; [|done]. by rewrite bool_decide_false. }
  pose proof (proj2 Ho _ _ Hc) as Hcb. pose proof (heap_ok_fresh _ Ho) as Hfr.
  set (c1 := set_next_id (u32 (next_msg_id c + 1)) c).
  set (hc := set_mutex MHeld c1).
  apply wp_bind, (wp_lock _ _ c); [done..|].
  apply wp_bind. eapply wp_load_client; [simpl; by rewrite lookup_insert_eq|]. cbv zeta.
  apply wp_bind. eapply wp_update_client; [simpl; by rewrite lookup_insert_eq|]. simpl.
  rewrite insert_insert_eq. fold c1 hc.
  unfold EOP_ENVELOPE_HEADER_SIZE, EOP_FRAME_PREFIX_SIZE.
  rewrite (wrap_small 64 (10 + _)), (wrap_small 64 (4 + (10 + _))) by (unfold in_width; lia).
  replace (Z.to_nat _) with (14 + length bs)%nat by lia.
  apply wp_bind, wp_malloc; cbn [p_mem p_brk p_heap set_heap]; intros Hal.
  { rewrite Z.eqb_refl. eapply wp_fail; [simpl; by rewrite lookup_insert_eq|done|].
    eapply (early_exit _ _ _ _ _ _ _ _ 1); try done.
    - unfold command_reply. by rewrite Hal.
    - simpl. by rewrite insert_insert_eq.
    - intros s Hsk. unfold sock_sent. rewrite Hal. simpl. by rewrite insert_id.
    - intros (Hal' & _). congruence. }
  rewrite (proj2 (Z.eqb_neq (p_brk p) NULL)) by (unfold NULL; lia).
  set (p1 := set_heap _ _).
  assert (p_heap p1 !! client = Some (BClient hc)) as Hc1.
  { simpl. rewrite lookup_insert_ne, lookup_insert_eq by lia. done. }
  apply wp_bind. eapply fill_send_buf_spec; [exact Hp|done|apply lookup_insert_eq| | |].
  { by rewrite length_fmap, length_seq. }
  - intros Hv buf. rewrite bool_decide_true by done.
    eapply wp_fail_free; [simpl; by rewrite lookup_insert_ne by lia|done|unfold NULL in *; lia|lia|
      simpl; by rewrite lookup_insert_eq|].
    eapply (early_exit _ _ _ _ _ _ _ _ 1); try done.
    + unfold command_reply. rewrite Hal, bool_decide_false by done. done.
    + simpl. lia.
    + simpl. rewrite insert_insert_eq, delete_insert_id, insert_insert_eq; [done|].
      rewrite lookup_insert_ne by lia. done.
    + intros s Hsk. unfold sock_sent. rewrite Hal, bool_decide_false by done.
      simpl. by rewrite insert_id.
    + by intros (_ & Hv' & _).
  - intros Hv. rewrite bool_decide_false by naive_solver. set (p2 := set_heap _ _).
    assert (p_heap p2 = <[p_brk p := BBytes (request t (next_msg_id c) bs)]>
              (<[client := BClient hc]> (p_heap p))) as Hh2.
    { simpl. by rewrite insert_insert_eq. }
    change (socket_fd (set_mutex MHeld c)) with (socket_fd c). by apply transmit_spec.
Qed.

End send_command.

(** ** Correctness of a command *)

(** C8: [eop_send_command] returns on every schedule of the network and the
    allocator, unless a broken pipe kills the process; its result is the reply
    that [command_reply] prescribes for what arrives, with an answer in newly
    allocated memory and an error as a null pointer and the handle's error
    code and text; the handle's identifier has moved by one and its lock is
    free again, the request (or what the kernel took of it) has been sent,
    exactly the bytes of the reply have been used, and nothing else of the
    process has changed: no buffer is left behind on any path. *)
Theorem send_command_correct `{Junk} client c t payload_ bs p :
  client ≠ NULL → heap_ok p → p_heap p !! client = Some (BClient c) → mutex c = MFree →
  points_to payload_ bs → Z.of_nat (length bs) < 2 ^ 32 - 14 →
  wp (broken_pipe c t bs p)
    (eop_send_command client t payload_ (Z.of_nat (length bs))) p
    (λ r p', ¬ breaks c t bs p ∧ command_leaves client c t bs p r p').
Proof. apply send_command_spec. Qed.

Lemma send_command_witness :
  let p := demo_proc [Chunk (MessageSerializer.buildFrame MessageSerializer.ACK 0 "{}")] [SAccept 3] in
  wp (broken_pipe demo_client EOP_LIST_NODES [] p)
    (eop_send_command (H := zero_junk) 1 EOP_LIST_NODES None 0) p
    (λ r p', ¬ breaks demo_client EOP_LIST_NODES [] p ∧
       command_leaves 1 demo_client EOP_LIST_NODES [] p r p').
Proof.
  intros p.
  apply (send_command_correct (H := zero_junk) 1 demo_client EOP_LIST_NODES None [] p);
    [done|apply demo_heap_ok|done|done|by right|done].
Defined.

(** A command on a connection the server has closed kills the program:
    [send] is called without [MSG_NOSIGNAL], so the broken pipe raises SIGPIPE
    instead of being reported as EOP_ERR_DISCONNECTED, unless the application
    ignores the signal. *)
Theorem broken_pipe_kills_client `{Junk} client c t payload_ bs p :
  client ≠ NULL → heap_ok p → p_heap p !! client = Some (BClient c) → mutex c = MFree →
  points_to payload_ bs → Z.of_nat (length bs) < 2 ^ 32 - 14 →
  breaks c t bs p →
  eop_send_command client t payload_ (Z.of_nat (length bs)) p = Crash Sigpipe.
Proof.
  intros Hn Ho Hc Hm Hp Hs Hb.
  pose proof (send_command_spec client c t payload_ bs p Hn Ho Hc Hm Hp Hs) as HW.
  unfold wp in HW. destruct (eop_send_command _ _ _ _ p) as [r p'|f].
  - by destruct HW.
  - by destruct HW as [-> _].
Qed.

Lemma broken_pipe_witness :
  eop_send_command (H := zero_junk) 1 EOP_HEARTBEAT None 0 (demo_proc [Eof] [SErr EPIPE]) =
    Crash Sigpipe.
Proof.
  apply (broken_pipe_kills_client (H := zero_junk) 1 demo_client EOP_HEARTBEAT None []);
    [done|apply demo_heap_ok|done|done|by right|done|].
  split; [done|]. split; [by compute|]. split; [done|]. exists (demo_sock [Eof] [SErr EPIPE]).
  split; [reflexivity|reflexivity].
Defined.

End ClientSpec.
