(* ===== verification/ClientConn.v ===== *)
(** * Opening and closing connections

    [eop_connect], [eop_reconnect], [eop_disconnect], [eop_last_error] and
    [eop_response_free]: the exact result of each on every path. *)

From S2P Require Import Prelude Net Serializer Envelope Posix Client ClientLogic ClientSpec.
Local Open Scope Z_scope.

Module ClientConn.
Import EopEnvelope Posix EopClient ClientLogic ClientSpec.

(** ** Addresses *)

(** The longest dotted quad has fifteen characters, so that the copy of the
    host kept in the handle is the whole of it. *)
Definition digits_of (saw : bool) (cur : Z) : nat :=
  if saw then (if cur <? 10 then 1%nat else if cur <? 100 then 2%nat else 3%nat) else 0%nat.

Lemma inet_pton_loop_length s saw octets cur acc ip :
  inet_pton_loop s saw octets cur acc = Some ip →
  (octets ≤ 4)%nat → 0 ≤ cur ≤ 255 → (saw = false → octets < 4)%nat →
  (if saw then 0 < octets else True)%nat →
  (length s + digits_of saw cur ≤ if saw then 4 * (4 - octets) + 3 else 4 * (4 - octets) - 1)%nat.
Proof.
  revert saw octets cur acc. induction s as [|ch s IH]; intros saw octets cur acc H Ho Hc Hs Hp.
  { simpl. unfold digits_of. destruct saw; simpl in *; [|lia]. repeat case_goal; lia. }
  simpl in H. set (d := byte_val ch) in *.
  destruct ((48 <=? d) && (d <=? 57)) eqn:Hd.
  - bool_to_prop. destruct saw; simpl in H.
    + destruct (Z.eqb_spec cur 0); [done|]. destruct (Z.ltb_spec 255 (cur * 10 + (d - 48))); [done|].
      apply IH in H; [|lia|lia|done|done]. simpl length. unfold digits_of in *.
      repeat case_hyp H; repeat case_goal; bool_to_prop; lia.
    + destruct (Z.ltb_spec 255 (cur * 10 + (d - 48))); [done|].
      destruct (Nat.ltb_spec 4 (S octets)); [done|].
      apply IH in H; [|lia|lia|done|lia]. simpl length. unfold digits_of in *.
      repeat case_hyp H; bool_to_prop; lia.
  - destruct saw; [|by rewrite andb_false_r in H]. destruct (d =? 46); [|done]. simpl in H.
    destruct (Nat.eqb_spec octets 4); [done|].
    apply IH in H; [|lia|lia|lia|done]. simpl length. unfold digits_of in *.
    repeat case_goal; bool_to_prop; lia.
Qed.

Lemma substring_all n s : (String.length s ≤ n)%nat → String.substring 0 n s = s.
Proof.
  revert n. induction s as [|x s IH]; intros [|n] Hn; simpl in *; [done|done|lia|].
  f_equal. apply IH. lia.
Qed.

Lemma length_bytes_of_string s : length (bytes_of_string s) = String.length s.
Proof. induction s as [|x s IH]; simpl; [done|]. by f_equal. Qed.

Lemma inet_pton_copy s ip :
  inet_pton s = Some ip → copy_string EOP_MAX_HOST_LEN s = s.
Proof.
  intros H. apply inet_pton_loop_length in H; [|lia|lia|lia|done].
  rewrite length_bytes_of_string in H. apply substring_all. simpl in *. lia.
Qed.

(** ** Descriptors *)

Lemma fresh_fd_spec socks : 3 ≤ fresh_fd socks ∧ ∀ fd s, socks !! fd = Some s → fd < fresh_fd socks.
Proof.
  unfold fresh_fd.
  apply (map_fold_weak_ind (λ r (m : gmap Z csock), 3 ≤ r ∧ ∀ fd s, m !! fd = Some s → fd < r)).
  - split; [lia|]. intros fd s. by rewrite lookup_empty.
  - intros fd s m r _ [Hr Hm]. split; [lia|]. intros fd' s'. rewrite lookup_insert_Some.
    intros [[<- _]|[_ Hl]]; [lia|]. apply Hm in Hl. lia.
Qed.

Lemma pick_fd_fresh ch socks : socks !! pick_fd ch socks = None ∧ 0 ≤ pick_fd ch socks.
Proof.
  unfold pick_fd. destruct (fresh_fd_spec socks) as [H3 Hf]. case_decide as Hd; [naive_solver|].
  split; [|lia]. destruct (socks !! fresh_fd socks) eqn:Hs; [|done]. apply Hf in Hs. lia.
Qed.

(** ** Connection attempts *)

Inductive dial_failure := NoSocket | Refused | TimedOut | PollFailed | SoError.

(** How a connection attempt ends, on a socket and as a whole. *)
Definition handshake (at_ : attempt) : dial_failure + attempt :=
  if negb (at_connect at_ =? 0) && negb (at_connect at_ =? EINPROGRESS) then inl Refused
  else if at_poll at_ =? 0 then inl TimedOut
  else if at_poll at_ <? 0 then inl PollFailed
  else if (at_getsockopt at_ <? 0) || negb (at_so_error at_ =? 0) then inl SoError
  else inr at_.

Lemma handshake_same at_ at' : handshake at_ = inr at' → at' = at_.
Proof. unfold handshake. intros Hh. repeat case_hyp Hh; by simplify_eq. Qed.

Definition dial (net : list attempt) : dial_failure + attempt :=
  match net with
  | [] => inl NoSocket
  | at_ :: _ => if bool_decide (at_socket at_ = None) then inl NoSocket else handshake at_
  end.

Definition connect_error (f : dial_failure) : eop_error_code * string :=
  match f with
  | NoSocket => (EOP_ERR_CONNECT_FAILED, "Failed to create socket")
  | Refused => (EOP_ERR_CONNECT_FAILED, "Connection refused")
  | TimedOut => (EOP_ERR_TIMEOUT, "Connection timed out")
  | PollFailed => (EOP_ERR_CONNECT_FAILED, "Poll failed during connection")
  | SoError => (EOP_ERR_CONNECT_FAILED, "Connection failed after poll")
  end.

Definition reconnect_error (f : dial_failure) : eop_error_code * string :=
  match f with
  | NoSocket => (EOP_ERR_CONNECT_FAILED, "Failed to create socket on reconnect")
  | Refused => (EOP_ERR_CONNECT_FAILED, "Reconnect refused")
  | TimedOut => (EOP_ERR_TIMEOUT, "Reconnect timed out")
  | PollFailed => (EOP_ERR_CONNECT_FAILED, "Poll failed during reconnect")
  | SoError => (EOP_ERR_CONNECT_FAILED, "Reconnect failed after poll")
  end.

(** A socket connected to [ip]:[port], blocking, with nothing read or sent. *)
Definition established (at_ : attempt) (ip : list Z) (port_ : Z) : csock :=
  mkCsock at_ (at_in at_) (at_snd at_) [] (Some (ip, port_)) false false.

Inductive verdict :=
| Rejected (code : eop_error_code) (msg : string)
| Established (at_ : attempt).

Definition connect_verdict (host_ : option string) (port_ : Z) (p : proc) : verdict :=
  match host_ with
  | None => Rejected EOP_ERR_INVALID_ARGUMENT "Invalid host"
  | Some h =>
      if (port_ <? TCP_PORT_MIN_VALUE) || (TCP_PORT_MAX_VALUE <? port_) then
        Rejected EOP_ERR_INVALID_ARGUMENT "Invalid port number"
      else if negb (alloc_ok (p_mem p)) then
        Rejected EOP_ERR_ALLOC "Failed to allocate client handle"
      else if bool_decide (inet_pton h = None) then
        Rejected EOP_ERR_INVALID_ARGUMENT "Invalid host address"
      else
        match dial (p_net p) with
        | inl f => Rejected (connect_error f).1 (connect_error f).2
        | inr at_ => Established at_
        end
  end.

(** The standard streams and the disposition of SIGPIPE. *)
Definition same_io (p p' : proc) : Prop :=
  p_sigpipe_ignored p' = p_sigpipe_ignored p ∧ p_stdin p' = p_stdin p ∧
  p_stdout p' = p_stdout p ∧ p_stderr p' = p_stderr p.

Definition connect_leaves (host_ : option string) (port_ timeout_ms : Z) (p : proc)
    (r : Z) (p' : proc) : Prop :=
  same_io p p' ∧ heap_ok p' ∧ (∃ k, p_mem p' = drop k (p_mem p)) ∧
  (∃ k, p_net p' = drop k (p_net p)) ∧
  match connect_verdict host_ port_ p with
  | Rejected code msg =>
      r = NULL ∧ p_heap p' = p_heap p ∧ p_socks p' = p_socks p ∧
      s_last_error p' = code ∧ s_last_error_msg p' = msg
  | Established at_ =>
      ∃ h ip fd,
        host_ = Some h ∧ inet_pton h = Some ip ∧ 0 ≤ fd ∧ p_socks p !! fd = None ∧
        r ≠ NULL ∧ p_heap p !! r = None ∧
        p_heap p' = <[r := BClient (mkClient fd EOP_OK ""
          (if 0 <? timeout_ms then timeout_ms else EOP_CONNECT_TIMEOUT) 0 MFree h port_)]> (p_heap p) ∧
        p_socks p' = <[fd := established at_ ip port_]> (p_socks p) ∧
        p_closed p' = p_closed p ∧ s_last_error p' = EOP_OK ∧ s_last_error_msg p' = ""
  end.

(** The statements both functions run on a new socket, with what each does
    when one of them fails ([fail]) and when all succeed ([ok]). *)
Definition dialing {A} (fd : Z) (ip : list Z) (port_ : Z) (fail : dial_failure → C A)
    (ok : C A) : C A :=
  fcntl_nonblock fd true;;
  errno ← connect fd ip port_;
  if negb (errno =? 0) && negb (errno =? EINPROGRESS) then fail Refused
  else
  poll_result ← poll_out fd;
  if poll_result =? 0 then fail TimedOut
  else if poll_result <? 0 then fail PollFailed
  else
  '(rc, so_error) ← getsockopt_error fd;
  if (rc <? 0) || negb (so_error =? 0) then fail SoError
  else ok.

Lemma wp_dialing E {A} fd ip port_ (fail : dial_failure → C A) ok at_ p Q :
  p_socks p !! fd = Some (new_sock at_) →
  (let p1 := set_socks (<[fd := set_peer (Some (ip, port_))
                                 (set_nonblock true (new_sock at_))]> (p_socks p)) p in
   match handshake at_ with
   | inl f => wp E (fail f) p1 Q
   | inr _ => wp E ok p1 Q
   end) →
  wp E (dialing fd ip port_ fail ok) p Q.
Proof.
  intros Hs HQ. unfold dialing. apply wp_bind, wp_modify.
  rewrite (on_sock_some _ _ _ _ Hs). apply wp_bind. unfold wp at 1, connect. simpl.
  rewrite lookup_insert_eq. unfold on_sock. simpl. rewrite lookup_insert_eq.
  unfold set_socks at 1. simpl. rewrite insert_insert_eq. fold (set_socks
    (<[fd:=set_peer (Some (ip, port_)) (set_nonblock true (new_sock at_))]> (p_socks p)) p).
  cbv zeta in HQ. set (p1 := set_socks _ p) in *.
  assert (p_socks p1 !! fd =
    Some (set_peer (Some (ip, port_)) (set_nonblock true (new_sock at_)))) as Hs1.
  { apply lookup_insert_eq. }
  unfold handshake in HQ. destruct (negb _ && negb _); [done|].
  apply wp_bind, wp_gets. rewrite Hs1. simpl.
  destruct (at_poll at_ =? 0); [done|]. destruct (at_poll at_ <? 0); [done|].
  apply wp_bind, wp_gets. rewrite Hs1. simpl. by destruct (_ || _).
Qed.

Lemma wp_close E fd s p (Q : unit → proc → Prop) :
  p_socks p !! fd = Some s →
  Q tt (set_closed (p_closed p ++ [s]) (set_socks (delete fd (p_socks p)) p)) →
  wp E (close fd) p Q.
Proof. intros Hs HQ. unfold wp, close. by rewrite Hs. Qed.

Lemma wp_socket E p (Q : Z → proc → Prop) :
  (dial (p_net p) = inl NoSocket → Q (-1) (set_net (tail (p_net p)) p)) →
  (∀ at_ net fd, p_net p = at_ :: net → dial (p_net p) = handshake at_ →
     p_socks p !! fd = None → 0 ≤ fd →
     Q fd (set_socks (<[fd := new_sock at_]> (p_socks p)) (set_net net p))) →
  wp E socket p Q.
Proof.
  intros HN HS. unfold wp, socket. destruct (p_net p) as [|at_ net] eqn:Hn.
  { replace p with (set_net [] p) at 1 by (destruct p; simpl in *; by subst). by apply HN. }
  simpl in *. destruct (at_socket at_) as [ch|] eqn:Hat.
  - destruct (pick_fd_fresh ch (p_socks p)). apply HS; [done| |done..].
    by rewrite bool_decide_false.
  - apply HN. by rewrite bool_decide_true.
Qed.

Section operations.
Context `{Junk} (E : fault → Prop).

(** The exits of [eop_connect] once there is a handle, and a socket. *)
Lemma connect_fail client c code msg p (Q : Z → proc → Prop) :
  client ≠ 0 → p_heap p !! client = Some (BClient c) →
  Q NULL (set_heap (delete client (p_heap p)) (set_gerr code (copy_string EOP_ERROR_MSG_SIZE msg) p)) →
  wp E (set_global_error code msg;; free client;; mret NULL) p Q.
Proof.
  intros Hn Hc HQ. apply wp_bind, wp_modify. apply wp_bind, (wp_free _ _ (BClient c)); [done..|].
  by apply wp_ret.
Qed.

Lemma connect_fail_close client c fd s code msg p (Q : Z → proc → Prop) :
  client ≠ 0 → p_heap p !! client = Some (BClient c) → p_socks p !! fd = Some s →
  Q NULL (set_heap (delete client (p_heap p)) (set_closed (p_closed p ++ [s])
    (set_socks (delete fd (p_socks p)) (set_gerr code (copy_string EOP_ERROR_MSG_SIZE msg) p)))) →
  wp E (set_global_error code msg;; close fd;; free client;; mret NULL) p Q.
Proof.
  intros Hn Hc Hs HQ. apply wp_bind, wp_modify. apply wp_bind, (wp_close _ _ s); [done|].
  apply wp_bind, (wp_free _ _ (BClient c)); [done..|]. by apply wp_ret.
Qed.

(** What follows the creation of the socket in [eop_connect]. *)
Lemma connect_dials client c fd ip port_ at_ p (Q : Z → proc → Prop) :
  client ≠ 0 → p_heap p !! client = Some (BClient c) → p_socks p !! fd = Some (new_sock at_) →
  (∀ f s, handshake at_ = inl f →
     Q NULL (set_heap (delete client (p_heap p)) (set_closed (p_closed p ++ [s])
       (set_socks (delete fd (p_socks p))
         (set_gerr (connect_error f).1 (copy_string EOP_ERROR_MSG_SIZE (connect_error f).2) p))))) →
  (handshake at_ = inr at_ →
     Q client (set_gerr EOP_OK "" (set_heap (<[client := BClient (set_mutex MFree c)]> (p_heap p))
       (set_socks (<[fd := established at_ ip port_]> (p_socks p)) p)))) →
  wp E (dialing fd ip port_ (λ f,
      set_global_error (connect_error f).1 (connect_error f).2;;
      close fd;; free client;; mret NULL)
    (fcntl_nonblock fd false;; pthread_mutex_init client;;
     set_global_error EOP_OK "";; mret client)) p Q.
Proof.
  intros Hn Hc Hs HF HS. apply (wp_dialing _ _ _ _ _ _ at_); [done|]. simpl.
  destruct (handshake at_) as [f|at'] eqn:Hhs.
  - eapply connect_fail_close; [done|done|apply lookup_insert_eq|]. simpl.
    rewrite delete_insert_eq. by apply HF.
  - pose proof (handshake_same _ _ Hhs) as ->.
    apply wp_bind, wp_modify. erewrite on_sock_some by apply lookup_insert_eq.
    apply wp_bind. eapply wp_init; [done|].
    apply wp_bind, wp_modify, wp_ret. simpl. rewrite !insert_insert_eq. by apply HS.
Qed.

Lemma connect_spec host_ port_ timeout_ms p :
  heap_ok p →
  wp E (eop_connect host_ port_ timeout_ms) p (connect_leaves host_ port_ timeout_ms p).
Proof.
  intros Ho. unfold eop_connect, connect_leaves, connect_verdict.
  pose proof (heap_ok_fresh _ Ho) as Hfr. pose proof Ho as [Hb Hh].
  destruct host_ as [h|].
  2: { apply wp_bind, wp_modify, wp_ret. split_and!; try done; by exists 0%nat. }
  destruct (_ || _) eqn:Hport.
  { apply wp_bind, wp_modify, wp_ret. split_and!; try done; by exists 0%nat. }
  apply wp_bind, wp_malloc; intros Hal; rewrite Hal; cbn [negb].
  { apply wp_bind, wp_modify, wp_ret. split_and!; try done; [by exists 1%nat|by exists 0%nat]. }
  rewrite (proj2 (Z.eqb_neq (p_brk p) NULL)) by (unfold NULL; lia).
  apply wp_bind. eapply wp_update_client; [apply lookup_insert_eq|].
  simpl. rewrite insert_insert_eq.
  destruct (inet_pton h) as [ip|] eqn:Hip.
  2: { eapply connect_fail; [lia|apply lookup_insert_eq|]. rewrite bool_decide_true by done.
       simpl. rewrite delete_insert_id by done.
       split_and!; try done; [|by exists 1%nat|by exists 0%nat].
       apply (heap_ok_grow p); simpl; [done|lia|by left]. }
  rewrite bool_decide_false by done. rewrite (inet_pton_copy _ _ Hip).
  apply wp_bind, wp_socket; cbn [p_net p_socks set_heap set_brk set_mem].
  { intros Hd. rewrite Hd.
    apply wp_bind. eapply wp_update_client; [apply lookup_insert_eq|]. simpl.
    eapply connect_fail; [lia|apply lookup_insert_eq|]. simpl.
    rewrite !insert_insert_eq, delete_insert_id by done.
    split_and!; try done; [|by exists 1%nat|by exists 1%nat].
    apply (heap_ok_grow p); simpl; [done|lia|by left]. }
  intros at_ net fd Hnet Hd Hfd Hfd0. rewrite Hd.
  apply wp_bind. eapply wp_update_client; [apply lookup_insert_eq|]. simpl. rewrite insert_insert_eq.
  rewrite (proj2 (Z.ltb_ge fd 0)) by done.
  set (p1 := set_heap _ _).
  unfold TCP_PORT_MIN_VALUE, TCP_PORT_MAX_VALUE in *. bool_to_prop.
  rewrite (wrap_small 16) by (unfold in_width; lia).
  eapply (connect_dials (p_brk p) _ fd ip port_ at_ p1);
    [lia|apply lookup_insert_eq|apply lookup_insert_eq|intros f s Hhs|intros Hhs];
    rewrite Hhs; simpl; rewrite ?insert_insert_eq, ?delete_insert_id by done.
  - split_and!; try done; [|by exists 1%nat|exists 1%nat; by rewrite Hnet|by destruct f].
    apply (heap_ok_grow p); simpl; [done|lia|by left].
  - split_and!; try done; [|by exists 1%nat|exists 1%nat; by rewrite Hnet|].
    + apply (heap_ok_grow p); simpl; [done|lia|]. intros a b. rewrite lookup_insert_Some.
      intros [[<- _]|[_ ?]]; [right; lia|left; eauto].
    + exists h, ip, fd. split_and!; try done. unfold NULL. lia.
Qed.


(** *** [eop_reconnect] *)

(** What becomes of the old socket. *)
Definition shut_down (fd : Z) (p : proc) : list csock :=
  match p_socks p !! fd with Some s => [set_shut true s] | None => [] end.

Lemma wp_shut_close fd p (Q : unit → proc → Prop) :
  Q tt (set_closed (p_closed p ++ shut_down fd p) (set_socks (delete fd (p_socks p)) p)) →
  wp E (shutdown fd;; close fd) p Q.
Proof.
  intros HQ. unfold shut_down in HQ. apply wp_bind, wp_modify. unfold on_sock.
  destruct (p_socks p !! fd) as [s|] eqn:Hs.
  - eapply wp_close; [apply lookup_insert_eq|]. simpl. rewrite delete_insert_eq. exact HQ.
  - unfold wp, close. rewrite Hs. rewrite app_nil_r, delete_id in HQ by done.
    by destruct p.
Qed.

Definition reconnect_verdict (c : eop_client_t) (p : proc) : verdict :=
  if bool_decide (inet_pton (host c) = None) then
    Rejected EOP_ERR_INVALID_ARGUMENT "Invalid stored host address"
  else
    match dial (p_net p) with
    | inl f => Rejected (reconnect_error f).1 (reconnect_error f).2
    | inr at_ => Established at_
    end.

Definition same_globals (p p' : proc) : Prop :=
  same_io p p' ∧ s_last_error p' = s_last_error p ∧ s_last_error_msg p' = s_last_error_msg p ∧
  p_brk p' = p_brk p ∧ p_mem p' = p_mem p.

Definition reconnect_leaves (client : Z) (c : eop_client_t) (p : proc)
    (code : eop_error_code) (p' : proc) : Prop :=
  let socks1 := delete (socket_fd c) (p_socks p) in
  same_globals p p' ∧ (∃ k, p_net p' = drop k (p_net p)) ∧
  match reconnect_verdict c p with
  | Rejected code' msg =>
      code = code' ∧ p_socks p' = socks1 ∧
      p_heap p' = <[client := BClient (settled code msg (set_fd (-1) c))]> (p_heap p)
  | Established at_ =>
      ∃ ip fd,
        code = EOP_OK ∧ inet_pton (host c) = Some ip ∧ 0 ≤ fd ∧ socks1 !! fd = None ∧
        p_socks p' = <[fd := established at_ ip (port c)]> socks1 ∧
        p_heap p' = <[client := BClient (settled EOP_OK "" (set_fd fd c))]> (p_heap p) ∧
        p_closed p' = p_closed p ++ shut_down (socket_fd c) p
  end.

Lemma wp_fail_close {A} a c fd s code msg (v : A) p Q :
  p_heap p !! a = Some (BClient c) → mutex c = MHeld → p_socks p !! fd = Some s →
  Q v (set_heap (<[a := BClient (settled code msg c)]> (p_heap p))
        (set_closed (p_closed p ++ [s]) (set_socks (delete fd (p_socks p)) p))) →
  wp E (set_client_error a code msg;; close fd;; pthread_mutex_unlock a;; mret v) p Q.
Proof.
  intros Ha Hm Hs HQ. apply wp_bind, (wp_update_client _ _ _ c); [done|].
  apply wp_bind, (wp_close _ _ s); [done|].
  apply wp_bind. eapply wp_unlock; [apply lookup_insert_eq|done|].
  apply wp_ret. simpl. rewrite insert_insert_eq. exact HQ.
Qed.

(** What follows the creation of the socket in [eop_reconnect]. *)
Lemma reconnect_dials client c fd ip port_ at_ p (Q : eop_error_code → proc → Prop) :
  p_heap p !! client = Some (BClient c) → mutex c = MHeld →
  p_socks p !! fd = Some (new_sock at_) →
  (∀ f s, handshake at_ = inl f →
     Q (reconnect_error f).1
       (set_heap (<[client := BClient (set_mutex MFree (set_error (reconnect_error f).1
           (copy_string EOP_ERROR_MSG_SIZE (reconnect_error f).2) c))]> (p_heap p))
         (set_closed (p_closed p ++ [s]) (set_socks (delete fd (p_socks p)) p)))) →
  (handshake at_ = inr at_ →
     Q EOP_OK (set_heap (<[client := BClient (set_mutex MFree (set_error EOP_OK "" (set_fd fd c)))]>
         (p_heap p))
       (set_socks (<[fd := established at_ ip port_]> (p_socks p)) p))) →
  wp E (dialing fd ip port_ (λ f,
      set_client_error client (reconnect_error f).1 (reconnect_error f).2;;
      close fd;; pthread_mutex_unlock client;; mret (reconnect_error f).1)
    (fcntl_nonblock fd false;; update_client client (set_fd fd);;
     update_client client (set_error EOP_OK "");;
     pthread_mutex_unlock client;; mret EOP_OK)) p Q.
Proof.
  intros Hc Hm Hs HF HS. apply (wp_dialing _ _ _ _ _ _ at_); [done|]. simpl.
  destruct (handshake at_) as [f|at'] eqn:Hhs.
  - eapply wp_fail_close; [done|done|apply lookup_insert_eq|]. simpl.
    rewrite delete_insert_eq. eapply HF; done.
  - pose proof (handshake_same _ _ Hhs) as ->.
    apply wp_bind, wp_modify. erewrite on_sock_some by apply lookup_insert_eq.
    apply wp_bind. eapply wp_update_client; [done|].
    apply wp_bind. eapply wp_update_client; [apply lookup_insert_eq|].
    apply wp_bind. eapply wp_unlock; [apply lookup_insert_eq|done|]. apply wp_ret. simpl.
    rewrite !insert_insert_eq. by apply HS.
Qed.

Lemma reconnect_spec client c timeout_ms p :
  client ≠ NULL → p_heap p !! client = Some (BClient c) → mutex c = MFree →
  in_width 16 (port c) →
  wp E (eop_reconnect client timeout_ms) p (reconnect_leaves client c p).
Proof.
  intros Hn Hc Hm Hport. unfold eop_reconnect, reconnect_leaves, reconnect_verdict.
  rewrite (proj2 (Z.eqb_neq client NULL)) by done.
  apply wp_bind, (wp_lock _ _ c); [done..|].
  apply wp_bind. eapply wp_load_client; [apply lookup_insert_eq|].
  cbn [socket_fd set_mutex host port].
  match goal with |- wp _ (shutdown ?fd;; close ?fd;; ?k) ?p1 ?Q =>
    assert (wp E ((shutdown fd;; close fd);; k) p1 Q) as Hk; [|exact Hk]
  end.
  apply wp_bind, wp_shut_close. simpl.
  apply wp_bind. eapply wp_update_client; [apply lookup_insert_eq|]. simpl. rewrite insert_insert_eq.
  set (hc := set_fd (-1) (set_mutex MHeld c)). set (socks1 := delete (socket_fd c) (p_socks p)).
  destruct (inet_pton (host c)) as [ip|] eqn:Hip.
  2: { eapply wp_fail; [apply lookup_insert_eq|done|]. simpl.
       rewrite insert_insert_eq. split_and!; try done. by exists 0%nat. }
  rewrite bool_decide_false by done.
  apply wp_bind, wp_socket; cbn [p_net p_socks set_heap set_socks set_closed].
  { intros Hd. rewrite Hd. eapply wp_fail; [apply lookup_insert_eq|done|]. simpl.
    rewrite insert_insert_eq. split_and!; try done. by exists 1%nat. }
  intros at_ net fd Hnet Hd Hfd Hfd0. rewrite Hd, (proj2 (Z.ltb_ge fd 0)) by done.
  set (p1 := set_socks _ _). rewrite (wrap_small 16) by done.
  eapply (reconnect_dials client _ fd ip (port c) at_ p1);
    [apply lookup_insert_eq|done|apply lookup_insert_eq|intros f s Hhs|intros Hhs];
    rewrite Hhs; simpl; rewrite !insert_insert_eq, ?delete_insert_id by done.
  - split_and!; try done. exists 1%nat. by rewrite Hnet.
  - split_and!; try done; [exists 1%nat; by rewrite Hnet|]. exists ip, fd. split_and!; done.
Qed.

(** *** [eop_disconnect], [eop_response_free], [eop_last_error] *)

Lemma disconnect_spec client c p (Q : unit → proc → Prop) :
  client ≠ NULL → p_heap p !! client = Some (BClient c) → mutex c = MFree →
  Q tt (set_heap (delete client (p_heap p))
         (set_closed (p_closed p ++ shut_down (socket_fd c) p)
           (set_socks (delete (socket_fd c) (p_socks p)) p))) →
  wp E (eop_disconnect client) p Q.
Proof.
  intros Hn Hc Hm HQ. unfold eop_disconnect. rewrite (proj2 (Z.eqb_neq client NULL)) by done.
  apply wp_bind, (wp_load_client _ _ c); [done|].
  match goal with |- wp _ (shutdown ?fd;; close ?fd;; ?k) ?p1 ?Q =>
    assert (wp E ((shutdown fd;; close fd);; k) p1 Q) as Hk; [|exact Hk]
  end.
  apply wp_bind, wp_shut_close. apply wp_bind, (wp_destroy _ _ c); [done..|].
  eapply wp_free; [done|apply lookup_insert_eq|]. simpl. rewrite delete_insert_eq. exact HQ.
Qed.

Lemma response_free_spec r resp p (Q : unit → proc → Prop) :
  r ≠ NULL → p_heap p !! r = Some (BResponse resp) →
  (payload resp = NULL ∨ ∃ bs, payload resp ≠ NULL ∧ p_heap p !! payload resp = Some (BBytes bs)) →
  Q tt (set_heap (delete r (if payload resp =? NULL then p_heap p
                            else delete (payload resp) (p_heap p))) p) →
  wp E (eop_response_free r) p Q.
Proof.
  intros Hn Hr Hp HQ. unfold eop_response_free. rewrite (proj2 (Z.eqb_neq r NULL)) by done.
  apply wp_bind, (wp_load_response _ _ resp); [done|].
  destruct Hp as [Hp|(bs & Hp & Hb)].
  - rewrite Hp in *. apply wp_bind, wp_free_null. by eapply wp_free.
  - rewrite (proj2 (Z.eqb_neq (payload resp) NULL)) in HQ by done.
    apply wp_bind. eapply wp_free; [done..|]. eapply wp_free; [done| |exact HQ].
    simpl. rewrite lookup_delete_ne; [done|]. intros Heq. by rewrite Heq, Hr in Hb.
Qed.

Definition error_text (buffer : option Z) (msg : string) : option string :=
  match buffer with
  | Some n => if 0 <? n then Some (copy_string (Z.to_nat n) msg) else None
  | None => None
  end.

Lemma last_error_spec client c buffer p (Q : eop_error_code * option string → proc → Prop) :
  client ≠ NULL → p_heap p !! client = Some (BClient c) → mutex c = MFree →
  Q (last_error c, error_text buffer (last_error_msg c)) p →
  wp E (eop_last_error client buffer) p Q.
Proof.
  intros Hn Hc Hm HQ. unfold eop_last_error. rewrite (proj2 (Z.eqb_neq client NULL)) by done.
  apply wp_bind, (wp_lock _ _ c); [done..|].
  apply wp_bind. eapply wp_load_client; [apply lookup_insert_eq|].
  apply wp_bind. eapply wp_unlock; [apply lookup_insert_eq|done|]. apply wp_ret. simpl.
  rewrite insert_insert_eq, insert_id.
  - unfold error_text in HQ. by destruct p.
  - rewrite Hc. do 2 f_equal. destruct c; simpl in *. by subst.
Qed.

Lemma last_error_null buffer p (Q : eop_error_code * option string → proc → Prop) :
  Q (s_last_error p, error_text buffer (s_last_error_msg p)) p →
  wp E (eop_last_error NULL buffer) p Q.
Proof. done. Qed.

End operations.

(** ** Correctness *)

(** C28: [eop_connect] always returns and its result is the verdict on its
    arguments, the allocation and the connection attempt: on any failure a
    null pointer, the global error set to the reason, and the heap and the
    descriptor table exactly as before (the socket closed, the handle freed);
    on success a new handle, unlocked, that owns a new blocking socket
    connected to the given address and port.  A host that is not a dotted quad
    is rejected. *)
Theorem connect_correct `{Junk} host_ port_ timeout_ms p :
  heap_ok p →
  wp no_fault (eop_connect host_ port_ timeout_ms) p (connect_leaves host_ port_ timeout_ms p).
Proof. apply connect_spec. Qed.

Lemma connect_witness :
  let p := start [success [Quiet] []] in
  wp no_fault (eop_connect (H := zero_junk) (Some "10.0.0.7") 9026 0) p
    (connect_leaves (Some "10.0.0.7") 9026 0 p).
Proof.
  intros p. apply (connect_correct (H := zero_junk) (Some "10.0.0.7") 9026 0 p). by split.
Defined.

(** C29: [eop_reconnect] closes the old socket whatever happens; on failure the
    handle is disconnected and keeps the reason, on success it owns a new
    blocking socket to the address it was opened for; host, port, timeout and
    the next message identifier are kept, the lock is free again and nothing
    else of the process changes. *)
Theorem reconnect_correct `{Junk} client c timeout_ms p :
  client ≠ NULL → p_heap p !! client = Some (BClient c) → mutex c = MFree →
  in_width 16 (port c) →
  wp no_fault (eop_reconnect client timeout_ms) p (reconnect_leaves client c p).
Proof. apply reconnect_spec. Qed.

Lemma reconnect_witness :
  let p := set_net [success [Quiet] []] (demo_proc [Eof] []) in
  wp no_fault (eop_reconnect 1 0) p (reconnect_leaves 1 demo_client p).
Proof. intros p. apply (reconnect_correct (H := zero_junk) 1 demo_client 0 p); done. Defined.

End ClientConn.
