(* ===== verification/Stdio.v ===== *)
(** * The C library as the example programs use it

    Reading lines, formatting and parsing numbers, on the process of
    [Posix.v]. *)

From S2P Require Import Prelude Config Otel Envelope Posix.
Local Open Scope Z_scope.

Module Stdio.
Import EopEnvelope Posix.

Definition EXIT_SUCCESS : Z := 0.
Definition EXIT_FAILURE : Z := 1.

Definition newline : string := string_of_bytes [x0a].
Definition dquote : string := string_of_bytes [x22].

(** The C string in a buffer: what precedes the first NUL. *)
Definition cstr (bs : list byte) : string :=
  string_of_bytes (span (λ b, negb (byte_val b =? 0)) bs).1.

(** [fgets] into a buffer of [n] bytes: the line with its newline, at most
    [n - 1] characters of it; [None] is the null pointer at the end of the
    input, where the buffer is left as it was. *)
Fixpoint line_of (n : nat) (s : list byte) : list byte * list byte :=
  match n, s with
  | O, _ => ([], s)
  | _, [] => ([], [])
  | S n, b :: s =>
      if byte_val b =? 10 then ([b], s)
      else let '(l, r) := line_of n s in (b :: l, r)
  end.

Definition fgets (n : nat) : C (option string) := λ p,
  match bytes_of_string (p_stdin p) with
  | [] => Done None p
  | bs =>
      let '(l, r) := line_of (n - 1) bs in
      Done (Some (cstr l)) (set_stdin (string_of_bytes r) p)
  end.

(** A local array after [fgets] that is used without a test of its result. *)
Definition filled (o : option string) : C string :=
  match o with Some s => mret s | None => crash Uninitialised end.

(** [snprintf(buf, n, ...)]: what is in the buffer and the value returned. *)
Definition snprintf (n : nat) (s : string) : string * Z := (copy_string n s, str_size s).

(** [atoi], as [(int)strtol]. *)
Definition int_of (n : Z) : Z := if 2 ^ 31 <=? u32 n then u32 n - 2 ^ 32 else u32 n.
Definition atoi (s : string) : Z :=
  int_of (Z.max (- 2 ^ 63) (Z.min (2 ^ 63 - 1) (Otel.atoi (bytes_of_string s)))).

(** [strtoul(s, NULL, 10)]: 0 without digits, [ULONG_MAX] out of range. *)
Definition strtoul (s : string) : Z :=
  let '(_, s1) := span ServerConfig.isspace (bytes_of_string s) in
  let '(neg, s2) :=
    match s1 with
    | x2d :: r => (true, r)
    | x2b :: r => (false, r)
    | _ => (false, s1)
    end in
  let v := of_digits 10 (map char_digit (span isdigit s2).1) in
  if 2 ^ 64 - 1 <? v then 2 ^ 64 - 1 else if (neg : bool) then u64 (- v) else v.

(** [%02x]. *)
Definition hex02 (n : Z) : string := hex_padded 2 n.

(** A NUL-terminated copy of a response's payload in a new block, or null:
    [malloc(len + 1)], [memcpy], the terminator. *)
Definition terminated_copy `{Junk} (r : eop_response_t) : C Z :=
  buf ← malloc_bytes (Z.to_nat (payload_len r + 1));
  if buf =? NULL then mret NULL
  else
  src ← load_bytes (payload r);
  data ← in_bounds (mem_read 0 (Z.to_nat (payload_len r)) src);
  dst ← load_bytes buf;
  dst ← in_bounds (mem_write 0 data dst);
  dst ← in_bounds (mem_write (Z.to_nat (payload_len r)) [x00] dst);
  store_bytes buf dst;;
  mret buf.

(** The text a [char*] points to, for [%s]. *)
Definition text_at (a : Z) : C string := bs ← load_bytes a; mret (cstr bs).

(** ** Lemmas *)

Lemma line_of_length n s :
  (0 < n)%nat → s ≠ [] → (length (line_of n s).2 < length s)%nat.
Proof.
  destruct n as [|n]; [lia|]. destruct s as [|b s]; [done|]. intros _ _. simpl.
  assert (∀ m t, length (line_of m t).2 ≤ length t)%nat as Hle.
  { induction m as [|m IH]; intros [|x t]; simpl; try lia. case_goal; simpl; [lia|].
    specialize (IH t). destruct (line_of m t). simpl in *. lia. }
  case_goal; simpl; [lia|]. specialize (Hle n s). destruct (line_of n s). simpl in *. lia.
Qed.

Lemma line_of_app n s : (line_of n s).1 ++ (line_of n s).2 = s.
Proof.
  revert s. induction n as [|n IH]; intros [|b s]; simpl; try done.
  case_goal; [done|]. specialize (IH s). destruct (line_of n s). simpl in *. by f_equal.
Qed.

Lemma cstr_terminated bs : cstr (bs ++ [x00]) = cstr bs.
Proof.
  unfold cstr. f_equal. induction bs as [|b bs IH]; [done|]. cbn [app span].
  destruct (negb (byte_val b =? 0)); [|done].
  destruct (span _ (bs ++ [x00])), (span _ bs). simpl in *. by f_equal.
Qed.

Lemma cstr_plain s : x00 ∉ bytes_of_string s → cstr (bytes_of_string s) = s.
Proof.
  intros Hn. unfold cstr. rewrite span_all; [apply string_of_bytes_of_string|].
  apply Forall_forall. intros b Hb. destruct (byte_val b =? 0) eqn:E; [|done].
  exfalso. apply Hn. apply Z.eqb_eq in E. by replace x00 with b by (by destruct b).
Qed.

End Stdio.
