(* ===== verification/ClientOwn.v ===== *)
(** * What a program with one handle owns

    Specifications of the API calls for a program that holds one connected
    handle on top of a heap [h0] and a descriptor table [k0] of its own: each
    call says exactly which blocks it adds and removes, so that a program's
    balance can be read off. *)

From S2P Require Import Prelude Net Serializer Envelope Posix Client ClientLogic ClientSpec ClientConn Stdio.
Local Open Scope Z_scope.

Module ClientOwn.
Import EopEnvelope Posix EopClient ClientLogic ClientSpec ClientConn Stdio.

(** The handle and its socket, and nothing else beyond [h0] and [k0]. *)
Definition owns (h0 : gmap Z block) (k0 : gmap Z csock) (client : Z) (p : proc) : Prop :=
  heap_ok p ∧ client ≠ NULL ∧ h0 !! client = None ∧
  ∃ c s, p_heap p = <[client := BClient c]> h0 ∧ mutex c = MFree ∧
    k0 !! socket_fd c = None ∧ p_socks p = <[socket_fd c := s]> k0.

(** The blocks of a response. *)
Definition with_response (r : Z) (q : eop_response_t) (bs : list byte) (h0 : gmap Z block)
    : gmap Z block :=
  <[r := BResponse q]> (if (0 <? length bs)%nat then <[payload q := BBytes bs]> h0 else h0).

(** A response at [r] that is not part of [h0]. *)
Definition response_at (r : Z) (q : eop_response_t) (bs : list byte) (h0 : gmap Z block) : Prop :=
  r ≠ NULL ∧ h0 !! r = None ∧ payload_len q = Z.of_nat (length bs) ∧
  if (0 <? length bs)%nat
  then payload q ≠ NULL ∧ payload q ≠ r ∧ h0 !! payload q = None
  else payload q = NULL.

Definition streams (p p' : proc) : Prop :=
  p_stdin p' = p_stdin p ∧ p_stdout p' = p_stdout p ∧ p_stderr p' = p_stderr p.

(** Nothing beyond what the program started with. *)
Definition balanced (h0 : gmap Z block) (k0 : gmap Z csock) (p : proc) : Prop :=
  p_heap p = h0 ∧ p_socks p = k0.

Definition exit_code (code : Z) : Prop := code = EXIT_SUCCESS ∨ code = EXIT_FAILURE.

(** A call that leaves the connection alone. *)
Definition calm (client : Z) (p p' : proc) : Prop :=
  streams p p' ∧ p_heap p' !! client = p_heap p !! client ∧ p_socks p' = p_socks p ∧
  p_closed p' = p_closed p ∧ (p_mem p = [] → p_mem p' = []).

(** The connection and the input are left alone; output may be written. *)
Definition undisturbed (client : Z) (p p' : proc) : Prop :=
  p_stdin p' = p_stdin p ∧ p_heap p' !! client = p_heap p !! client ∧
  p_socks p' = p_socks p ∧ p_closed p' = p_closed p ∧ (p_mem p = [] → p_mem p' = []).

Lemma undisturbed_trans client p1 p2 p3 :
  undisturbed client p1 p2 → undisturbed client p2 p3 → undisturbed client p1 p3.
Proof.
  intros (? & ? & ? & ? & ?) (? & ? & ? & ? & ?). split_and!; [congruence..|auto].
Qed.

Lemma calm_undisturbed client p p' : calm client p p' → undisturbed client p p'.
Proof. by intros ((? & _) & ?). Qed.

Section calls.
Context `{Junk} (E : fault → Prop).

Lemma owns_connect host_ port_ tm p :
  heap_ok p →
  wp E (eop_connect host_ port_ tm) p (λ r p', streams p p' ∧
    ((r = NULL ∧ heap_ok p' ∧ p_heap p' = p_heap p ∧ p_socks p' = p_socks p) ∨
     owns (p_heap p) (p_socks p) r p')).
Proof.
  intros Ho. eapply wp_mono; [by apply connect_spec|].
  intros r p' ((_ & Hio) & Ho' & _ & _ & Hv). split; [done|].
  destruct (connect_verdict _ _ _) as [code msg|at_].
  - left. destruct Hv as (? & ? & ? & _). done.
  - right. destruct Hv as (h & ip & fd & _ & _ & _ & Hfd & Hr & Hrn & Hh & Hs & _).
    split_and!; [done..|]. eexists _, _. by split_and!.
Qed.

Lemma owns_send h0 k0 client t pl bs p :
  owns h0 k0 client p → points_to pl bs → Z.of_nat (length bs) < 2 ^ 32 - 14 →
  wp only_sigpipe (eop_send_command client t pl (Z.of_nat (length bs))) p
   (λ r p', (streams p p' ∧ p_closed p' = p_closed p) ∧
    ((r = NULL ∧ owns h0 k0 client p') ∨
     ∃ q data, response_at r q data h0 ∧ owns (with_response r q data h0) k0 client p')).
Proof.
  intros (Ho & Hn & Hcn & c & s & Hh & Hm & Hk & Hs) Hp Hl.
  eapply wp_weaken; [|eapply wp_mono; [apply (send_command_spec client c t pl bs p)|]]; try done.
  { by intros f [-> _]. }
  { rewrite Hh. apply lookup_insert_eq. }
  intros r p' (_ & He & Ho' & _ & _ & Hheap & Hsocks).
  split; [by destruct He as (? & _ & _ & _ & _ & ?)|].
  rewrite Hs, lookup_insert_eq in Hsocks. destruct Hsocks as (ins & _ & Hsocks).
  rewrite insert_insert_eq in Hsocks. rewrite Hs, lookup_insert_eq, Hh in Hheap.
  set (c1 := set_next_id _ c) in *.
  destruct (command_reply _ _ _ _) as [[t' id' data|code msg] used]; cbn [fst heap_after] in Hheap.
  2: { left. destruct Hheap as [-> Hh']. rewrite insert_insert_eq in Hh'. split; [done|].
       split_and!; [done..|]. eexists (settled code msg c1), _. by split_and!. }
  right. destruct Hheap as (Hr & Hrn & Hh'). rewrite insert_insert_eq in Hh'.
  apply lookup_insert_None in Hrn as [Hrn Hrc].
  destruct (0 <? length data)%nat eqn:Hd.
  - destruct Hh' as (a & Ha & Har & Han & Hh'). apply lookup_insert_None in Han as [Han Hac].
    exists (mkResponse t' id' a (Z.of_nat (length data))), data. unfold response_at, with_response.
    rewrite Hd. cbn [payload payload_len]. split; [done|]. split_and!; [done|done| |].
    { by rewrite !lookup_insert_ne. }
    eexists (settled EOP_OK EmptyString c1), _. split_and!; [|done|done|exact Hsocks].
    rewrite Hh', (insert_insert_ne _ a client), (insert_insert_ne _ r client) by congruence. done.
  - exists (mkResponse t' id' NULL 0), data. unfold response_at, with_response.
    rewrite Hd. cbn [payload payload_len]. apply Nat.ltb_ge in Hd.
    split; [split_and!; [done|done|lia|done]|]. split_and!; [done|done| |].
    { by rewrite lookup_insert_ne. }
    eexists (settled EOP_OK EmptyString c1), _. split_and!; [|done|done|exact Hsocks].
    rewrite Hh', insert_insert_ne by congruence. done.
Qed.

Lemma owns_response_free h0 k0 client r q data p :
  owns (with_response r q data h0) k0 client p → response_at r q data h0 →
  wp E (eop_response_free r) p (λ _ p', calm client p p' ∧ owns h0 k0 client p').
Proof.
  intros (Ho & Hn & Hcn & c & s & Hh & Hm & Hk & Hs) (Hr & Hrn & Hlen & Hq).
  unfold with_response in *. apply lookup_insert_None in Hcn as [Hcn Hrc].
  assert (p_heap p !! r = Some (BResponse q)) as Hrq.
  { rewrite Hh, lookup_insert_ne, lookup_insert_eq by congruence. done. }
  assert (∀ h, delete r (delete (payload q) (p_heap p)) = h ∨ delete r (p_heap p) = h → heap_ok
     (set_heap h p)) as Hok.
  { intros h Hd. apply (heap_ok_grow p); simpl; [done|lia|]. intros a b Ha. left.
    destruct Hd as [<-|<-]; rewrite !lookup_delete_Some in Ha; naive_solver. }
  destruct (0 <? length data)%nat eqn:Hd.
  - destruct Hq as (Hp & Hpr & Hpn). apply lookup_insert_None in Hcn as [Hcn Hpc].
    eapply response_free_spec; [done|exact Hrq| |].
    { right. exists data. split; [done|]. rewrite Hh, !lookup_insert_ne, lookup_insert_eq by congruence. done. }
    rewrite (proj2 (Z.eqb_neq _ _)) by done. split.
    { split_and!; try done. simpl. rewrite !lookup_delete_ne by congruence. done. }
    split_and!; [apply Hok; by left|done|done|]. exists c, s. split_and!; [|done..]. simpl. rewrite Hh.
    rewrite (delete_insert_ne _ (payload q) client), (delete_insert_ne _ (payload q) r) by congruence.
    rewrite delete_insert_id, (delete_insert_ne _ r client), delete_insert_id by congruence. done.
  - eapply response_free_spec; [done|exact Hrq|by left|].
    rewrite Hq. split.
    { split_and!; try done. simpl. rewrite lookup_delete_ne by congruence. done. }
    split_and!; [apply Hok; by right|done|done|]. exists c, s. split_and!; [|done..]. simpl.
    rewrite Hh, delete_insert_ne, delete_insert_id by congruence. done.
Qed.

Lemma owns_disconnect h0 k0 client p :
  owns h0 k0 client p →
  wp E (eop_disconnect client) p
    (λ _ p', streams p p' ∧ p_heap p' = h0 ∧ p_socks p' = k0).
Proof.
  intros (Ho & Hn & Hcn & c & s & Hh & Hm & Hk & Hs).
  eapply (disconnect_spec _ client c); [done|by rewrite Hh, lookup_insert_eq|done|].
  split; [done|]. simpl. by rewrite Hh, Hs, !delete_insert_id.
Qed.

(** ** The program's own blocks *)

Lemma streams_refl p : streams p p.
Proof. done. Qed.

Lemma streams_trans p1 p2 p3 : streams p1 p2 → streams p2 p3 → streams p1 p3.
Proof. unfold streams. intros; destruct_and!; split_and!; congruence. Qed.

Lemma calm_refl client p : calm client p p.
Proof. done. Qed.

Lemma calm_trans client p1 p2 p3 : calm client p1 p2 → calm client p2 p3 → calm client p1 p3.
Proof.
  unfold calm. intros (? & ? & ? & ? & ?) (? & ? & ? & ? & ?).
  split_and!; [by eapply streams_trans|congruence|congruence|congruence|auto].
Qed.

Lemma owns_malloc h0 k0 client fresh p :
  owns h0 k0 client p →
  wp E (malloc fresh) p (λ b p', calm client p p' ∧
    ((b = NULL ∧ p_mem p ≠ [] ∧ owns h0 k0 client p') ∨
     (b ≠ NULL ∧ h0 !! b = None ∧ owns (<[b := fresh b]> h0) k0 client p'))).
Proof.
  intros (Ho & Hn & Hcn & c & s & Hh & Hm & Hk & Hs). pose proof (heap_ok_fresh _ Ho) as Hfr.
  apply wp_malloc; intros Hal.
  - split; [split_and!; try done; by intros ->|].
    left. split; [done|]. split; [intros Hnil; by rewrite Hnil in Hal|].
    split_and!; [|done|done|by exists c, s].
    apply (heap_ok_grow p); [done..|]. by left.
  - pose proof Ho as [Hb _]. rewrite Hh in Hfr. apply lookup_insert_None in Hfr as [Hfr Hne].
    split; [split_and!; try done; [simpl; by rewrite lookup_insert_ne by congruence|simpl; by intros ->]|].
    right.
    split; [unfold NULL; lia|]. split; [done|]. split_and!.
    + apply (heap_ok_grow p); simpl; [done|lia|]. intros a b. rewrite lookup_insert_Some.
      intros [[<- _]|[_ ?]]; [right; lia|left; eauto].
    + done.
    + by rewrite lookup_insert_ne.
    + exists c, s. split_and!; [|done..]. simpl. rewrite Hh. by rewrite insert_insert_ne.
Qed.

Lemma owns_free h0 k0 client b x p :
  owns (<[b := x]> h0) k0 client p → b ≠ NULL → h0 !! b = None →
  wp E (free b) p (λ _ p', calm client p p' ∧ owns h0 k0 client p').
Proof.
  intros (Ho & Hn & Hcn & c & s & Hh & Hm & Hk & Hs) Hb Hbn.
  apply lookup_insert_None in Hcn as [Hcn Hbc].
  eapply wp_free; [done|rewrite Hh, lookup_insert_ne, lookup_insert_eq by congruence; done|].
  split; [split_and!; try done; simpl; by rewrite lookup_delete_ne by congruence|].
  split_and!; [|done|done|].
  - apply (heap_ok_grow p); simpl; [done|lia|]. intros a y. rewrite lookup_delete_Some.
    intros [_ ?]. left. eauto.
  - exists c, s. split_and!; [|done..]. simpl.
    rewrite Hh, delete_insert_ne, delete_insert_id by congruence. done.
Qed.

Lemma owns_lookup h0 k0 client p a x :
  owns h0 k0 client p → h0 !! a = Some x → p_heap p !! a = Some x.
Proof.
  intros (_ & _ & Hcn & c & s & Hh & _) Ha. rewrite Hh, lookup_insert_ne; congruence.
Qed.

Lemma owns_store h0 k0 client b bs bs' p :
  owns (<[b := BBytes bs]> h0) k0 client p → h0 !! b = None →
  wp E (store_bytes b bs') p (λ _ p', calm client p p' ∧ owns (<[b := BBytes bs']> h0) k0 client p').
Proof.
  intros Hown Hbn. pose proof Hown as (Ho & Hn & Hcn & c & s & Hh & Hm & Hk & Hs).
  apply lookup_insert_None in Hcn as [Hcn Hbc].
  assert (p_heap p !! b = Some (BBytes bs)) as Hb.
  { rewrite Hh, lookup_insert_ne, lookup_insert_eq by congruence. done. }
  eapply wp_store_bytes; [exact Hb|].
  split; [split_and!; try done; simpl; by rewrite lookup_insert_ne by congruence|].
  split_and!; [|done| |].
  - apply (heap_ok_grow p); simpl; [done|lia|]. intros a y. rewrite lookup_insert_Some.
    intros [[<- _]|[_ ?]]; left; eauto.
  - by rewrite lookup_insert_ne.
  - exists c, s. split_and!; [|done..]. simpl.
    rewrite Hh, insert_insert_ne, insert_insert_eq by congruence. done.
Qed.

(** Changes of the standard streams do not touch what is owned. *)
Lemma owns_ext h0 k0 client p p' :
  owns h0 k0 client p → p_heap p' = p_heap p → p_socks p' = p_socks p → p_brk p' = p_brk p →
  owns h0 k0 client p'.
Proof.
  unfold owns, heap_ok. intros Hown Hh Hs Hb. rewrite Hh, Hs, Hb. exact Hown.
Qed.

(** The response and its payload among the program's blocks. *)
Lemma with_response_lookup r q data h0 :
  response_at r q data h0 →
  with_response r q data h0 !! r = Some (BResponse q) ∧
  ((payload_len q = 0 ∧ payload q = NULL) ∨
   (0 < payload_len q ∧ payload q ≠ NULL ∧
    with_response r q data h0 !! payload q = Some (BBytes data))).
Proof.
  intros (Hr & Hrn & Hlen & Hq). unfold with_response. split; [apply lookup_insert_eq|].
  destruct (Nat.ltb_spec 0 (length data)).
  - right. destruct Hq as (? & ? & ?). split_and!; [lia|done|].
    rewrite lookup_insert_ne, lookup_insert_eq by congruence. done.
  - left. split; [lia|done].
Qed.

(** The copy is one new block that holds the payload and its terminator. *)
Lemma terminated_copy_owns h0 k0 client q data p :
  owns h0 k0 client p → payload_len q = Z.of_nat (length data) →
  h0 !! payload q = Some (BBytes data) →
  wp E (terminated_copy q) p (λ b p', calm client p p' ∧
    ((b = NULL ∧ p_mem p ≠ [] ∧ owns h0 k0 client p') ∨
     (b ≠ NULL ∧ h0 !! b = None ∧ owns (<[b := BBytes (data ++ [x00])]> h0) k0 client p'))).
Proof.
  intros Hown Hlen Hdat. unfold terminated_copy.
  apply wp_bind. eapply wp_mono; [by apply owns_malloc|].
  intros b p1 [Hst [(-> & Hnil & Ho1)|(Hb & Hbn & Ho1)]].
  { apply wp_ret. split; [done|]. by left. }
  rewrite (proj2 (Z.eqb_neq b NULL)) by done.
  replace (Z.to_nat (payload_len q + 1)) with (length data + 1)%nat in * by lia.
  apply wp_bind. eapply wp_load_bytes.
  { eapply owns_lookup; [exact Ho1|]. rewrite lookup_insert_ne by congruence. exact Hdat. }
  replace (Z.to_nat (payload_len q)) with (length data) by lia.
  apply wp_bind, (wp_in_bounds _ _ data).
  { unfold mem_read. rewrite (proj2 (Nat.leb_le _ _)) by lia. by rewrite drop_0, take_ge. }
  apply wp_bind. eapply wp_load_bytes; [eapply owns_lookup; [exact Ho1|apply lookup_insert_eq]|].
  set (raw := junk_byte b <$> seq 0 (length data + 1)).
  assert (∃ d x, raw = d ++ [x] ∧ length d = length data) as (d & x & Hraw & Hd).
  { exists (junk_byte b <$> seq 0 (length data)), (junk_byte b (length data)).
    unfold raw. by rewrite seq_app, fmap_app, length_fmap, length_seq. }
  rewrite Hraw. apply wp_bind, (wp_in_bounds _ _ (data ++ [x])).
  { exact (mem_write_at 0 [] data d [x] eq_refl Hd). }
  apply wp_bind, (wp_in_bounds _ _ (data ++ [x00])).
  { exact (mem_write_at (length data) data [x00] [x] [] eq_refl eq_refl). }
  apply wp_bind. eapply wp_mono; [by eapply owns_store|].
  intros _ p2 [Hst2 Ho2]. apply wp_ret. split; [by eapply calm_trans|]. by right.
Qed.

End calls.
End ClientOwn.
