(* ===== verification/ClientApi.v ===== *)
(** * The client API as a whole

    The contract of [client/include/eop_client.h] as an invariant of the
    process: which heap blocks and descriptors exist, who owns each of them,
    and what every handle looks like between calls.  Every call made within
    the contract keeps the invariant, so that a program that disconnects its
    handles and frees its responses leaks neither memory nor descriptors. *)

From S2P Require Import Prelude Net Serializer Envelope Posix Client ClientLogic ClientSpec ClientConn.
Local Open Scope Z_scope.

Module ClientApi.
Import EopEnvelope Posix EopClient ClientLogic ClientSpec ClientConn.

(** ** The invariant *)

(** A handle between calls: unlocked, with the address it was opened for, and
    either disconnected or the owner of a blocking socket to that address. *)
Definition handle_ok (p : proc) (c : eop_client_t) : Prop :=
  mutex c = MFree ∧ in_width 32 (next_msg_id c) ∧ 1 ≤ port c ≤ 65535 ∧
  0 < connection_timeout_ms c ∧
  ∃ ip, inet_pton (host c) = Some ip ∧
    (socket_fd c = -1 ∨
     ∃ s, 0 ≤ socket_fd c ∧ p_socks p !! socket_fd c = Some s ∧
       cs_peer s = Some (ip, port c) ∧ cs_nonblock s = false).

(** A response: no payload, or a buffer of the announced length. *)
Definition response_ok (p : proc) (q : eop_response_t) : Prop :=
  (payload q = NULL ∧ payload_len q = 0) ∨
  ∃ bs, payload q ≠ NULL ∧ p_heap p !! payload q = Some (BBytes bs) ∧
    payload_len q = Z.of_nat (length bs) ∧ 0 < payload_len q.

Record wf (p : proc) : Prop := mkWf {
  wf_heap : heap_ok p;
  wf_handle : ∀ a c, p_heap p !! a = Some (BClient c) → handle_ok p c;
  wf_fds : ∀ a1 a2 c1 c2,
    p_heap p !! a1 = Some (BClient c1) → p_heap p !! a2 = Some (BClient c2) →
    socket_fd c1 = socket_fd c2 → socket_fd c1 ≠ -1 → a1 = a2;
  wf_socks : ∀ fd s, p_socks p !! fd = Some s →
    0 ≤ fd ∧ ∃ a c, p_heap p !! a = Some (BClient c) ∧ socket_fd c = fd;
  wf_response : ∀ r q, p_heap p !! r = Some (BResponse q) → response_ok p q;
  wf_payloads : ∀ r1 r2 q1 q2,
    p_heap p !! r1 = Some (BResponse q1) → p_heap p !! r2 = Some (BResponse q2) →
    payload q1 = payload q2 → payload q1 ≠ NULL → r1 = r2;
  wf_bytes : ∀ a bs, p_heap p !! a = Some (BBytes bs) →
    ∃ r q, p_heap p !! r = Some (BResponse q) ∧ payload q = a
}.

(** ** Preservation, one kind of change at a time *)

(** The invariant reads the heap, the break and the sockets only. *)
Lemma wf_ext p p' :
  wf p → heap_ok p' → p_heap p' = p_heap p → p_socks p' = p_socks p → wf p'.
Proof.
  intros [_ H2 H3 H4 H5 H6 H7] Ho Hh Hs. split; unfold handle_ok, response_ok in *;
    rewrite ?Hh, ?Hs; done.
Qed.

Lemma wf_gerr code msg p : wf p → wf (set_gerr code msg p).
Proof. intros Hwf. apply (wf_ext p); [done|apply Hwf|done..]. Qed.

(** Two live handles that own a socket own different ones. *)
Lemma handle_owns p a c :
  wf p → p_heap p !! a = Some (BClient c) → socket_fd c ≠ -1 →
  is_Some (p_socks p !! socket_fd c).
Proof.
  intros Hwf Ha Hne. destruct (wf_handle _ Hwf _ _ Ha) as (_&_&_&_&ip&_&[?|(s&_&?&_)]); [done|].
  by eexists.
Qed.

(** A handle changed in place, possibly to another socket. *)
Lemma wf_replace p p' client c c' :
  wf p → heap_ok p' → p_heap p !! client = Some (BClient c) →
  p_heap p' = <[client := BClient c']> (p_heap p) → handle_ok p' c' →
  (socket_fd c' = socket_fd c ∨ p_socks p !! socket_fd c' = None) →
  (∀ fd, fd ≠ socket_fd c → fd ≠ socket_fd c' → p_socks p' !! fd = p_socks p !! fd) →
  (socket_fd c ≠ socket_fd c' → p_socks p' !! socket_fd c = None) →
  p_socks p' !! (-1) = None →
  wf p'.
Proof.
  intros Hwf Ho Hc Hh Hok Hfr Hs Hgone Hneg. pose proof Hwf as [H1 H2 H3 H4 H5 H6 H7].
  (* another handle keeps its socket *)
  assert (∀ a d, a ≠ client → p_heap p !! a = Some (BClient d) → socket_fd d ≠ -1 →
    socket_fd d ≠ socket_fd c ∧ socket_fd d ≠ socket_fd c') as Hother.
  { intros a d Hne Ha Hd. pose proof (handle_owns _ _ _ Hwf Ha Hd) as [s Hsd].
    assert (socket_fd d ≠ socket_fd c) by (intros ?; destruct Hne; by eapply H3).
    split; [done|]. destruct Hfr; congruence. }
  split; unfold response_ok in *; rewrite ?Hh.
  - done.
  - intros a d. rewrite lookup_insert_Some. intros [[<- ?]|[Hne Ha]]; [by simplify_eq|].
    destruct (H2 a d Ha) as (?&?&?&?&ip&Hip&Hd). do 4 (split; [done|]). exists ip. split; [done|].
    destruct Hd as [|(s & ? & Hsk & ?)]; [by left|]. right. exists s.
    destruct (Hother a d); [done|done|lia|]. rewrite Hs by done. tauto.
  - intros a1 a2 c1 c2. rewrite !lookup_insert_Some.
    intros [[<- ?]|[? ?]] [[<- ?]|[? ?]] Heq Hn1; simplify_eq; [done| | |by eapply H3].
    + destruct (Hother a2 c2); [done|done|congruence|done].
    + destruct (Hother a1 c1); [done|done|congruence|done].
  - intros fd s Hsk. destruct (decide (fd = socket_fd c')) as [->|Hne].
    + split; [|exists client, c'; by rewrite lookup_insert_eq].
      destruct Hok as (_&_&_&_&ip&_&[Hm|(? & ? & _)]); [|done]. by rewrite Hm, Hneg in Hsk.
    + destruct (decide (fd = socket_fd c)) as [->|Hne2]; [by rewrite Hgone in Hsk|].
      rewrite Hs in Hsk by done. destruct (H4 _ _ Hsk) as (? & a & d & Ha & <-).
      split; [done|]. exists a, d. rewrite lookup_insert_ne; [done|]. intros ->. congruence.
  - intros r q. rewrite lookup_insert_Some. intros [[_ ?]|[_ Hr]]; [done|].
    destruct (H5 r q Hr) as [|(bs & ? & Hb & ?)]; [by left|]. right. exists bs.
    rewrite lookup_insert_ne; [tauto|]. intros ->. congruence.
  - intros r1 r2 q1 q2. rewrite !lookup_insert_Some. intros [[_ ?]|[_ ?]] [[_ ?]|[_ ?]]; try done.
    by eapply H6.
  - intros a bs. rewrite lookup_insert_Some. intros [[_ ?]|[_ Ha]]; [done|].
    destruct (H7 a bs Ha) as (r & q & Hr & Hq). exists r, q. rewrite lookup_insert_ne; [done|].
    intros ->. congruence.
Qed.

(** A new handle with a new socket. *)
Lemma wf_add_handle p p' r c s :
  wf p → heap_ok p' → p_heap p !! r = None → p_heap p' = <[r := BClient c]> (p_heap p) →
  p_socks p !! socket_fd c = None → p_socks p' = <[socket_fd c := s]> (p_socks p) →
  0 ≤ socket_fd c → handle_ok p' c →
  wf p'.
Proof.
  intros Hwf Ho Hr Hh Hfd Hs Hpos Hok. pose proof Hwf as [H1 H2 H3 H4 H5 H6 H7].
  assert (∀ a d, p_heap p !! a = Some (BClient d) → socket_fd d ≠ -1 → socket_fd d ≠ socket_fd c)
    as Hother.
  { intros a d Ha Hd Heq. destruct (handle_owns _ _ _ Hwf Ha Hd) as [s' Hs']. congruence. }
  split; unfold response_ok in *; rewrite ?Hh.
  - done.
  - intros a d. rewrite lookup_insert_Some. intros [[<- ?]|[Hne Ha]]; [by simplify_eq|].
    destruct (H2 a d Ha) as (?&?&?&?&ip&Hip&Hd). do 4 (split; [done|]). exists ip. split; [done|].
    destruct Hd as [|(s' & ? & Hsk & ?)]; [by left|]. right. exists s'.
    assert (socket_fd d ≠ socket_fd c) by (apply (Hother a); [done|lia]).
    rewrite Hs, lookup_insert_ne by done. tauto.
  - intros a1 a2 c1 c2. rewrite !lookup_insert_Some.
    intros [[<- ?]|[? ?]] [[<- ?]|[? ?]] Heq Hn1; simplify_eq; [done| | |by eapply H3].
    + destruct (Hother a2 c2); [done|congruence|done].
    + destruct (Hother a1 c1); [done|congruence|done].
  - intros fd s'. rewrite Hs, lookup_insert_Some. intros [[<- _]|[Hne Hsk]].
    + split; [done|]. exists r, c. by rewrite lookup_insert_eq.
    + destruct (H4 _ _ Hsk) as (? & a & d & Ha & <-). split; [done|]. exists a, d.
      rewrite lookup_insert_ne; [done|]. intros ->. congruence.
  - intros r' q. rewrite lookup_insert_Some. intros [[_ ?]|[_ Hr']]; [done|].
    destruct (H5 _ q Hr') as [|(bs & ? & Hb & ?)]; [by left|]. right. exists bs.
    rewrite lookup_insert_ne; [tauto|]. intros ->. congruence.
  - intros r1 r2 q1 q2. rewrite !lookup_insert_Some. intros [[_ ?]|[_ ?]] [[_ ?]|[_ ?]]; try done.
    by eapply H6.
  - intros a bs. rewrite lookup_insert_Some. intros [[_ ?]|[_ Ha]]; [done|].
    destruct (H7 a bs Ha) as (r' & q & Hr' & Hq). exists r', q. rewrite lookup_insert_ne; [done|].
    intros ->. congruence.
Qed.

(** A handle released with its socket. *)
Lemma wf_remove_handle p p' client c :
  wf p → p_heap p !! client = Some (BClient c) → p_brk p' = p_brk p →
  p_heap p' = delete client (p_heap p) → p_socks p' = delete (socket_fd c) (p_socks p) →
  wf p'.
Proof.
  intros Hwf Hc Hb Hh Hs. pose proof Hwf as [H1 H2 H3 H4 H5 H6 H7].
  split; unfold response_ok in *; rewrite ?Hh.
  - destruct H1 as [? Hlt]. split; [lia|]. intros a b. rewrite Hh, lookup_delete_Some.
    intros [_ Ha]. apply Hlt in Ha. lia.
  - intros a d. rewrite lookup_delete_Some. intros [Hne Ha].
    destruct (H2 a d Ha) as (?&?&?&?&ip&Hip&Hd). do 4 (split; [done|]). exists ip. split; [done|].
    destruct Hd as [|(s & ? & Hsk & ?)]; [by left|]. right. exists s.
    rewrite Hs, lookup_delete_ne; [tauto|]. intros Heq. destruct Hne. eapply H3; eauto. lia.
  - intros a1 a2 c1 c2. rewrite !lookup_delete_Some. intros [_ ?] [_ ?]. by eapply H3.
  - intros fd s. rewrite Hs, lookup_delete_Some. intros [Hne Hsk].
    destruct (H4 _ _ Hsk) as (? & a & d & Ha & <-). split; [done|]. exists a, d.
    rewrite lookup_delete_ne; [done|]. intros ->. congruence.
  - intros r q. rewrite lookup_delete_Some. intros [_ Hr].
    destruct (H5 r q Hr) as [|(bs & ? & Hbs & ?)]; [by left|]. right. exists bs.
    rewrite lookup_delete_ne; [tauto|]. intros ->. congruence.
  - intros r1 r2 q1 q2. rewrite !lookup_delete_Some. intros [_ ?] [_ ?]. by eapply H6.
  - intros a bs. rewrite lookup_delete_Some. intros [_ Ha].
    destruct (H7 a bs Ha) as (r & q & Hr & Hq). exists r, q. rewrite lookup_delete_ne; [done|].
    intros ->. congruence.
Qed.

(** A new response, with or without a payload. *)
Lemma wf_add_response p p' r q :
  wf p → heap_ok p' → p_socks p' = p_socks p → r ≠ NULL → p_heap p !! r = None →
  ((payload q = NULL ∧ payload_len q = 0 ∧ p_heap p' = <[r := BResponse q]> (p_heap p)) ∨
   ∃ bs, payload q ≠ NULL ∧ payload q ≠ r ∧ p_heap p !! payload q = None ∧
     payload_len q = Z.of_nat (length bs) ∧ 0 < payload_len q ∧
     p_heap p' = <[r := BResponse q]> (<[payload q := BBytes bs]> (p_heap p))) →
  wf p'.
Proof.
  intros [H1 H2 H3 H4 H5 H6 H7] Ho Hs Hr Hfr Hq.
  (* the blocks of the new heap *)
  assert (∀ a b, p_heap p' !! a = Some b →
    p_heap p !! a = Some b ∨ (a = r ∧ b = BResponse q) ∨
    (a = payload q ∧ payload q ≠ NULL ∧ p_heap p !! a = None ∧ ∃ bs, b = BBytes bs)) as Hin.
  { intros a b. destruct Hq as [(_ & _ & ->)|(bs & ? & ? & ? & _ & _ & ->)];
      rewrite !lookup_insert_Some; naive_solver. }
  assert (∀ a b, p_heap p !! a = Some b → p_heap p' !! a = Some b) as Hold.
  { intros a b Ha. destruct Hq as [(_ & _ & ->)|(bs & ? & ? & ? & _ & _ & ->)];
      rewrite !lookup_insert_ne; congruence. }
  assert (p_heap p' !! r = Some (BResponse q)) as Hnew.
  { destruct Hq as [(_ & _ & ->)|(bs & ? & ? & ? & _ & _ & ->)]; apply lookup_insert_eq. }
  assert (∀ r' q', p_heap p !! r' = Some (BResponse q') → payload q' = payload q →
    payload q' ≠ NULL → False) as Hsep.
  { intros r' q' Hr' Heq Hn. destruct (H5 _ _ Hr') as [[? _]|(bs & _ & Hb & _)]; [done|].
    destruct Hq as [(? & _)|(bs' & _ & _ & Hnone & _)]; congruence. }
  split.
  - done.
  - intros a c Ha. apply Hin in Ha as [Ha|[[_ ?]|(_ & _ & _ & bs & ?)]]; try done.
    unfold handle_ok. rewrite Hs. exact (H2 _ _ Ha).
  - intros a1 a2 c1 c2 Ha1 Ha2.
    apply Hin in Ha1 as [Ha1|[[_ ?]|(_ & _ & _ & bs & ?)]]; try done.
    apply Hin in Ha2 as [Ha2|[[_ ?]|(_ & _ & _ & bs & ?)]]; try done. by eapply H3.
  - intros fd s. rewrite Hs. intros Hsk. destruct (H4 _ _ Hsk) as (? & a & c & ? & ?).
    split; [done|]. exists a, c. auto.
  - intros r' q' Hr'. unfold response_ok. apply Hin in Hr' as [Ha|[[_ ?]|(_ & _ & _ & bs & ?)]]; try done.
    + destruct (H5 _ _ Ha) as [|(bs & ? & ? & ?)]; [by left|]. right. exists bs. auto.
    + simplify_eq. destruct Hq as [(? & ? & _)|(bs & ? & ? & ? & ? & ? & ->)]; [by left|].
      right. exists bs. rewrite lookup_insert_ne, lookup_insert_eq by done. done.
  - intros r1 r2 q1 q2 Hr1 Hr2 Heq Hn.
    apply Hin in Hr1 as [Hr1|[[-> ?]|(_ & _ & _ & bs & ?)]]; try done;
    apply Hin in Hr2 as [Hr2|[[-> ?]|(_ & _ & _ & bs & ?)]]; try done; simplify_eq.
    + by eapply H6.
    + by destruct (Hsep _ _ Hr1 Heq).
    + destruct (Hsep _ _ Hr2 (eq_sym Heq)). congruence.
  - intros a bs Ha. apply Hin in Ha as [Ha|[[_ ?]|(-> & _ & _ & bs' & ?)]]; try done.
    + destruct (H7 _ _ Ha) as (r' & q' & ? & ?). exists r', q'. auto.
    + exists r, q. done.
Qed.

(** A response released. *)
Lemma wf_free_response p p' r q :
  wf p → p_heap p !! r = Some (BResponse q) → p_brk p' = p_brk p → p_socks p' = p_socks p →
  p_heap p' = delete r (if payload q =? NULL then p_heap p else delete (payload q) (p_heap p)) →
  wf p'.
Proof.
  intros [H1 H2 H3 H4 H5 H6 H7] Hr Hb Hs Hh.
  assert (∀ a b, p_heap p' !! a = Some b ↔
    a ≠ r ∧ (payload q = NULL ∨ a ≠ payload q) ∧ p_heap p !! a = Some b) as Hin.
  { intros a b. rewrite Hh, lookup_delete_Some.
    destruct (Z.eqb_spec (payload q) NULL); [|rewrite lookup_delete_Some]; naive_solver. }
  assert (∀ a c, p_heap p !! a = Some (BClient c) → p_heap p' !! a = Some (BClient c)) as Hcl.
  { intros a c Ha. apply Hin. split_and!; [congruence| |done].
    destruct (H5 _ _ Hr) as [[? _]|(bs & _ & Hbs & _)]; [by left|right; congruence]. }
  split.
  - destruct H1 as [? Hlt]. split; [lia|]. intros a b Ha. apply Hin in Ha as (_ & _ & Ha).
    apply Hlt in Ha. lia.
  - intros a c Ha. apply Hin in Ha as (_ & _ & Ha). unfold handle_ok. rewrite Hs. exact (H2 _ _ Ha).
  - intros a1 a2 c1 c2 Ha1 Ha2. apply Hin in Ha1 as (_ & _ & Ha1).
    apply Hin in Ha2 as (_ & _ & Ha2). by eapply H3.
  - intros fd s. rewrite Hs. intros Hsk. destruct (H4 _ _ Hsk) as (? & a & c & ? & ?).
    split; [done|]. exists a, c. auto.
  - intros r' q' Hr'. apply Hin in Hr' as (Hne & _ & Hr'). unfold response_ok.
    destruct (H5 _ _ Hr') as [|(bs & Hn & Hbs & ?)]; [by left|]. right. exists bs.
    split_and!; [done| |tauto..]. apply Hin. split_and!; [congruence| |done].
    destruct (decide (payload q = NULL)); [by left|right]. intros Heq. destruct Hne.
    by apply (H6 _ _ _ _ Hr' Hr).
  - intros r1 r2 q1 q2 Ha1 Ha2. apply Hin in Ha1 as (_ & _ & Ha1).
    apply Hin in Ha2 as (_ & _ & Ha2). by eapply H6.
  - intros a bs Ha. apply Hin in Ha as (Hne & Hp & Ha).
    destruct (H7 _ _ Ha) as (r' & q' & Hr' & Heq). exists r', q'. split; [|done].
    apply Hin. split_and!; [|destruct (H5 _ _ Hr) as [[? _]|(bs' & _ & Hbs & _)];
      [by left|right; congruence]|done].
    intros ->. rewrite Hr in Hr'. simplify_eq.
    destruct (H5 _ _ Hr) as [[? _]|(bs' & ? & _)]; destruct Hp; try done.
    destruct H1 as [_ Hlt]. apply Hlt in Ha. unfold NULL in *. lia.
Qed.

(** ** The calls *)

Inductive call :=
| CallConnect (host_ : option string) (port_ timeout_ms : Z)
| CallSend (client type : Z) (payload_ : option (list byte)) (len : Z)
| CallReconnect (client timeout_ms : Z)
| CallLastError (client : Z) (buffer : option Z)
| CallDisconnect (client : Z)
| CallFree (response : Z).

Definition perform `{Junk} (k : call) : C unit :=
  match k with
  | CallConnect h po tm => eop_connect h po tm;; mret tt
  | CallSend cl t pl len => eop_send_command cl t pl len;; mret tt
  | CallReconnect cl tm => eop_reconnect cl tm;; mret tt
  | CallLastError cl buf => eop_last_error cl buf;; mret tt
  | CallDisconnect cl => eop_disconnect cl
  | CallFree r => eop_response_free r
  end.

(** Null or a handle that has not been disconnected; null or a response that
    has not been freed. *)
Definition live_handle (p : proc) (a : Z) : Prop :=
  a = NULL ∨ ∃ c, p_heap p !! a = Some (BClient c).
Definition live_response (p : proc) (a : Z) : Prop :=
  a = NULL ∨ ∃ q, p_heap p !! a = Some (BResponse q).

(** The preconditions of the header.  A null payload with a positive length
    is allowed: the library rejects it itself. *)
Definition allowed (p : proc) (k : call) : Prop :=
  match k with
  | CallConnect _ _ _ => True
  | CallSend cl _ pl len =>
      live_handle p cl ∧
      ((∃ bs, points_to pl bs ∧ len = Z.of_nat (length bs) ∧ len < 2 ^ 32 - 14) ∨
       (pl = None ∧ 0 < len))
  | CallReconnect cl _ | CallLastError cl _ | CallDisconnect cl => live_handle p cl
  | CallFree r => live_response p r
  end.

Section calls.
Context `{Junk}.

Lemma wf_not_null p a b : wf p → p_heap p !! a = Some b → a ≠ NULL.
Proof. intros Hwf Ha. apply (wf_heap _ Hwf) in Ha. unfold NULL. lia. Qed.

Lemma wf_no_negative p : wf p → p_socks p !! (-1) = None.
Proof.
  intros Hwf. destruct (p_socks p !! (-1)) eqn:E; [|done].
  apply (wf_socks _ Hwf) in E. lia.
Qed.

Lemma connect_verdict_port h po p at_ :
  connect_verdict h po p = Established at_ → 1 ≤ po ≤ 65535.
Proof.
  unfold connect_verdict, TCP_PORT_MIN_VALUE, TCP_PORT_MAX_VALUE. destruct h; [|done].
  destruct (_ || _) eqn:Hp; [done|]. bool_to_prop. lia.
Qed.

Lemma connect_keeps h po tm p :
  wf p → wp only_sigpipe (eop_connect h po tm) p (λ _ p', wf p').
Proof.
  intros Hwf. eapply wp_mono; [apply connect_spec, Hwf|].
  intros r p' (_ & Ho & _ & _ & Hv).
  destruct (connect_verdict h po p) as [code msg|at_] eqn:Hcv.
  { destruct Hv as (_ & ? & ? & _). by apply (wf_ext p). }
  apply connect_verdict_port in Hcv.
  destruct Hv as (h' & ip & fd & -> & Hip & Hfd & Hnone & Hr & Hrn & Hh & Hs & _).
  eapply (wf_add_handle p p' r); [done..|]. simpl.
  split; [done|]. split; [done|]. split; [done|]. split; [simpl; case_goal; bool_to_prop; [done|by compute]|].
  exists ip. split; [done|]. right. eexists. split; [done|]. simpl. rewrite Hs, lookup_insert_eq. done.
Qed.

Lemma reconnect_keeps client c tm p :
  wf p → p_heap p !! client = Some (BClient c) →
  wp only_sigpipe (eop_reconnect client tm) p (λ _ p', wf p').
Proof.
  intros Hwf Hc. destruct (wf_handle _ Hwf _ _ Hc) as (Hm & Hid & Hpo & Htm & ip & Hip & Hsk).
  eapply wp_mono.
  { apply reconnect_spec; [by eapply wf_not_null|done|done|unfold in_width; lia]. }
  intros code p' (Hg & _ & Hv). destruct Hg as (_ & _ & _ & Hbrk & _).
  pose proof (wf_no_negative _ Hwf) as Hneg.
  assert (∀ b, p_heap p' = <[client := b]> (p_heap p) → heap_ok p') as Ho.
  { intros b Hh. apply (heap_ok_grow p); [apply Hwf|lia|]. intros a b'.
    rewrite Hh, lookup_insert_Some. intros [[<- _]|[_ ?]]; left; eauto. }
  destruct (reconnect_verdict c p) as [code' msg|at_].
  - destruct Hv as (_ & Hs & Hh). eapply wf_replace; [exact Hwf|by eapply Ho|exact Hc|exact Hh| | | | |].
    + do 4 (split; [done|]). exists ip. split; [done|by left].
    + by right.
    + intros fd Hne _. rewrite Hs, lookup_delete_ne; done.
    + intros _. rewrite Hs. apply lookup_delete_eq.
    + rewrite Hs, lookup_delete_None. by right.
  - destruct Hv as (ip' & fd & _ & Hip' & Hfd & Hnone & Hs & Hh & _).
    eapply wf_replace; [exact Hwf|by eapply Ho|exact Hc|exact Hh| | | | |]; simpl.
    + do 4 (split; [done|]). exists ip'. split; [done|]. right. eexists. split; [done|].
      simpl. rewrite Hs, lookup_insert_eq. done.
    + apply lookup_delete_None in Hnone as [?|?]; auto.
    + intros fd' Hne Hne'. rewrite Hs, lookup_insert_ne, lookup_delete_ne; done.
    + intros Hne. rewrite Hs, lookup_insert_ne by done. apply lookup_delete_eq.
    + rewrite Hs, lookup_insert_ne, lookup_delete_None by lia. by right.
Qed.

(** A command leaves the other sockets alone and its own connected. *)
Lemma command_keeps_sockets client c t bs p r p' ip :
  wf p →
  (socket_fd c = -1 ∨ ∃ s, 0 ≤ socket_fd c ∧ p_socks p !! socket_fd c = Some s ∧
     cs_peer s = Some (ip, port c) ∧ cs_nonblock s = false) →
  command_leaves client c t bs p r p' →
  p_socks p' !! (-1) = None ∧
  (∀ fd, fd ≠ socket_fd c → p_socks p' !! fd = p_socks p !! fd) ∧
  (socket_fd c = -1 ∨ ∃ s, 0 ≤ socket_fd c ∧ p_socks p' !! socket_fd c = Some s ∧
     cs_peer s = Some (ip, port c) ∧ cs_nonblock s = false).
Proof.
  intros Hwf Hsk (_ & _ & _ & _ & _ & Hks). pose proof (wf_no_negative _ Hwf).
  destruct Hsk as [Hm1|(s & Hge & Hsome & Hpeer & Hnb)].
  - rewrite Hm1 in *. destruct (p_socks p !! (-1)) eqn:Hn; [done|]. rewrite Hks.
    split_and!; [done|done|by left].
  - rewrite Hsome in Hks. destruct Hks as (ins & _ & ->). split; [|split].
    + rewrite lookup_insert_ne by lia. done.
    + intros fd Hne. by rewrite lookup_insert_ne.
    + right. eexists. rewrite lookup_insert_eq. split_and!; [done|done|..];
        simpl; unfold sock_sent; case_goal; try done; by destruct (handed _ _) as [[??]?].
Qed.

Lemma send_keeps client c t pl bs p :
  wf p → p_heap p !! client = Some (BClient c) → points_to pl bs →
  Z.of_nat (length bs) < 2 ^ 32 - 14 →
  wp only_sigpipe (eop_send_command client t pl (Z.of_nat (length bs))) p (λ _ p', wf p').
Proof.
  intros Hwf Hc Hp Hs. destruct (wf_handle _ Hwf _ _ Hc) as (Hm & Hid & Hpo & Htm & ip & Hip & Hsk).
  eapply wp_weaken; [|eapply wp_mono; [apply send_command_spec; try done|]].
  { intros f [-> _]. done. }
  { by eapply wf_not_null. }
  { apply Hwf. }
  intros r p' [_ Hl]. destruct (command_keeps_sockets _ _ _ _ _ _ _ ip Hwf Hsk Hl) as (Hneg' & Hoth & Hown).
  destruct Hl as (_ & Ho & Hb & _ & Hh & _). set (c1 := set_next_id _ c) in Hh.
  assert (∀ q code msg, heap_ok q → p_socks q = p_socks p' →
    p_heap q = <[client := BClient (settled code msg c1)]> (p_heap p) → wf q) as Hup.
  { intros q code msg Hoq Hsq Hhq.
    eapply wf_replace; [exact Hwf|done|exact Hc|exact Hhq| |by left| |done|]; rewrite ?Hsq.
    - split; [done|]. split; [by apply wrap_range|]. do 2 (split; [done|]). exists ip.
      rewrite Hsq. done.
    - auto.
    - done. }
  destruct (command_reply _ _ _ _) as [[t' id' bs'|code msg] used]; simpl in Hh.
  2: { destruct Hh as [_ Hh]. by eapply Hup. }
  destruct Hh as (Hr & Hrn & Hh).
  set (p1 := set_heap (<[client := BClient (settled EOP_OK "" c1)]> (p_heap p)) p').
  assert (wf p1) as Hwf1.
  { eapply (Hup _ EOP_OK ""); [|done..]. apply (heap_ok_grow p); [apply Hwf|done|].
    intros a b. simpl. rewrite lookup_insert_Some. intros [[<- _]|[_ ?]]; left; eauto. }
  assert (∀ a, p_heap p !! a = None → p_heap p1 !! a = None) as Hn1.
  { intros a Ha. simpl. apply lookup_insert_None. split; [done|]. intros ->. congruence. }
  destruct (Nat.ltb_spec 0 (length bs')) as [Hl|Hl].
  - destruct Hh as (a & Ha & Har & Han & Hh).
    apply (wf_add_response p1 p' r (mkResponse t' id' a (Z.of_nat (length bs'))));
      [done|done|done|done|auto|]. right. exists bs'.
    split_and!; [done|done|auto|done|simpl; lia|exact Hh].
  - apply (wf_add_response p1 p' r (mkResponse t' id' NULL 0)); [done|done|done|done|auto|]. left.
    split_and!; [done|done|exact Hh].
Qed.

Lemma perform_keeps k p :
  wf p → allowed p k → wp only_sigpipe (perform k) p (λ _ p', wf p').
Proof.
  intros Hwf Hk. destruct k as [h po tm|cl t pl len|cl tm|cl buf|cl|r]; simpl in *.
  - apply wp_bind. eapply wp_mono; [by apply connect_keeps|]. by intros.
  - apply wp_bind. eapply wp_mono; [|by intros ? ? HW; apply wp_ret, HW].
    assert (bool_decide (pl = None) && (0 <? len) = true →
      wp only_sigpipe (eop_send_command cl t pl len) p (λ _ p', wf p')) as Hrej.
    { intros Hb. unfold eop_send_command. rewrite Hb. case_goal; by apply wp_bind, wp_modify, wp_ret, wf_gerr. }
    destruct Hk as [[->|[c Hc]] [(bs & Hp & -> & Hl)|[-> Hl]]].
    + by apply wp_bind, wp_modify, wp_ret, wf_gerr.
    + by apply wp_bind, wp_modify, wp_ret, wf_gerr.
    + by apply (send_keeps cl c).
    + apply Hrej. by rewrite (proj2 (Z.ltb_lt _ _)).
  - apply wp_bind. eapply wp_mono; [|by intros ? ? HW; apply wp_ret, HW].
    destruct Hk as [->|[c Hc]]; [by apply wp_bind, wp_modify, wp_ret, wf_gerr|by apply (reconnect_keeps cl c)].
  - apply wp_bind. destruct Hk as [->|[c Hc]]; [by apply last_error_null|].
    eapply last_error_spec; [by eapply wf_not_null|done|by eapply wf_handle|]. done.
  - destruct Hk as [->|[c Hc]]; [done|].
    eapply disconnect_spec; [by eapply wf_not_null|done|by eapply wf_handle|].
    by eapply (wf_remove_handle p _ cl c).
  - destruct Hk as [->|[q Hq]]; [done|].
    eapply response_free_spec; [by eapply wf_not_null|done| |].
    + destruct (wf_response _ Hwf _ _ Hq) as [[? _]|(bs & ? & ? & _)]; [by left|right; eauto].
    + by eapply (wf_free_response p _ r q).
Qed.

(** ** Programs *)

(** One call made within the contract that returns. *)
Definition step (p p' : proc) : Prop :=
  ∃ k, allowed p k ∧ perform k p = Done tt p'.

(** A process in which nothing has been allocated or opened. *)
Definition pristine (p : proc) : Prop := p_heap p = ∅ ∧ p_socks p = ∅ ∧ 0 < p_brk p.

Lemma pristine_wf p : pristine p → wf p.
Proof.
  intros (Hh & Hs & Hb). split; unfold heap_ok; rewrite ?Hh, ?Hs; try done.
Qed.

Lemma steps_wf p p' : rtc step p p' → wf p → wf p'.
Proof.
  induction 1 as [|p p1 p2 (k & Hk & Hr) _ IH]; [done|]. intros Hwf. apply IH.
  pose proof (perform_keeps k p Hwf Hk) as HW. unfold wp in HW. by rewrite Hr in HW.
Qed.

(** Nothing owns nothing. *)
Lemma wf_nothing_owned p :
  wf p → (∀ a c, p_heap p !! a ≠ Some (BClient c)) → (∀ a q, p_heap p !! a ≠ Some (BResponse q)) →
  p_heap p = ∅ ∧ p_socks p = ∅.
Proof.
  intros Hwf Hc Hq. split; apply map_eq; intros x; rewrite lookup_empty.
  - destruct (p_heap p !! x) as [[c|q|bs]|] eqn:E; [by destruct (Hc x c)|by destruct (Hq x q)| |done].
    destruct (wf_bytes _ Hwf _ _ E) as (r & q & Hr & _). by destruct (Hq r q).
  - destruct (p_socks p !! x) as [s|] eqn:E; [|done].
    destruct (wf_socks _ Hwf _ _ E) as (_ & a & c & Ha & _). by destruct (Hc a c).
Qed.

End calls.
(** ** Correctness *)

(** C23: every call of the API made within the contract of its header returns
    (or the process dies of SIGPIPE) and keeps the process well formed: each
    handle is unlocked and either disconnected or the only owner of an open
    blocking socket to the address it was opened for, each response owns a
    payload buffer of exactly the announced length, and every block and
    descriptor has one owner. *)
Theorem api_call_typed `{Junk} k p :
  wf p → allowed p k → wp only_sigpipe (perform k) p (λ _ p', wf p').
Proof. apply perform_keeps. Qed.

Lemma api_call_witness :
  let p := start [] in
  wp only_sigpipe (perform (H := zero_junk) (CallConnect (Some "localhost") 9026 0)) p
    (λ _ p', wf p').
Proof.
  intros p. apply (api_call_typed (H := zero_junk) (CallConnect (Some "localhost") 9026 0) p).
  - apply pristine_wf. split; [reflexivity|]. split; reflexivity.
  - exact I.
Defined.

(** C18: the client library does not leak: however a program has used the API
    within its contract, and whatever the network and the allocator did, once
    it has disconnected its handles and freed its responses there is no heap
    block and no descriptor left. *)
Theorem client_no_leak `{Junk} p0 p :
  pristine p0 → rtc step p0 p →
  (∀ a c, p_heap p !! a ≠ Some (BClient c)) → (∀ a q, p_heap p !! a ≠ Some (BResponse q)) →
  p_heap p = ∅ ∧ p_socks p = ∅.
Proof.
  intros H0 Hr. apply wf_nothing_owned. by apply (steps_wf p0), pristine_wf.
Qed.

Definition after (k : call) (p : proc) : proc :=
  match perform (H := zero_junk) k p with Done _ p' => p' | Crash _ => p end.

Definition demo_p0 : proc :=
  start [success [Chunk (MessageSerializer.buildFrame MessageSerializer.ACK 0 "{}")] []].
Definition demo_p1 : proc := after (CallConnect (Some "127.0.0.1") 9026 100) demo_p0.
Definition demo_p2 : proc := after (CallSend 1 EOP_LIST_NODES None 0) demo_p1.
Definition demo_p3 : proc := after (CallFree 4) demo_p2.
Definition demo_p4 : proc := after (CallDisconnect 1) demo_p3.

(** A call that returns is a step. *)
Lemma after_step k p :
  allowed p k → match perform (H := zero_junk) k p with Done _ _ => true | Crash _ => false end = true →
  step (H := zero_junk) p (after k p).
Proof.
  intros Ha Hr. exists k. split; [done|]. unfold after.
  by destruct (perform k p) as [[] p'|f].
Qed.

Lemma client_no_leak_witness : p_heap demo_p4 = ∅ ∧ p_socks demo_p4 = ∅.
Proof.
  assert (p_heap demo_p4 = ∅) as Hh by (vm_compute; reflexivity).
  apply (client_no_leak (H := zero_junk) demo_p0 demo_p4).
  - split; [reflexivity|]. split; reflexivity.
  - eapply rtc_l; [apply (after_step (CallConnect (Some "127.0.0.1") 9026 100));
      [exact I|vm_compute; reflexivity]|].
    eapply rtc_l; [apply (after_step (CallSend 1 EOP_LIST_NODES None 0));
      [|vm_compute; reflexivity]|].
    { split; [right; eexists; vm_compute; reflexivity|].
      left. exists []. split; [right; split; reflexivity|split; reflexivity]. }
    eapply rtc_l; [apply (after_step (CallFree 4)); [|vm_compute; reflexivity]|].
    { right. eexists. vm_compute. reflexivity. }
    eapply rtc_l; [|apply rtc_refl]. apply (after_step (CallDisconnect 1));
      [|vm_compute; reflexivity].
    right. eexists. vm_compute. reflexivity.
  - intros a c. rewrite Hh, lookup_empty. congruence.
  - intros a q. rewrite Hh, lookup_empty. congruence.
Defined.

End ClientApi.
