(* ===== verification/ClientSession.v ===== *)
(** * A client against a stream of frames

    What a sequence of commands on one handle sends and receives when the
    other side writes frames built by the server's [MessageSerializer]: the
    two ends agree on the wire format, and the n-th command returns the n-th
    frame. *)

From S2P Require Import Prelude Net Serializer Envelope Posix Client ClientLogic ClientSpec.
Local Open Scope Z_scope.

Module ClientSession.
Import MessageSerializer EopEnvelope Posix EopClient ClientLogic ClientSpec.

(** ** One wire format *)

(** The server's name of a client message type. *)
Definition wire_type (t : Z) : MessageType := byte_type (byte_of t).

Lemma request_frame_bytes t id bs : request t id bs = frame_bytes (wire_type t) id bs.
Proof. unfold request, frame_bytes, wire_type. by rewrite type_byte_type. Qed.

(** A server frame at the head of the stream is the reply. *)
Lemma received_frame t id payload_ rest f :
  in_width 32 id → str_size payload_ < 2 ^ 32 - 14 →
  received (buildFrame t id payload_ ++ rest) f [] =
  (Answer (byte_val (type_byte t)) id (bytes_of_string payload_),
   Some (14 + length (bytes_of_string payload_))%nat).
Proof.
  intros Hid Hs. rewrite buildFrame_layout by done. unfold str_size in Hs.
  set (bs := bytes_of_string payload_) in *. unfold received.
  rewrite !length_app, length_frame_bytes.
  rewrite (proj2 (Nat.ltb_ge _ 4)), (proj2 (Nat.ltb_ge _ 14)) by lia.
  change (nth 4 (frame_bytes t id bs ++ rest) x00) with x01.
  change (nth 5 (frame_bytes t id bs ++ rest) x00) with (type_byte t).
  change (take 4 (drop 6 (frame_bytes t id bs ++ rest))) with (u32_be id).
  change (take 4 (drop 10 (frame_bytes t id bs ++ rest))) with (u32_be (Z.of_nat (length bs))).
  change (drop 14 (frame_bytes t id bs ++ rest)) with (bs ++ rest).
  rewrite !be_u32_be by (done || unfold in_width; lia). rewrite Nat2Z.id.
  cbn [negb alloc_ok tail]. change (byte_val x01 =? EOP_PROTOCOL_VERSION) with true. cbn [negb].
  destruct bs as [|b bs]; [done|].
  rewrite (proj2 (Nat.ltb_lt 0 _)), (proj2 (Nat.ltb_ge _ _)) by (simpl; lia).
  by rewrite (take_app_length (b :: bs)).
Qed.

(** ** Sending without errors *)

Definition sends_ok (snd : list send_ev) : Prop :=
  Forall (λ ev, match ev with SAccept _ => True | SErr _ => False end) snd.

Lemma handed_ok n snd :
  sends_ok snd → ∃ rest, handed n snd = (n, None, rest) ∧ sends_ok rest.
Proof.
  intros Hok. revert n. induction Hok as [|ev snd Hev Hok IH]; intros [|n].
  - exists []. split; [done|constructor].
  - exists []. split; [done|constructor].
  - exists (ev :: snd). split; [done|by constructor].
  - destruct ev as [k|e]; [|done]. destruct (IH (S n - Nat.min k (S n))%nat) as (rest & Hh & Hr).
    exists rest. cbn [handed]. rewrite Hh. split; [|done]. repeat f_equal. lia.
Qed.

(** ** Sequences of commands *)

(** A command: type and payload, with a null pointer for an empty payload. *)
Definition command : Type := Z * string.

Definition payload_ptr (s : string) : option (list byte) :=
  if str_empty s then None else Some (bytes_of_string s).

Lemma payload_ptr_points s : points_to (payload_ptr s) (bytes_of_string s).
Proof. unfold payload_ptr, points_to. destruct s; [by right|by left]. Qed.

(** C37: the client and the server write the same frames.  The buffer that
    [eop_send_command] fills and sends (the length prefix and what
    [eop_envelope_serialize] writes after it) holds, for each of the protocol's
    message types, byte for byte what the server's [buildFrame] builds for the
    same type, identifier and payload; for any other type the call reports
    [EOP_ERR_INVALID_MESSAGE_TYPE].  The buffer has the size of the frame, and
    the payload is shorter than what its 32-bit length can say. *)
Theorem client_frame_is_server_frame t id payload_ a buf p :
  str_size payload_ < 2 ^ 32 - 14 →
  p_heap p !! a = Some (BBytes buf) → Z.of_nat (length buf) = 14 + str_size payload_ →
  if decide (EOP_REGISTER ≤ t ≤ EOP_EDGE_TELEMETRY)
  then fill_send_buf t id (payload_ptr payload_) (str_size payload_) a p =
         Done EOP_OK (set_heap (<[a := BBytes (buildFrame (wire_type t) id payload_)]> (p_heap p)) p)
  else ∃ p', fill_send_buf t id (payload_ptr payload_) (str_size payload_) a p =
         Done EOP_ERR_INVALID_MESSAGE_TYPE p'.
Proof.
  intros Hs Ha Hl. unfold str_size in *. set (bs := bytes_of_string payload_) in *.
  assert (wp no_fault (fill_send_buf t id (payload_ptr payload_) (Z.of_nat (length bs)) a) p
    (λ rc p', if decide (valid_type t)
              then rc = EOP_OK ∧ p' = set_heap (<[a := BBytes (request t id bs)]> (p_heap p)) p
              else rc = EOP_ERR_INVALID_MESSAGE_TYPE)) as HW.
  { apply (fill_send_buf_spec no_fault t id (payload_ptr payload_) bs a buf p);
      [apply payload_ptr_points|done|done|lia|intros Hv buf'; by rewrite decide_False|].
    intros Hv. by rewrite decide_True. }
  apply wp_run in HW as (rc & p' & Hrun & Hq). change (EOP_REGISTER ≤ t ≤ EOP_EDGE_TELEMETRY) with (valid_type t).
  case_decide.
  - destruct Hq as [-> ->]. by rewrite Hrun, request_frame_bytes, buildFrame_layout.
  - subst rc. by exists p'.
Qed.

Fixpoint commands `{Junk} (client : Z) (cmds : list command) : C (list Z) :=
  match cmds with
  | [] => mret []
  | (t, s) :: cmds =>
      r ← eop_send_command client t (payload_ptr s) (str_size s);
      rs ← commands client cmds;
      mret (r :: rs)
  end.

(** The messages the commands are, numbered from the handle's next id. *)
Fixpoint requests (id : Z) (cmds : list command) : list message :=
  match cmds with
  | [] => []
  | (t, s) :: cmds => (wire_type t, id, s) :: requests (u32 (id + 1)) cmds
  end.

Definition command_ok (cmd : command) : Prop :=
  valid_type cmd.1 ∧ str_size cmd.2 < 2 ^ 32 - 14.

Lemma client_frame_witness :
  let p := set_heap {[ 1 := BBytes (replicate 16 x00) ]} (start []) in
  fill_send_buf EOP_QUERY_NODE 7 (Some [x7b; x7d]) 2 1 p =
    Done EOP_OK (set_heap {[ 1 := BBytes (buildFrame QUERY_NODE 7 "{}") ]} p).
Proof.
  intros p. pose proof (client_frame_is_server_frame EOP_QUERY_NODE 7 "{}" 1
    (replicate 16 x00) p) as Hc.
  destruct (decide _) as [_|Hn] in Hc; [|destruct Hn; vm_compute; split; congruence].
  apply Hc; vm_compute; reflexivity.
Defined.

(** A response that is a given message. *)
Definition holds (heap : gmap Z block) (r : Z) (m : message) : Prop :=
  let '(t, id, s) := m in
  r ≠ NULL ∧ ∃ a, heap !! r = Some (BResponse (mkResponse (byte_val (type_byte t)) id a (str_size s))) ∧
    if str_empty s then a = NULL else heap !! a = Some (BBytes (bytes_of_string s)).

(** A handle that can be used: unlocked, with a socket that takes what is
    sent and on which [av] arrives. *)
Definition connected (client : Z) (p : proc) (c : eop_client_t) (s : csock)
    (tr : list byte * recv_failure * list in_ev) : Prop :=
  heap_ok p ∧ client ≠ NULL ∧ p_heap p !! client = Some (BClient c) ∧ mutex c = MFree ∧
  p_socks p !! socket_fd c = Some s ∧ sends_ok (cs_snd s) ∧ stream (cs_in s) = tr ∧
  p_mem p = [].

Lemma bytes_empty s : (0 <? length (bytes_of_string s))%nat = negb (str_empty s).
Proof. by destruct s. Qed.

(** The heap after an answer holds it, beside everything that was there. *)
Lemma heap_after_message client c heap heap' mt mid ms r :
  is_Some (heap !! client) →
  heap_after client c heap heap' (Answer (byte_val (type_byte mt)) mid (bytes_of_string ms)) r →
  r ≠ client ∧ heap' !! client = Some (BClient (settled EOP_OK EmptyString c)) ∧
  holds heap' r (mt, mid, ms) ∧
  (∀ a b, a ≠ client → heap !! a = Some b → heap' !! a = Some b).
Proof.
  intros [b0 Hb0] (Hr & Hrn & Hh). rewrite bytes_empty in Hh.
  assert (r ≠ client) as Hrc by congruence.
  assert (∃ a, heap' = <[r := BResponse (mkResponse (byte_val (type_byte mt)) mid a (str_size ms))]>
      ((if str_empty ms then id else insert a (BBytes (bytes_of_string ms)))
         (<[client := BClient (settled EOP_OK EmptyString c)]> heap)) ∧
      if str_empty ms then a = NULL else a ≠ r ∧ heap !! a = None) as (a & -> & Ha).
  { unfold str_size. destruct ms as [|x ms].
    - exists NULL. by split.
    - destruct Hh as (a & ? & ? & ? & Hh'). exists a. by split_and!. }
  split_and!; [done| | |].
  - rewrite lookup_insert_ne by done. destruct (str_empty ms); [apply lookup_insert_eq|].
    rewrite lookup_insert_ne, lookup_insert_eq; [done|]. destruct Ha; congruence.
  - split; [done|]. exists a. rewrite lookup_insert_eq. split; [done|].
    destruct (str_empty ms); [done|]. destruct Ha as [Ha _].
    rewrite lookup_insert_ne by done. apply lookup_insert_eq.
  - intros x b Hx Hb. rewrite lookup_insert_ne by congruence.
    destruct (str_empty ms); simpl; [by rewrite lookup_insert_ne|].
    rewrite !lookup_insert_ne; [done|done|]. destruct Ha; congruence.
Qed.

Section session.
Context `{Junk}.

(** What one command does when a frame is there for it. *)
Lemma command_step client p c s t payload_ m av f rest :
  connected client p c s (message_frame m ++ av, f, rest) →
  command_ok (t, payload_) → in_width 32 (next_msg_id c) →
  in_width 32 m.1.2 → str_size m.2 < 2 ^ 32 - 14 →
  ∃ r p' c' s',
    eop_send_command client t (payload_ptr payload_) (str_size payload_) p = Done r p' ∧
    connected client p' c' s' (av, f, rest) ∧
    holds (p_heap p') r m ∧ r ≠ client ∧
    (∀ a b, a ≠ client → p_heap p !! a = Some b → p_heap p' !! a = Some b) ∧
    next_msg_id c' = u32 (next_msg_id c + 1) ∧ socket_fd c' = socket_fd c ∧
    last_error c' = EOP_OK ∧
    cs_out s' = cs_out s ++ message_frame (wire_type t, next_msg_id c, payload_).
Proof.
  intros (Ho & Hn & Hc & Hm & Hs & Hsnd & Hst & Hmem) [Hty Hsz] Hid Hmid Hmsz.
  destruct m as [[mt mid] ms]. simpl in Hmid, Hmsz, Hty, Hsz.
  pose proof (send_command_spec client c t (payload_ptr payload_) (bytes_of_string payload_) p
    Hn Ho Hc Hm (payload_ptr_points _) Hsz) as HW.
  destruct (handed_ok (14 + length (bytes_of_string payload_)) (cs_snd s) Hsnd) as (snd' & Hh & Hsnd').
  fold (str_size payload_) in HW. unfold wp in HW.
  destruct (eop_send_command client t _ _ p) as [r p'|fl] eqn:Hrun.
  2: { destruct HW as (_ & _ & _ & _ & s0 & Hs0 & He). rewrite Hs in Hs0. simplify_eq.
       rewrite Hh in He. done. }
  destruct HW as (_ & _ & Ho' & _ & [k Hk] & Hheap & Hsocks). rewrite Hs in Hheap, Hsocks.
  unfold command_reply in *. rewrite Hmem in *. cbn [alloc_ok negb tail] in *.
  rewrite bool_decide_true in * by done. cbn [negb] in *. rewrite Hh in *. cbn [fst snd] in *.
  rewrite Hst in *. cbn [fst snd] in *. simpl message_frame in *.
  rewrite received_frame in * by done. cbn [fst snd] in *.
  destruct Hsocks as (ins & Hins & Hsocks).
  unfold sock_sent in Hsocks. cbn [alloc_ok andb] in Hsocks.
  rewrite bool_decide_true, Hh, take_ge in Hsocks by (done || rewrite length_request; lia).
  exists r, p', (settled EOP_OK "" (set_next_id (u32 (next_msg_id c + 1)) c)),
    (set_in ins (set_snd snd' (cs_out s ++ request t (next_msg_id c) (bytes_of_string payload_)) s)).
  set (c' := settled _ _ _) in *. set (s' := set_in _ _) in *.
  apply heap_after_message in Hheap as (Hrc & Hcl & Hh' & Hkeep); [|by eexists].
  split_and!; try done.
  - split_and!; try done.
    + rewrite Hsocks. apply lookup_insert_eq.
    + cbn [cs_in s' set_in]. rewrite Hins. f_equal. f_equal.
      rewrite drop_app_ge; rewrite buildFrame_layout, length_frame_bytes by done; [|done].
      by rewrite Nat.sub_diag.
    + by rewrite Hk, drop_nil.
  - simpl. by rewrite request_frame_bytes, buildFrame_layout.
Qed.

(** A response stays what it is while other commands run. *)
Lemma holds_later client (c : eop_client_t) heap heap' r m :
  heap !! client = Some (BClient c) →
  (∀ a b, a ≠ client → heap !! a = Some b → heap' !! a = Some b) →
  holds heap r m → holds heap' r m.
Proof.
  intros Hc Hk. destruct m as [[t id] s]. intros (Hr & a & Hq & Ha). split; [done|]. exists a.
  split; [apply Hk; [congruence|done]|]. destruct (str_empty s); [done|]. apply Hk; congruence.
Qed.

Definition reply_ok (m : message) : Prop := in_width 32 m.1.2 ∧ str_size m.2 < 2 ^ 32 - 14.

Lemma commands_run client cmds ms p c s av f rest :
  length cmds = length ms → Forall command_ok cmds → Forall reply_ok ms →
  in_width 32 (next_msg_id c) →
  connected client p c s (concat (message_frame <$> ms) ++ av, f, rest) →
  ∃ rs p' c' s',
    commands client cmds p = Done rs p' ∧ connected client p' c' s' (av, f, rest) ∧
    Forall2 (holds (p_heap p')) rs ms ∧
    (∀ a b, a ≠ client → p_heap p !! a = Some b → p_heap p' !! a = Some b) ∧
    socket_fd c' = socket_fd c ∧
    cs_out s' = cs_out s ++ concat (message_frame <$> requests (next_msg_id c) cmds).
Proof.
  revert ms p c s. induction cmds as [|[t y] cmds IH]; intros [|m ms] p c s Hl Hcmds Hms Hid Hcon;
    simplify_eq/=.
  - exists [], p, c, s. rewrite app_nil_r. split_and!; done.
  - apply Forall_cons in Hcmds as [Hcmd Hcmds]. apply Forall_cons in Hms as [[Hm1 Hm2] Hms].
    rewrite <-app_assoc in Hcon.
    destruct (command_step client p c s t y m _ f rest Hcon Hcmd Hid Hm1 Hm2)
      as (r & p1 & c1 & s1 & Hrun & Hcon1 & Hh & _ & Hk & Hid1 & Hfd & _ & Hout).
    destruct (IH ms p1 c1 s1) as (rs & p' & c' & s' & Hrun' & Hcon' & Hhs & Hk' & Hfd' & Hout');
      [done..| |done|].
    { rewrite Hid1. by apply wrap_range. }
    exists (r :: rs), p', c', s'. unfold mbind, C_bind. rewrite Hrun, Hrun'.
    split_and!; [done|done| |auto|congruence|].
    + constructor; [|done]. eapply holds_later; [|exact Hk'|exact Hh].
      by destruct Hcon1 as (_ & _ & ? & _).
    + by rewrite Hout', Hout, Hid1, <-app_assoc.
Qed.

End session.

(** Every command is answered.  On a connected handle whose socket takes
    what is sent, when the other side has frames for them, a sequence of
    commands returns one response each, the n-th holding the type, identifier
    and payload of the n-th frame whatever the chunking; the bytes after the
    frames are left for the next command, and what was sent are exactly the
    server's encodings of the commands under consecutive identifiers. *)
Theorem commands_answered `{Junk} client cmds ms p c s av f rest :
  length cmds = length ms → Forall command_ok cmds → Forall reply_ok ms →
  in_width 32 (next_msg_id c) →
  connected client p c s (concat (message_frame <$> ms) ++ av, f, rest) →
  ∃ rs p' c' s',
    commands client cmds p = Done rs p' ∧ connected client p' c' s' (av, f, rest) ∧
    Forall2 (holds (p_heap p')) rs ms ∧
    cs_out s' = cs_out s ++ concat (message_frame <$> requests (next_msg_id c) cmds).
Proof.
  intros Hl Hc Hm Hid Hcon.
  destruct (commands_run client cmds ms p c s av f rest Hl Hc Hm Hid Hcon)
    as (rs & p' & c' & s' & ? & ? & ? & _ & _ & ?).
  exists rs, p', c', s'. by split_and!.
Qed.

Lemma demo_connected ins snd :
  sends_ok snd → connected 1 (demo_proc ins snd) demo_client (demo_sock ins snd) (stream ins).
Proof. intros Hs. split_and!; try done. apply demo_heap_ok. Qed.

(** Two commands whose answers arrive in three pieces. *)
Lemma commands_answered_witness :
  let ms := [(ACK, 0, "{}"); (ERROR_MSG, 1, "")] in
  let av := concat (message_frame <$> ms) in
  let ins := [Chunk (take 5 av); Chunk []; Chunk (drop 5 av); Quiet] in
  ∃ rs p',
    commands (H := zero_junk) 1 [(EOP_LIST_NODES, ""); (EOP_QUERY_NODE, "{}")] (demo_proc ins [SAccept 2]) =
      Done rs p' ∧
    Forall2 (holds (p_heap p')) rs ms.
Proof.
  intros ms av ins.
  destruct (commands_answered (H := zero_junk) 1 [(EOP_LIST_NODES, ""); (EOP_QUERY_NODE, "{}")] ms
    (demo_proc ins [SAccept 2]) demo_client (demo_sock ins [SAccept 2]) [] RecvTimeout [])
    as (rs & p' & c' & s' & Hrun & _ & Hh & _).
  - reflexivity.
  - repeat constructor; vm_compute; congruence.
  - repeat constructor; vm_compute; congruence.
  - by split.
  - apply (demo_connected ins [SAccept 2]). repeat constructor.
  - exists rs, p'. exact (conj Hrun Hh).
Defined.

End ClientSession.
