(* ===== verification/ClientThreads.v ===== *)
(** * Threads that share a client handle

    [eop_send_command] and [eop_last_error] of [client/src/eop_client.c] as
    the sequences of actions they are (taking and releasing the handle's
    mutex, the identifier, the single calls of [send] and [recv], the
    allocations), run by any number of threads on one handle, and the server
    at the other end of its socket, which greets a new connection and answers
    requests in order.  The buffers between the two hold a bounded number of
    bytes: [send] waits while they are full, for as long as the server does not
    read.  [Client.v] has each call as a whole; the theorems say what the mutex
    makes of it.

    A broken pipe that kills the process ends the run and is not a step; a
    handle is neither reconnected nor disconnected while it is shared, as the
    API demands. *)

From S2P Require Import Prelude Net Serializer Envelope Posix Client ClientLogic ClientSpec ClientSession Threads.
Local Open Scope Z_scope.

Module ClientThreads.
Import MessageSerializer EopEnvelope Threads.
Import ClientSpec(reply, Answer, NoAnswer, request).
Import ClientSession(command).
Import EopClient(recv_failure, RecvTimeout, RecvPollError, RecvClosed, RecvError, prefix_error,
  header_error, payload_error).

(** A thread: outside the library, with what the last call returned; in
    [eop_send_command] before the lock, before the identifier, in the send
    loop with what is still to be sent, in the loops for prefix and header
    and in the one for the payload with what has been received, before the
    response is created, before the unlock; in [eop_last_error] before the
    lock, before the copy, before the unlock. *)
Inductive pc :=
| Ready
| Returned (c : command) (id : Z) (r : reply)
| Reported (e : eop_error_code * string)
| Lock (c : command)
| Number (c : command)
| Sending (c : command) (id : Z) (rest : list byte)
| Head (c : command) (id : Z) (got : list byte)
| Body (c : command) (id : Z) (got : list byte)
| Create (c : command) (id : Z) (got : list byte)
| Unlock (c : command) (id : Z) (r : reply)
| ErrLock
| ErrRead
| ErrUnlock (e : eop_error_code * string).

(** The members of the handle that change, the two directions of its socket
    (the bytes sent, how many of them the server has not read, the bytes that
    have arrived), and what has happened so far: the identifiers given out, the
    commands whose sending began, how many of them the server has dealt with,
    the commands that are over, and whether a command has stopped in the middle
    of a frame. *)
Record state := mkState {
  threads : list pc;
  mutex : option nat;
  next_msg_id : Z;
  last_error : eop_error_code * string;
  wire : list byte;
  unread : nat;
  inbox : list byte;
  numbered : list Z;
  issued : list (command * Z);
  answered : nat;
  finished : list (command * Z * reply);
  broken : bool
}.

(** A handle as [eop_connect] returns it, with the server's greeting on its
    way; [None] when it has been taken already. *)
Definition init (hello : option message) (n : nat) (base : Z) : state :=
  mkState (replicate n Ready) None (u32 base) (EOP_OK, "") [] 0 (from_option message_frame [] hello)
    [] [] 0 [] false.

Definition goto (i : nat) (p : pc) (s : state) : state :=
  mkState (<[i := p]> (threads s)) (mutex s) (next_msg_id s) (last_error s) (wire s) (unread s) (inbox s)
    (numbered s) (issued s) (answered s) (finished s) (broken s).
Definition set_mutex m s := mkState (threads s) m (next_msg_id s) (last_error s) (wire s) (unread s) (inbox s)
  (numbered s) (issued s) (answered s) (finished s) (broken s).
Definition break (b : bool) s := mkState (threads s) (mutex s) (next_msg_id s) (last_error s) (wire s)
  (unread s) (inbox s) (numbered s) (issued s) (answered s) (finished s) (broken s || b).

(** [client->next_msg_id++]. *)
Definition number (s : state) : state :=
  mkState (threads s) (mutex s) (u32 (next_msg_id s + 1)) (last_error s) (wire s) (unread s) (inbox s)
    (numbered s ++ [next_msg_id s]) (issued s) (answered s) (finished s) (broken s).
Definition issue (c : command) (id : Z) (s : state) : state :=
  mkState (threads s) (mutex s) (next_msg_id s) (last_error s) (wire s) (unread s) (inbox s)
    (numbered s) (issued s ++ [(c, id)]) (answered s) (finished s) (broken s).
Definition transfer (w : list byte) (u : nat) (x : list byte) (s : state) : state :=
  mkState (threads s) (mutex s) (next_msg_id s) (last_error s) w u x
    (numbered s) (issued s) (answered s) (finished s) (broken s).

(** What a command leaves in [last_error] and [last_error_msg]. *)
Definition verdict (r : reply) : eop_error_code * string :=
  match r with
  | Answer _ _ _ => (EOP_OK, "")
  | NoAnswer code msg => (code, Posix.copy_string EopClient.EOP_ERROR_MSG_SIZE msg)
  end.

(** The outcome of a command is stored, and the thread is about to unlock. *)
Definition settle (i : nat) (c : command) (id : Z) (r : reply) (s : state) : state :=
  goto i (Unlock c id r)
    (mkState (threads s) (mutex s) (next_msg_id s) (verdict r) (wire s) (unread s) (inbox s)
       (numbered s) (issued s) (answered s) (finished s ++ [(c, id, r)]) (broken s)).

Definition frame (ci : command * Z) : list byte :=
  request ci.1.1 ci.2 (bytes_of_string ci.1.2).
Definition frames (l : list (command * Z)) : list byte := mjoin (frame <$> l).

(** The length of the payload, from the header. *)
Definition announced (got : list byte) : nat := Z.to_nat (be_u32 (take 4 (drop 10 got))).
Definition version_ok (got : list byte) : bool := byte_val (nth 4 got x00) =? EOP_PROTOCOL_VERSION.

(** The response the bytes of a whole frame make. *)
Definition response (got : list byte) : reply :=
  Answer (byte_val (nth 5 got x00)) (be_u32 (take 4 (drop 6 got))) (drop 14 got).

(** How many bytes the next [recv] asks for: each of the three loops stops at
    its own length. *)
Definition wanted (p : pc) : nat :=
  match p with
  | Head _ _ got => if (length got <? 4)%nat then 4 - length got else 14 - length got
  | Body _ _ got => 14 + announced got - length got
  | _ => 0
  end.

Definition recv_error (p : pc) (f : recv_failure) : eop_error_code * string :=
  match p with
  | Head _ _ got => if (length got <? 4)%nat then prefix_error f else header_error f
  | _ => payload_error f
  end.

Section server.

(** The server: its greeting, and its answer to a request that comes after
    others; the number of bytes the buffers on the way to it hold. *)
Context (hello : option message) (serve : list (command * Z) → option message) (room : nat).

Definition answer_bytes (l : list (command * Z)) : list byte := from_option message_frame [] (serve l).

(** ** Steps *)

Definition lock (i : nat) (s : state) : option state :=
  match mutex s with
  | None => Some (set_mutex (Some i) s)
  | Some _ => None
  end.

(** [eop_last_error]. *)
Definition error_step (i : nat) (s : state) : option state :=
  match threads s !! i with
  | Some ErrLock => goto i ErrRead <$> lock i s
  | Some ErrRead => Some (goto i (ErrUnlock (last_error s)) s)
  | Some (ErrUnlock e) => Some (goto i (Reported e) (set_mutex None s))
  | _ => None
  end.

(** [eop_send_command]: the steps that depend on nothing outside. *)
Definition step (i : nat) (s : state) : option state :=
  match threads s !! i with
  | Some (Lock c) => goto i (Number c) <$> lock i s
  | Some (Number c) =>
      let id := next_msg_id s in
      if decide (valid_type c.1)
      then Some (goto i (Sending c id (frame (c, id))) (issue c id (number s)))
      else Some (settle i c id (NoAnswer EOP_ERR_INVALID_MESSAGE_TYPE "Failed to serialize envelope")
                   (number s))
  | Some (Sending c id []) => Some (goto i (Head c id []) s)
  | Some (Head c id got) =>
      if (length got <? 14)%nat then None
      else if negb (version_ok got)
      then Some (settle i c id
             (NoAnswer EOP_ERR_DISCONNECTED "Unsupported protocol version in response") (break true s))
      else Some (goto i ((if (0 <? announced got)%nat then Body else Create) c id got) s)
  | Some (Body c id got) =>
      if (length got <? 14 + announced got)%nat then None else Some (goto i (Create c id got) s)
  | Some (Create c id got) => Some (settle i c id (response got) s)
  | Some (Unlock c id r) => Some (goto i (Returned c id r) (set_mutex None s))
  | _ => error_step i s
  end.

(** [send] takes [k] bytes; it waits while there is no room. *)
Definition sent (i k : nat) (s : state) : option state :=
  match threads s !! i with
  | Some (Sending c id rest) =>
      if decide (0 < k ≤ length rest ∧ unread s + k ≤ room)%nat
      then Some (goto i (Sending c id (drop k rest))
                   (transfer (wire s ++ take k rest) (unread s + k) (inbox s) s))
      else None
  | _ => None
  end.

Definition send_fails (i : nat) (s : state) : option state :=
  match threads s !! i with
  | Some (Sending c id (_ :: _)) =>
      Some (settle i c id (NoAnswer EOP_ERR_DISCONNECTED "Send failed") (break true s))
  | _ => None
  end.

Definition extend (p : pc) (bs : list byte) : pc :=
  match p with
  | Head c id got => Head c id (got ++ bs)
  | Body c id got => Body c id (got ++ bs)
  | p => p
  end.

(** [recv] returns [k] of the bytes that have arrived. *)
Definition receives (i k : nat) (s : state) : option state :=
  p ← threads s !! i;
  if decide (0 < k ≤ wanted p ∧ k ≤ length (inbox s))%nat
  then Some (goto i (extend p (take k (inbox s))) (transfer (wire s) (unread s) (drop k (inbox s)) s))
  else None.

(** [poll] or [recv] fails, or the time is over. *)
Definition recv_fails (i : nat) (f : recv_failure) (s : state) : option state :=
  p ← threads s !! i;
  if (0 <? wanted p)%nat then
    match p with
    | Head c id got | Body c id got =>
        let e := recv_error p f in
        Some (settle i c id (NoAnswer e.1 e.2)
                (break (negb (bool_decide (got = []))) s))
    | _ => None
    end
  else None.

(** An allocation fails: the send buffer, the payload, the response. *)
Definition no_memory (i : nat) (s : state) : option state :=
  match threads s !! i with
  | Some (Number c) =>
      Some (settle i c (next_msg_id s) (NoAnswer EOP_ERR_ALLOC "Failed to allocate send buffer")
              (number s))
  | Some (Head c id got) =>
      if (14 <=? length got)%nat && version_ok got && (0 <? announced got)%nat
      then Some (settle i c id
             (NoAnswer EOP_ERR_ALLOC "Failed to allocate response payload buffer") (break true s))
      else None
  | Some (Create c id got) =>
      Some (settle i c id (NoAnswer EOP_ERR_ALLOC "Failed to allocate response struct") s)
  | _ => None
  end.

(** The server reads [k] of the bytes on their way. *)
Definition server_reads (k : nat) (s : state) : option state :=
  if decide (0 < k ≤ unread s)%nat
  then Some (transfer (wire s) (unread s - k) (inbox s) s) else None.

(** The server has read another request, and what it answers arrives. *)
Definition server_step (s : state) : option state :=
  let l := take (S (answered s)) (issued s) in
  if decide ((answered s < length (issued s))%nat ∧
             frames l `prefix_of` take (length (wire s) - unread s) (wire s))
  then Some (mkState (threads s) (mutex s) (next_msg_id s) (last_error s) (wire s) (unread s)
               (inbox s ++ answer_bytes l) (numbered s) (issued s) (S (answered s))
               (finished s) (broken s))
  else None.

Definition outside (p : pc) : bool :=
  match p with Ready | Returned _ _ _ | Reported _ => true | _ => false end.

(** A thread outside the library calls one of the two functions. *)
Definition enter (i : nat) (p : pc) (s : state) : option state :=
  if from_option outside false (threads s !! i) then Some (goto i p s) else None.

Inductive label :=
| Command (i : nat) (c : command)
| LastError (i : nat)
| Step (i : nat)
| Sent (i k : nat)
| SendFails (i : nat)
| Receives (i k : nat)
| RecvFails (i : nat) (f : recv_failure)
| NoMemory (i : nat)
| Drain (k : nat)
| Server.

Definition exec (l : label) (s : state) : option state :=
  match l with
  | Command i c => if decide (str_size c.2 < 2 ^ 32 - 14) then enter i (Lock c) s else None
  | LastError i => enter i ErrLock s
  | Step i => step i s
  | Sent i k => sent i k s
  | SendFails i => send_fails i s
  | Receives i k => receives i k s
  | RecvFails i f => recv_fails i f s
  | NoMemory i => no_memory i s
  | Drain k => server_reads k s
  | Server => server_step s
  end.

Abbreviation reachable n base := (Threads.reachable exec (λ s, s = init hello n base)).

(** ** Mutual exclusion *)

Definition holds (p : pc) : bool :=
  match p with
  | Ready | Returned _ _ _ | Reported _ | Lock _ | ErrLock => false
  | _ => true
  end.
Definition inside (i : nat) (s : state) : bool := from_option holds false (threads s !! i).

Abbreviation locks := (Threads.locks mutex inside).

(** Where the thread that holds the mutex is. *)
Definition current (s : state) : option pc := mutex s ≫= λ i, threads s !! i.

(** How each step changes the threads and the mutex. *)
Definition moves (i : nat) (p p' : pc) (s s' : state) : Prop :=
  threads s !! i = Some p ∧ threads s' = <[i := p']> (threads s) ∧
  mutex s' = (if holds p' then Some i else if holds p then None else mutex s) ∧
  (holds p' = true → holds p = true ∨ mutex s = None).

Lemma client_lock_some i s s' :
  lock i s = Some s' → mutex s = None ∧ s' = set_mutex (Some i) s.
Proof. unfold lock. destruct (mutex s); naive_solver. Qed.

Lemma enter_some i p s s' :
  enter i p s = Some s' → ∃ p0, threads s !! i = Some p0 ∧ outside p0 = true ∧ s' = goto i p s.
Proof. unfold enter. destruct (threads s !! i); simpl; [|done]. case_match; naive_solver. Qed.

Ltac exec_cases He :=
  unfold exec, step, error_step, sent, send_fails, receives, recv_fails, no_memory, server_reads, server_step in He;
  repeat (first
    [ progress (simplify_eq/=)
    | match type of He with
      | fmap _ _ = Some _ => apply fmap_Some in He as (? & He & ->)
      | mbind _ _ = Some _ => apply bind_Some in He as (? & ? & He)
      | lock _ _ = Some _ => apply client_lock_some in He as [? ->]
      | enter _ _ _ = Some _ => apply enter_some in He as (? & ? & ? & ->)
      | context [match ?x with _ => _ end] => destruct x eqn:?
      end ]).

Definition mover (l : label) : option nat :=
  match l with
  | Command i _ | LastError i | Step i | Sent i _ | SendFails i | Receives i _ | RecvFails i _
  | NoMemory i => Some i
  | Drain _ | Server => None
  end.

Lemma exec_moves l i s s' :
  locks s → exec l s = Some s' → mover l = Some i → ∃ p p', moves i p p' s s'.
Proof.
  intros Hl He Hm.
  assert (∀ p, threads s !! i = Some p → holds p = true → mutex s = Some i) as Hh.
  { intros p Hi Hp. apply Hl. unfold inside. by rewrite Hi. }
  destruct l; simplify_eq; exec_cases He; unfold moves; simpl;
    eexists _, _; (split; [eassumption|]; split; [done|]); simpl; eauto.
  - by destruct x.
  - by destruct x.
  - rewrite (Hh (Head c id got)) by done. destruct (0 <? announced got)%nat; simpl; auto.
  - destruct x; simpl in *; try lia; rewrite (Hh _ H) by done; auto.
Qed.

Lemma moves_locks i p p' s s' : locks s → moves i p p' s s' → locks s'.
Proof.
  intros Hl (Hi & Ht & Hm & Hin).
  assert (inside i s = holds p) as E by (unfold inside; by rewrite Hi).
  assert (∀ j, inside j s' = if decide (j = i) then holds p' else inside j s) as E'.
  { intros j. unfold inside. by rewrite Ht, (holds_insert holds _ _ p). }
  apply (locks_move mutex inside i s); rewrite ?E, ?E', ?decide_True by done; try done.
  intros j Hj. by rewrite E', decide_False.
Qed.

(** What a step means for the one inside. *)
Lemma moves_current i p p' s s' :
  locks s → moves i p p' s s' →
  (holds p = true → current s = Some p) ∧
  (holds p = false → holds p' = true → current s = None) ∧
  (holds p' = true → current s' = Some p') ∧
  (holds p' = false → current s' = if holds p then None else current s).
Proof.
  intros Hl (Hi & Ht & Hm & Hin). unfold current.
  assert (holds p = true → mutex s = Some i) as Hh.
  { intros Hp. apply Hl. unfold inside. by rewrite Hi. }
  pose proof (lookup_lt_Some _ _ _ Hi) as Hlt. split_and!.
  - intros Hp. rewrite (Hh Hp). simpl. done.
  - intros Hp Hp'. destruct (Hin Hp') as [?| ->]; [congruence|done].
  - intros Hp'. rewrite Hm, Hp', Ht. simpl. by rewrite list_lookup_insert_eq.
  - intros Hp'. rewrite Hm, Hp'. destruct (holds p) eqn:Hp; [done|].
    destruct (mutex s) as [j|] eqn:Ej; [|done]. simpl. rewrite Ht.
    destruct (decide (j = i)) as [->|]; [|by rewrite list_lookup_insert_ne].
    apply Hl in Ej. unfold inside in Ej. rewrite Hi in Ej. simpl in Ej. congruence.
Qed.

Lemma client_exec_locks l s s' : locks s → exec l s = Some s' → locks s'.
Proof.
  intros Hl He. destruct (mover l) as [i|] eqn:Hm.
  - destruct (exec_moves l i s s') as (p & p' & Hmv); [done..|]. by eapply moves_locks.
  - destruct l; try done; exec_cases He; by apply (locks_same mutex inside s).
Qed.

(** ** The invariant of the handle *)

(** How far the receive loops have come. *)
Definition shape (p : pc) : Prop :=
  match p with
  | Head _ _ got => (length got ≤ 14)%nat
  | Body _ _ got => (14 ≤ length got ≤ 14 + announced got)%nat
  | Create _ _ got => length got = (14 + announced got)%nat
  | _ => True
  end.

(** The outcome a thread has in hand. *)
Definition outcome (p : pc) : option (command * Z * reply) :=
  match p with Returned c id r | Unlock c id r => Some (c, id, r) | _ => None end.

(** Identifiers are given out one after the other. *)
Definition ids_ok (base : Z) (s : state) : Prop :=
  numbered s = (λ k, u32 (base + Z.of_nat k)) <$> seq 0 (length (numbered s)) ∧
  next_msg_id s = u32 (base + Z.of_nat (length (numbered s))) ∧
  (issued s).*2 `sublist_of` numbered s.

Record wf (base : Z) (s : state) : Prop := {
  wf_locks : locks s;
  wf_ids : ids_ok base s;
  wf_last : last_error s = from_option (λ x, verdict x.2) (EOP_OK, "") (last (finished s));
  wf_shape p : p ∈ threads s → shape p;
  wf_outcome p x : p ∈ threads s → outcome p = Some x → x ∈ finished s
}.

Lemma client_init_wf n base : wf base (init hello n base).
Proof.
  split; simpl; try done.
  - intros i. unfold inside. simpl. split; [done|].
    destruct (replicate n Ready !! i) eqn:E; [|done]. by apply lookup_replicate in E as [-> _].
  - split_and!; simpl; [done|by rewrite Z.add_0_r|done].
  - by intros p ->%elem_of_replicate_inv.
  - by intros p x ->%elem_of_replicate_inv.
Qed.

Lemma announced_app got bs : (14 ≤ length got)%nat → announced (got ++ bs) = announced got.
Proof.
  intros Hl. unfold announced. rewrite drop_app_le by lia. rewrite take_app_le; [done|].
  rewrite length_drop. lia.
Qed.

Lemma extend_shape p bs :
  shape p → (0 < length bs ≤ wanted p)%nat → shape (extend p bs).
Proof.
  destruct p; simpl; try done; intros Hs Hb; rewrite length_app.
  - destruct (length got <? 4)%nat eqn:E; [apply Nat.ltb_lt in E|]; lia.
  - rewrite announced_app by lia. lia.
Qed.

Lemma u32_succ base k : u32 (u32 (base + Z.of_nat k) + 1) = u32 (base + Z.of_nat (k + 1)).
Proof. unfold u32, wrap. rewrite Zplus_mod_idemp_l. f_equal. lia. Qed.

Lemma ids_number base s : ids_ok base s → ids_ok base (number s).
Proof.
  intros (Hn & Hx & Hi). split_and!; simpl; rewrite ?length_app.
  - by rewrite seq_app, fmap_app, <-Hn, Hx.
  - by rewrite Hx, u32_succ.
  - by apply sublist_inserts_r.
Qed.

Lemma ids_issue base c s : ids_ok base s → ids_ok base (issue c (next_msg_id s) (number s)).
Proof.
  intros H. destruct (ids_number base s H) as (Hn & Hx & _). split_and!; try done.
  simpl. rewrite fmap_app. by apply sublist_app; [apply H|].
Qed.

Lemma wf_moved base i p' s s' :
  wf base s → locks s' → threads s' = <[i := p']> (threads s) → ids_ok base s' →
  shape p' → (∀ x, outcome p' = Some x → x ∈ finished s') →
  (finished s' = finished s ∧ last_error s' = last_error s) ∨
  (∃ x, finished s' = finished s ++ [x] ∧ last_error s' = verdict x.2) →
  wf base s'.
Proof.
  intros [] Hl Ht Hid Hs Ho Hf. split; try done.
  - destruct Hf as [[-> ->]|(x & -> & ->)]; [done|]. by rewrite last_snoc.
  - rewrite Ht. intros p [->|?]%elem_insert; auto.
  - rewrite Ht. intros p x [->|Hp]%elem_insert Hx; [auto|]. specialize (wf_outcome0 _ _ Hp Hx).
    destruct Hf as [[-> _]|(y & -> & _)]; [done|]. apply elem_of_app. auto.
Qed.

Lemma client_exec_wf base l s s' : wf base s → exec l s = Some s' → wf base s'.
Proof.
  intros Hwf He. pose proof (client_exec_locks l s s' (wf_locks _ _ Hwf) He) as Hl.
  pose proof (wf_ids _ _ Hwf) as Hi.
  assert (∀ i p, threads s !! i = Some p → shape p) as Hsh.
  { intros i p Hp. eapply wf_shape; [done|]. by eapply list_elem_of_lookup_2. }
  assert (∀ i p x, threads s !! i = Some p → outcome p = Some x → x ∈ finished s) as Hou.
  { intros i p x Hp. eapply wf_outcome; [done|]. by eapply list_elem_of_lookup_2. }
  assert (∀ i c id r s1, s' = settle i c id r s1 → threads s1 = threads s → finished s1 = finished s →
    ids_ok base s1 → wf base s') as Hset.
  { intros i c id r s1 -> Ht Hf Hi1. apply (wf_moved base i (Unlock c id r) s); [done..| |exact Hi1|done| |]; simpl.
    - by rewrite Ht.
    - intros x [= <-]. rewrite Hf. apply elem_of_app. right. by left.
    - right. exists (c, id, r). by rewrite Hf. }
  destruct l; exec_cases He.
  all: try (by eapply Hset; [reflexivity|..]; auto using ids_number).
  all: try (eapply (wf_moved base _ _ s); [exact Hwf|exact Hl|reflexivity|first [exact Hi|by apply ids_issue]|..];
            simpl; auto; try (by intros)).
  - lia.
  - specialize (Hsh _ _ Heqo). simpl in Hsh. apply Nat.ltb_ge in Heqb.
    destruct (0 <? announced got)%nat eqn:E; simpl; [|apply Nat.ltb_ge in E]; lia.
  - by case_match.
  - specialize (Hsh _ _ Heqo). simpl in Hsh. apply Nat.ltb_ge in Heqb. lia.
  - intros x [= <-]. by eapply Hou.
  - apply extend_shape; [by eapply Hsh|]. rewrite length_take. lia.
  - intros y Hy. apply (Hou _ _ y H). by destruct x.
  - destruct Hwf. by split.
  - destruct Hwf. by split.
Qed.

(** ** The invariant of the connection *)

(** What the server says to the first [k] of the requests [l], after its
    greeting. *)
Definition said (l : list (command * Z)) (k : nat) : list message :=
  option_list hello ++ omap (λ j, serve (take (S j) l)) (seq 0 k).
Definition bytes (ms : list message) : list byte := mjoin (message_frame <$> ms).

Lemma said_S l k : said l (S k) = said l k ++ option_list (serve (take (S k) l)).
Proof.
  unfold said. rewrite seq_S, omap_app, app_assoc. f_equal.
Qed.

Lemma said_snoc l x k : (k ≤ length l)%nat → said (l ++ [x]) k = said l k.
Proof.
  induction k as [|k IH]; intros Hk; [done|].
  rewrite !said_S, IH, take_app_le by lia. done.
Qed.

Lemma said_prefix l k k' : (k ≤ k')%nat → said l k `prefix_of` said l k'.
Proof. induction 1; [done|]. rewrite said_S. by apply prefix_app_r. Qed.

Lemma bytes_app ms ms' : bytes (ms ++ ms') = bytes ms ++ bytes ms'.
Proof. unfold bytes. by rewrite fmap_app, join_app. Qed.

Lemma bytes_option o : bytes (option_list o) = from_option message_frame [] o.
Proof. unfold bytes. destruct o; simpl; [by rewrite app_nil_r|done]. Qed.

Lemma frames_snoc l ci : frames (l ++ [ci]) = frames l ++ frame ci.
Proof. unfold frames. rewrite fmap_app, join_app. simpl. by rewrite app_nil_r. Qed.

(** What the thread inside is doing to the connection: its command, what is
    still to be sent, what has been received. *)
Record view := mkView {
  v_command : option (command * Z);
  v_unsent : list byte;
  v_got : list byte
}.

Definition nobody : view := mkView None [] [].

Definition view_of (p : pc) : view :=
  match p with
  | Sending c id rest => mkView (Some (c, id)) rest []
  | Head c id got | Body c id got | Create c id got => mkView (Some (c, id)) [] got
  | _ => nobody
  end.

Definition look (s : state) : view := from_option view_of nobody (current s).

(** A message as the response it makes. *)
Definition reply_of (m : message) : reply :=
  Answer (byte_val (type_byte m.1.1)) m.1.2 (bytes_of_string m.2).

(** Whether a command that is over has taken a frame out of the socket: the
    one it returns, or the one it has no memory for. *)
Definition took (r : reply) : bool :=
  match r with
  | Answer _ _ _ => true
  | NoAnswer _ msg => bool_decide (msg = "Failed to allocate response struct")
  end.
Definition taken (l : list (command * Z * reply)) : nat :=
  length (filter (λ x, took x.2 = true) l).

(** A response that is the [h]-th message of the server, said when no request
    after this command's had been sent. *)
Definition correct (l : list (command * Z)) (h : nat) (x : command * Z * reply) : Prop :=
  match x.2 with
  | NoAnswer _ _ => True
  | Answer _ _ _ =>
      ∃ k m, l !! k = Some x.1 ∧ said l (S k) !! h = Some m ∧ x.2 = reply_of m
  end.

Definition in_order (l : list (command * Z)) (done : list (command * Z * reply)) : Prop :=
  ∀ pre x post, done = pre ++ x :: post → correct l (taken pre) x.

Record aligned (v : view) (w x : list byte) (l : list (command * Z)) (k : nat)
    (done : list (command * Z * reply)) : Prop := {
  al_wire : w ++ v_unsent v = frames l;
  al_command ci : v_command v = Some ci → last l = Some ci;
  al_idle : v_command v = None → v_unsent v = [] ∧ v_got v = [];
  al_served : (k ≤ length l)%nat;
  al_bytes : bytes (drop (taken done) (said l k)) = v_got v ++ x;
  al_count : (taken done ≤ length (said l k))%nat;
  al_done : in_order l done
}.

Lemma taken_snoc l x : taken (l ++ [x]) = (taken l + if took x.2 then 1 else 0)%nat.
Proof.
  unfold taken. rewrite filter_app, length_app, filter_cons, filter_nil.
  destruct (took x.2) eqn:E; [rewrite decide_True by done|rewrite decide_False by congruence]; simpl; lia.
Qed.

Lemma in_order_snoc l done x :
  in_order l done → correct l (taken done) x → in_order l (done ++ [x]).
Proof.
  intros Hd Hx pre y post E. destruct post as [|z post _] using rev_ind.
  - by apply app_inj_tail in E as [<- <-].
  - rewrite app_comm_cons, app_assoc in E. apply app_inj_tail in E as [-> _]. by eapply Hd.
Qed.

Lemma correct_snoc l ci h x : correct l h x → correct (l ++ [ci]) h x.
Proof.
  unfold correct. destruct (x.2); [|done]. intros (k & m & Hk & Hs & Hr).
  pose proof (lookup_lt_Some _ _ _ Hk). exists k, m.
  by rewrite lookup_app_l, said_snoc by lia.
Qed.

Lemma al_issue ci w x l k done :
  aligned nobody w x l k done → aligned (mkView (Some ci) (frame ci) []) w x (l ++ [ci]) k done.
Proof.
  intros [H1 _ _ H4 H5 H6 H7]. split; simpl in *; try done.
  - rewrite frames_snoc, <-H1. by rewrite app_nil_r.
  - intros ? [= <-]. apply last_snoc.
  - rewrite length_app. simpl. lia.
  - by rewrite said_snoc.
  - by rewrite said_snoc.
  - intros pre y post E. by eapply correct_snoc, H7.
Qed.

Lemma al_sent ci rest j w x l k done :
  aligned (mkView (Some ci) rest []) w x l k done →
  aligned (mkView (Some ci) (drop j rest) []) (w ++ take j rest) x l k done.
Proof.
  intros []. split; simpl in *; try done. by rewrite <-app_assoc, take_drop.
Qed.

Lemma al_receive ci got j w x l k done :
  aligned (mkView (Some ci) [] got) w x l k done →
  aligned (mkView (Some ci) [] (got ++ take j x)) w (drop j x) l k done.
Proof.
  intros []. split; simpl in *; try done. by rewrite <-app_assoc, take_drop.
Qed.

(** A command that is over without a response. *)
Lemma al_refused v w x l k done ci code msg :
  aligned v w x l k done → took (NoAnswer code msg) = false →
  aligned v w x l k (done ++ [(ci, NoAnswer code msg)]).
Proof.
  intros [] Hf. assert (taken (done ++ [(ci, NoAnswer code msg)]) = taken done) as E.
  { rewrite taken_snoc. simpl in *. rewrite Hf. lia. }
  split; rewrite ?E; try done. by apply in_order_snoc.
Qed.

(** A command that has received nothing is given up: what was to come goes to
    the next one. *)
Lemma al_unanswered ci w x l k done :
  aligned (mkView (Some ci) [] []) w x l k done → aligned nobody w x l k done.
Proof. intros []. by split. Qed.

Lemma al_serve v w x l k done :
  aligned v w x l k done → (k < length l)%nat →
  aligned v w (x ++ answer_bytes (take (S k) l)) l (S k) done.
Proof.
  intros [] Hk. split; try done; rewrite said_S.
  - rewrite drop_app_le, bytes_app, bytes_option, al_bytes0, <-app_assoc by done. done.
  - rewrite length_app. lia.
Qed.

(** A frame the library can take. *)
Definition answer_ok (m : message) : Prop :=
  let '(_, id, payload) := m in in_width 32 id ∧ str_size payload < 2 ^ 32 - 14.

(** A whole frame is recognised by its own header. *)
Lemma whole_frame m rest got x :
  answer_ok m → message_frame m ++ rest = got ++ x → length got = (14 + announced got)%nat →
  x = rest ∧ response got = reply_of m.
Proof.
  destruct m as [[mt id] payload]. intros [Hid Hs] Hf Hl. simpl in Hf.
  rewrite buildFrame_layout in Hf by done. unfold str_size in Hs.
  set (bs := bytes_of_string payload) in *. pose proof (length_frame_bytes mt id bs) as Hfl.
  assert (announced (frame_bytes mt id bs) = length bs) as Ha.
  { unfold announced.
    change (take 4 (drop 10 (frame_bytes mt id bs))) with (u32_be (Z.of_nat (length bs))).
    rewrite be_u32_be by (unfold in_width; lia). lia. }
  assert (announced got = length bs) as Hb.
  { rewrite <-(announced_app got x), <-Hf, announced_app, Ha by lia. done. }
  apply app_inj_1 in Hf as [<- ->]; [|lia]. split; [done|]. unfold response, reply_of.
  change (nth 5 (frame_bytes mt id bs) x00) with (type_byte mt).
  change (take 4 (drop 6 (frame_bytes mt id bs))) with (u32_be id).
  change (drop 14 (frame_bytes mt id bs)) with bs. by rewrite be_u32_be.
Qed.

Context (hello_ok : ∀ m, hello = Some m → answer_ok m).
Context (serve_ok : ∀ l m, serve l = Some m → answer_ok m).

Lemma said_ok l k : Forall answer_ok (said l k).
Proof.
  induction k as [|k IH].
  - unfold said. rewrite app_nil_r. destruct hello as [m|]; constructor; [by apply hello_ok|done].
  - rewrite said_S. apply Forall_app. split; [done|].
    destruct (serve _) as [m|] eqn:E; constructor; [by eapply serve_ok|done].
Qed.

(** What a command has received in full is the server's next message, and
    nothing of another one is left. *)
Lemma al_complete ci got w x l k done r :
  aligned (mkView (Some ci) [] got) w x l k done → length got = (14 + announced got)%nat →
  r = response got ∨ (∃ code, r = NoAnswer code "Failed to allocate response struct") →
  aligned nobody w x l k (done ++ [(ci, r)]).
Proof.
  intros [H1 H2 _ H4 H5 H6 H7] Hl Hr. simpl in *. specialize (H2 _ eq_refl).
  destruct (drop (taken done) (said l k)) as [|m ms] eqn:Ed.
  { simpl in H5. destruct got; simpl in *; [lia|done]. }
  assert (said l k !! taken done = Some m) as Hm.
  { rewrite <-(Nat.add_0_r (taken done)), <-lookup_drop, Ed. done. }
  destruct (whole_frame m (bytes ms) got x) as [-> Hresp]; [|exact H5|done|].
  { eapply Forall_lookup_1; [apply said_ok|done]. }
  assert (took r = true) as Ht by (destruct Hr as [->|[code ->]]; done).
  assert (taken (done ++ [(ci, r)]) = S (taken done)) as E.
  { rewrite taken_snoc. simpl. rewrite Ht. lia. }
  assert (drop (S (taken done)) (said l k) = ms) as Ed'.
  { rewrite <-Nat.add_1_r, <-drop_drop, Ed. done. }
  split; rewrite ?E, ?Ed'; simpl; try done.
  - by apply lookup_lt_Some in Hm.
  - apply in_order_snoc; [done|]. destruct Hr as [->|[code ->]]; [|done]. rewrite Hresp.
    destruct l as [|y l _] using rev_ind; [done|]. rewrite last_snoc in H2. injection H2 as ->.
    exists (length l), m. simpl. rewrite list_lookup_middle by done. split_and!; [done| |done].
    eapply prefix_lookup_Some; [exact Hm|]. apply said_prefix. rewrite length_app in H4. simpl in H4. lia.
Qed.

Lemma view_outside p : holds p = false → view_of p = nobody.
Proof. by destruct p. Qed.

(** What a step of the thread [i] from [p] to [p'] shows of it. *)
Lemma look_step l i p p' s s' :
  locks s → exec l s = Some s' → mover l = Some i →
  threads s !! i = Some p → threads s' = <[i := p']> (threads s) →
  (look s = view_of p ∧ look s' = view_of p') ∨
  (look s' = look s ∧ holds p = false ∧ holds p' = false).
Proof.
  intros Hl He Hm Hi Ht. destruct (exec_moves l i s s' Hl He Hm) as (q & q' & Hmv).
  pose proof Hmv as (Hq & Ht' & _). assert (q = p) as -> by congruence.
  assert (q' = p') as ->.
  { rewrite Ht in Ht'. apply (f_equal (lookup i)) in Ht'. pose proof (lookup_lt_Some _ _ _ Hi).
    rewrite !list_lookup_insert_eq in Ht' by done. congruence. }
  destruct (moves_current _ _ _ _ _ Hl Hmv) as (H1 & H2 & H3 & H4). unfold look.
  destruct (holds p) eqn:Hp, (holds p') eqn:Hp'; rewrite ?H1, ?H2, ?H3, ?H4 by done; simpl; auto.
  - left. by rewrite (view_outside p').
  - left. by rewrite (view_outside p).
Qed.

Lemma look_same l i s s' :
  locks s → exec l s = Some s' → mover l = Some i →
  ∀ p p', threads s !! i = Some p → threads s' = <[i := p']> (threads s) →
    view_of p' = view_of p → look s' = look s.
Proof.
  intros Hl He Hm p p' Hp Ht Hv.
  destruct (look_step l i p p' s s' Hl He Hm Hp Ht) as [[-> ->]|[? _]]; done.
Qed.

Lemma look_inside l i s s' :
  locks s → exec l s = Some s' → mover l = Some i →
  ∀ p p', threads s !! i = Some p → threads s' = <[i := p']> (threads s) →
    holds p = true → look s = view_of p ∧ look s' = view_of p'.
Proof.
  intros Hl He Hm p p' Hp Ht Hv.
  destruct (look_step l i p p' s s' Hl He Hm Hp Ht) as [?|(_ & ? & _)]; [done|congruence].
Qed.

Definition connection (s : state) : Prop :=
  broken s = false → aligned (look s) (wire s) (inbox s) (issued s) (answered s) (finished s).

Lemma client_init_connection n base : connection (init hello n base).
Proof.
  intros _. split; simpl; try done.
  - unfold said. by rewrite drop_0, app_nil_r, bytes_option.
  - apply Nat.le_0_l.
  - by intros [|? ?] ? ?.
Qed.

Lemma broken_stays l s s' : exec l s = Some s' → broken s' = false → broken s = false.
Proof. intros He. destruct l; exec_cases He; try done; by destruct (broken s). Qed.

Lemma recv_error_took p f : took (NoAnswer (recv_error p f).1 (recv_error p f).2) = false.
Proof. unfold recv_error. destruct p, f; try done; by case_match. Qed.

(** A command that stops receiving. *)
Lemma al_fails c id got p f w x l k done :
  aligned (mkView (Some (c, id)) [] got) w x l k done → negb (bool_decide (got = [])) = false →
  aligned nobody w x l k (done ++ [(c, id, NoAnswer (recv_error p f).1 (recv_error p f).2)]).
Proof.
  intros Ha ->%negb_false_iff%bool_decide_eq_true.
  apply al_refused; [by eapply al_unanswered|apply recv_error_took].
Qed.

Lemma client_exec_connection base l s s' :
  wf base s → connection s → exec l s = Some s' → connection s'.
Proof.
  intros Hwf Hc He Hb. pose proof (wf_locks _ _ Hwf) as Hl.
  specialize (Hc (broken_stays _ _ _ He Hb)).
  destruct (mover l) as [i|] eqn:Hm; cycle 1.
  { destruct l; try done; exec_cases He; [by destruct Hc|]. apply al_serve; [done|]. naive_solver. }
  pose proof (look_same l i s s' Hl He Hm) as Hsame. pose proof (look_inside l i s s' Hl He Hm) as Hin.
  assert (∀ p, threads s !! i = Some p → shape p) as Hsh.
  { intros p Hp. eapply wf_shape; [done|]. by eapply list_elem_of_lookup_2. }
  destruct l; simplify_eq; exec_cases He; try (by rewrite orb_true_r in Hb);
    try (rewrite (Hsame _ _ eq_refl eq_refl eq_refl); by (apply al_refused || idtac));
    try (rewrite (Hsame _ _ eq_refl eq_refl eq_refl); by (apply al_refused; [done|vm_compute]));
    try (destruct (Hin _ _ eq_refl eq_refl eq_refl) as [E ->]; rewrite E in Hc).
  - rewrite (Hsame _ (Lock c) H eq_refl); [done|]. by destruct x.
  - rewrite (Hsame _ ErrLock H eq_refl); [done|]. by destruct x.
  - by apply al_issue.
  - by case_match.
  - eapply al_complete; [exact Hc|by apply (Hsh _ eq_refl)|by left].
  - by apply al_sent.
  - assert (holds x = true) as Hx by (destruct x; simpl in *; (done || lia)).
    destruct (Hin x (extend x (take k (inbox s))) H eq_refl Hx) as [E ->]. rewrite E in Hc.
    destruct x; simpl in *; try lia; by apply al_receive.
  - destruct (Hin _ _ H eq_refl eq_refl) as [E ->]. rewrite E in Hc.
    apply orb_false_iff in Hb as [_ Hb]. by apply (al_fails c id got (Head c id got) f).
  - destruct (Hin _ _ H eq_refl eq_refl) as [E ->]. rewrite E in Hc.
    apply orb_false_iff in Hb as [_ Hb]. by apply (al_fails c id got (Body c id got) f).
  - eapply al_complete; [exact Hc|by apply (Hsh _ eq_refl)|right; by eexists].
Qed.

Lemma client_reachable_wf n base s : reachable n base s → wf base s.
Proof.
  apply reachable_invariant; [intros ? ->; apply client_init_wf|apply client_exec_wf].
Qed.

Lemma client_reachable_inv n base s : reachable n base s → wf base s ∧ connection s.
Proof.
  apply (reachable_invariant exec (λ s, s = init hello n base) (λ s, wf base s ∧ connection s)).
  - intros ? ->. split; [apply client_init_wf|apply client_init_connection].
  - intros l s1 s2 [H1 H2] He. split; [by eapply client_exec_wf|by eapply client_exec_connection].
Qed.

(** ** Identifiers *)

Lemma numbered_distinct base s :
  wf base s → Z.of_nat (length (numbered s)) ≤ 2 ^ 32 → NoDup (issued s).*2.
Proof.
  intros Hwf Hn. destruct (wf_ids _ _ Hwf) as (Hs & _ & Hsub).
  eapply sublist_NoDup; [|exact Hsub]. rewrite Hs. apply NoDup_fmap_2_strong; [|apply NoDup_seq].
  intros k k' Hk%elem_of_seq Hk'%elem_of_seq He. apply wrap_window_inj in He; lia.
Qed.

(** ** Calls return *)

(** The threads that are in the library, without new calls. *)
Definition exec_rest (l : label) (s : state) : option state :=
  match l with Command _ _ | LastError _ => None | _ => exec l s end.

(** What can be counted on: a thread goes on by itself, in the receive loops at
    the latest when the time of [poll] is over, [send] takes bytes when there
    is room for them, and the server reads what has been sent. *)
Definition goes_on (l : label) : Prop :=
  match l with Step _ | Sent _ _ | RecvFails _ RecvTimeout | Drain _ => True | _ => False end.

Definition all_out (s : state) : Prop := ∀ p, p ∈ threads s → outside p = true.

#[global] Instance all_out_dec s : Decision (all_out s).
Proof.
  refine (cast_if (decide (Forall (λ p, outside p = true) (threads s)))); unfold all_out;
    by rewrite <-Forall_forall.
Defined.

Lemma inside_moves base i p s :
  (0 < room)%nat → wf base s → threads s !! i = Some p → holds p = true →
  ∃ l s', goes_on l ∧ exec_rest l s = Some s'.
Proof.
  intros Hroom Hwf Hi Hp. assert (shape p) as Hs.
  { eapply wf_shape; [done|]. by eapply list_elem_of_lookup_2. }
  assert (is_Some (step i s) → ∃ l s', goes_on l ∧ exec_rest l s = Some s') as Hstep.
  { intros [s' ?]. by exists (Step i), s'. }
  assert (∀ c id got, p = Head c id got ∨ p = Body c id got → (0 < wanted p)%nat →
    ∃ l s', goes_on l ∧ exec_rest l s = Some s') as Hrecv.
  { intros c id got Hpc Hw. exists (RecvFails i RecvTimeout). simpl. unfold recv_fails. rewrite Hi. simpl.
    rewrite (proj2 (Nat.ltb_lt _ _) Hw). destruct Hpc as [-> | ->]; eauto. }
  unfold step, error_step in Hstep. rewrite Hi in Hstep. destruct p; try done; simpl in Hs; eauto.
  - apply Hstep. case_decide; eauto.
  - destruct rest as [|b rest]; [eauto|].
    destruct (decide (unread s < room)%nat) as [Hu|Hu].
    + eexists (Sent i 1), _. split; [done|]. simpl. unfold sent. rewrite Hi.
      rewrite decide_True by (simpl; lia). done.
    + eexists (Drain (unread s)), _. split; [done|]. simpl. unfold server_reads.
      rewrite decide_True by lia. done.
  - destruct (decide (length got < 14)%nat) as [Hl|Hl].
    + eapply Hrecv; [by left|]. simpl. destruct (length got <? 4)%nat eqn:E; [apply Nat.ltb_lt in E|]; lia.
    + apply Hstep. rewrite (proj2 (Nat.ltb_ge _ _)) by lia. destruct (version_ok got); simpl; eauto.
  - destruct (decide (length got < 14 + announced got)%nat) as [Hl|Hl].
    + eapply Hrecv; [by right|]. simpl. lia.
    + apply Hstep. rewrite (proj2 (Nat.ltb_ge _ _)) by lia. eauto.
Qed.

Lemma client_progress base s :
  (0 < room)%nat → wf base s → ¬ all_out s → ∃ l s', goes_on l ∧ exec_rest l s = Some s'.
Proof.
  intros Hroom Hwf Hn. destruct (mutex s) as [j|] eqn:Hm.
  - apply (wf_locks _ _ Hwf) in Hm. unfold inside in Hm.
    destruct (threads s !! j) as [p|] eqn:Hj; [|done]. by eapply inside_moves.
  - assert (Exists (λ p, ¬ outside p = true) (threads s)) as [p [[i Hi]%list_elem_of_lookup Hp]]%Exists_exists.
    { apply not_Forall_Exists; [apply _|]. by rewrite Forall_forall. }
    assert (holds p = false) as Hh.
    { destruct (holds p) eqn:E; [|done]. assert (mutex s = Some i); [|congruence].
      apply (wf_locks _ _ Hwf). unfold inside. by rewrite Hi. }
    exists (Step i). simpl. unfold step, error_step, lock. rewrite Hi, Hm. destruct p; try done; simpl; eauto.
Qed.

Lemma announced_bounded : ∃ B, ∀ got, (14 ≤ length got → announced got ≤ B)%nat.
Proof.
  exists (Z.to_nat (2 ^ 32)). intros got Hl. unfold announced.
  assert (in_width 32 (be_u32 (take 4 (drop 10 got)))) as Hr.
  { apply be_u32_range. rewrite length_take, length_drop. lia. }
  unfold in_width in Hr. lia.
Qed.

(** What a thread has left to do, when no payload is longer than [B]. *)
Definition pc_rank (B : nat) (p : pc) : nat :=
  match p with
  | Ready | Returned _ _ _ | Reported _ => 0
  | Unlock _ _ _ | ErrUnlock _ => 1
  | Create _ _ _ | ErrRead => 2
  | ErrLock => 3
  | Body _ _ _ => 3 + wanted p
  | Head _ _ got => 4 + B + (14 - length got)
  | Sending _ _ rest => 20 + B + 2 * length rest
  | Number c => 50 + B + 2 * length (bytes_of_string c.2)
  | Lock c => 51 + B + 2 * length (bytes_of_string c.2)
  end.

Definition rank (B : nat) (s : state) : nat :=
  total (pc_rank B) (threads s) + (length (issued s) - answered s) + unread s.

(** A step of a thread leaves it less to do. *)
Lemma rank_moved B i p p' s s' :
  threads s !! i = Some p → threads s' = <[i := p']> (threads s) → answered s' = answered s →
  (pc_rank B p' + (length (issued s') - length (issued s)) + unread s' < pc_rank B p + unread s)%nat →
  (rank B s' < rank B s)%nat.
Proof.
  intros Hi Ht Ha Hr. unfold rank. rewrite Ht, Ha.
  pose proof (total_insert (pc_rank B) _ _ _ p' Hi). lia.
Qed.

Lemma client_step_rank base B l s s' :
  (∀ got, (14 ≤ length got → announced got ≤ B)%nat) →
  wf base s → exec_rest l s = Some s' → (rank B s' < rank B s)%nat.
Proof.
  intros HB Hwf He. assert (∀ i p, threads s !! i = Some p → shape p) as Hsh.
  { intros i p Hi. eapply wf_shape; [done|]. by eapply list_elem_of_lookup_2. }
  destruct l; try done; unfold exec_rest in He; exec_cases He.
  all: try (eapply rank_moved; [eassumption|reflexivity|reflexivity|]; simpl;
            rewrite ?length_app, ?length_drop; simpl; try lia).
  - apply Nat.ltb_ge in Heqb. specialize (HB got Heqb). specialize (Hsh _ _ Heqo). simpl in Hsh.
    case_match; simpl; lia.
  - specialize (Hsh _ _ H). destruct x; simpl in *; try lia.
    all: rewrite ?announced_app, ?length_app, ?length_take by lia.
    + destruct (length got <? 4)%nat eqn:E; [apply Nat.ltb_lt in E|]; lia.
    + lia.
  - unfold rank. simpl. lia.
  - unfold rank. simpl. lia.
Qed.

(** ** Correctness *)

(** What the server had to say before the [k]-th request has all been taken:
    then what comes next is the answer to that request. *)
Lemma own_answer l k m :
  said l (S k) !! length (said l k) = Some m → serve (take (S k) l) = Some m.
Proof.
  rewrite said_S, lookup_app_r, Nat.sub_diag by done. by destruct (serve _).
Qed.

(** C16: a handle shared by threads, from when [eop_connect] has returned it.
    Under every schedule of any number of threads that send commands and ask
    for errors on one handle, the threads exclude each other; identifiers are
    given out one after the other, so up to 2^32 commands have different ones;
    and the error of the handle is that of the last command.  As long as no
    command has stopped in the middle of a frame, the requests are on the wire
    whole, one after the other in the order of the locks, up to the one being
    sent, and the responses are the messages of the server, its greeting first,
    each handed out whole and once, in order, to the commands in the order of
    the locks: the response of a command is the first message that no command
    before it has taken.  It is the answer to the command itself exactly when
    everything the server had said before (the greeting, and the answers to
    commands that gave up) had been taken. *)
Theorem handle_serialized n base s :
  reachable n base s →
  (∀ i j, inside i s = true → inside j s = true → i = j) ∧
  numbered s = ((λ k, u32 (base + Z.of_nat k)) <$> seq 0 (length (numbered s))) ∧
  (Z.of_nat (length (numbered s)) ≤ 2 ^ 32 → NoDup (issued s).*2) ∧
  last_error s = from_option (λ x, verdict x.2) (EOP_OK, "") (last (finished s)) ∧
  (broken s = false →
     wire s ++ v_unsent (look s) = frames (issued s) ∧
     ∀ i c id t mid bs, threads s !! i = Some (Returned c id (Answer t mid bs)) →
       ∃ pre post k m,
         finished s = pre ++ (c, id, Answer t mid bs) :: post ∧ issued s !! k = Some (c, id) ∧
         said (issued s) (S k) !! taken pre = Some m ∧
         t = byte_val (type_byte m.1.1) ∧ mid = m.1.2 ∧ bs = bytes_of_string m.2 ∧
         (taken pre = length (said (issued s) k) → serve (take (S k) (issued s)) = Some m)).
Proof.
  intros [Hwf Hc]%client_reachable_inv. split_and!.
  - intros i j. apply (locks_excl mutex inside), Hwf.
  - apply Hwf.
  - by eapply numbered_distinct.
  - apply Hwf.
  - intros Hb. destruct (Hc Hb) as [H1 _ _ _ _ _ H7]. split; [done|]. intros i c id t mid bs Hi.
    assert ((c, id, Answer t mid bs) ∈ finished s) as (pre & post & Hf)%list_elem_of_split.
    { eapply wf_outcome; [done|by eapply list_elem_of_lookup_2|done]. }
    destruct (H7 _ _ _ Hf) as (k & m & Hk & Hm & [= -> -> ->]).
    exists pre, post, k, m. split_and!; try done. intros Ht. apply own_answer. by rewrite <-Ht.
Qed.

(** C17: calls on a shared handle return, as long as the server reads: when
    the buffers hold at least a byte and the server goes on reading what has
    been sent, then whatever the schedule, its answers, the errors of the
    network and the allocator do, once no new call is made every thread comes
    out of the library, and until then there is always a step that can be
    counted on: a thread that goes on by itself, at the latest when the time of
    its [poll] is over, or the server that reads.  The mutex is released on
    every path. *)
Theorem handle_calls_return n base s :
  (0 < room)%nat → reachable n base s → inevitable exec_rest goes_on all_out s.
Proof.
  intros Hroom Hwf%client_reachable_wf. destruct announced_bounded as [B HB].
  apply (inevitable_by_rank _ _ _ (wf base) (rank B)); [| | |done].
  - intros s1 Hw1 Hn. by eapply client_progress.
  - intros l s1 s2 Hw1 He. right. split; [|by eapply client_step_rank].
    apply (client_exec_wf base l s1); [done|]. by destruct l.
  - intros s1 _. destruct (decide (all_out s1)); auto.
Qed.

(** A thread that waits in [send] for room. *)
Definition stuck (i : nat) (c : command) (id : Z) (rest : list byte) (s : state) : Prop :=
  threads s !! i = Some (Sending c id rest) ∧ rest ≠ [] ∧ (room ≤ unread s)%nat.

Lemma stuck_stays base l i c id rest s s' :
  wf base s → stuck i c id rest s → exec l s = Some s' → l ≠ SendFails i → (∀ k, l ≠ Drain k) →
  stuck i c id rest s'.
Proof.
  intros Hwf (Hi & Hr & Hu) He Hf Hd.
  assert (mutex s = Some i) as Hm.
  { apply (wf_locks _ _ Hwf). unfold inside. by rewrite Hi. }
  destruct (mover l) as [j|] eqn:Hj.
  - destruct (exec_moves l j s s' (wf_locks _ _ Hwf) He Hj) as (p & p' & Hp & Ht & _).
    destruct (decide (j = i)) as [->|Hne].
    + exfalso. rewrite Hi in Hp. injection Hp as <-.
      destruct l; simplify_eq/=; unfold step, error_step, sent, enter, receives, recv_fails, no_memory in He;
        rewrite Hi in He; simpl in He; repeat case_match; try done; lia.
    + split_and!; [by rewrite Ht, list_lookup_insert_ne|done|].
      assert (unread s' = unread s) as ->; [|done].
      destruct l; simplify_eq; exec_cases He; try done.
      exfalso. assert (mutex s = Some j); [|congruence].
      apply (wf_locks _ _ Hwf). unfold inside. by rewrite Heqo.
  - destruct l; try done; [by destruct (Hd k)|]. exec_cases He. done.
Qed.

(** [send] has no time-out.  When the server has stopped reading and the
    buffers are full, a thread in the send loop of [eop_send_command] stays
    there and keeps the mutex, whatever every other thread does and however
    long, until the connection fails: no other call on the handle gets past
    the lock, [eop_last_error] included. *)
Theorem send_waits_for_ever n base s i c id rest ls s' :
  reachable n base s → threads s !! i = Some (Sending c id rest) → rest ≠ [] →
  (room ≤ unread s)%nat →
  exec_all exec ls s = Some s' → SendFails i ∉ ls → (∀ k, Drain k ∉ ls) →
  threads s' !! i = Some (Sending c id rest) ∧ mutex s' = Some i ∧
  ∀ j, j ≠ i → inside j s' = false.
Proof.
  intros Hwf%client_reachable_wf Hi Hr Hu. assert (stuck i c id rest s) as Hs by done.
  clear Hi Hr Hu. revert s Hwf Hs. induction ls as [|l ls IH]; intros s Hwf Hs He Hf Hd; simplify_eq/=.
  - destruct Hs as (Hi & _). assert (inside i s' = true) as Hin by (unfold inside; by rewrite Hi).
    split_and!; [done|by apply Hwf|]. intros j Hj. destruct (inside j s') eqn:Ej; [|done].
    destruct Hj. by apply (locks_excl mutex inside s' j i (wf_locks _ _ Hwf)).
  - destruct (exec l s) as [s1|] eqn:E; [|done]. apply not_elem_of_cons in Hf as [Hf Hf'].
    assert (∀ k, l ≠ Drain k) as Hl.
    { intros k ->. by apply (Hd k), list_elem_of_here. }
    apply (IH s1); try done.
    + by eapply client_exec_wf.
    + by eapply stuck_stays.
    + intros k Hk. by apply (Hd k), list_elem_of_further.
Qed.

(** The reason of a failure can be lost: when a command of the thread [i]
    has failed and a command of another thread succeeds before [i] asks,
    [eop_last_error] tells [i] that there was no error. *)
Theorem failure_reason_lost n base s i j c id code msg c' id' got :
  reachable n base s →
  threads s !! i = Some (Returned c id (NoAnswer code msg)) →
  threads s !! j = Some (Create c' id' got) →
  ∃ s', exec_all exec [Step j; Step j; LastError i; Step i; Step i; Step i] s = Some s' ∧
    threads s' !! i = Some (Reported (EOP_OK, "")) ∧
    threads s' !! j = Some (Returned c' id' (response got)).
Proof.
  intros Hwf%client_reachable_wf Hi Hj.
  assert (i ≠ j) as Hij by congruence.
  pose proof (lookup_lt_Some _ _ _ Hi). pose proof (lookup_lt_Some _ _ _ Hj).
  set (s1 := settle j c' id' (response got) s).
  set (s2 := goto j (Returned c' id' (response got)) (set_mutex None s1)).
  set (s3 := goto i ErrRead (set_mutex (Some i) (goto i ErrLock s2))).
  exists (goto i (Reported (last_error s3)) (set_mutex None (goto i (ErrUnlock (last_error s3)) s3))).
  assert (∀ p s', length (threads s') = length (threads s) → threads (goto i p s') !! i = Some p) as Ei.
  { intros p s' El. apply list_lookup_insert_eq. by rewrite El. }
  assert (threads s1 !! j = Some (Unlock c' id' (response got))) as E1
    by (apply list_lookup_insert_eq; done).
  assert (threads s2 !! i = Some (Returned c id (NoAnswer code msg))) as E2
    by (simpl; by rewrite !list_lookup_insert_ne).
  assert (threads s2 !! j = Some (Returned c' id' (response got))) as E3
    by (apply list_lookup_insert_eq; simpl; by rewrite length_insert).
  split; [|split].
  - apply (exec_all_cons _ _ _ _ s1); [simpl; unfold step, error_step; by rewrite Hj|].
    apply (exec_all_cons _ _ _ _ s2); [simpl; unfold step, error_step; by rewrite E1|].
    apply (exec_all_cons _ _ _ _ (goto i ErrLock s2)); [simpl; unfold enter; by rewrite E2|].
    assert (length (threads s2) = length (threads s)) as El by (simpl; by rewrite !length_insert).
    assert (length (threads s3) = length (threads s)) as El' by (simpl; by rewrite !length_insert).
    apply (exec_all_cons _ _ _ _ s3); [simpl; unfold step, error_step; by rewrite Ei|].
    apply (exec_all_cons _ _ _ _ (goto i (ErrUnlock (last_error s3)) s3)).
    { assert (threads s3 !! i = Some ErrRead) as E4 by (apply Ei; simpl; by rewrite !length_insert).
      simpl. unfold step, error_step. by rewrite E4. }
    apply (exec_all_cons _ _ _ _ (goto i (Reported (last_error s3))
      (set_mutex None (goto i (ErrUnlock (last_error s3)) s3)))); [|done].
    simpl. unfold step, error_step. by rewrite Ei.
  - rewrite Ei; [done|]. simpl. by rewrite !length_insert.
  - simpl. rewrite !(list_lookup_insert_ne _ i j) by done. exact E3.
Qed.


End server.

(** ** Examples *)

(** A server that greets, says nothing to a HEARTBEAT and acknowledges the
    rest. *)
Definition demo_hello : option message := Some (ACK, 1, "welcome").
Definition demo_server (l : list (command * Z)) : option message :=
  match last l with
  | Some ((t, _), id) => if t =? EOP_HEARTBEAT then None else Some (ACK, u32 id, "ok")
  | None => None
  end.

Lemma demo_hello_ok m : demo_hello = Some m → answer_ok m.
Proof. intros [= <-]. by split. Qed.

Lemma demo_server_ok l m : demo_server l = Some m → answer_ok m.
Proof.
  unfold demo_server. intros H. repeat case_match; simplify_eq. split; [by apply wrap_range|done].
Qed.

Definition query : command := (EOP_QUERY_NODE, "{}").
Definition beat : command := (EOP_HEARTBEAT, "").

(** Two threads on a fresh handle: one sends a heartbeat, which is not answered
    and gets the greeting, while the other waits for the mutex and then has its
    query answered, in pieces. *)
Definition beat_and_query : list label :=
  [Command 0 beat; Command 1 query; Step 0; Step 0; Sent 0 5; Sent 0 9; Step 0; Drain 14; Server;
   Receives 0 4; Receives 0 10; Step 0; Receives 0 7; Step 0; Step 0; Step 0;
   Step 1; Step 1; Sent 1 16; Step 1; Drain 16; Server;
   Receives 1 4; Receives 1 3; Receives 1 7; Step 1; Receives 1 2; Step 1].

(** The same with a heartbeat that is given up before the greeting arrives. *)
Definition give_up_and_query : list label :=
  [Command 0 beat; Command 1 query; Step 0; Step 0; Sent 0 14; Step 0; Drain 14; Server;
   RecvFails 0 RecvTimeout; Step 0; Step 1; Step 1; Sent 1 16; Step 1; Drain 16; Server;
   Receives 1 4; Receives 1 10; Step 1; Receives 1 7; Step 1].

Definition after (ls : list label) (n : nat) (base : Z) : state :=
  default (init demo_hello n base) (exec_all (exec demo_server 40) ls (init demo_hello n base)).

Lemma client_after_reachable ls n base :
  Threads.reachable (exec demo_server 40) (λ s, s = init demo_hello n base) (after ls n base).
Proof.
  unfold after. destruct (exec_all _ ls _) as [s|] eqn:E; simpl; [|by apply reach_init].
  eapply exec_all_reachable, E. by apply reach_init.
Qed.

(** The query gets its own answer when the heartbeat has taken the greeting. *)
Lemma handle_serialized_witness :
  let s := after (beat_and_query ++ [Step 1; Step 1]) 2 1 in
  broken s = false ∧ (issued s).*2 = [1; 2] ∧
  threads s !! 1%nat = Some (Returned query 2 (Answer EOP_ACK 2 (bytes_of_string "ok"))) ∧
  ∃ pre post k m,
    finished s = pre ++ (query, 2, Answer EOP_ACK 2 (bytes_of_string "ok")) :: post ∧
    said demo_hello demo_server (issued s) (S k) !! taken pre = Some m ∧ m.2 = "ok".
Proof.
  intros s. assert (threads s !! 1%nat = Some (Returned query 2 (Answer EOP_ACK 2 (bytes_of_string "ok"))))
    as E by (by vm_compute).
  split_and!; [by vm_compute..|done|].
  destruct (handle_serialized demo_hello demo_server 40 demo_hello_ok demo_server_ok 2 1 s)
    as (_ & _ & _ & _ & H); [apply client_after_reachable|].
  destruct H as [_ H]; [by vm_compute|]. destruct (H _ _ _ _ _ _ E) as (pre & post & k & m & H1 & _ & H2 & _ & _ & H3 & _).
  exists pre, post, k, m. split_and!; [exact H1|exact H2|].
  rewrite <-(string_of_bytes_of_string m.2), <-H3. apply string_of_bytes_of_string.
Defined.

(** A query that follows a heartbeat that was given up gets the greeting. *)
Lemma given_up_shifts :
  let s := after (give_up_and_query ++ [Step 1; Step 1]) 2 1 in
  broken s = false ∧
  threads s !! 1%nat = Some (Returned query 2 (Answer EOP_ACK 1 (bytes_of_string "welcome"))).
Proof. by vm_compute. Qed.

Lemma handle_calls_return_witness :
  let s := after (take 9 beat_and_query) 2 1 in
  threads s = [Head beat 1 []; Lock query] ∧
  inevitable (exec_rest demo_server 40) goes_on all_out s.
Proof.
  intros s. split; [by vm_compute|].
  apply (handle_calls_return demo_hello demo_server 40 2 1); [lia|apply client_after_reachable].
Defined.

(** A request that is longer than the buffers, to a server that does not read. *)
Definition long_query : command := (EOP_QUERY_NODE, "{*****************************}").

Lemma send_waits_for_ever_witness :
  let s := after [Command 0 long_query; Command 1 query; Step 0; Step 0; Sent 0 40] 3 1 in
  exec_all (exec demo_server 40) [LastError 2; Step 2] s = None ∧
  ∃ s', exec_all (exec demo_server 40) [LastError 2] s = Some s' ∧ mutex s' = Some 0%nat.
Proof.
  intros s. split; [by vm_compute|].
  assert (∃ c id rest s', threads s !! 0%nat = Some (Sending c id rest) ∧ rest ≠ [] ∧ unread s = 40%nat ∧
    exec_all (exec demo_server 40) [LastError 2] s = Some s') as (c & id & rest & s' & H1 & H2 & H3 & H4)
    by (do 4 eexists; split; [vm_compute; reflexivity|by vm_compute]).
  exists s'. split; [exact H4|].
  destruct (send_waits_for_ever demo_hello demo_server 40 3 1 s 0 c id rest [LastError 2] s')
    as (_ & Hm & _); [apply client_after_reachable|exact H1|exact H2|by rewrite H3|exact H4| | |exact Hm].
  - intros [Hk|Hk]%elem_of_cons; [discriminate Hk|by apply not_elem_of_nil in Hk].
  - intros k [Hk|Hk]%elem_of_cons; [discriminate Hk|by apply not_elem_of_nil in Hk].
Defined.

Lemma failure_reason_lost_witness :
  let s := after give_up_and_query 2 1 in
  ∃ s', exec_all (exec demo_server 40) [Step 1; Step 1; LastError 0; Step 0; Step 0; Step 0] s = Some s' ∧
    threads s' !! 0%nat = Some (Reported (EOP_OK, "")).
Proof.
  intros s. destruct (failure_reason_lost demo_hello demo_server 40 2 1 s 0 1 beat 1 EOP_ERR_TIMEOUT
    "Timeout waiting for frame length prefix" query 2
    (message_frame (ACK, 1, "welcome"))) as (s' & H1 & H2 & _);
    [apply client_after_reachable|by vm_compute|by vm_compute|]. exists s'. exact (conj H1 H2).
Defined.
End ClientThreads.
