(* ===== verification/Interop.v ===== *)
(** * The client library against the server

    The C client of [Client.v] on one end of a connection and the server's
    worker of [ThreadPool.v] on the other: what the client sends is what the
    server reads, what the server writes is what the client reads. *)

From S2P Require Import Prelude Net Registry Session Time Otel Json Serializer JsonRef World.
From S2P Require Import Concrete Logger Effects Payloads Sender RegisterHandler HeartbeatHandler.
From S2P Require Import QueryHandler ConnectionWorker ConnectionSpec WorkQueue ThreadPool.
From S2P Require Import Envelope Posix Client ClientLogic ClientSpec ClientSession.
Local Open Scope Z_scope.

Module Interop.
Import MessageSerializer EopEnvelope ClientSession.

Definition is_heartbeat (m : message) : bool := bool_decide (m.1.1 = HEARTBEAT).

Section answers.
Context `{JL : JsonLib} `{MI : NodeRegistry.MapIter}.

(** What the server says to a message, as a message under the same
    identifier. *)
Definition answer (m : message) (reg : gmap string NodeRegistry.NodeEntry) : option message :=
  let '(t, id, payload) := m in
  match t with
  | REGISTER =>
      let d := RegisterHandler.reply id (RegisterHandler.decide_reg payload reg) in
      Some (d.1, id, Payloads.text_of d.2)
  | QUERY_NODE | LIST_NODES =>
      let d := QueryHandler.reply id (QueryHandler.decide_query t payload reg) in
      Some (d.1, id, Payloads.text_of d.2)
  | HEARTBEAT => None
  | _ => Some (ERROR_MSG, id, Payloads.text_of (Payloads.error_json
           (Payloads.mkError id ERR_MALFORMED "Unknown message type")))
  end.

(** The session of [ConnectionSpec.v] with its answers as messages. *)
Inductive answers : string → gmap string NodeRegistry.NodeEntry → list message → list message →
    string → gmap string NodeRegistry.NodeEntry → Prop :=
| answers_nil node reg : answers node reg [] [] node reg
| answers_cons node reg m msgs now ms node' reg' :
    0 ≤ now →
    answers (ConnectionWorker.next_node (message_result m) node)
      (ConnectionWorker.reg_after now (message_result m) node reg) msgs ms node' reg' →
    answers node reg (m :: msgs) (option_list (answer m reg) ++ ms) node' reg'.

Lemma answer_reply m reg :
  ConnectionWorker.reply_of (message_result m) reg = message_frame <$> answer m reg.
Proof. destruct m as [[t id] s]. by destruct t. Qed.

Lemma answer_id m reg : (λ m : message, m.1.2) <$> answer m reg = if is_heartbeat m then None else Some m.1.2.
Proof. destruct m as [[t id] s]. by destruct t. Qed.

Lemma session_answers node reg msgs outs node' reg' :
  ConnectionSpec.session node reg (message_result <$> msgs) outs node' reg' →
  ∃ ms, outs = message_frame <$> ms ∧ answers node reg msgs ms node' reg'.
Proof.
  revert node reg outs. induction msgs as [|m msgs IH]; intros node reg outs Hses;
    inversion Hses as [|? ? ? ? now outs' ? ? Hnow Hrest]; subst.
  { exists []. split; [done|constructor]. }
  destruct (IH _ _ _ Hrest) as (ms & -> & Ha). exists (option_list (answer m reg) ++ ms).
  split; [|by econstructor]. rewrite answer_reply, fmap_app. by destruct (answer m reg).
Qed.

(** One answer for each message that is not a heartbeat. *)
Lemma answers_ids node reg msgs ms node' reg' :
  answers node reg msgs ms node' reg' →
  (λ m, m.1.2) <$> ms = (λ m, m.1.2) <$> filter (λ m, is_heartbeat m = false) msgs.
Proof.
  induction 1 as [|node reg m msgs now ms node' reg' _ _ IH]; [done|].
  rewrite fmap_app, filter_cons, IH. pose proof (answer_id m reg) as Hid.
  destruct (answer m reg), (is_heartbeat m); simpl in *; try done. by injection Hid as ->.
Qed.
End answers.

(** Commands the server can read. *)
Definition servable `{JsonLib} (cmd : command) : Prop :=
  valid_type cmd.1 ∧ str_size cmd.2 ≤ MAX_FRAME_PAYLOAD ∧ ConnectionSpec.names_ok cmd.2.

Lemma servable_ok `{JsonLib} cmds : Forall servable cmds → Forall command_ok cmds.
Proof.
  intros Hc. eapply Forall_impl; [exact Hc|]. intros [t s] (Ht & Hs & _). split; [done|].
  simpl in *. unfold MAX_FRAME_PAYLOAD in Hs. lia.
Qed.

Lemma requests_ok `{JsonLib} id cmds :
  in_width 32 id → Forall servable cmds →
  Forall message_ok (requests id cmds) ∧ Forall (λ m, ConnectionSpec.names_ok m.2) (requests id cmds).
Proof.
  intros Hid Hc. revert id Hid. induction Hc as [|[t s] cmds (Ht & Hs & Hn) _ IH];
    intros id Hid; simpl; [done|].
  destruct (IH (u32 (id + 1))) as [IH1 IH2]; [by apply wrap_range|].
  split; constructor; try done. split_and!; [apply byte_type_canonical|done|done].
Qed.

Lemma requests_length id cmds : length (requests id cmds) = length cmds.
Proof. revert id. induction cmds as [|[t s] cmds IH]; intros id; simpl; auto. Qed.

Lemma requests_not_heartbeat id cmds :
  Forall (λ cmd, valid_type cmd.1 ∧ cmd.1 ≠ EOP_HEARTBEAT) cmds →
  filter (λ m, is_heartbeat m = false) (requests id cmds) = requests id cmds.
Proof.
  intros Hc. revert id. induction Hc as [|[t s] cmds [Ht Hne] _ IH]; intros id; [done|].
  cbn [requests]. rewrite filter_cons, decide_True, IH; [done|].
  unfold is_heartbeat. apply bool_decide_eq_false. simpl in *. unfold valid_type in Ht.
  unfold EOP_REGISTER, EOP_EDGE_TELEMETRY, EOP_HEARTBEAT in *.
  assert (t = 1 ∨ t = 2 ∨ t = 3 ∨ t = 4 ∨ t = 5 ∨ t = 7 ∨ t = 8 ∨ t = 9) as Hcases by lia.
  destruct_or! Hcases; by subst.
Qed.

(** ** A connection from both ends *)

Section connection.
Context `{CL : Clock} `{!ClockOk} `{RN : Otel.Rng} `{JL : JsonLib} `{!JsonLaws}.
Context `{MI : NodeRegistry.MapIter} `{Posix.Junk}.

(** The server's side: an idle worker takes the socket on which the client's
    requests arrive. *)
Definition accepted (a : WorkQueue.AcceptedSocket) (w : world) (s : sock) (reqs : list message)
    (st : stop) : Prop :=
  0 ≤ WorkQueue.fd a ∧ Otel.wf (w_otel w) ∧ reg_ok (w_reg w) ∧
  w_socks w !! WorkQueue.fd a = Some s ∧ sk_opt_ok s = true ∧ send_ok (sk_snd s) ∧
  sk_out s = [] ∧ Logger.text_ok (WorkQueue.ip a) = true ∧
  view (sk_in s) = (concat (message_frame <$> reqs), st).

(** A payload whose length the header can hold with room for a frame. *)
Definition fits (m : message) : Prop := str_size m.2 < 2 ^ 32 - 14.

(** The identifiers are those of the server's counter and of the requests. *)
Lemma answers_fit sm now id cmds (ms : list message) :
  in_width 32 id → Forall servable cmds →
  (λ m, m.1.2) <$> ms = (λ m, m.1.2) <$> filter (λ m, is_heartbeat m = false) (requests id cmds) →
  Forall fits (ThreadPool.welcome_message sm now :: ms) →
  Forall reply_ok (ThreadPool.welcome_message sm now :: ms).
Proof.
  intros Hid Hc Hids [Hh Hms]%Forall_cons. apply Forall_cons. split.
  { split; [by apply wrap_range|exact Hh]. }
  destruct (requests_ok id cmds Hid Hc) as [Hreq _].
  apply Forall_forall. intros m Hm. split; [|by eapply Forall_forall in Hms].
  pose proof (list_elem_of_fmap_2 (λ m : message, m.1.2) _ _ Hm) as Hin. unfold message in *.
  rewrite Hids in Hin. apply list_elem_of_fmap in Hin as (x & Hx1 & [_ Hx]%list_elem_of_filter).
  rewrite Hx1. eapply Forall_forall in Hreq; [|exact Hx]. destruct x as [[t i] payload]. apply Hreq.
Qed.

(** The server writes its greeting and one frame per request that is not a
    heartbeat; a client that issues [cmds] while these bytes arrive gets them
    in turn. *)
Lemma both_ends idle ml a sm w s st id cmds :
  in_width 32 id → Forall servable cmds →
  accepted a w s (requests id cmds) st →
  let hello := ThreadPool.welcome_message sm (sys_clock (w_reads w)) in
  ∃ w' s' ms node reg' now,
    ThreadPool.serve_socket idle ml a sm w = (Ret (ThreadPool.sessions_after sm), w') ∧
    w_socks w' !! WorkQueue.fd a = Some s' ∧
    sk_out s' = concat (message_frame <$> hello :: ms) ∧
    ConnectionSpec.session "" (w_reg w) (message_result <$> requests id cmds)
      (message_frame <$> ms) node reg' ∧
    answers "" (w_reg w) (requests id cmds) ms node reg' ∧
    w_reg w' = NodeRegistry.setOffline node now reg' ∧
    (λ m, m.1.2) <$> ms =
      (λ m, m.1.2) <$> filter (λ m, is_heartbeat m = false) (requests id cmds) ∧
    ∀ client p c cs av f rest,
      Posix.next_msg_id c = id → (length cmds ≤ S (length ms))%nat → Forall fits (hello :: ms) →
      connected client p c cs (sk_out s' ++ av, f, rest) →
      ∃ rs p' c' cs',
        commands client cmds p = Posix.Done rs p' ∧
        Forall2 (holds (Posix.p_heap p')) rs (take (length cmds) (hello :: ms)) ∧
        connected client p' c' cs'
          (concat (message_frame <$> drop (length cmds) (hello :: ms)) ++ av, f, rest) ∧
        Posix.cs_out cs' = Posix.cs_out cs ++ concat (message_frame <$> requests id cmds).
Proof.
  intros Hid Hcmds (Hfd & Hwf & Hok & Hs & Hopt & Hsnd & Hout & Hip & Hview) hello.
  destruct (requests_ok id cmds Hid Hcmds) as [Hm1 Hm2].
  destruct (ThreadPool.client_run idle ml a sm w s (requests id cmds) st)
    as (w' & s' & outs & node & reg' & now & Hrun & Hs' & Hout' & Hses & Hreg); try done.
  destruct (session_answers _ _ _ _ _ _ Hses) as (ms & -> & Hans).
  pose proof (answers_ids _ _ _ _ _ _ Hans) as Hids.
  exists w', s', ms, node, reg', now. split_and!; [exact Hrun|exact Hs'|exact Hout'|exact Hses|
    exact Hans|exact Hreg|exact Hids|].
  - intros client p c cs av f rest Hnext Hlen Hrep Hcon.
    eapply answers_fit in Hrep; [|exact Hid|exact Hcmds|exact Hids]. subst id.
    set (all := hello :: ms) in *. rewrite Hout' in Hcon.
    change (ThreadPool.welcome sm _ ++ concat (message_frame <$> ms))
      with (concat (message_frame <$> all)) in Hcon.
    rewrite <-(take_drop (length cmds) all), fmap_app, concat_app, <-app_assoc in Hcon.
    destruct (commands_run client cmds (take (length cmds) all) p c cs
      (concat (message_frame <$> drop (length cmds) all) ++ av) f rest)
      as (rs & p' & c' & cs' & ? & ? & ? & _ & _ & ?);
      [|by apply servable_ok|by apply Forall_take|done|done|].
    + rewrite length_take, Nat.min_l; [done|exact Hlen].
    + by exists rs, p', c', cs'.
Qed.
(** No heartbeat: one answer for each command. *)
Definition no_heartbeat (cmds : list command) : Prop :=
  Forall (λ cmd, cmd.1 ≠ EOP_HEARTBEAT) cmds.

Lemma answers_length id cmds (ms : list message) :
  Forall servable cmds → no_heartbeat cmds →
  (λ m, m.1.2) <$> ms =
    (λ m, m.1.2) <$> filter (λ m, is_heartbeat m = false) (requests id cmds) →
  length ms = length cmds ∧ (λ m, m.1.2) <$> ms = (λ m, m.1.2) <$> requests id cmds.
Proof.
  intros Hs Hn Hids. rewrite requests_not_heartbeat in Hids.
  - split; [|done]. apply (f_equal length) in Hids. by rewrite !length_fmap, requests_length in Hids.
  - apply Forall_forall. intros cmd Hin. split.
    + by apply (proj1 (Forall_forall _ _) Hs) in Hin as [? _].
    + by apply (proj1 (Forall_forall _ _) Hn) in Hin.
Qed.
End connection.

(** C5: the client and the server together implement the abstract session.
    A worker takes a connection on which a client that begins with a heartbeat
    sends commands other than heartbeats.  The worker writes its greeting (an
    ACK with the next session and message ids) and then exactly the answers of
    the session, one per command, and leaves the registry of the session with
    the client's node OFFLINE.  The client that reads those bytes, whatever
    the pieces they arrive in, sends exactly the requests the worker has read,
    gets the greeting for its heartbeat and for each command the answer the
    session gives to it, under that command's identifier, and leaves nothing
    unread.  The commands are ones the server reads ([servable]), and no
    payload is longer than a frame's header can say. *)
Theorem client_server_session `{CL : Clock} `{!ClockOk} `{RN : Otel.Rng} `{JL : JsonLib}
    `{!JsonLaws} `{MI : NodeRegistry.MapIter} `{Posix.Junk} idle ml a sm w s st id cmds :
  in_width 32 id → Forall servable cmds → no_heartbeat cmds →
  let prog := (EOP_HEARTBEAT, "") :: cmds in
  accepted a w s (requests id prog) st →
  let hello := ThreadPool.welcome_message sm (sys_clock (w_reads w)) in
  ∃ w' s' ms node reg' now,
    ThreadPool.serve_socket idle ml a sm w = (Ret (ThreadPool.sessions_after sm), w') ∧
    w_socks w' !! WorkQueue.fd a = Some s' ∧
    sk_out s' = concat (message_frame <$> hello :: ms) ∧
    ConnectionSpec.session "" (w_reg w) (message_result <$> requests id prog)
      (message_frame <$> ms) node reg' ∧
    answers "" (w_reg w) (requests id prog) ms node reg' ∧
    w_reg w' = NodeRegistry.setOffline node now reg' ∧
    (λ m, m.1.2) <$> ms = (λ m, m.1.2) <$> requests (u32 (id + 1)) cmds ∧
    ∀ client p c cs av f rest,
      Posix.next_msg_id c = id → Forall fits (hello :: ms) →
      connected client p c cs (sk_out s' ++ av, f, rest) →
      ∃ r rs p' c' cs',
        commands client prog p = Posix.Done (r :: rs) p' ∧
        holds (Posix.p_heap p') r hello ∧ Forall2 (holds (Posix.p_heap p')) rs ms ∧
        connected client p' c' cs' (av, f, rest) ∧
        Posix.cs_out cs' = Posix.cs_out cs ++ concat (message_frame <$> requests id prog).
Proof.
  intros Hid Hc Hn prog Ha hello.
  assert (Forall servable prog) as Hp.
  { constructor; [|done]. split_and!; [done|by apply Z.leb_le|]. intros j Hj. simpl in Hj.
    by rewrite j_parse_empty in Hj. }
  destruct (both_ends idle ml a sm w s st id prog Hid Hp Ha)
    as (w' & s' & ms & node & reg' & now & Hrun & Hs' & Hout & Hses & Hans & Hreg & Hids & Hcl).
  fold hello in Hout, Hcl. exists w', s', ms, node, reg', now.
  assert (filter (λ m, is_heartbeat m = false) (requests id prog) =
          filter (λ m, is_heartbeat m = false) (requests (u32 (id + 1)) cmds)) as Heq by done.
  rewrite Heq in Hids. destruct (answers_length _ _ _ Hc Hn Hids) as [Hlen Hids'].
  split_and!; [done..|]. intros client p c cs av f rest Hnext Hrep Hcon.
  destruct (Hcl client p c cs av f rest Hnext) as (rs & p' & c' & cs' & ? & Hh & Hcon' & ?);
    [apply le_n_S, Nat.eq_le_incl, eq_sym, Hlen|done|done|].
  rewrite take_ge in Hh by (apply le_n_S, Nat.eq_le_incl, Hlen).
  rewrite drop_ge in Hcon' by (apply le_n_S, Nat.eq_le_incl, Hlen).
  inversion Hh as [|r ? rs' ? Hr Hrs]; subst. by exists r, rs', p', c', cs'.
Qed.

(** Without the drain the responses are one command late: the first
    command returns the greeting and every later one the answer to the command
    before it, under that command's identifier, and no error is reported. *)
Theorem undrained_responses_shift `{CL : Clock} `{!ClockOk} `{RN : Otel.Rng} `{JL : JsonLib}
    `{!JsonLaws} `{MI : NodeRegistry.MapIter} `{Posix.Junk} idle ml a sm w s st id cmds cmd :
  in_width 32 id → Forall servable (cmds ++ [cmd]) → no_heartbeat (cmds ++ [cmd]) →
  accepted a w s (requests id (cmds ++ [cmd])) st →
  let hello := ThreadPool.welcome_message sm (sys_clock (w_reads w)) in
  ∃ w' s' ms m,
    ThreadPool.serve_socket idle ml a sm w = (Ret (ThreadPool.sessions_after sm), w') ∧
    w_socks w' !! WorkQueue.fd a = Some s' ∧
    sk_out s' = concat (message_frame <$> hello :: ms ++ [m]) ∧
    (∃ node reg', answers "" (w_reg w) (requests id (cmds ++ [cmd])) (ms ++ [m]) node reg') ∧
    (λ m, m.1.2) <$> ms ++ [m] = (λ m, m.1.2) <$> requests id (cmds ++ [cmd]) ∧
    ∀ client p c cs av f rest,
      Posix.next_msg_id c = id → Forall fits (hello :: ms ++ [m]) →
      connected client p c cs (sk_out s' ++ av, f, rest) →
      ∃ r rs p' c' cs',
        commands client (cmds ++ [cmd]) p = Posix.Done (r :: rs) p' ∧
        holds (Posix.p_heap p') r hello ∧ Forall2 (holds (Posix.p_heap p')) rs ms ∧
        connected client p' c' cs' (message_frame m ++ av, f, rest).
Proof.
  intros Hid Hc Hn Ha hello.
  destruct (both_ends idle ml a sm w s st id _ Hid Hc Ha)
    as (w' & s' & ms & node & reg' & now & Hrun & Hs' & Hout & _ & Hans & _ & Hids & Hcl).
  fold hello in Hout, Hcl.
  destruct (answers_length _ _ _ Hc Hn Hids) as [Hlen Hids'].
  destruct ms as [|m ms _] using rev_ind; [rewrite length_app in Hlen; simpl in Hlen; lia|].
  exists w', s', ms, m. split_and!; [done..|by exists node, reg'|done|]. intros client p c cs av f rest Hnext Hrep Hcon.
  destruct (Hcl client p c cs av f rest Hnext) as (rs & p' & c' & cs' & ? & Hh & Hcon' & _);
    [apply le_S, Nat.eq_le_incl, eq_sym, Hlen|done|done|].
  assert (length (cmds ++ [cmd]) = S (length ms)) as Hl.
  { rewrite length_app in Hlen. simpl in Hlen. rewrite Nat.add_1_r in Hlen. by symmetry. }
  rewrite Hl in Hh, Hcon'. simpl in Hh, Hcon'.
  rewrite take_app_length in Hh. rewrite drop_app_length in Hcon'.
  inversion Hh as [|r ? rs' ? Hr Hrs]; subst. exists r, rs', p', c', cs'. split_and!; try done.
  simpl in Hcon'. by rewrite app_nil_r in Hcon'.
Qed.

Section witnesses.
Import Demo.
#[local] Existing Instance Posix.zero_junk.

Definition demo_cmds : list command := [(EOP_REGISTER, demo_register); (EOP_LIST_NODES, "")].
Definition demo_reqs : list message := requests 0 ((EOP_HEARTBEAT, "") :: demo_cmds).
Definition demo_in (reqs : list message) : list recv_ev :=
  [RData (concat (message_frame <$> reqs)); REof].

Lemma demo_servable : Forall servable demo_cmds.
Proof.
  constructor; [|constructor; [|constructor]].
  - split; [by compute|]. split; [by compute|]. apply ConnectionSpec.demo_names.
  - split; [by compute|]. split; [by compute|]. intros j Hj. vm_compute in Hj. discriminate.
Qed.

Lemma demo_accepted reqs :
  view (demo_in reqs) = (concat (message_frame <$> reqs), StopEof) →
  accepted (WorkQueue.mkAccepted 7 "10.0.0.9") (demo_world ∅ (demo_in reqs))
    (mkSock (demo_in reqs) [] [] None None true) reqs StopEof.
Proof.
  intros Hv. split; [simpl; lia|]. split; [apply init_otel_wf|]. split; [apply reg_ok_empty|].
  split; [reflexivity|]. split; [reflexivity|]. split; [constructor|]. split; [reflexivity|].
  split; [vm_compute; reflexivity|exact Hv].
Qed.

(** The answers to the demo's commands, whenever they are handled. *)
Lemma demo_answers id ms node reg' :
  answers "" ∅ ((HEARTBEAT, id, "") :: requests (u32 (id + 1)) demo_cmds) ms node reg' →
  answers "" ∅ (requests (u32 (id + 1)) demo_cmds) ms node reg'.
Proof. intros Ha. by inversion Ha; subst. Qed.

Lemma answers_two node reg m1 m2 ms node' reg' :
  answers node reg [m1; m2] ms node' reg' →
  ∃ now, ms = option_list (answer m1 reg) ++
    option_list (answer m2 (ConnectionWorker.reg_after now (message_result m1) node reg)) ++ [].
Proof.
  intros Ha. inversion Ha as [|? ? ? ? now ms1 ? ? _ H1]; subst.
  inversion H1 as [|? ? ? ? now2 ms2 ? ? _ H2]; subst. inversion H2; subst. by exists now.
Qed.

Lemma demo_fits id ms node reg' :
  id = 0 ∨ id = 1 → answers "" ∅ (requests id demo_cmds) ms node reg' → Forall fits ms.
Proof.
  intros Hid Ha. destruct (answers_two _ _ _ _ _ _ _ Ha) as [now ->]. simpl option_list.
  destruct Hid as [-> | ->];
    (apply Forall_cons_2; [vm_compute; reflexivity|]; apply Forall_cons_2; [vm_compute; reflexivity|done]).
Qed.

Lemma client_server_session_witness :
  let a := WorkQueue.mkAccepted 7 "10.0.0.9" in
  let w := demo_world ∅ (demo_in demo_reqs) in
  let hello := ThreadPool.welcome_message SessionManager.init (sys_clock 0) in
  ∃ w' s' ms,
    ThreadPool.serve_socket 30 Logger.INFO a SessionManager.init w =
      (Ret (ThreadPool.sessions_after SessionManager.init), w') ∧
    w_socks w' !! 7 = Some s' ∧ sk_out s' = concat (message_frame <$> hello :: ms) ∧
    let p := Posix.demo_proc [Posix.Chunk (sk_out s')] [] in
    ∃ r rs p', commands 1 ((EOP_HEARTBEAT, "") :: demo_cmds) p = Posix.Done (r :: rs) p' ∧
      holds (Posix.p_heap p') r hello ∧ Forall2 (holds (Posix.p_heap p')) rs ms.
Proof.
  intros a w hello.
  destruct (client_server_session 30 Logger.INFO a SessionManager.init w
    (mkSock (demo_in demo_reqs) [] [] None None true) StopEof 0 demo_cmds)
    as (w' & s' & ms & node & reg' & now & H1 & H2 & H3 & _ & Hans & _ & _ & H4).
  - by compute.
  - apply demo_servable.
  - repeat constructor; vm_compute; congruence.
  - apply (demo_accepted demo_reqs). vm_compute. reflexivity.
  - exists w', s', ms. split; [exact H1|]. split; [exact H2|]. split; [exact H3|]. intros p.
    destruct (H4 1 p Posix.demo_client (Posix.demo_sock [Posix.Chunk (sk_out s')] [])
      [] EopClient.RecvTimeout []) as (r & rs & p' & c' & cs' & Ha & Hb & Hc & _); [reflexivity| | |].
    + constructor; [vm_compute; reflexivity|].
      exact (demo_fits 1 ms node reg' (or_intror eq_refl) (demo_answers 0 _ _ _ Hans)).
    + apply (demo_connected [Posix.Chunk (sk_out s')] []). constructor.
    + exists r, rs, p'. exact (conj Ha (conj Hb Hc)).
Defined.

Lemma undrained_witness :
  let a := WorkQueue.mkAccepted 7 "10.0.0.9" in
  let reqs := requests 0 ([(EOP_REGISTER, demo_register)] ++ [(EOP_LIST_NODES, "")]) in
  let w := demo_world ∅ (demo_in reqs) in
  let hello := ThreadPool.welcome_message SessionManager.init (sys_clock 0) in
  ∃ w' s' ms m,
    ThreadPool.serve_socket 30 Logger.INFO a SessionManager.init w =
      (Ret (ThreadPool.sessions_after SessionManager.init), w') ∧
    w_socks w' !! 7 = Some s' ∧ (λ m, m.1.2) <$> ms ++ [m] = [0; 1] ∧
    let p := Posix.demo_proc [Posix.Chunk (sk_out s')] [] in
    ∃ r rs p', commands 1 demo_cmds p = Posix.Done (r :: rs) p' ∧
      holds (Posix.p_heap p') r hello ∧ Forall2 (holds (Posix.p_heap p')) rs ms.
Proof.
  intros a reqs w hello.
  destruct (undrained_responses_shift 30 Logger.INFO a SessionManager.init w
    (mkSock (demo_in reqs) [] [] None None true) StopEof 0 [(EOP_REGISTER, demo_register)]
    (EOP_LIST_NODES, "")) as (w' & s' & ms & m & H1 & H2 & H3 & (node & reg' & Hans) & H4 & H5).
  - by compute.
  - apply demo_servable.
  - repeat constructor; vm_compute; congruence.
  - apply (demo_accepted reqs). vm_compute. reflexivity.
  - exists w', s', ms, m. split; [exact H1|]. split; [exact H2|]. split; [exact H4|]. intros p.
    destruct (H5 1 p Posix.demo_client (Posix.demo_sock [Posix.Chunk (sk_out s')] [])
      [] EopClient.RecvTimeout []) as (r & rs & p' & c' & cs' & Ha & Hb & Hc & _); [reflexivity| | |].
    + constructor; [vm_compute; reflexivity|].
      exact (demo_fits 0 (ms ++ [m]) node reg' (or_introl eq_refl) Hans).
    + apply (demo_connected [Posix.Chunk (sk_out s')] []). constructor.
    + exists r, rs, p'. exact (conj Ha (conj Hb Hc)).
Defined.
End witnesses.

End Interop.
