(* ===== verification/ConnectBasic.v ===== *)
(** * The example program [connect_basic]

    Models [client/examples/connect_basic.c]: connect, drain the greeting,
    register a node, query it, disconnect. *)

From S2P Require Import Prelude Net Otel Serializer Envelope Posix Client ClientLogic ClientSpec.
From S2P Require Import ClientConn ClientOwn ClientSession Stdio.
Local Open Scope Z_scope.

Module ConnectBasic.
Import EopEnvelope Posix EopClient Stdio.

Definition DEFAULT_HOST : string := "127.0.0.1".
Definition DEFAULT_PORT : Z := 9026.
Definition DEFAULT_TIMEOUT_MS : Z := 5000.
Definition DEMO_NODE_ID : string := "vault-demo-01".
Definition DEMO_BUNKER_NAME : string := "Vault 101".
Definition DEMO_IP_ADDRESS : string := "10.0.0.1".
Definition DEMO_CAPACITY : Z := 250.
Definition REGISTER_PAYLOAD_SIZE : nat := 256.
Definition QUERY_PAYLOAD_SIZE : nat := 64.
Definition ERROR_MSG_SIZE : Z := 256.
Definition STATUS_BUF_SIZE : nat := 32.

Section program.
Context `{Junk}.

(** ** Helpers *)

(** The address of a NUL-terminated copy of the payload, or null. *)
Definition payload_to_cstr (resp : Z) : C Z :=
  if resp =? NULL then mret NULL
  else
  r ← load_response resp;
  if (payload_len r =? 0) || (payload r =? NULL) then mret NULL
  else
  terminated_copy r.

(** What is written to [dst], or [None] when the field is not found. *)
Definition extract_json_string (json key : string) (dst_size : nat) : option string :=
  let search := (snprintf 64 (quoted key +:+ ":" +:+ dquote)).1 in
  match Otel.find_split (bytes_of_string search) (bytes_of_string json) with
  | None => None
  | Some (_, pos) =>
      match Otel.find_split [x22] pos with
      | None => None
      | Some (value, _) =>
          let len := if (dst_size <=? length value)%nat then (dst_size - 1)%nat else length value in
          Some (string_of_bytes (take len value))
      end
  end.

(** A member of a JSON text in the compact form the extractor looks for. *)
Definition member_key (key : string) : list byte := bytes_of_string (quoted key +:+ ":" +:+ dquote).

(** The first member [key] of [text] is the string [value]. *)
Definition first_member (text key value : string) : Prop :=
  ∃ pre post, bytes_of_string text = pre ++ member_key key ++ bytes_of_string value ++ x22 :: post ∧
    ∀ pre' post', bytes_of_string text = pre' ++ member_key key ++ post' → (length pre ≤ length pre')%nat.

Lemma first_member_found text key value pre post :
  Otel.find_split (member_key key) (bytes_of_string text) = Some (pre, bytes_of_string value ++ x22 :: post) →
  first_member text key value.
Proof. intros Hf%Otel.find_split_some. by exists pre, post. Qed.

(** The extractor returns that value when it fits. *)
Lemma extract_first_member text key value n :
  first_member text key value → x22 ∉ bytes_of_string value →
  (snprintf 64 (quoted key +:+ ":" +:+ dquote)).1 = quoted key +:+ ":" +:+ dquote →
  (length (bytes_of_string value) < n)%nat →
  extract_json_string text key n = Some value.
Proof.
  intros (pre & post & Et & Hl) Hq Hk Hn. unfold extract_json_string. rewrite Hk.
  change (bytes_of_string _) with (member_key key) at 1. rewrite Et, Otel.find_split_least.
  2: { intros l' r' E. apply (Hl l' r'). congruence. }
  change (x22 :: post) with ([x22] ++ post). rewrite Otel.find_split_first by done.
  rewrite (proj2 (Nat.leb_gt _ _)) by done. by rewrite firstn_all, string_of_bytes_of_string.
Qed.

(** ** [main], section by section *)

(** The error exit of the register and query sections. *)
Definition report_failure (tag : string) (client resp : Z) : C Z :=
  body ← payload_to_cstr resp;
  type ← (if resp =? NULL then mret 255 else r ← load_response resp; mret (msg_type r));
  text ← (if body =? NULL then mret "(none)" else text_at body);
  eprintf (tag +:+ " FAILED — type=0x" +:+ hex02 type +:+ " payload=" +:+ text +:+ newline);;
  free body;;
  eop_response_free resp;;
  eop_disconnect client;;
  mret EXIT_FAILURE.

(** Whether a response is missing or not an ACK. *)
Definition not_ack (resp : Z) : C bool :=
  if resp =? NULL then mret true
  else r ← load_response resp; mret (negb (msg_type r =? EOP_ACK)).

Definition query_text : string :=
  "{" +:+ quoted "node_id" +:+ ":" +:+ quoted DEMO_NODE_ID +:+ "}".

(** Sections 4 and 5: query, disconnect. *)
Definition query_node (client : Z) : C Z :=
  let query_payload := (snprintf QUERY_PAYLOAD_SIZE query_text).1 in
  resp ← eop_send_command client EOP_QUERY_NODE (Some (bytes_of_string query_payload))
           (str_size query_payload);
  bad ← not_ack resp;
  if (bad : bool) then report_failure "[query]   " client resp
  else
  body ← payload_to_cstr resp;
  status ← (if body =? NULL then mret ""
            else text ← text_at body;
                 mret (default "" (extract_json_string text "status" STATUS_BUF_SIZE)));
  printf ("[query]      OK   node_id=" +:+ DEMO_NODE_ID +:+ " status=" +:+ status +:+ newline);;
  free body;;
  eop_response_free resp;;
  eop_disconnect client;;
  printf ("[disconnect] OK" +:+ newline);;
  mret EXIT_SUCCESS.

Definition register_text : string :=
  "{" +:+ quoted "node_id" +:+ ":" +:+ quoted DEMO_NODE_ID +:+ ","
      +:+ quoted "bunker_name" +:+ ":" +:+ quoted DEMO_BUNKER_NAME +:+ ","
      +:+ quoted "ip_address" +:+ ":" +:+ quoted DEMO_IP_ADDRESS +:+ ","
      +:+ quoted "capacity" +:+ ":" +:+ to_string DEMO_CAPACITY +:+ "}".

(** Section 3: register. *)
Definition register_node (client : Z) : C Z :=
  let reg_payload := (snprintf REGISTER_PAYLOAD_SIZE register_text).1 in
  resp ← eop_send_command client EOP_REGISTER (Some (bytes_of_string reg_payload))
           (str_size reg_payload);
  bad ← not_ack resp;
  if (bad : bool) then report_failure "[register]" client resp
  else
  printf ("[register]   OK   node_id=" +:+ DEMO_NODE_ID +:+ newline);;
  eop_response_free resp;;
  query_node client.

(** Section 2: drain the greeting. *)
Definition drain_welcome (client : Z) : C Z :=
  welcome ← eop_send_command client EOP_HEARTBEAT None 0;
  if welcome =? NULL then
    eprintf ("[welcome] FAILED — could not drain welcome frame" +:+ newline);;
    eop_disconnect client;;
    mret EXIT_FAILURE
  else
  r ← load_response welcome;
  printf ("[welcome]    OK   type=0x" +:+ hex02 (msg_type r) +:+ newline);;
  eop_response_free welcome;;
  register_node client.

(** Section 1 and the whole program; [argv] without the program's name. *)
Definition main (argv : list string) : C Z :=
  let host_ := match argv with h :: _ => h | [] => DEFAULT_HOST end in
  let port_ := match argv with _ :: p :: _ => atoi p | _ => DEFAULT_PORT end in
  client ← eop_connect (Some host_) port_ DEFAULT_TIMEOUT_MS;
  if client =? NULL then
    '(_, msg) ← eop_last_error NULL (Some ERROR_MSG_SIZE);
    eprintf ("[connect] FAILED — " +:+ default "" msg +:+ newline);;
    mret EXIT_FAILURE
  else
  printf ("[connect]    OK   host=" +:+ host_ +:+ " port=" +:+ to_string port_ +:+ newline);;
  drain_welcome client.

(** ** The program gives back what it takes *)

Import ClientLogic ClientSpec ClientConn ClientOwn.

Lemma payload_to_cstr_owns E h0 k0 client r q data p :
  response_at r q data h0 → owns (with_response r q data h0) k0 client p →
  wp E (payload_to_cstr r) p (λ b p', calm client p p' ∧
    ((b = NULL ∧ (p_mem p ≠ [] ∨ data = []) ∧ owns (with_response r q data h0) k0 client p') ∨
     (b ≠ NULL ∧ with_response r q data h0 !! b = None ∧
      owns (<[b := BBytes (data ++ [x00])]> (with_response r q data h0)) k0 client p'))).
Proof.
  intros Hat Hown. pose proof (with_response_lookup _ _ _ _ Hat) as [Hr Hpl].
  destruct Hat as (Hrn & _ & Hlen & _). unfold payload_to_cstr.
  rewrite (proj2 (Z.eqb_neq r NULL)) by done.
  apply wp_bind. eapply wp_load_response; [by eapply owns_lookup|].
  destruct Hpl as [[Hz _]|(Hpos & Hpn & Hdat)].
  { rewrite Hz. apply wp_ret. split; [apply calm_refl|]. left. split_and!; [done| |done].
    right. apply nil_length_inv. lia. }
  rewrite !(proj2 (Z.eqb_neq _ _)) by lia. cbn [orb].
  eapply wp_mono; [by apply terminated_copy_owns|].
  intros b p1 [Hst [(-> & Hnil & Ho1)|Hb]]; (split; [done|]); [left|by right].
  by split_and!; [|left|].
Qed.

(** The error exit, with or without a response. *)
Lemma report_failure_balanced tag h0 k0 client resp p :
  (resp = NULL ∧ owns h0 k0 client p) ∨
  (∃ q data, response_at resp q data h0 ∧ owns (with_response resp q data h0) k0 client p) →
  wp only_sigpipe (report_failure tag client resp) p
    (λ code p', code = EXIT_FAILURE ∧ balanced h0 k0 p').
Proof.
  intros [[-> Hown]|(q & data & Hat & Hown)]; unfold report_failure.
  - apply wp_bind, wp_ret. apply wp_bind, wp_ret. apply wp_bind, wp_ret.
    apply wp_bind, wp_modify. apply wp_bind, wp_free_null. apply wp_bind, wp_ret.
    apply wp_bind. eapply wp_mono.
    { eapply owns_disconnect, owns_ext; [exact Hown|done..]. }
    intros _ p' (_ & Hh & Hs). by apply wp_ret.
  - pose proof (with_response_lookup _ _ _ _ Hat) as [Hr _]. pose proof Hat as [Hn _].
    apply wp_bind. eapply wp_mono; [by eapply payload_to_cstr_owns|].
    intros b p1 [_ Hb]. rewrite (proj2 (Z.eqb_neq resp NULL)) by done.
    assert (p_heap p1 !! resp = Some (BResponse q)) as Hr1.
    { destruct Hb as [(_ & _ & Ho)|(_ & Hbn & Ho)]; eapply owns_lookup; eauto.
      rewrite lookup_insert_ne by congruence. done. }
    apply wp_bind, wp_bind. eapply wp_load_response; [done|]. apply wp_ret.
    destruct Hb as [(-> & _ & Ho)|(Hbne & Hbn & Ho)].
    + apply wp_bind, wp_ret. apply wp_bind, wp_modify. apply wp_bind, wp_free_null.
      apply wp_bind. eapply wp_mono.
      { eapply owns_response_free; [|done]. eapply owns_ext; [exact Ho|done..]. }
      intros _ p2 [_ Ho2]. apply wp_bind. eapply wp_mono; [by eapply owns_disconnect|].
      intros _ p' (_ & Hh & Hs). by apply wp_ret.
    + rewrite (proj2 (Z.eqb_neq b NULL)) by done. apply wp_bind, wp_bind.
      eapply wp_load_bytes; [eapply owns_lookup; [exact Ho|apply lookup_insert_eq]|]. apply wp_ret.
      apply wp_bind, wp_modify. apply wp_bind. eapply wp_mono.
      { eapply owns_free; [|done|done]. eapply owns_ext; [exact Ho|done..]. }
      intros _ p2 [_ Ho2]. apply wp_bind. eapply wp_mono; [by eapply owns_response_free|].
      intros _ p3 [_ Ho3]. apply wp_bind. eapply wp_mono; [by eapply owns_disconnect|].
      intros _ p' (_ & Hh & Hs). by apply wp_ret.
Qed.

(** The outcome of a command, as the sections of [main] see it. *)
Definition got (h0 : gmap Z block) (k0 : gmap Z csock) (client resp : Z) (p : proc) : Prop :=
  (resp = NULL ∧ owns h0 k0 client p) ∨
  (∃ q data, response_at resp q data h0 ∧ owns (with_response resp q data h0) k0 client p).

(** A command and the test of its response: the error exit, or a response. *)
Lemma checked_balanced tag h0 k0 client t payload_ p (k : Z → C Z) :
  owns h0 k0 client p → str_size payload_ < 2 ^ 32 - 14 →
  (∀ resp q data p', response_at resp q data h0 →
     owns (with_response resp q data h0) k0 client p' →
     wp only_sigpipe (k resp) p' (λ code p', exit_code code ∧ balanced h0 k0 p')) →
  wp only_sigpipe
    (resp ← eop_send_command client t (Some (bytes_of_string payload_)) (str_size payload_);
     bad ← not_ack resp;
     if (bad : bool) then report_failure tag client resp else k resp) p
    (λ code p', exit_code code ∧ balanced h0 k0 p').
Proof.
  intros Hown Hl Hk. apply wp_bind. eapply wp_mono.
  { apply (owns_send h0 k0 client t _ (bytes_of_string payload_)); [done|by left|done]. }
  intros resp p1 [_ Hres].
  assert (wp only_sigpipe (report_failure tag client resp) p1
    (λ code p', exit_code code ∧ balanced h0 k0 p')) as Hbad.
  { eapply wp_mono; [by eapply report_failure_balanced|]. intros code p' [-> Hb]. split; [by right|done]. }
  apply wp_bind. unfold not_ack. destruct Hres as [[-> Ho]|(q & data & Hat & Ho)]; [done|].
  pose proof (with_response_lookup _ _ _ _ Hat) as [Hr _].
  rewrite (proj2 (Z.eqb_neq resp NULL)) by apply Hat.
  apply wp_bind. eapply wp_load_response; [by eapply owns_lookup|]. apply wp_ret.
  destruct (negb _); [done|by eapply Hk].
Qed.

Lemma query_node_balanced h0 k0 client p :
  owns h0 k0 client p →
  wp only_sigpipe (query_node client) p (λ code p', exit_code code ∧ balanced h0 k0 p').
Proof.
  intros Hown. unfold query_node. eapply checked_balanced; [done|by compute|].
  intros resp q data p1 Hat Ho1.
  apply wp_bind. eapply wp_mono; [by eapply payload_to_cstr_owns|].
  intros b p2 [_ Hb].
  assert (∀ p3, owns (with_response resp q data h0) k0 client p3 →
    wp only_sigpipe (eop_response_free resp;; eop_disconnect client;;
      printf ("[disconnect] OK" +:+ newline);; mret EXIT_SUCCESS) p3
      (λ code p', exit_code code ∧ balanced h0 k0 p')) as Hend.
  { intros p3 Ho3. apply wp_bind. eapply wp_mono; [by eapply owns_response_free|].
    intros _ p4 [_ Ho4]. apply wp_bind. eapply wp_mono; [by eapply owns_disconnect|].
    intros _ p5 (_ & Hh & Hs). apply wp_bind, wp_modify, wp_ret. split; [by left|done]. }
  destruct Hb as [(-> & _ & Ho)|(Hbne & Hbn & Ho)].
  - apply wp_bind, wp_ret. apply wp_bind, wp_modify. apply wp_bind, wp_free_null.
    apply Hend. eapply owns_ext; [exact Ho|done..].
  - rewrite (proj2 (Z.eqb_neq b NULL)) by done. apply wp_bind, wp_bind, wp_bind.
    eapply wp_load_bytes; [eapply owns_lookup; [exact Ho|apply lookup_insert_eq]|].
    apply wp_ret, wp_ret. apply wp_bind, wp_modify. apply wp_bind. eapply wp_mono.
    { eapply owns_free; [|done|done]. eapply owns_ext; [exact Ho|done..]. }
    intros _ p3 [_ Ho3]. by apply Hend.
Qed.

Lemma register_node_balanced h0 k0 client p :
  owns h0 k0 client p →
  wp only_sigpipe (register_node client) p (λ code p', exit_code code ∧ balanced h0 k0 p').
Proof.
  intros Hown. unfold register_node. eapply checked_balanced; [done|by compute|].
  intros resp q data p1 Hat Ho1. apply wp_bind, wp_modify. apply wp_bind. eapply wp_mono.
  { eapply owns_response_free; [|done]. eapply owns_ext; [exact Ho1|done..]. }
  intros _ p2 [_ Ho2]. by apply query_node_balanced.
Qed.

Lemma drain_welcome_balanced h0 k0 client p :
  owns h0 k0 client p →
  wp only_sigpipe (drain_welcome client) p (λ code p', exit_code code ∧ balanced h0 k0 p').
Proof.
  intros Hown. unfold drain_welcome. apply wp_bind. eapply wp_mono.
  { apply (owns_send h0 k0 client EOP_HEARTBEAT None []); [done|by right|done]. }
  intros resp p1 [_ [[-> Ho]|(q & data & Hat & Ho)]].
  - apply wp_bind, wp_modify. apply wp_bind. eapply wp_mono.
    { eapply owns_disconnect, owns_ext; [exact Ho|done..]. }
    intros _ p2 (_ & Hh & Hs). apply wp_ret. split; [by right|done].
  - pose proof (with_response_lookup _ _ _ _ Hat) as [Hr _].
    rewrite (proj2 (Z.eqb_neq resp NULL)) by apply Hat.
    apply wp_bind. eapply wp_load_response; [by eapply owns_lookup|].
    apply wp_bind, wp_modify. apply wp_bind. eapply wp_mono.
    { eapply owns_response_free; [|done]. eapply owns_ext; [exact Ho|done..]. }
    intros _ p2 [_ Ho2]. by apply register_node_balanced.
Qed.

End program.

Import ClientLogic ClientSpec ClientConn ClientOwn.

(** The example gives back everything it takes: with any arguments and
    whatever the network, the server and the allocator do, it exits with
    success or failure (or dies of SIGPIPE), and when it exits the heap and
    the descriptor table are as they were when it started. *)
Theorem connect_basic_balanced `{Junk} argv p :
  heap_ok p →
  wp only_sigpipe (main argv) p
    (λ code p', exit_code code ∧ balanced (p_heap p) (p_socks p) p').
Proof.
  intros Ho. unfold main. apply wp_bind. eapply wp_mono; [by apply owns_connect|].
  intros client p1 [_ [(-> & _ & Hh & Hs)|Hown]].
  - apply wp_bind, last_error_null. apply wp_bind, wp_modify, wp_ret. split; [by right|done].
  - rewrite (proj2 (Z.eqb_neq client NULL)) by apply Hown. apply wp_bind, wp_modify.
    apply drain_welcome_balanced. eapply owns_ext; [exact Hown|done..].
Qed.

Lemma connect_basic_witness :
  wp only_sigpipe (main (H := zero_junk) []) (start [])
    (λ code p', exit_code code ∧ balanced ∅ ∅ p').
Proof. apply (connect_basic_balanced (H := zero_junk) [] (start [])). by split. Defined.

End ConnectBasic.
