(* ===== verification/ConnectSession.v ===== *)
(** * The example program [connect_basic] against a server

    What [main] does when the other side has a greeting, an acknowledgement
    of the registration and an answer to the query for it. *)

From S2P Require Import Prelude Net Otel Serializer Envelope Posix Client ClientLogic ClientSpec.
From S2P Require Import ClientConn ClientOwn ClientSession Stdio ConnectBasic.
Local Open Scope Z_scope.

Module ConnectSession.
Import MessageSerializer EopEnvelope Posix EopClient Stdio ClientLogic ClientSpec ClientConn ClientOwn.
Import ClientSession ConnectBasic.

Section run.
Context `{Junk}.

(** A command for which a frame arrives. *)
Lemma answered h0 k0 client p c s t payload_ m av f rest (Q : Z → proc → Prop) :
  owns h0 k0 client p → connected client p c s (message_frame m ++ av, f, rest) →
  command_ok (t, payload_) → in_width 32 (next_msg_id c) → reply_ok m →
  (∀ r q p' c' s',
    response_at r q (bytes_of_string m.2) h0 →
    owns (with_response r q (bytes_of_string m.2) h0) k0 client p' →
    msg_type q = byte_val (type_byte m.1.1) →
    connected client p' c' s' (av, f, rest) →
    next_msg_id c' = u32 (next_msg_id c + 1) →
    cs_out s' = cs_out s ++ message_frame (wire_type t, next_msg_id c, payload_) →
    p_stdout p' = p_stdout p → p_closed p' = p_closed p → Q r p') →
  wp no_fault (eop_send_command client t (payload_ptr payload_) (str_size payload_)) p Q.
Proof.
  intros Hown Hcon Hcmd Hid [Hm1 Hm2] HQ.
  destruct (command_step client p c s t payload_ m av f rest Hcon Hcmd Hid Hm1 Hm2)
    as (r & p' & c' & s' & Hrun & Hcon' & Hh & _ & _ & Hid' & _ & _ & Hout).
  pose proof (owns_send h0 k0 client t (payload_ptr payload_) (bytes_of_string payload_) p Hown
    (payload_ptr_points _) (proj2 Hcmd)) as HW.
  fold (str_size payload_) in HW. unfold wp in *. rewrite Hrun in *.
  destruct HW as [[(_ & Hso & _) Hcl] [[-> _]|(q & data & Hat & Ho)]].
  { destruct m as [[? ?] ?]. by destruct Hh. }
  pose proof (with_response_lookup _ _ _ _ Hat) as [Hr Hpl].
  apply (owns_lookup _ _ _ _ _ _ Ho) in Hr. destruct m as [[mt mid] ms].
  destruct Hh as (_ & a & Hq & Ha). rewrite Hr in Hq. injection Hq as ->. simpl in Hpl.
  assert (data = bytes_of_string ms) as ->.
  { destruct Hat as (_ & _ & Hlen & _). simpl in Hlen. unfold str_size in Hlen.
    destruct ms as [|x ms]; [simpl in Hlen; apply nil_length_inv; lia|].
    destruct Hpl as [[Hz _]|(_ & _ & Hpl)]; [unfold str_size in Hz; simpl in Hz; lia|].
    apply (owns_lookup _ _ _ _ _ _ Ho) in Hpl. simpl in Ha. rewrite Ha in Hpl. by injection Hpl. }
  by eapply HQ.
Qed.

Lemma connected_kept client p p' c s tr :
  p_heap p' !! client = p_heap p !! client → p_socks p' = p_socks p →
  (p_mem p = [] → p_mem p' = []) → heap_ok p' →
  connected client p c s tr → connected client p' c s tr.
Proof.
  intros Hh Hs Hm Ho (_ & ? & Hc & ? & Hk & ? & ? & Hmem).
  split_and!; try done; [by rewrite Hh|by rewrite Hs|auto].
Qed.

(** What [main] prints at the end, from the body of the query's answer. *)
Definition status_of (body : string) : string :=
  default "" (extract_json_string (cstr (bytes_of_string body)) "status" STATUS_BUF_SIZE).

(** A process whose next connection attempt succeeds, on a connection that
    takes everything that is sent. *)
Definition welcoming (at_ : attempt) (p : proc) : Prop :=
  heap_ok p ∧ p_mem p = [] ∧ head (p_net p) = Some at_ ∧ at_socket at_ ≠ None ∧
  handshake at_ = inr at_ ∧ sends_ok (at_snd at_).

(** Connecting: a new handle with the socket of the attempt. *)
Lemma connects E host_ ip port_ tm p at_ (Q : Z → proc → Prop) :
  welcoming at_ p → inet_pton host_ = Some ip → 1 ≤ port_ ≤ 65535 →
  (∀ r p' c s, owns (p_heap p) (p_socks p) r p' →
     connected r p' c s (stream (at_in at_)) → next_msg_id c = 0 → cs_out s = [] →
     streams p p' → p_closed p' = p_closed p → Q r p') →
  wp E (eop_connect (Some host_) port_ tm) p Q.
Proof.
  intros (Ho & Hmem & Hnet & Hat & Hhs & Hsnd) Hip Hport HQ.
  eapply wp_mono; [by apply connect_spec|].
  intros r p' ((_ & Hst) & Ho' & [k Hk] & _ & Hv).
  assert (connect_verdict (Some host_) port_ p = Established at_) as Hcv.
  { unfold connect_verdict, TCP_PORT_MIN_VALUE, TCP_PORT_MAX_VALUE.
    rewrite !(proj2 (Z.ltb_ge _ _)) by lia. rewrite Hmem, Hip. cbn [orb negb alloc_ok].
    rewrite bool_decide_false by done. unfold dial. destruct (p_net p); [done|].
    simplify_eq/=. by rewrite bool_decide_false, Hhs. }
  rewrite Hcv in Hv. destruct Hv as (h & ip' & fd & Hh & _ & _ & Hfd & Hr & Hrn & Hheap & Hs & Hcl & _).
  set (c := mkClient _ _ _ _ _ _ _ _) in *.
  assert (p_heap p' !! r = Some (BClient c)) by (rewrite Hheap; apply lookup_insert_eq).
  assert (p_socks p' !! fd = Some (established at_ ip' port_)) by (rewrite Hs; apply lookup_insert_eq).
  apply (HQ r p' c (established at_ ip' port_)); try done.
  - split_and!; try done. by eexists _, _.
  - split_and!; try done. by rewrite Hk, Hmem, drop_nil.
Qed.

Lemma undisturbed_connected h0 k0 client p p' c s tr :
  undisturbed client p p' → owns h0 k0 client p' →
  connected client p c s tr → connected client p' c s tr.
Proof. intros (_ & ? & ? & _ & ?) [? _]. by apply connected_kept. Qed.

(** The end of the program: the response and the handle are given back. *)
Lemma farewell h0 k0 client r q data p c s tr (Q : Z → proc → Prop) :
  response_at r q data h0 → owns (with_response r q data h0) k0 client p →
  connected client p c s tr →
  (∀ p', balanced h0 k0 p' →
     p_stdout p' = p_stdout p ++ ["[disconnect] OK" +:+ newline] →
     p_closed p' = p_closed p ++ [set_shut true s] → Q EXIT_SUCCESS p') →
  wp no_fault (eop_response_free r;; eop_disconnect client;;
    printf ("[disconnect] OK" +:+ newline);; mret EXIT_SUCCESS) p Q.
Proof.
  intros Hat Hown Hcon HQ. apply wp_bind. eapply wp_mono; [by eapply owns_response_free|].
  intros _ p1 [Hcalm Ho1]. pose proof Hcalm as ((_ & Hso & _) & _ & _ & Hcl & _).
  eapply undisturbed_connected in Hcon as (_ & Hn & Hc & Hmu & Hs & _);
    [|by apply calm_undisturbed|done].
  apply wp_bind. eapply disconnect_spec; [done|exact Hc|done|].
  apply wp_bind, wp_modify, wp_ret. apply HQ; simpl.
  - destruct Ho1 as (_ & _ & Hcn & c' & s' & Hh' & _ & Hk' & Hs').
    rewrite Hh', lookup_insert_eq in Hc. simplify_eq. split; simpl.
    + by rewrite Hh', delete_insert_id.
    + by rewrite Hs', delete_insert_id.
  - by rewrite Hso.
  - unfold shut_down. rewrite Hs. congruence.
Qed.

(** A command answered by a frame, past the test of its response. *)
Lemma acknowledged tag h0 k0 client p c s t payload_ i body av f rest (k : Z → C Z) (Q : Z → proc → Prop) :
  owns h0 k0 client p → connected client p c s (message_frame (ACK, i, body) ++ av, f, rest) →
  payload_ ≠ EmptyString → command_ok (t, payload_) → in_width 32 (next_msg_id c) →
  reply_ok (ACK, i, body) →
  (∀ r q p' c' s',
    response_at r q (bytes_of_string body) h0 →
    owns (with_response r q (bytes_of_string body) h0) k0 client p' →
    connected client p' c' s' (av, f, rest) →
    next_msg_id c' = u32 (next_msg_id c + 1) →
    cs_out s' = cs_out s ++ message_frame (wire_type t, next_msg_id c, payload_) →
    p_stdout p' = p_stdout p → p_closed p' = p_closed p → wp no_fault (k r) p' Q) →
  wp no_fault
    (resp ← eop_send_command client t (Some (bytes_of_string payload_)) (str_size payload_);
     bad ← not_ack resp;
     if (bad : bool) then report_failure tag client resp else k resp) p Q.
Proof.
  intros Hown Hcon Hne Hcmd Hid Hrep Hk. apply wp_bind.
  replace (Some (bytes_of_string payload_)) with (payload_ptr payload_) by (by destruct payload_).
  eapply answered; [exact Hown|exact Hcon|done..|].
  intros r q p1 c1 s1 Hat Ho1 Hty Hcon1 Hid1 Hout Hso Hcl. simpl in Hat, Ho1, Hty.
  pose proof (with_response_lookup _ _ _ _ Hat) as [Hr _].
  unfold not_ack. rewrite (proj2 (Z.eqb_neq r NULL)) by apply Hat.
  apply wp_bind, wp_bind. eapply wp_load_response; [by eapply owns_lookup|]. apply wp_ret.
  rewrite Hty. change (byte_val (type_byte ACK) =? EOP_ACK) with true. cbn [negb].
  by eapply Hk.
Qed.

Definition query_line (body : string) : string :=
  "[query]      OK   node_id=" +:+ DEMO_NODE_ID +:+ " status=" +:+ status_of body +:+ newline.

(** The last section. *)
Lemma query_node_runs h0 k0 client p c s i body av f rest (Q : Z → proc → Prop) :
  owns h0 k0 client p → connected client p c s (message_frame (ACK, i, body) ++ av, f, rest) →
  in_width 32 (next_msg_id c) → reply_ok (ACK, i, body) →
  (∀ p' s', balanced h0 k0 p' →
     p_stdout p' = p_stdout p ++ [query_line body; "[disconnect] OK" +:+ newline] →
     p_closed p' = p_closed p ++ [s'] → cs_shut s' = true →
     cs_out s' = cs_out s ++ message_frame (QUERY_NODE, next_msg_id c, query_text) →
     Q EXIT_SUCCESS p') →
  wp no_fault (query_node client) p Q.
Proof.
  intros Hown Hcon Hid Hrep HQ. unfold query_node.
  change (snprintf QUERY_PAYLOAD_SIZE query_text).1 with query_text.
  eapply acknowledged; [exact Hown|exact Hcon|done|by split; compute|done|done|].
  intros r q p1 c1 s1 Hat Ho1 Hcon1 _ Hout Hso Hcl.
  apply wp_bind. eapply wp_mono; [by eapply payload_to_cstr_owns|].
  intros b p2 [Hcalm Hb]. pose proof Hcalm as ((_ & Hso2 & _) & _ & _ & Hcl2 & _).
  assert (∀ p3, undisturbed client p2 p3 → p_stdout p3 = p_stdout p ++ [query_line body] →
    owns (with_response r q (bytes_of_string body) h0) k0 client p3 →
    wp no_fault (eop_response_free r;; eop_disconnect client;;
      printf ("[disconnect] OK" +:+ newline);; mret EXIT_SUCCESS) p3 Q) as Hend.
  { intros p3 Hu Hso3 Ho3. eapply undisturbed_trans in Hu as Hu'; [|by apply calm_undisturbed].
    eapply farewell; [done|exact Ho3|by eapply undisturbed_connected|].
    intros p' Hbal Hso' Hcl'. destruct Hu' as (_ & _ & _ & Hcl3 & _).
    apply (HQ _ (set_shut true s1)); [done| |congruence|done|exact Hout].
    by rewrite Hso', Hso3, <-app_assoc. }
  destruct Hb as [(-> & Hnil & Ho)|(Hbne & Hbn & Ho)].
  - assert (body = "") as ->.
    { destruct Hcon1 as (_ & _ & _ & _ & _ & _ & _ & Hmem). destruct Hnil as [?|Hb]; [done|].
      by destruct body. }
    apply wp_bind, wp_ret. apply wp_bind, wp_modify. apply wp_bind, wp_free_null.
    apply Hend; [done|simpl; by rewrite Hso2, Hso|]. eapply owns_ext; [exact Ho|done..].
  - rewrite (proj2 (Z.eqb_neq b NULL)) by done. apply wp_bind, wp_bind, wp_bind.
    eapply wp_load_bytes; [eapply owns_lookup; [exact Ho|apply lookup_insert_eq]|].
    apply wp_ret, wp_ret. rewrite cstr_terminated. apply wp_bind, wp_modify. apply wp_bind.
    eapply wp_mono.
    { eapply owns_free; [|done|done]. eapply owns_ext; [exact Ho|done..]. }
    intros _ p3 [Hc3 Ho3]. pose proof Hc3 as ((_ & Hso3 & _) & _).
    apply Hend; [exact (calm_undisturbed _ _ _ Hc3)| |exact Ho3].
    rewrite Hso3. simpl. rewrite Hso2, Hso. done.
Qed.

Definition register_line : string := "[register]   OK   node_id=" +:+ DEMO_NODE_ID +:+ newline.

Lemma register_node_runs h0 k0 client p c s i text j body av f rest (Q : Z → proc → Prop) :
  owns h0 k0 client p →
  connected client p c s (message_frame (ACK, i, text) ++ message_frame (ACK, j, body) ++ av, f, rest) →
  in_width 32 (next_msg_id c) → reply_ok (ACK, i, text) → reply_ok (ACK, j, body) →
  (∀ p' s', balanced h0 k0 p' →
     p_stdout p' = p_stdout p ++ [register_line; query_line body; "[disconnect] OK" +:+ newline] →
     p_closed p' = p_closed p ++ [s'] → cs_shut s' = true →
     cs_out s' = cs_out s ++ message_frame (REGISTER, next_msg_id c, register_text) ++
       message_frame (QUERY_NODE, u32 (next_msg_id c + 1), query_text) →
     Q EXIT_SUCCESS p') →
  wp no_fault (register_node client) p Q.
Proof.
  intros Hown Hcon Hid Hr1 Hr2 HQ. unfold register_node.
  change (snprintf REGISTER_PAYLOAD_SIZE register_text).1 with register_text.
  eapply acknowledged; [exact Hown|exact Hcon|done|by split; compute|done|done|].
  intros r q p1 c1 s1 Hat Ho1 Hcon1 Hid1 Hout Hso Hcl.
  apply wp_bind, wp_modify. apply wp_bind. eapply wp_mono.
  { eapply owns_response_free; [|done]. eapply owns_ext; [exact Ho1|done..]. }
  intros _ p2 [Hcalm Ho2]. pose proof Hcalm as ((_ & Hso2 & _) & _ & _ & Hcl2 & _).
  eapply query_node_runs; [exact Ho2| | |done|].
  - eapply undisturbed_connected; [exact (calm_undisturbed _ _ _ Hcalm)|exact Ho2|exact Hcon1].
  - rewrite Hid1. by apply wrap_range.
  - intros p' s' Hbal Hso' Hcl' Hsh Hout'. eapply HQ; [done| | |done|].
    + rewrite Hso', Hso2. simpl. rewrite Hso, <-app_assoc. done.
    + rewrite Hcl', Hcl2. simpl. by rewrite Hcl.
    + rewrite Hout', Hout, Hid1, <-app_assoc. done.
Qed.

Definition welcome_line (t : MessageType) : string :=
  "[welcome]    OK   type=0x" +:+ hex02 (byte_val (type_byte t)) +:+ newline.

(** The messages the program sends: the heartbeat that makes room for the
    greeting, the registration and the query. *)
Definition sent_messages : list message :=
  [(HEARTBEAT, 0, EmptyString); (REGISTER, 1, register_text); (QUERY_NODE, 2, query_text)].

Lemma drain_welcome_runs h0 k0 client p c s hello i text j body av f rest (Q : Z → proc → Prop) :
  owns h0 k0 client p →
  connected client p c s (message_frame hello ++ message_frame (ACK, i, text) ++
    message_frame (ACK, j, body) ++ av, f, rest) →
  next_msg_id c = 0 → reply_ok hello → reply_ok (ACK, i, text) → reply_ok (ACK, j, body) →
  (∀ p' s', balanced h0 k0 p' →
     p_stdout p' = p_stdout p ++ [welcome_line hello.1.1; register_line; query_line body;
       "[disconnect] OK" +:+ newline] →
     p_closed p' = p_closed p ++ [s'] → cs_shut s' = true →
     cs_out s' = cs_out s ++ concat (message_frame <$> sent_messages) →
     Q EXIT_SUCCESS p') →
  wp no_fault (drain_welcome client) p Q.
Proof.
  intros Hown Hcon Hid Hr0 Hr1 Hr2 HQ. unfold drain_welcome.
  change (@None (list byte)) with (payload_ptr EmptyString).
  change 0 with (str_size EmptyString) at 1.
  apply wp_bind. eapply answered; [exact Hown|exact Hcon|by split; compute|by rewrite Hid|done|].
  intros r q p1 c1 s1 Hat Ho1 Hty Hcon1 Hid1 Hout Hso Hcl.
  pose proof (with_response_lookup _ _ _ _ Hat) as [Hr _].
  rewrite (proj2 (Z.eqb_neq r NULL)) by apply Hat.
  apply wp_bind. eapply wp_load_response; [by eapply owns_lookup|]. rewrite Hty.
  apply wp_bind, wp_modify. apply wp_bind. eapply wp_mono.
  { eapply owns_response_free; [|done]. eapply owns_ext; [exact Ho1|done..]. }
  intros _ p2 [Hcalm Ho2]. pose proof Hcalm as ((_ & Hso2 & _) & _ & _ & Hcl2 & _).
  rewrite Hid in Hid1, Hout.
  eapply (register_node_runs _ _ _ _ c1 s1 i text j body); [exact Ho2| |by rewrite Hid1|done|done|].
  - eapply undisturbed_connected; [exact (calm_undisturbed _ _ _ Hcalm)|exact Ho2|exact Hcon1].
  - intros p' s' Hbal Hso' Hcl' Hsh Hout'. eapply HQ; [done| | |done|].
    + rewrite Hso', Hso2. simpl. rewrite Hso, <-app_assoc. done.
    + rewrite Hcl', Hcl2. simpl. by rewrite Hcl.
    + rewrite Hout', Hout, Hid1, <-app_assoc. reflexivity.
Qed.

End run.

Lemma connect_basic_runs `{Junk} p at_ hello i text j body av f rest :
  welcoming at_ p →
  stream (at_in at_) =
    (message_frame hello ++ message_frame (ACK, i, text) ++ message_frame (ACK, j, body) ++ av, f, rest) →
  reply_ok hello → reply_ok (ACK, i, text) → reply_ok (ACK, j, body) →
  ∃ p' s,
    main [] p = Done EXIT_SUCCESS p' ∧ balanced (p_heap p) (p_socks p) p' ∧
    p_stdout p' = p_stdout p ++
      ["[connect]    OK   host=127.0.0.1 port=9026" +:+ newline; welcome_line hello.1.1;
       register_line; query_line body; "[disconnect] OK" +:+ newline] ∧
    p_closed p' = p_closed p ++ [s] ∧ cs_shut s = true ∧
    cs_out s = concat (message_frame <$> sent_messages).
Proof.
  intros Hwel Hst Hr0 Hr1 Hr2.
  destruct (wp_run (main []) p (λ code p', code = EXIT_SUCCESS ∧ ∃ s,
    balanced (p_heap p) (p_socks p) p' ∧
    p_stdout p' = p_stdout p ++
      ["[connect]    OK   host=127.0.0.1 port=9026" +:+ newline; welcome_line hello.1.1;
       register_line; query_line body; "[disconnect] OK" +:+ newline] ∧
    p_closed p' = p_closed p ++ [s] ∧ cs_shut s = true ∧
    cs_out s = concat (message_frame <$> sent_messages))) as (code & p' & Hrun & -> & s & ?).
  2: { by exists p', s. }
  unfold main. apply wp_bind. eapply connects; [exact Hwel|reflexivity|by compute|].
  intros r p1 c s Ho1 Hcon Hid Hout (_ & Hso & _) Hcl. rewrite (proj2 (Z.eqb_neq r NULL)) by apply Ho1.
  rewrite Hst in Hcon. apply wp_bind, wp_modify.
  eapply (drain_welcome_runs _ _ _ _ c s hello i text j body); [| |done..|].
  - eapply owns_ext; [exact Ho1|done..].
  - exact Hcon.
  - intros p' s' Hbal Hso' Hcl' Hsh Hout'. split; [done|]. exists s'.
    split_and!; [done| | |done|].
    + rewrite Hso'. simpl. rewrite Hso, <-app_assoc. done.
    + rewrite Hcl'. simpl. by rewrite Hcl.
    + by rewrite Hout', Hout.
Qed.

(** The example does what it says.  Against a server that takes the
    connection and, whatever the chunking, has a greeting and two
    acknowledgements for it, [connect_basic] exits with success: it prints one
    line per step, the last of them with the status found in the answer to the
    query, sends exactly the heartbeat, the registration and the query under
    identifiers 0, 1 and 2 as the server's own serializer would frame them,
    shuts its socket down and leaves no memory and no descriptor behind. *)
Theorem connect_basic_session `{Junk} p at_ hello i text j body av f rest :
  welcoming at_ p →
  stream (at_in at_) =
    (message_frame hello ++ message_frame (ACK, i, text) ++ message_frame (ACK, j, body) ++ av, f, rest) →
  reply_ok hello → reply_ok (ACK, i, text) → reply_ok (ACK, j, body) →
  ∃ p' s,
    main [] p = Done EXIT_SUCCESS p' ∧ balanced (p_heap p) (p_socks p) p' ∧
    p_stdout p' = p_stdout p ++
      ["[connect]    OK   host=127.0.0.1 port=9026" +:+ newline; welcome_line hello.1.1;
       register_line; query_line body; "[disconnect] OK" +:+ newline] ∧
    p_closed p' = p_closed p ++ [s] ∧ cs_shut s = true ∧
    cs_out s = concat (message_frame <$> sent_messages).
Proof. apply connect_basic_runs. Qed.

(** A run against a server whose three frames arrive in two pieces. *)
Lemma connect_basic_session_witness :
  let body := "{" +:+ quoted "status" +:+ ":" +:+ quoted "ACTIVE" +:+ "}" in
  let av := concat (message_frame <$> [(ACK, 0, "hello"); (ACK, 1, "{}"); (ACK, 2, body)]) in
  ∃ p' s,
    main (H := zero_junk) [] (start [success [Chunk (take 20 av); Chunk (drop 20 av)] []]) =
      Done EXIT_SUCCESS p' ∧
    p_stdout p' =
      ["[connect]    OK   host=127.0.0.1 port=9026" +:+ newline;
       "[welcome]    OK   type=0x02" +:+ newline;
       "[register]   OK   node_id=vault-demo-01" +:+ newline;
       "[query]      OK   node_id=vault-demo-01 status=ACTIVE" +:+ newline;
       "[disconnect] OK" +:+ newline] ∧
    p_closed p' = [s].
Proof.
  intros body av.
  destruct (connect_basic_session (H := zero_junk)
    (start [success [Chunk (take 20 av); Chunk (drop 20 av)] []])
    (success [Chunk (take 20 av); Chunk (drop 20 av)] []) (ACK, 0, "hello") 1 "{}" 2 body
    [] RecvTimeout []) as (p' & s & Hrun & _ & Hout & Hcl & _).
  - split_and!; [by split|done..|constructor].
  - vm_compute. reflexivity.
  - split; vm_compute; [split|]; congruence.
  - split; vm_compute; [split|]; congruence.
  - split; vm_compute; [split|]; congruence.
  - exists p', s. split; [exact Hrun|]. split; [|exact Hcl]. rewrite Hout. vm_compute. reflexivity.
Defined.

End ConnectSession.
