(* ===== verification/ConnectServer.v ===== *)
(** * The example program against the server

    [connect_basic] of [ConnectBasic.v] on one end of a connection and the
    server's worker of [ThreadPool.v] on the other: the greeting, the
    registration and the query meet the handlers, the registry and the
    serializer, and what the program prints is what the server recorded. *)

From S2P Require Import Prelude Net Registry Session Time Otel Json Serializer JsonRef World.
From S2P Require Import Concrete Logger Effects Payloads Sender RegisterHandler HeartbeatHandler.
From S2P Require Import QueryHandler ConnectionWorker ConnectionSpec WorkQueue ThreadPool.
From S2P Require Import Envelope Posix Client ClientLogic ClientSpec ClientConn ClientOwn.
From S2P Require Import ClientSession Interop Stdio ConnectBasic ConnectSession.
Local Open Scope Z_scope.

Module ConnectServer.
Import MessageSerializer EopEnvelope ClientSession Interop Stdio.

(** The three commands of the program. *)
Definition program : list command :=
  [(EOP_HEARTBEAT, ""); (EOP_REGISTER, ConnectBasic.register_text);
   (EOP_QUERY_NODE, ConnectBasic.query_text)].

Lemma program_messages : requests 0 program = ConnectSession.sent_messages.
Proof. reflexivity. Qed.

Section server.
Context `{CL : Clock} `{!ClockOk} `{RN : Otel.Rng} `{JL : JsonLib} `{!JsonLaws}.
Context `{MI : NodeRegistry.MapIter}.

(** The values of the two texts the program sends. *)
Definition register_fields : list (string * json) :=
  [("node_id", j_string ConnectBasic.DEMO_NODE_ID);
   ("bunker_name", j_string ConnectBasic.DEMO_BUNKER_NAME);
   ("ip_address", j_string ConnectBasic.DEMO_IP_ADDRESS);
   ("capacity", j_unsigned ConnectBasic.DEMO_CAPACITY)].
Definition query_fields : list (string * json) :=
  [("node_id", j_string ConnectBasic.DEMO_NODE_ID)].

(** The JSON parser reads them. *)
Definition texts_parse : Prop :=
  j_parse ConnectBasic.register_text = Some (j_obj register_fields) ∧
  j_parse ConnectBasic.query_text = Some (j_obj query_fields).

(** What the server records. *)
Definition demo_entry : NodeRegistry.NodeEntry :=
  NodeRegistry.mkNodeEntry ConnectBasic.DEMO_NODE_ID ConnectBasic.DEMO_BUNKER_NAME
    ConnectBasic.DEMO_IP_ADDRESS ConnectBasic.DEMO_CAPACITY NodeRegistry.ONLINE 0.

(** The node is not registered, or not online. *)
Definition available (reg : gmap string NodeRegistry.NodeEntry) : bool :=
  NodeRegistry.isOffline ConnectBasic.DEMO_NODE_ID reg
  || negb (NodeRegistry.contains ConnectBasic.DEMO_NODE_ID reg).

(** The answers. *)
Definition register_answer : message :=
  (ACK, 1, Payloads.text_of (Payloads.ack_json (Payloads.mkAck 1 ConnectBasic.DEMO_NODE_ID))).
Definition query_answer : message :=
  (ACK, 2, Payloads.text_of
     (j_obj (("ref_message_id", j_unsigned 2) :: QueryHandler.entry_fields demo_entry))).

(** What the example relies on in the text of the answer, as [json::dump]
    writes it without indentation: control characters are escaped, and the
    member [status] stands as key, colon and value with nothing between them. *)
Definition compact_dump : Prop :=
  x00 ∉ bytes_of_string query_answer.2 ∧
  ConnectBasic.first_member query_answer.2 "status" "ONLINE".

Lemma printed_status : compact_dump → ConnectSession.status_of query_answer.2 = "ONLINE".
Proof.
  intros [Hn Hm]. unfold ConnectSession.status_of. rewrite cstr_plain by done.
  rewrite (ConnectBasic.extract_first_member _ _ "ONLINE"); [done|done| |done|].
  - apply (bool_decide_unpack _). vm_compute. exact I.
  - apply Nat.ltb_lt. reflexivity.
Qed.

Lemma field_lookup fields (k : string) v :
  bool_decide (NoDup fields.*1) = true → (k, v) ∈ fields →
  j_contains (j_obj fields) k = true ∧ j_at (j_obj fields) k = v.
Proof. intros Hnd%bool_decide_eq_true. by apply j_obj_lookup. Qed.

(** A field of one of the two objects. *)
Local Ltac field fields k v :=
  destruct (field_lookup fields k v) as [-> ->];
    [vm_compute; reflexivity|unfold fields; repeat first [apply list_elem_of_here|apply list_elem_of_further]|].

Lemma register_valid :
  RegisterHandler.valid_fields (j_obj register_fields) = true ∧
  RegisterHandler.entry_of (j_obj register_fields) = demo_entry.
Proof.
  unfold RegisterHandler.valid_fields, RegisterHandler.entry_of.
  field register_fields "node_id" (j_string ConnectBasic.DEMO_NODE_ID).
  field register_fields "bunker_name" (j_string ConnectBasic.DEMO_BUNKER_NAME).
  field register_fields "ip_address" (j_string ConnectBasic.DEMO_IP_ADDRESS).
  field register_fields "capacity" (j_unsigned ConnectBasic.DEMO_CAPACITY).
  rewrite !j_is_string_string, !j_get_string_string, j_is_unsigned_unsigned, j_get_u64_unsigned
    by (by compute).
  done.
Qed.

Lemma register_decision reg :
  texts_parse → available reg = true →
  RegisterHandler.decide_reg ConnectBasic.register_text reg =
    RegisterHandler.Registered demo_entry.
Proof.
  intros [Hp _] Hav. unfold RegisterHandler.decide_reg. rewrite Hp.
  destruct register_valid as [-> ->]. unfold available in Hav. cbn [NodeRegistry.node_id demo_entry].
  by rewrite Hav.
Qed.

Lemma query_decision reg :
  texts_parse → reg !! ConnectBasic.DEMO_NODE_ID = Some demo_entry →
  QueryHandler.decide_query QUERY_NODE ConnectBasic.query_text reg =
    QueryHandler.Found ConnectBasic.DEMO_NODE_ID demo_entry.
Proof.
  intros [_ Hp] Hreg. unfold QueryHandler.decide_query. rewrite bool_decide_true, Hp by done.
  field query_fields "node_id" (j_string ConnectBasic.DEMO_NODE_ID).
  by rewrite j_is_string_string, j_get_string_string, Hreg.
Qed.

Lemma next_node_registered i :
  texts_parse →
  ConnectionWorker.next_node (message_result (REGISTER, i, ConnectBasic.register_text)) "" =
    ConnectBasic.DEMO_NODE_ID.
Proof.
  intros [Hp _]. unfold ConnectionWorker.next_node. simpl. rewrite Hp.
  field register_fields "node_id" (j_string ConnectBasic.DEMO_NODE_ID).
  by rewrite j_is_string_string, j_get_string_string.
Qed.

(** The session of the program. *)
Lemma program_session reg outs node reg' :
  texts_parse → available reg = true →
  ConnectionSpec.session "" reg (message_result <$> ConnectSession.sent_messages) outs node reg' →
  outs = [message_frame register_answer; message_frame query_answer] ∧
  node = ConnectBasic.DEMO_NODE_ID ∧ reg' = <[ConnectBasic.DEMO_NODE_ID := demo_entry]> reg.
Proof.
  intros Hp Hav Hses.
  inversion Hses as [|? ? ? ? ? ? ? ? _ H1]; subst.
  inversion H1 as [|? ? ? ? ? ? ? ? _ H2]; subst.
  inversion H2 as [|? ? ? ? ? ? ? ? _ H3]; subst.
  inversion H3; subst. pose proof (next_node_registered 1 Hp) as Hn.
  unfold message_result in Hn.
  change (ConnectionWorker.next_node (mkFrameReadResult OK HEARTBEAT 0 "") "") with "" in *.
  rewrite Hn. unfold ConnectionWorker.reply_of, ConnectionWorker.reg_after.
  cbn [fr_messageType fr_payload fr_messageId ConnectionWorker.next_node option_list app].
  change (NodeRegistry.updateLastSeen "" now reg).2 with reg.
  rewrite (register_decision reg) by done. cbn [RegisterHandler.effect NodeRegistry.node_id demo_entry].
  rewrite (query_decision (<[_ := _]> reg)) by (done || apply lookup_insert_eq). done.
Qed.

Lemma program_servable : texts_parse → Forall servable program.
Proof.
  intros [Hr Hq]. assert (∀ fields, ("node_id", j_string ConnectBasic.DEMO_NODE_ID) ∈ fields →
    bool_decide (NoDup fields.*1) = true →
    Logger.text_ok (j_get_string (j_at (j_obj fields) "node_id")) = true) as Hn.
  { intros fields Hin Hnd. destruct (field_lookup fields _ _ Hnd Hin) as [_ ->].
    rewrite j_get_string_string. vm_compute. reflexivity. }
  assert (∀ t text, bool_decide (valid_type t) = true →
    (str_size text <=? MAX_FRAME_PAYLOAD) = true → ConnectionSpec.names_ok text →
    servable (t, text)) as Hok.
  { intros t text Ht%bool_decide_eq_true Hs%Z.leb_le ?. by split_and!. }
  apply Forall_cons; split; [|apply Forall_cons; split; [|apply Forall_singleton]];
    (apply Hok; [by vm_compute|by vm_compute|]).
  - intros j Hj. simpl in Hj. by rewrite j_parse_empty in Hj.
  - intros j Hj _ _. simpl in Hj. rewrite Hr in Hj. simplify_eq.
    apply Hn; [apply list_elem_of_here|vm_compute; reflexivity].
  - intros j Hj _ _. simpl in Hj. rewrite Hq in Hj. simplify_eq.
    apply Hn; [apply list_elem_of_here|vm_compute; reflexivity].
Qed.
End server.

(** ** Correctness *)

(** C7: [connect_basic] and the server together.  When the node is not ONLINE
    already, a worker that takes the program's connection serves it to the end
    and leaves the node in the registry with the bunker, address and capacity
    the program announced, OFFLINE since the connection closed; and whatever
    the chunking on the wire, the program that reads what this worker wrote
    exits with success, having sent exactly the three messages the worker
    read, printed one line per step, that of the query with the status ONLINE
    the node had then, and given back its memory and its socket.  The JSON
    library reads the two texts the program sends ([texts_parse]) and writes
    the answer in its compact form ([compact_dump]), and no payload is longer
    than a frame's header can say. *)
Theorem connect_basic_served `{CL : Clock} `{!ClockOk} `{RN : Otel.Rng} `{JL : JsonLib}
    `{!JsonLaws} `{MI : NodeRegistry.MapIter} `{Posix.Junk} idle ml a sm w s st :
  texts_parse → compact_dump → available (w_reg w) = true →
  accepted a w s ConnectSession.sent_messages st →
  let hello := ThreadPool.welcome_message sm (sys_clock (w_reads w)) in
  ∃ w' s' now,
    ThreadPool.serve_socket idle ml a sm w = (Ret (ThreadPool.sessions_after sm), w') ∧
    w_reg w' = <[ConnectBasic.DEMO_NODE_ID :=
      NodeRegistry.with_last_seen now (NodeRegistry.with_status NodeRegistry.OFFLINE demo_entry)]> (w_reg w) ∧
    w_socks w' !! WorkQueue.fd a = Some s' ∧
    ∀ p at_ av f rest,
      ConnectSession.welcoming at_ p → ClientLogic.stream (Posix.at_in at_) = (sk_out s' ++ av, f, rest) →
      fits hello → fits register_answer → fits query_answer →
      ∃ p' c, ConnectBasic.main [] p = Posix.Done Stdio.EXIT_SUCCESS p' ∧
        ClientOwn.balanced (Posix.p_heap p) (Posix.p_socks p) p' ∧
        Posix.p_stdout p' = Posix.p_stdout p ++
          ["[connect]    OK   host=127.0.0.1 port=9026" +:+ newline;
           "[welcome]    OK   type=0x02" +:+ newline;
           "[register]   OK   node_id=vault-demo-01" +:+ newline;
           "[query]      OK   node_id=vault-demo-01 status=ONLINE" +:+ newline;
           "[disconnect] OK" +:+ newline] ∧
        Posix.p_closed p' = Posix.p_closed p ++ [c] ∧
        Posix.cs_out c = concat (message_frame <$> ConnectSession.sent_messages).
Proof.
  intros Hp Hd Hav Hacc hello.
  destruct (both_ends idle ml a sm w s st 0 program)
    as (w' & s' & ms & node & reg' & now & Hrun & Hs' & Hout & Hses & _ & Hreg & _);
    [by compute|by apply program_servable|done|].
  rewrite program_messages in Hses.
  destruct (program_session _ _ _ _ Hp Hav Hses) as (Hms & -> & ->).
  exists w', s', now. split_and!; [done| |done|].
  - rewrite Hreg. unfold NodeRegistry.setOffline. rewrite lookup_insert_eq. simpl.
    by rewrite insert_insert_eq.
  - intros p at_ av f rest Hwel Hst Hr0 Hr1 Hr2.
    destruct (ConnectSession.connect_basic_runs p at_ hello 1 register_answer.2 2 query_answer.2 av f rest)
      as (p' & c & ? & ? & Hso & ? & _ & ?); [done|..].
    + rewrite Hst, Hout, fmap_cons, Hms. fold hello. simpl. by rewrite <-!app_assoc.
    + split; [by apply wrap_range|done].
    + by split.
    + by split.
    + exists p', c. unfold ConnectSession.query_line in Hso. rewrite printed_status in Hso by done.
      by split_and!.
Qed.

(** ** Example *)

Section witnesses.
Import Demo.
#[local] Existing Instance Posix.zero_junk.

Definition sample_in : list recv_ev :=
  [RData (concat (message_frame <$> ConnectSession.sent_messages)); REof].
Definition sample_world : world := demo_world ∅ sample_in.
Definition sample_socket : WorkQueue.AcceptedSocket := WorkQueue.mkAccepted 7 "10.0.0.9".

(** With a JSON library in place the printed status is ONLINE. *)
Lemma connect_basic_served_witness :
  ∃ w' s' p',
    ThreadPool.serve_socket 30 Logger.INFO sample_socket SessionManager.init sample_world =
      (Ret (ThreadPool.sessions_after SessionManager.init), w') ∧
    w_socks w' !! 7 = Some s' ∧
    ConnectBasic.main [] (Posix.start [Posix.success [Posix.Chunk (sk_out s')] []]) =
      Posix.Done EXIT_SUCCESS p' ∧
    Posix.p_stdout p' =
      ["[connect]    OK   host=127.0.0.1 port=9026" +:+ newline;
       "[welcome]    OK   type=0x02" +:+ newline;
       "[register]   OK   node_id=vault-demo-01" +:+ newline;
       "[query]      OK   node_id=vault-demo-01 status=ONLINE" +:+ newline;
       "[disconnect] OK" +:+ newline].
Proof.
  destruct (connect_basic_served 30 Logger.INFO sample_socket SessionManager.init sample_world
    (mkSock sample_in [] [] None None true) StopEof) as (w' & s' & now & Hrun & _ & Hs & Hcl).
  - split; vm_compute; reflexivity.
  - split; [|eapply ConnectBasic.first_member_found; vm_compute; reflexivity].
    apply (bool_decide_unpack _). vm_compute. exact I.
  - vm_compute. reflexivity.
  - apply demo_accepted. vm_compute. reflexivity.
  - destruct (Hcl (Posix.start [Posix.success [Posix.Chunk (sk_out s')] []])
      (Posix.success [Posix.Chunk (sk_out s')] []) [] EopClient.RecvTimeout [])
      as (p' & c & Hmain & _ & Hout & _).
    + split_and!; [by split|done..|constructor].
    + simpl. by rewrite !app_nil_r.
    + vm_compute. reflexivity.
    + vm_compute. reflexivity.
    + vm_compute. reflexivity.
    + exists w', s', p'. split; [exact Hrun|]. split; [exact Hs|]. split; [exact Hmain|].
      rewrite Hout. vm_compute. reflexivity.
Defined.
End witnesses.

End ConnectServer.
