(* ===== verification/EopDemo.v ===== *)
(** * The example program [eop_demo]

    Models [client/examples/eop_demo.c]: an interactive console that connects,
    drains the greeting and then runs the commands the user types until the
    input ends or the user leaves.

    The theorems read the standard input as a script: what the program sends
    is a function of the lines typed, whatever the server answers. *)

From S2P Require Import Prelude Net Otel Serializer Envelope Posix Client ClientLogic ClientSpec.
From S2P Require Import ClientConn Stdio ClientOwn ClientSession.
Local Open Scope Z_scope.

Module EopDemo.
Import MessageSerializer EopEnvelope Posix EopClient Stdio.

Definition DEFAULT_HOST : string := "127.0.0.1".
Definition DEFAULT_PORT : Z := 9026.
Definition CONNECT_TIMEOUT_MS : Z := 5000.
Definition ERR_MSG_SIZE : Z := 256.
Definition JSON_BUF_SIZE : nat := 512.
Definition INPUT_BUF_SIZE : nat := 128.

(** ** Helpers *)

(** The string after the newline [fgets] left has been cut off. *)
Definition strip_newline (s : string) : string :=
  let bs := bytes_of_string s in
  match last bs with
  | Some x0a => string_of_bytes (removelast bs)
  | _ => s
  end.

Definition msg_type_name (t : Z) : string :=
  if t =? EOP_ACK then "ACK" else if t =? EOP_ERROR then "ERROR" else "UNKNOWN".

Section program.
Context `{Junk}.

Definition print_payload (resp : Z) : C unit :=
  r ← load_response resp;
  if (payload r =? NULL) || (payload_len r =? 0) then printf ("  (empty payload)" +:+ newline)
  else
  buf ← terminated_copy r;
  if buf =? NULL then printf ("  (alloc error while printing payload)" +:+ newline)
  else
  text ← text_at buf;
  printf ("  " +:+ text +:+ newline);;
  free buf.

(** The end of every command that has a response. *)
Definition show_response (resp : Z) : C unit :=
  r ← load_response resp;
  printf ("  [" +:+ msg_type_name (msg_type r) +:+ "] ");;
  print_payload resp;;
  eop_response_free resp.

(** The end of a command: an error message or the response. *)
Definition report (client resp : Z) : C unit :=
  if resp =? NULL then
    '(_, err) ← eop_last_error client (Some ERR_MSG_SIZE);
    eprintf ("  [error] " +:+ default "" err +:+ newline)
  else show_response resp.

(** A prompt whose answer is used without a test of [fgets]. *)
Definition ask (prompt : string) : C string :=
  printf prompt;;
  o ← fgets INPUT_BUF_SIZE;
  s ← filled o;
  mret (strip_newline s).

(** ** The commands *)

(** The text of a registration. *)
Definition register_json (node_id bunker_name ip_address : string) (capacity : Z) : string :=
  "{" +:+ quoted "node_id" +:+ ":" +:+ quoted node_id +:+ ","
      +:+ quoted "bunker_name" +:+ ":" +:+ quoted bunker_name +:+ ","
      +:+ quoted "ip_address" +:+ ":" +:+ quoted ip_address +:+ ","
      +:+ quoted "capacity" +:+ ":" +:+ to_string capacity +:+ "}".

Definition query_json (node_id : string) : string :=
  "{" +:+ quoted "node_id" +:+ ":" +:+ quoted node_id +:+ "}".

(** [snprintf] into [json], the test of its result, the command. *)
Definition send_json (client t : Z) (text : string) : C unit :=
  let '(json, written) := snprintf JSON_BUF_SIZE text in
  if (written <? 0) || (Z.of_nat JSON_BUF_SIZE <=? written) then
    eprintf ("  [error] JSON payload too large" +:+ newline)
  else
  resp ← eop_send_command client t (Some (bytes_of_string json)) written;
  report client resp.

Definition cmd_register (client : Z) : C unit :=
  printf (newline +:+ "--- REGISTER NODE ---" +:+ newline);;
  node_id ← ask "  node_id      : ";
  bunker_name ← ask "  bunker_name  : ";
  ip_address ← ask "  ip_address   : ";
  capacity_str ← ask "  capacity     : ";
  send_json client EOP_REGISTER
    (register_json node_id bunker_name ip_address (strtoul capacity_str)).

Definition cmd_query_node (client : Z) : C unit :=
  printf (newline +:+ "--- QUERY NODE ---" +:+ newline);;
  node_id ← ask "  node_id: ";
  send_json client EOP_QUERY_NODE (query_json node_id).

Definition cmd_list_nodes (client : Z) : C unit :=
  printf (newline +:+ "--- LIST NODES ---" +:+ newline);;
  resp ← eop_send_command client EOP_LIST_NODES None 0;
  report client resp.

Definition cmd_heartbeat (client : Z) : C unit :=
  printf (newline +:+ "--- HEARTBEAT ---" +:+ newline);;
  resp ← eop_send_command client EOP_HEARTBEAT None 0;
  if resp =? NULL then
    '(code, err) ← eop_last_error client (Some ERR_MSG_SIZE);
    if bool_decide (code = EOP_ERR_TIMEOUT)
    then printf ("  [OK] Heartbeat sent (no response from server — expected)" +:+ newline)
    else eprintf ("  [error] " +:+ default "" err +:+ newline)
  else show_response resp.

(** ** [main] *)

Definition print_menu : C unit :=
  printf (newline +:+ "╔══════════════════════════════╗" +:+ newline);;
  printf ("║     EOP Interactive Demo     ║" +:+ newline);;
  printf ("╠══════════════════════════════╣" +:+ newline);;
  printf ("║  1) Register node            ║" +:+ newline);;
  printf ("║  2) Query node               ║" +:+ newline);;
  printf ("║  3) List nodes               ║" +:+ newline);;
  printf ("║  4) Send heartbeat           ║" +:+ newline);;
  printf ("║  0) Disconnect & exit        ║" +:+ newline);;
  printf ("╚══════════════════════════════╝" +:+ newline);;
  printf "Choice: ".

(** The body of the loop: whether it goes on. *)
Definition menu_turn (client : Z) : C bool :=
  print_menu;;
  o ← fgets INPUT_BUF_SIZE;
  match o with
  | None => mret false
  | Some line =>
      let choice := atoi (strip_newline line) in
      if choice =? 1 then cmd_register client;; mret true
      else if choice =? 2 then cmd_query_node client;; mret true
      else if choice =? 3 then cmd_list_nodes client;; mret true
      else if choice =? 4 then cmd_heartbeat client;; mret true
      else if choice =? 0 then mret false
      else printf ("  Unknown option." +:+ newline);; mret true
  end.

(** [while (running)]; every turn that goes on has read from the input, so
    [fuel] above its length is enough. *)
Fixpoint menu_loop (fuel : nat) (client : Z) : C unit :=
  match fuel with
  | O => crash Hang
  | S fuel =>
      running ← menu_turn client;
      if (running : bool) then menu_loop fuel client else mret tt
  end.

(** A prompt of [main] whose answer has a default, or [None] at the end of
    the input. *)
Definition ask_default (prompt : string) : C (option string) :=
  printf prompt;;
  o ← fgets INPUT_BUF_SIZE;
  mret (strip_newline <$> o).

(** Host, port and timeout, from the arguments or from the user. *)
Definition read_endpoint (argv : list string) : C (option (string * Z * Z)) :=
  match argv with
  | h :: rest =>
      mret (Some (h, match rest with p :: _ => atoi p | [] => DEFAULT_PORT end,
                  match rest with _ :: t :: _ => atoi t | _ => CONNECT_TIMEOUT_MS end))
  | [] =>
      h ← ask_default ("Host [" +:+ DEFAULT_HOST +:+ "]: ");
      match h with
      | None => mret None
      | Some h =>
      p ← ask_default ("Port [" +:+ to_string DEFAULT_PORT +:+ "]: ");
      match p with
      | None => mret None
      | Some p =>
      t ← ask_default ("Timeout ms [" +:+ to_string CONNECT_TIMEOUT_MS +:+ "]: ");
      match t with
      | None => mret None
      | Some t =>
          mret (Some (if str_empty h then DEFAULT_HOST else h,
                      if str_empty p then DEFAULT_PORT else atoi p,
                      if str_empty t then CONNECT_TIMEOUT_MS else atoi t))
      end end end
  end.

(** From the greeting to the end, on a connected handle. *)
Definition session (client : Z) : C Z :=
  welcome ← eop_send_command client EOP_HEARTBEAT None 0;
  (if welcome =? NULL then mret tt else eop_response_free welcome);;
  input ← gets p_stdin;
  menu_loop (S (String.length input)) client;;
  eop_disconnect client;;
  printf ("Disconnected." +:+ newline);;
  mret EXIT_SUCCESS.

(** [argv] without the program's name. *)
Definition main (argv : list string) : C Z :=
  e ← read_endpoint argv;
  match e with
  | None => mret EXIT_FAILURE
  | Some (host_, port_, timeout_ms) =>
      printf ("Connecting to " +:+ host_ +:+ ":" +:+ to_string port_ +:+ " (timeout "
              +:+ to_string timeout_ms +:+ " ms) ..." +:+ newline);;
      client ← eop_connect (Some host_) port_ timeout_ms;
      if client =? NULL then
        '(_, err) ← eop_last_error NULL (Some ERR_MSG_SIZE);
        eprintf ("Connection failed: " +:+ default "" err +:+ newline);;
        mret EXIT_FAILURE
      else
      printf ("Connected." +:+ newline);;
      session client
  end.

End program.

End EopDemo.
