(* ===== verification/DemoScript.v ===== *)
(** * The demo as a script

    The lines typed into [eop_demo] determine the commands it runs
    ([script]); whatever the server answers, these are what it sends. *)

From S2P Require Import Prelude Config Net Otel Serializer Envelope Posix Client ClientLogic ClientSpec.
From S2P Require Import ClientConn Stdio ClientOwn ClientSession ConnectSession EopDemo.
Local Open Scope Z_scope.

Module DemoScript.
Import MessageSerializer EopEnvelope Posix EopClient Stdio ClientLogic ClientSpec ClientConn ClientOwn.
Import ClientSession ConnectSession EopDemo.

(** ** The lines typed *)

Fixpoint split_input (fuel : nat) (s : list byte) : list string :=
  match fuel, s with
  | S fuel, _ :: _ =>
      let '(l, r) := line_of (INPUT_BUF_SIZE - 1) s in
      strip_newline (cstr l) :: split_input fuel r
  | _, _ => []
  end.

(** The answers [fgets] and [strip_newline] make of an input. *)
Definition typed (input : string) : list string :=
  split_input (String.length input) (bytes_of_string input).

Lemma split_input_fuel n m s :
  (length s ≤ n)%nat → (length s ≤ m)%nat → split_input n s = split_input m s.
Proof.
  revert m s. induction n as [|n IH]; intros [|m] [|b s] Hn Hm; simpl in Hn, Hm; try done; try lia.
  cbn [split_input]. pose proof (line_of_length (INPUT_BUF_SIZE - 1) (b :: s)) as Hl.
  destruct (line_of _ _) as [l r]. cbn [snd] in Hl.
  specialize (Hl ltac:(by compute; lia) ltac:(done)). simpl in Hl. f_equal. apply IH; lia.
Qed.

Lemma typed_cons input :
  bytes_of_string input ≠ [] →
  typed input =
    strip_newline (cstr (line_of (INPUT_BUF_SIZE - 1) (bytes_of_string input)).1) ::
    typed (string_of_bytes (line_of (INPUT_BUF_SIZE - 1) (bytes_of_string input)).2).
Proof.
  intros Hne. unfold typed. rewrite <-!length_bytes_of_string, bytes_of_string_of_bytes.
  pose proof (line_of_length (INPUT_BUF_SIZE - 1) (bytes_of_string input) ltac:(compute; lia) Hne) as Hl.
  destruct (bytes_of_string input) as [|b s]; [done|]. cbn [length split_input].
  destruct (line_of (INPUT_BUF_SIZE - 1) (b :: s)) as [l r]. simpl in Hl |- *. f_equal.
  apply split_input_fuel; lia.
Qed.

(** Answers are shorter than the buffer. *)
Definition short (s : string) : Prop := str_size s ≤ 127.

Lemma line_of_short n s : (length (line_of n s).1 ≤ n)%nat.
Proof.
  revert s. induction n as [|n IH]; intros [|b s]; simpl; try lia.
  case_goal; simpl; [lia|]. specialize (IH s). destruct (line_of n s). simpl in *. lia.
Qed.

Lemma cstr_short bs : (length (bytes_of_string (cstr bs)) ≤ length bs)%nat.
Proof.
  unfold cstr. rewrite bytes_of_string_of_bytes. induction bs as [|b bs IH]; simpl; [lia|].
  case_goal; simpl; [|lia]. destruct (span _ bs). simpl in *. lia.
Qed.

Lemma strip_newline_short s : str_size (strip_newline s) ≤ str_size s.
Proof.
  unfold strip_newline. destruct (last (bytes_of_string s)) as [b|] eqn:Hl; [|done].
  apply last_Some in Hl as [l Hl]. destruct b; try done.
  rewrite str_size_bytes. unfold str_size. rewrite Hl, removelast_last, length_app. simpl. lia.
Qed.

Lemma typed_short input : Forall short (typed input).
Proof.
  unfold typed. generalize (String.length input) as n, (bytes_of_string input) as s.
  induction n as [|n IH]; intros [|b s]; [constructor..|]. cbn [split_input].
  pose proof (line_of_short (INPUT_BUF_SIZE - 1) (b :: s)) as Hl.
  destruct (line_of _ _) as [l r]. constructor; [|apply IH].
  unfold short. pose proof (strip_newline_short (cstr l)). pose proof (cstr_short l).
  unfold str_size in *. simpl in Hl. lia.
Qed.

Lemma length_split_input n s : (length (split_input n s) ≤ n)%nat.
Proof.
  revert s. induction n as [|n IH]; intros [|b s]; cbn [split_input]; simpl; try lia.
  case_match. simpl. apply le_n_S, IH.
Qed.

Lemma length_typed input : (length (typed input) ≤ String.length input)%nat.
Proof. apply length_split_input. Qed.

(** ** The script *)

(** The commands that the lines ask for, or [None] when the input ends in
    the middle of a command's questions. *)
Fixpoint script (ls : list string) : option (list command) :=
  match ls with
  | [] => Some []
  | l :: ls =>
      let choice := atoi l in
      if choice =? 1 then
        match ls with
        | a :: b :: c :: d :: ls =>
            cons (EOP_REGISTER, register_json a b c (strtoul d)) <$> script ls
        | _ => None
        end
      else if choice =? 2 then
        match ls with
        | a :: ls => cons (EOP_QUERY_NODE, query_json a) <$> script ls
        | [] => None
        end
      else if choice =? 3 then cons (EOP_LIST_NODES, EmptyString) <$> script ls
      else if choice =? 4 then cons (EOP_HEARTBEAT, EmptyString) <$> script ls
      else if choice =? 0 then Some []
      else script ls
  end.

(** The payloads fit their buffer: the test of [snprintf]'s result never
    fires. *)
Lemma str_size_app s1 s2 : str_size (s1 +:+ s2) = str_size s1 + str_size s2.
Proof. unfold str_size. rewrite bytes_of_string_app, length_app. lia. Qed.

Lemma digits_nonneg bs : 0 ≤ of_digits 10 (map char_digit (span isdigit bs).1).
Proof.
  apply ServerConfig.of_digits_nonneg, Forall_map. eapply Forall_impl; [apply span_forall|].
  apply ServerConfig.isdigit_char_digit.
Qed.

Lemma strtoul_range s : 0 ≤ strtoul s < 2 ^ 64.
Proof.
  unfold strtoul. destruct (span ServerConfig.isspace _) as [? s1].
  destruct (match s1 with x2d :: r => _ | _ => _ end) as [neg s2].
  pose proof (digits_nonneg s2). cbv zeta.
  case_goal; bool_to_prop; [lia|]. destruct neg; [apply wrap_range; lia|lia].
Qed.

Lemma to_string_size n : 0 ≤ n < 2 ^ 64 → str_size (to_string n) ≤ 20.
Proof.
  intros Hn. unfold to_string. rewrite (proj2 (Z.ltb_ge n 0)), str_size_bytes by lia.
  unfold dec_digits. rewrite length_map.
  pose proof (digits_rec_length 10 (S (Z.to_nat (Z.log2 n))) n [] 20 ltac:(lia) ltac:(lia) ltac:(lia)).
  unfold to_digits. simpl length in *. lia.
Qed.

Lemma quoted_size s : str_size (quoted s) = 2 + str_size s.
Proof. unfold quoted. rewrite str_size_bytes. simpl. rewrite length_app. unfold str_size. simpl. lia. Qed.

(** Evaluate the sizes of literals. *)
Ltac literal_sizes :=
  repeat match goal with |- context [str_size (String ?x ?y)] =>
    let v := eval vm_compute in (str_size (String x y)) in
    change (str_size (String x y)) with v
  end.

Lemma register_json_size a b c d :
  short a → short b → short c → str_size (register_json a b c (strtoul d)) < 512.
Proof.
  unfold short. intros Ha Hb Hc. pose proof (to_string_size _ (strtoul_range d)).
  unfold register_json. rewrite !str_size_app, !quoted_size. literal_sizes. lia.
Qed.

Lemma query_json_size a : short a → str_size (query_json a) < 512.
Proof.
  unfold short. intros Ha. unfold query_json. rewrite !str_size_app, !quoted_size.
  literal_sizes. lia.
Qed.

(** Reading a line reads the next answer. *)
Lemma fgets_spec E p (Q : option string → proc → Prop) :
  match typed (p_stdin p) with
  | [] => Q None p
  | l :: ls => ∀ s r, strip_newline s = l → typed r = ls → Q (Some s) (set_stdin r p)
  end →
  wp E (fgets INPUT_BUF_SIZE) p Q.
Proof.
  intros HQ. unfold wp, fgets. destruct (bytes_of_string (p_stdin p)) as [|b bs] eqn:Hb.
  { unfold typed in HQ. rewrite Hb in HQ. by destruct (String.length _). }
  pose proof (typed_cons (p_stdin p) ltac:(by rewrite Hb)) as Hl. rewrite Hb in Hl.
  destruct (line_of (INPUT_BUF_SIZE - 1) (b :: bs)) as [l r]. rewrite Hl in HQ. by apply HQ.
Qed.

(** ** The program at its menu *)

Section run.
Context `{Junk}.
(** [ok] says whether the connection is one that takes everything. *)
Context (ok : Prop) (E : fault → Prop) (Hpipe : ¬ ok → E Sigpipe).
Context (h0 : gmap Z block) (k0 : gmap Z csock) (client : Z) (cl : list csock).

(** The connection, when it is healthy: the next identifier and all that has
    been sent. *)
Definition wired (id : Z) (out : list byte) (p : proc) : Prop :=
  ok → p_mem p = [] ∧ ∃ c s, p_heap p !! client = Some (BClient c) ∧
    p_socks p !! socket_fd c = Some s ∧ sends_ok (cs_snd s) ∧ next_msg_id c = id ∧ cs_out s = out.

(** What is owned, the lines still to read and the connection. *)
Definition at_menu (h : gmap Z block) (ls : list string) (id : Z) (out : list byte) (p : proc) : Prop :=
  owns h k0 client p ∧ typed (p_stdin p) = ls ∧ p_closed p = cl ∧ wired id out p.

Lemma at_menu_kept h h' ls id out p p' :
  at_menu h ls id out p → undisturbed client p p' → owns h' k0 client p' → at_menu h' ls id out p'.
Proof.
  intros (_ & Ht & Hc & Hw) (Hi & Hh & Hs & Hcl & Hm) Ho. split_and!; [done|congruence..|].
  intros Hok. destruct (Hw Hok) as (? & c & s & ?). split; [auto|]. exists c, s. by rewrite Hh, Hs.
Qed.

Lemma wp_printf h ls id out text p (Q : unit → proc → Prop) :
  at_menu h ls id out p → (∀ p', at_menu h ls id out p' → Q tt p') → wp E (printf text) p Q.
Proof.
  intros Hp HQ. apply wp_modify, HQ. eapply at_menu_kept; [exact Hp|done|].
  eapply owns_ext; [apply Hp|done..].
Qed.

Lemma wp_eprintf h ls id out text p (Q : unit → proc → Prop) :
  at_menu h ls id out p → (∀ p', at_menu h ls id out p' → Q tt p') → wp E (eprintf text) p Q.
Proof.
  intros Hp HQ. apply wp_modify, HQ. eapply at_menu_kept; [exact Hp|done|].
  eapply owns_ext; [apply Hp|done..].
Qed.

(** Reading a line. *)
Lemma wp_fgets h ls id out p (Q : option string → proc → Prop) :
  at_menu h ls id out p →
  match ls with
  | [] => Q None p
  | l :: ls => ∀ s p', strip_newline s = l → at_menu h ls id out p' → Q (Some s) p'
  end →
  wp E (fgets INPUT_BUF_SIZE) p Q.
Proof.
  intros (Ho & <- & Hc & Hw) HQ. apply fgets_spec. destruct (typed (p_stdin p)); [done|].
  intros line r Hl Hr. by apply HQ.
Qed.

Lemma wp_ask h ls id out prompt p (Q : string → proc → Prop) :
  at_menu h ls id out p →
  match ls with
  | [] => E Uninitialised
  | l :: ls => ∀ p', at_menu h ls id out p' → Q l p'
  end →
  wp E (ask prompt) p Q.
Proof.
  intros Hp HQ. unfold ask. apply wp_bind. eapply wp_printf; [exact Hp|]. intros p1 Hp1.
  apply wp_bind. eapply wp_fgets; [exact Hp1|]. destruct ls as [|l ls]; [exact HQ|].
  intros s p2 <- Hp2. apply wp_bind, wp_ret, wp_ret. auto.
Qed.

(** A command: what it sends does not depend on the answer. *)
Lemma wp_send ls id out t pl bs p :
  at_menu h0 ls id out p → points_to pl bs → Z.of_nat (length bs) < 2 ^ 32 - 14 → valid_type t →
  wp E (eop_send_command client t pl (Z.of_nat (length bs))) p (λ r p',
    (r = NULL ∧ at_menu h0 ls (u32 (id + 1)) (out ++ request t id bs) p') ∨
    ∃ q data, response_at r q data h0 ∧
      at_menu (with_response r q data h0) ls (u32 (id + 1)) (out ++ request t id bs) p').
Proof.
  intros (Hown & Ht & Hc & Hw) Hp Hl Hty.
  pose proof (owns_send h0 k0 client t pl bs p Hown Hp Hl) as HO.
  destruct Hown as (Ho & Hn & _ & c & s & Hh & Hm & _ & Hs).
  assert (p_heap p !! client = Some (BClient c)) as Hlc by (rewrite Hh; apply lookup_insert_eq).
  assert (p_socks p !! socket_fd c = Some s) as Hls by (rewrite Hs; apply lookup_insert_eq).
  pose proof (send_command_spec client c t pl bs p Hn Ho Hlc Hm Hp Hl) as HS.
  assert (ok → p_mem p = [] ∧ sends_ok (cs_snd s) ∧ next_msg_id c = id ∧ cs_out s = out) as Hok.
  { intros Hok. destruct (Hw Hok) as (? & c' & s' & Hc' & Hs' & ?). simplify_eq. naive_solver. }
  unfold wp in *. destruct (eop_send_command _ _ _ _ p) as [r p'|f].
  2: { destruct HS as (-> & _ & _ & _ & s0 & Hs0 & He). rewrite Hls in Hs0. injection Hs0 as <-.
       apply Hpipe. intros Hk. destruct (Hok Hk) as (_ & Hsn & _).
       destruct (handed_ok (14 + length bs) _ Hsn) as (? & Hhd & _). by rewrite Hhd in He. }
  destruct HS as (_ & He & _ & _ & [k Hk] & Hheap & Hsocks).
  destruct HO as [[(Hi & _) Hcl] HO].
  assert (wired (u32 (id + 1)) (out ++ request t id bs) p') as Hw'.
  { intros Hyes. destruct (Hok Hyes) as (Hmem & Hsn & <- & <-).
    split; [by rewrite Hk, Hmem, drop_nil|]. rewrite Hls in Hsocks. destruct Hsocks as (ins & _ & Hsocks).
    destruct (handed_ok (14 + length bs) _ Hsn) as (rest & Hhd & Hrest).
    assert (∃ code msg, p_heap p' !! client =
      Some (BClient (settled code msg (set_next_id (u32 (next_msg_id c + 1)) c)))) as (code & msg & Hc')
      by (eapply heap_after_client; [by rewrite Hlc|exact Hheap]).
    eexists _, _. split; [exact Hc'|]. split; [rewrite Hsocks; apply lookup_insert_eq|].
    unfold sock_sent. rewrite Hmem, bool_decide_true, Hhd by done.
    cbn -[request take length Nat.add]. rewrite take_ge by (rewrite length_request; lia). done. }
  destruct HO as [[-> Ho']|(q & data & Hat & Ho')].
  - left. split; [done|]. split_and!; [done|congruence..|done].
  - right. exists q, data. split; [done|]. split_and!; [done|congruence..|done].
Qed.

(** Showing a response gives it back. *)
Lemma wp_show_response r q data ls id out p (Q : unit → proc → Prop) :
  response_at r q data h0 → at_menu (with_response r q data h0) ls id out p →
  (∀ p', at_menu h0 ls id out p' → Q tt p') → wp E (show_response r) p Q.
Proof.
  intros Hat Hp HQ. pose proof (with_response_lookup _ _ _ _ Hat) as [Hr Hpl].
  unfold show_response. apply wp_bind. eapply wp_load_response; [eapply owns_lookup; [apply Hp|done]|].
  apply wp_bind. eapply wp_printf; [exact Hp|]. intros p1 Hp1.
  assert (∀ p', at_menu (with_response r q data h0) ls id out p' →
    wp E (eop_response_free r) p' Q) as Hfree.
  { intros p' Hp'. eapply wp_mono; [eapply owns_response_free; [apply Hp'|done]|].
    intros [] p2 [Hca Ho]. apply HQ. eapply at_menu_kept; [exact Hp'|by apply calm_undisturbed|done]. }
  apply wp_bind. unfold print_payload. apply wp_bind.
  eapply wp_load_response; [eapply owns_lookup; [apply Hp1|done]|].
  destruct Hpl as [[Hz ->]|(Hpos & Hpn & Hd)].
  { rewrite Hz. cbn [orb Z.eqb]. eapply wp_printf; [exact Hp1|]. done. }
  rewrite !(proj2 (Z.eqb_neq _ _)) by lia. cbn [orb]. apply wp_bind.
  eapply wp_mono; [eapply terminated_copy_owns; [apply Hp1|apply Hat|done]|].
  intros b p2 [Hca [(-> & _ & Ho)|(Hb & Hbn & Ho)]].
  { cbn [Z.eqb NULL]. eapply wp_printf; [|done].
    eapply at_menu_kept; [exact Hp1|by apply calm_undisturbed|done]. }
  rewrite (proj2 (Z.eqb_neq b NULL)) by done. apply wp_bind, wp_bind.
  eapply wp_load_bytes; [eapply owns_lookup; [exact Ho|apply lookup_insert_eq]|]. apply wp_ret.
  apply wp_bind. eapply wp_printf.
  { eapply at_menu_kept; [exact Hp1|by apply calm_undisturbed|exact Ho]. }
  intros p3 Hp3. eapply wp_mono; [by eapply owns_free; [apply Hp3|..]|].
  intros _ p4 [Hc4 Ho4]. apply Hfree. eapply at_menu_kept; [exact Hp3|by apply calm_undisturbed|done].
Qed.

(** The error of the handle can be read at any time. *)
Lemma wp_last_error h ls id out p (Q : eop_error_code * option string → proc → Prop) :
  at_menu h ls id out p → (∀ e, Q e p) → wp E (eop_last_error client (Some ERR_MSG_SIZE)) p Q.
Proof.
  intros ((_ & Hn & _ & c & s & Hh & Hm & _) & _) HQ.
  eapply last_error_spec; [done|by rewrite Hh, lookup_insert_eq|done|apply HQ].
Qed.

(** A command with its report. *)
Lemma wp_command ls id out t pl text p (k : Z → C unit) (Q : unit → proc → Prop) :
  at_menu h0 ls id out p → points_to pl (bytes_of_string text) → str_size text < 512 → valid_type t →
  (∀ p' Q', at_menu h0 ls (u32 (id + 1)) (out ++ message_frame (wire_type t, id, text)) p' →
     (∀ p'', at_menu h0 ls (u32 (id + 1)) (out ++ message_frame (wire_type t, id, text)) p'' → Q' tt p'') →
     wp E (k NULL) p' Q') →
  (∀ r, r ≠ NULL → k r = show_response r) →
  (∀ p', at_menu h0 ls (u32 (id + 1)) (out ++ message_frame (wire_type t, id, text)) p' → Q tt p') →
  wp E (resp ← eop_send_command client t pl (str_size text); k resp) p Q.
Proof.
  intros Hp Hpt Hs Hty Hnull Hshow HQ. apply wp_bind.
  eapply wp_mono; [apply (wp_send ls id out t pl (bytes_of_string text)); [done|done|unfold str_size in Hs; lia|done]|].
  simpl message_frame in *. rewrite buildFrame_layout in * by lia. rewrite request_frame_bytes.
  intros r p' [[-> Hp']|(q & data & Hat & Hp')]; [by apply Hnull|].
  rewrite Hshow by apply Hat. by eapply wp_show_response.
Qed.

Lemma wp_report_null ls id out p (Q : unit → proc → Prop) :
  at_menu h0 ls id out p → (∀ p', at_menu h0 ls id out p' → Q tt p') →
  wp E (report client NULL) p Q.
Proof.
  intros Hp HQ. unfold report. cbn [Z.eqb NULL]. apply wp_bind.
  eapply wp_last_error; [exact Hp|]. intros [code err]. eapply wp_eprintf; [exact Hp|done].
Qed.

Lemma wp_send_json ls id out t text p (Q : unit → proc → Prop) :
  at_menu h0 ls id out p → str_size text < 512 → valid_type t →
  (∀ p', at_menu h0 ls (u32 (id + 1)) (out ++ message_frame (wire_type t, id, text)) p' → Q tt p') →
  wp E (send_json client t text) p Q.
Proof.
  intros Hp Hs Hty HQ. unfold send_json, snprintf.
  assert (copy_string JSON_BUF_SIZE text = text) as ->.
  { unfold copy_string. apply substring_all. rewrite <-length_bytes_of_string. unfold str_size in Hs.
    simpl. lia. }
  assert (0 ≤ str_size text) by (unfold str_size; lia).
  change (Z.of_nat JSON_BUF_SIZE) with 512.
  rewrite (proj2 (Z.ltb_ge _ _)), (proj2 (Z.leb_gt _ _)) by lia. cbn [orb].
  eapply (wp_command ls id out t _ text); [exact Hp|by left|done|done| | |done].
  - intros p' Q'. apply wp_report_null.
  - intros r Hr. unfold report. by rewrite (proj2 (Z.eqb_neq r NULL)).
Qed.

Lemma wp_cmd_register ls id out p (Q : unit → proc → Prop) :
  at_menu h0 ls id out p → Forall short ls →
  match ls with
  | a :: b :: c :: d :: ls =>
      ∀ p', at_menu h0 ls (u32 (id + 1))
        (out ++ message_frame (REGISTER, id, register_json a b c (strtoul d))) p' → Q tt p'
  | _ => E Uninitialised
  end →
  wp E (cmd_register client) p Q.
Proof.
  intros Hp Hsh HQ. unfold cmd_register. apply wp_bind. eapply wp_printf; [exact Hp|]. intros p1 Hp1.
  apply wp_bind. eapply wp_ask; [exact Hp1|]. destruct ls as [|a ls]; [done|]. intros p2 Hp2.
  apply wp_bind. eapply wp_ask; [exact Hp2|]. destruct ls as [|b ls]; [done|]. intros p3 Hp3.
  apply wp_bind. eapply wp_ask; [exact Hp3|]. destruct ls as [|c ls]; [done|]. intros p4 Hp4.
  apply wp_bind. eapply wp_ask; [exact Hp4|]. destruct ls as [|d ls]; [done|]. intros p5 Hp5.
  rewrite !Forall_cons in Hsh. destruct Hsh as (Ha & Hb & Hc & _).
  eapply wp_send_json; [exact Hp5|by apply register_json_size|by compute|exact HQ].
Qed.

Lemma wp_cmd_query_node ls id out p (Q : unit → proc → Prop) :
  at_menu h0 ls id out p → Forall short ls →
  match ls with
  | a :: ls =>
      ∀ p', at_menu h0 ls (u32 (id + 1)) (out ++ message_frame (QUERY_NODE, id, query_json a)) p' → Q tt p'
  | [] => E Uninitialised
  end →
  wp E (cmd_query_node client) p Q.
Proof.
  intros Hp Hsh HQ. unfold cmd_query_node. apply wp_bind. eapply wp_printf; [exact Hp|]. intros p1 Hp1.
  apply wp_bind. eapply wp_ask; [exact Hp1|]. destruct ls as [|a ls]; [done|]. intros p2 Hp2.
  apply Forall_cons in Hsh as [Ha _].
  eapply wp_send_json; [exact Hp2|by apply query_json_size|by compute|exact HQ].
Qed.

Lemma wp_cmd_list_nodes ls id out p (Q : unit → proc → Prop) :
  at_menu h0 ls id out p →
  (∀ p', at_menu h0 ls (u32 (id + 1)) (out ++ message_frame (LIST_NODES, id, EmptyString)) p' → Q tt p') →
  wp E (cmd_list_nodes client) p Q.
Proof.
  intros Hp HQ. unfold cmd_list_nodes. apply wp_bind. eapply wp_printf; [exact Hp|]. intros p1 Hp1.
  eapply (wp_command ls id out EOP_LIST_NODES None EmptyString);
    [exact Hp1|by right|done|by compute| | |done].
  - intros p' Q'. apply wp_report_null.
  - intros r Hr. unfold report. by rewrite (proj2 (Z.eqb_neq r NULL)).
Qed.

Lemma wp_cmd_heartbeat ls id out p (Q : unit → proc → Prop) :
  at_menu h0 ls id out p →
  (∀ p', at_menu h0 ls (u32 (id + 1)) (out ++ message_frame (HEARTBEAT, id, EmptyString)) p' → Q tt p') →
  wp E (cmd_heartbeat client) p Q.
Proof.
  intros Hp HQ. unfold cmd_heartbeat. apply wp_bind. eapply wp_printf; [exact Hp|]. intros p1 Hp1.
  eapply (wp_command ls id out EOP_HEARTBEAT None EmptyString);
    [exact Hp1|by right|done|by compute| | |done].
  - intros p' Q' Hp' HQ'. cbn [Z.eqb NULL]. apply wp_bind.
    eapply wp_last_error; [exact Hp'|]. intros [code err].
    destruct (bool_decide _); [by eapply wp_printf|by eapply wp_eprintf].
  - intros r Hr. by rewrite (proj2 (Z.eqb_neq r NULL)).
Qed.

Lemma wp_print_menu ls id out p (Q : unit → proc → Prop) :
  at_menu h0 ls id out p → (∀ p', at_menu h0 ls id out p' → Q tt p') → wp E print_menu p Q.
Proof.
  intros Hp HQ. unfold print_menu.
  do 9 (apply wp_bind; eapply wp_printf; [exact Hp|]; clear p Hp; intros p Hp).
  by eapply wp_printf.
Qed.

(** The loop ends, and what it has sent are the commands of the script. *)
Lemma menu_loop_spec fuel ls id out p :
  at_menu h0 ls id out p → (length ls < fuel)%nat → Forall short ls →
  (script ls = None → E Uninitialised) →
  wp E (menu_loop fuel client) p (λ _ p', ∃ cmds ls' id', script ls = Some cmds ∧
    at_menu h0 ls' id' (out ++ concat (message_frame <$> requests id cmds)) p').
Proof.
  revert ls id out p. induction fuel as [|fuel IH]; intros ls id out p Hp Hf Hsh HE; [lia|].
  (* after a command *)
  assert (∀ t text ls' p', at_menu h0 ls' (u32 (id + 1)) (out ++ message_frame (wire_type t, id, text)) p' →
    (length ls' < fuel)%nat → Forall short ls' → (script ls' = None → E Uninitialised) →
    wp E (menu_loop fuel client) p' (λ _ p', ∃ cmds ls'' id',
      cons (t, text) <$> script ls' = Some cmds ∧
      at_menu h0 ls'' id' (out ++ concat (message_frame <$> requests id cmds)) p')) as Hnext.
  { intros t text ls' p' Hp' Hf' Hsh' HE'. eapply wp_mono; [by apply (IH ls')|].
    intros _ p2 (cmds & ls2 & id2 & Hscr & Hp2). exists ((t, text) :: cmds), ls2, id2.
    rewrite Hscr. split; [done|]. cbn [requests fmap list_fmap concat]. by rewrite app_assoc. }
  assert (∀ ls' p', at_menu h0 ls' id out p' → ∃ cmds ls'' id', Some [] = Some cmds ∧
    at_menu h0 ls'' id' (out ++ concat (message_frame <$> requests id cmds)) p') as Hstop.
  { intros ls' p' Hp'. exists [], ls', id. by rewrite app_nil_r. }
  cbn [menu_loop]. unfold menu_turn. apply wp_bind, wp_bind.
  eapply wp_print_menu; [exact Hp|]. intros p1 Hp1. apply wp_bind. eapply wp_fgets; [exact Hp1|].
  destruct ls as [|l ls]; [apply wp_ret, wp_ret; by eapply Hstop|].
  intros s p2 -> Hp2. cbv zeta. cbn [script] in HE |- *. cbn [length] in Hf.
  apply Forall_cons in Hsh as [_ Hsh].
  destruct (atoi l =? 1).
  { apply wp_bind. eapply wp_cmd_register; [exact Hp2|done|].
    destruct ls as [|a [|b [|c [|d ls]]]]; [by apply HE..|].
    intros p3 Hp3. apply wp_ret. rewrite !Forall_cons in Hsh. cbn [length] in Hf.
    apply (Hnext EOP_REGISTER); [done|lia|naive_solver|].
    intros Hn. apply HE. by rewrite Hn. }
  destruct (atoi l =? 2).
  { apply wp_bind. eapply wp_cmd_query_node; [exact Hp2|done|].
    destruct ls as [|a ls]; [by apply HE|]. intros p3 Hp3. apply wp_ret.
    apply Forall_cons in Hsh as [_ Hsh]. cbn [length] in Hf.
    apply (Hnext EOP_QUERY_NODE); [done|lia|done|]. intros Hn. apply HE. by rewrite Hn. }
  destruct (atoi l =? 3).
  { apply wp_bind. eapply wp_cmd_list_nodes; [exact Hp2|]. intros p3 Hp3. apply wp_ret.
    apply (Hnext EOP_LIST_NODES); [done|lia|done|]. intros Hn. apply HE. by rewrite Hn. }
  destruct (atoi l =? 4).
  { apply wp_bind. eapply wp_cmd_heartbeat; [exact Hp2|]. intros p3 Hp3. apply wp_ret.
    apply (Hnext EOP_HEARTBEAT); [done|lia|done|]. intros Hn. apply HE. by rewrite Hn. }
  destruct (atoi l =? 0); [apply wp_ret, wp_ret; by eapply Hstop|].
  apply wp_bind. eapply wp_printf; [exact Hp2|]. intros p3 Hp3. apply wp_ret.
  apply IH; [done|lia|done|done].
Qed.

(** From the greeting to the end. *)
Lemma session_spec ls p :
  at_menu h0 ls 0 [] p → Forall short ls → (script ls = None → E Uninitialised) →
  wp E (session client) p (λ code p', code = EXIT_SUCCESS ∧ balanced h0 k0 p' ∧
    ∃ cmds, script ls = Some cmds ∧ (ok → ∃ s, p_closed p' = cl ++ [s] ∧ cs_shut s = true ∧
      cs_out s = concat (message_frame <$> requests 0 ((EOP_HEARTBEAT, EmptyString) :: cmds)))).
Proof.
  intros Hp Hsh HE. unfold session. apply wp_bind.
  eapply wp_mono; [apply (wp_send ls 0 [] EOP_HEARTBEAT None []); [done|by right|done|by compute]|].
  intros r p1 Hp1. apply wp_bind.
  eapply (wp_mono _ _ _ (λ _ p', at_menu h0 ls 1 (request EOP_HEARTBEAT 0 []) p')).
  { destruct Hp1 as [[-> Hp1]|(q & data & Hat & Hp1)]; [by apply wp_ret|].
    rewrite (proj2 (Z.eqb_neq r NULL)) by apply Hat.
    eapply wp_mono; [eapply owns_response_free; [apply Hp1|done]|]. intros _ p2 [Hca Ho].
    eapply at_menu_kept; [exact Hp1|by apply calm_undisturbed|done]. }
  intros _ p2 Hp2. apply wp_bind, wp_gets. apply wp_bind. eapply wp_mono.
  { apply (menu_loop_spec _ ls 1); [exact Hp2| |done|done].
    destruct Hp2 as (_ & <- & _). pose proof (length_typed (p_stdin p2)). lia. }
  intros _ p3 (cmds & ls' & id' & Hscr & (Ho3 & _ & Hcl & Hw)).
  destruct Ho3 as (_ & Hn & Hcn & c & s & Hh & Hm & Hk & Hs).
  apply wp_bind. eapply disconnect_spec; [done|by rewrite Hh, lookup_insert_eq|done|].
  apply wp_bind, wp_modify, wp_ret. split; [done|]. split.
  { split; simpl; [by rewrite Hh, delete_insert_id|by rewrite Hs, delete_insert_id]. }
  exists cmds. split; [done|]. intros Hok. destruct (Hw Hok) as (_ & c' & s' & Hc' & Hs' & _ & _ & Hout).
  rewrite Hh, lookup_insert_eq in Hc'. simplify_eq. exists (set_shut true s'). simpl.
  split_and!; [|done|].
  - unfold shut_down. rewrite Hs'. congruence.
  - rewrite Hout. reflexivity.
Qed.

End run.

(** ** The whole program *)

(** Where to connect, and the lines left: from the arguments, or from the
    first three lines. *)
Definition endpoint (argv ls : list string) : option (string * Z * Z * list string) :=
  match argv, ls with
  | h :: rest, _ =>
      Some (h, match rest with p :: _ => atoi p | [] => DEFAULT_PORT end,
            match rest with _ :: t :: _ => atoi t | _ => CONNECT_TIMEOUT_MS end, ls)
  | [], h :: p :: t :: ls =>
      Some (if str_empty h then DEFAULT_HOST else h,
            if str_empty p then DEFAULT_PORT else atoi p,
            if str_empty t then CONNECT_TIMEOUT_MS else atoi t, ls)
  | _, _ => None
  end.

(** What a run is to do: connect where, and send what. *)
Definition plan (argv : list string) (input : string)
    : option (string * Z * Z * option (list command)) :=
  match endpoint argv (typed input) with
  | Some (e, ls) => Some (e, script ls)
  | None => None
  end.

(** Only the standard streams have changed. *)
Definition only_io (p p' : proc) : Prop := ∃ i o, p' = set_stdin i (set_stdout o p).

Lemma only_io_printf p p' text :
  only_io p p' → only_io p (set_stdout (p_stdout p' ++ [text]) p').
Proof. intros (i & o & ->). by eexists _, _. Qed.

Section whole.
Context `{Junk} (E : fault → Prop).

Lemma ask_default_spec prompt p p0 (Q : option string → proc → Prop) :
  only_io p0 p →
  match typed (p_stdin p) with
  | [] => ∀ p', only_io p0 p' → Q None p'
  | l :: ls => ∀ p', only_io p0 p' → typed (p_stdin p') = ls → Q (Some l) p'
  end →
  wp E (ask_default prompt) p Q.
Proof.
  intros Hio HQ. unfold ask_default. apply wp_bind, wp_modify. apply wp_bind, fgets_spec. simpl.
  pose proof (only_io_printf _ _ prompt Hio) as Hio1.
  destruct (typed (p_stdin p)) as [|l ls]; [by apply wp_ret, HQ|].
  intros s r <- Hr. apply wp_ret, HQ; [|done]. destruct Hio1 as (i & o & ->). by eexists _, _.
Qed.

Lemma read_endpoint_spec argv p (Q : option (string * Z * Z) → proc → Prop) :
  match endpoint argv (typed (p_stdin p)) with
  | None => ∀ p', only_io p p' → Q None p'
  | Some (e, ls) => ∀ p', only_io p p' → typed (p_stdin p') = ls → Q (Some e) p'
  end →
  wp E (read_endpoint argv) p Q.
Proof.
  assert (only_io p p) as Hrefl by (eexists (p_stdin p), (p_stdout p); by destruct p).
  intros HQ. destruct argv as [|h rest]; cbn [endpoint read_endpoint] in *; [|by apply wp_ret, HQ].
  apply wp_bind. eapply ask_default_spec; [exact Hrefl|].
  destruct (typed (p_stdin p)) as [|h ls]; [intros; by apply wp_ret, HQ|]. intros p1 H1 Hl1.
  apply wp_bind. eapply ask_default_spec; [exact H1|]. rewrite Hl1.
  destruct ls as [|pt ls]; [intros; by apply wp_ret, HQ|]. intros p2 H2 Hl2.
  apply wp_bind. eapply ask_default_spec; [exact H2|]. rewrite Hl2.
  destruct ls as [|t ls]; [intros; by apply wp_ret, HQ|]. intros p3 H3 Hl3.
  by apply wp_ret, HQ.
Qed.

End whole.

Lemma only_io_parts p p' :
  only_io p p' → p_heap p' = p_heap p ∧ p_socks p' = p_socks p ∧ p_closed p' = p_closed p ∧
    p_brk p' = p_brk p ∧ p_mem p' = p_mem p ∧ p_net p' = p_net p.
Proof. by intros (i & o & ->). Qed.

Lemma only_io_heap_ok p p' : only_io p p' → heap_ok p → heap_ok p'.
Proof. by intros (i & o & ->). Qed.

(** Whatever happens, the demo stops and gives back what it took: with
    any arguments and any input, whatever the network, the server and the
    allocator do, it exits with success or failure and leaves the heap and the
    descriptor table as they were.  The only ways to die are SIGPIPE and the
    use of a buffer that was never filled, and the latter only when the input
    ends in the middle of a command's questions. *)
Theorem demo_stops `{Junk} argv p :
  heap_ok p →
  wp (λ f, f = Sigpipe ∨ (f = Uninitialised ∧ ∃ e, plan argv (p_stdin p) = Some (e, None)))
    (main argv) p (λ code p', exit_code code ∧ balanced (p_heap p) (p_socks p) p').
Proof.
  intros Ho. unfold main. apply wp_bind, read_endpoint_spec. unfold plan.
  destruct (endpoint argv (typed (p_stdin p))) as [[[[h pt] tm] ls]|].
  2: { intros p1 (i & o & ->). apply wp_ret. split; [by right|done]. }
  intros p1 Hio Hls. apply wp_bind, wp_modify, wp_bind.
  pose proof (only_io_printf _ _ ("Connecting to " +:+ h +:+ ":" +:+ to_string pt +:+ " (timeout "
              +:+ to_string tm +:+ " ms) ..." +:+ newline) Hio) as Hio2.
  pose proof (only_io_parts _ _ Hio2) as (Hh2 & Hs2 & _).
  eapply wp_mono; [by apply owns_connect; eapply only_io_heap_ok|].
  rewrite Hh2, Hs2. intros client p3 [(Hi & _) [(-> & _ & Hh & Hs)|Hown]].
  { apply wp_bind, last_error_null. apply wp_bind, wp_modify, wp_ret. split; [by right|done]. }
  rewrite (proj2 (Z.eqb_neq client NULL)) by apply Hown. apply wp_bind, wp_modify.
  eapply wp_mono; [eapply (session_spec False _ _ (p_heap p) (p_socks p) client (p_closed p3) ls)|].
  - split_and!; [eapply owns_ext; [exact Hown|done..]|simpl; by rewrite Hi|done|done].
  - rewrite <-Hls. apply typed_short.
  - intros Hn. right. split; [done|]. eexists. by rewrite Hn.
  - intros code p4 (-> & Hb & _). split; [by left|done].
  Unshelve. by left.
Qed.

Lemma demo_stops_witness :
  wp (λ f, f = Sigpipe ∨ (f = Uninitialised ∧ ∃ e, plan [] EmptyString = Some (e, None)))
    (main (H := zero_junk) []) (start []) (λ code p', exit_code code ∧ balanced ∅ ∅ p').
Proof. apply (demo_stops (H := zero_junk) [] (start [])). by split. Defined.

(** C24: the demo runs its script.  With a server that takes the connection,
    and whatever the server then answers or fails to answer, what the demo
    sends is a function of what was typed: the heartbeat that makes room for
    the greeting and then the commands of the script, in order, under
    consecutive identifiers, as the server's own serializer would frame them;
    it then shuts its socket down, gives everything back and exits with
    success.  When the input ends in the middle of a command's questions, it
    uses a buffer that nothing was read into. *)
Theorem demo_runs_script `{Junk} argv p at_ host_ ip port_ tm scr :
  plan argv (p_stdin p) = Some (host_, port_, tm, scr) →
  welcoming at_ p → inet_pton host_ = Some ip → 1 ≤ port_ ≤ 65535 →
  match scr with
  | Some cmds => ∃ p' s,
      main argv p = Done EXIT_SUCCESS p' ∧ balanced (p_heap p) (p_socks p) p' ∧
      p_closed p' = p_closed p ++ [s] ∧ cs_shut s = true ∧
      cs_out s = concat (message_frame <$> requests 0 ((EOP_HEARTBEAT, EmptyString) :: cmds))
  | None => main argv p = Crash Uninitialised
  end.
Proof.
  intros Hplan Hwel Hip Hport.
  assert (wp (λ f, f = Uninitialised ∧ scr = None) (main argv) p (λ code p',
    code = EXIT_SUCCESS ∧ balanced (p_heap p) (p_socks p) p' ∧
    ∃ cmds, scr = Some cmds ∧ ∃ s, p_closed p' = p_closed p ++ [s] ∧ cs_shut s = true ∧
      cs_out s = concat (message_frame <$> requests 0 ((EOP_HEARTBEAT, EmptyString) :: cmds)))) as HW.
  { unfold main. apply wp_bind, read_endpoint_spec. unfold plan in Hplan.
    destruct (endpoint argv (typed (p_stdin p))) as [[[[h pt] tm'] ls]|]; simplify_eq.
    intros p1 Hio Hls. apply wp_bind, wp_modify, wp_bind.
    pose proof (only_io_printf _ _ ("Connecting to " +:+ host_ +:+ ":" +:+ to_string port_ +:+
      " (timeout " +:+ to_string tm +:+ " ms) ..." +:+ newline) Hio) as Hio2.
    pose proof (only_io_parts _ _ Hio2) as (Hh2 & Hs2 & Hc2 & _ & Hm2 & Hn2).
    destruct Hwel as (Ho & Hmem & Hnet & Hwel).
    eapply (connects _ _ ip); [|done|done|].
    { split_and!; [by eapply only_io_heap_ok|congruence|by rewrite Hn2|apply Hwel..]. }
    rewrite Hh2, Hs2, Hc2. intros client p3 c s Hown Hcon Hid Hout (Hi & _) Hcl.
    rewrite (proj2 (Z.eqb_neq client NULL)) by apply Hown. apply wp_bind, wp_modify.
    eapply wp_mono; [eapply (session_spec True _ _ (p_heap p) (p_socks p) client (p_closed p) ls)|].
    - split_and!; [eapply owns_ext; [exact Hown|done..]|simpl; by rewrite Hi|done|].
      intros _. destruct Hcon as (_ & _ & Hc & _ & Hs & Hsn & _ & Hm). split; [done|]. by exists c, s.
    - rewrite <-Hls. apply typed_short.
    - done.
    - intros code p4 (-> & Hb & cmds & Hscr & Hok). split; [done|]. split; [done|].
      exists cmds. split; [done|]. by apply Hok. }
  unfold wp in HW. destruct (main argv p) as [code p'|f].
  - destruct HW as (-> & Hb & cmds & -> & s & ?). by exists p', s.
  - destruct HW as [-> ->]. done.
  Unshelve. done.
Qed.

(** A user who asks for a node and for the list, of a server that is silent
    after its greeting; and a user who leaves at the question. *)
Lemma demo_runs_script_witness :
  let at_ := success [Chunk (message_frame (ACK, 0, "hello")); Quiet; Quiet] [] in
  let p input := set_stdin input (start [at_]) in
  (∃ p' s,
    main (H := zero_junk) ["127.0.0.1"]
      (p ("2" +:+ newline +:+ "n1" +:+ newline +:+ "3" +:+ newline)) = Done EXIT_SUCCESS p' ∧
    p_closed p' = [s] ∧
    cs_out s = concat (message_frame <$>
      [(HEARTBEAT, 0, EmptyString); (QUERY_NODE, 1, query_json "n1"); (LIST_NODES, 2, EmptyString)])) ∧
  main (H := zero_junk) ["127.0.0.1"] (p ("2" +:+ newline)) = Crash Uninitialised.
Proof.
  intros at_ p. assert (∀ input, welcoming at_ (p input)) as Hw.
  { intros input. split_and!; [by split|done..|constructor]. }
  split.
  - destruct (demo_runs_script (H := zero_junk) ["127.0.0.1"]
      (p ("2" +:+ newline +:+ "n1" +:+ newline +:+ "3" +:+ newline)) at_ "127.0.0.1" [127; 0; 0; 1]
      9026 5000 (Some [(EOP_QUERY_NODE, query_json "n1"); (EOP_LIST_NODES, EmptyString)]))
      as (p' & s & Hrun & _ & Hcl & _ & Hout).
    + vm_compute. reflexivity.
    + apply Hw.
    + reflexivity.
    + lia.
    + exists p', s. split; [exact Hrun|]. split; [exact Hcl|exact Hout].
  - apply (demo_runs_script (H := zero_junk) ["127.0.0.1"] (p ("2" +:+ newline)) at_ "127.0.0.1"
      [127; 0; 0; 1] 9026 5000 None).
    + vm_compute. reflexivity.
    + apply Hw.
    + reflexivity.
    + lia.
Defined.

End DemoScript.
